(* ===== verification/_CoqProject ===== *)
-Q . S2P
Prelude.v
Words.v
Interfaces.v
Rlp.v
Types.v
Hex.v
Sanity.v
StateDB.v
StateOps.v
Scheduler.v
Consensus.v
Genesis.v
SystemContracts.v
Executor.v
Serial.v
RawDB.v
Blockchain.v
Stream.v
P2P.v
Shutdown.v
Node.v
Running.v
Rpc.v
Filters.v
Services.v
Lifecycle.v
Network.v
Client.v
Transactions.v
Staking.v
Supply.v
Isolation.v
Witnesses.v
NetWitnesses.v
RpcWitnesses.v
MeshWitnesses.v
StakeWitnesses.v
