(* ===== verification/Prelude.v ===== *)
(** * Zephyria: a verified model of the node

    Zephyria is a proof-of-stake chain: a Go node that executes Ethereum
    transactions in parallel on a Verkle-tree state. This library models the
    node's own packages and proves what makes them correct, or, where they are
    not, what exactly goes wrong.

    ** The program and the files

    - state/statedb.go keeps the account state over a Verkle tree, with
      overlays that record writes and are merged into their parent. StateDB.v
      models both kinds of state ([Base], [Overlay]) and every method;
      StateOps.v the client side: programs that call the state through the
      interface go-ethereum's EVM uses ([StateOp], [prog]), the abstract account
      state they see ([AState]) and the refinement between the two.
    - core/scheduler.go cuts a block into waves of transactions that share no
      account: Scheduler.v.
    - core/executor.go and vm/evm.go execute a block, one goroutine per
      transaction of a wave: Executor.v. A goroutine is a thread whose steps are
      its single state calls and the section under the merge lock; [ApplyBlock]
      relates a block to every result some interleaving can produce and
      [ApplyBlock_seq] is the sequential reference. Serial.v compares the two.
    - core/system_contracts.go holds the native staking and reward contracts:
      SystemContracts.v, as programs over the state interface, with the
      registry of validators as an invariant of the abstract state.
    - consensus/zelius.go is the consensus engine: Consensus.v (the engine
      state, sealing, verification, leader election, membership, slashing, reload of the
      validators from the state) with its step relation [engine_step].
    - core/genesis.go fixes the network parameters and the genesis block: Genesis.v.
    - core/rawdb/accessors_chain.go and core/blockchain.go store the chain:
      RawDB.v (keys and accessors) and Blockchain.v (insertion, lookup,
      start-up, base fee), with [chain_step] for a chain over time. Blocks are stored as JSON, and
      go-ethereum's [Transaction.UnmarshalJSON] refuses some of what was written: Sanity.v has its checks
      ([readable_tx], [readable]).
    - p2p/message.go, p2p/peer.go and p2p/server.go talk to other nodes: P2P.v,
      on top of Stream.v, go-ethereum's streaming RLP decoder. Shutdown.v models the
      goroutines of the same server, with its lock and its shutdown.
    - node/node.go and node/config.go tie the parts together: Node.v, with
      [import_step] for a block from a peer, [mine_gap] for a block the node
      produces and [Start]. [processBatch] of the code uses the state lock twice and reads the parent
      in between without it, so the checks ([select_txs]), the read of the parent and the execution
      ([execute_batch]) of [mine_gap] may see the node at three different times; [mine_step] and [tick]
      are the round and the tick of the loop that nothing interrupts. Running.v has
      [node_step], everything that changes a running node, in any order, with the mining loop cut at its
      critical sections ([phase], [loop_step]). Lifecycle.v
      has the resources of the nodes of one process: the database lock, the ports, the
      IPC socket and the loops, from [New] over [Start] to [Stop] ([life_step]).
    - cmd/simulation/main.go runs four such nodes in one process: Network.v, with the
      program itself ([sim_start], [sim_send], [sim_monitor]) and a network of any number of
      nodes over time ([mesh_step]: blocks arrive late, twice, out of order or never;
      [sync_round]: the leader's block reaches everybody), which are models of the nodes' interaction and not
      of lines of code; their ticks run without interruption.
    - rpc/eth_api.go, rpc/eth_tx.go and rpc/types.go serve the chain over JSON-RPC:
      Rpc.v, one function per method. rpc/eth_filters.go is Filters.v;
      rpc/net_api.go, rpc/zelius_api.go and the console of cmd/zephyria/main.go are
      Services.v, which reaches the node and the server through the source's
      interfaces ([StakingBackend], [PeerManager]).
    - cmd/stake_sim, cmd/zwallet, cmd/verify_rpc, cmd/verify_deploy, cmd/metamask_sim and
      cmd/verify_ws are clients of that service: Client.v, each program as a sequence of
      calls through go-ethereum's ethclient to a node that changes while it runs.
    - Transactions.v models the transactions themselves, from the vendored core/types of
      go-ethereum: legacy transactions with their RLP, hash, EIP-155 signature and sender. It
      implements the classes [TxRlp], [Wallet] and [TxSigner] that the other files take a
      transaction's encoding and signing from, and proves their laws.
    - Staking.v, Supply.v and Isolation.v put the parts together: blocks of staking transactions as
      operations on a [Ledger] of validators, stakes and money, through the scheduler, the executor,
      the EVM, the native contract and the election of the next tick; the sum of all balances over a
      block of transfers; and the validator registry under blocks of other transactions too, whose
      goroutines interleave freely, for an EVM that behaves well on the answers its calls got.
    - types/block.go and types/receipt.go: Types.v, on top of Rlp.v, go-ethereum's
      RLP encoder. Hex.v models the hexadecimal and decimal helpers. Words.v has
      the machine words, byte strings and identifiers, Interfaces.v the packages
      the node calls, and this file what all others share.
    - Witnesses.v, NetWitnesses.v, RpcWitnesses.v, MeshWitnesses.v and StakeWitnesses.v apply the
      theorems at concrete inputs.

    A block travels through the parts as in the code: [tick] asks
    [SyncValidators] for the validators of the state and [GetLeader] for the
    leader; [mine_gap] (in one piece: [processBatch]) filters the pool, runs [ApplyBlock] (which calls
    [schedule], [ApplyMessage] and [ProcessSystemContracts] on overlays), seals the
    block with [Seal], hands it to the network, commits the state with [Commit] and
    stores the block with [AddBlock]. A peer reads it with [read_envelope],
    [handleMessage] hands it to [import_block], which calls [Verify],
    [ApplyBlock], [Commit] and [AddBlock] again. A transaction enters by
    [eth_SendRawTransaction] or a console command, both of which call [SubmitTx]; the
    loop's [receive] moves it to the pool, and the RPC queries read what [AddBlock] stored
    and the state [Commit] left.

    ** Conventions

    A w-bit integer is a [word w], [big.Int] is [Z], a nil pointer [None], a Go map
    a [gmap]. A Go error is the [Err] of a [result]. [None] as the result of an
    operation is a Go panic (in P2P.v also a call that never returns). Goroutines, map
    iteration orders and [select] choices are relations or explicit choice
    arguments. Code outside the node is a class: [Crypto] (Keccak-256 and secp256k1),
    [Verkle] (go-verkle's tree), [EVM] ([ApplyMessage]), [Codec] (encoding/json at the
    stored types), [TxSigner] and [Wallet] (signing in the node and in its clients), [TxRlp]
    (the transaction type's own RLP methods) and
    [Runtime] (the allocation limit), [TypedTx] (the content of typed transactions), with their documented behaviour as classes of
    laws ([CryptoLaws], [CanonicalSigs], [VerkleLaws], [CodecLaws]: what is decoded is what was encoded, and blocks of
    readable transactions, receipts and lookup entries are decoded; [CodecRefuses]: blocks with an unreadable legacy
    transaction are not; [PlainCalls]: the EVM on a call of an account without code; the laws [TxRlpLaws],
    [TypedTxLaws] and [WalletLaws] are proved by Transactions.v). Interfaces.Concrete
    and the witness files instantiate them by computable functions.

    ** What the theorems show

    - State: after any history, a commit written to the database and reloaded reads the last value written
      to each key, as the running state does but for empty values;
      merging an overlay is independent of map order; every client of the state
      interface sees an abstract state that specifies every method of it.
    - Scheduling and execution: the scheduler ends and its waves partition the
      block; when the transactions of a wave share nothing but the credits to the coinbase, every interleaving
      gives the receipts of the sequential execution and its state but for the coinbase's balance, which
      can indeed come out differently; receipts are complete and in order; a simulated
      call leaves the state alone.
    - Contracts and consensus: deposits and withdrawals keep the validator
      registry consistent and move exactly the stake; engines with the same
      validators agree on every leader whatever they did before; the leader is
      drawn by stake; sealed blocks verify exactly for the leader; the engine
      never runs out of validators.
    - Staking as a whole: a block of staking transactions has one result whatever the goroutines do;
      it acts on the ledger of validators, stakes and money as its successful transactions in block
      order, keeps the vault solvent, and the node that mined it elects the next leader among
      exactly the validators it leaves, if any. With other transactions in the blocks, which may then have
      several results, the registry still stays consistent under every interleaving.
    - Storage: stored blocks of readable transactions are found by hash, number and transaction, and the
      head survives a restart and never goes down; a head that is not readable stops the next start
      ([unreadable_head]); the base fee stays in its bounds as long as the gas used does;
      the block hash binds the header.
    - Network and node: messages survive encoding and decoding; a block request ends
      and is answered without gaps; the rate limit and the trust decision hold; a
      broadcast block can be imported to the same chain and state; a mined block
      is well formed even when blocks are imported while it is built.
    - The running node: from a fresh database, whatever readable blocks and transactions arrive in whatever
      order, also between the parts of a tick, the
      chain, the state, the engine and the channel stay consistent, and a node restarted on the database resumes at
      the head and the last written values; a state keeps its
      type through every execution; a validator whose peers stay silent is, without a registry,
      the leader after a bounded number of timeouts, and a registry whose only
      validator is absent stalls the node for good.
    - Several nodes: as long as all elect from the same validators, no two different blocks
      with one number are proposed or stored, whatever the network does; nodes in step stay in
      step when the leader's blocks arrive, and can always make the next round; the
      monitor of the simulation then reports success exactly above block 20. Slashing, which
      each node does for itself, forks the network for good.
    - The process: a stopped node keeps its RPC ports and its mining loops, so that it cannot be
      started again, and two nodes with one IPC path take the socket from each other.
    - Transactions: a legacy transaction signed for a chain is decoded to the same transaction everywhere, has the
      signer as its sender on that chain and is refused by every other one.
    - Clients: a transfer that is mined is confirmed exactly when it succeeds, and waited for forever
      otherwise, while the chain grows; a typed transaction is always refused; the wallet program crashes before it
      signs.
    - Services: an accepted transaction is decoded, checked and, if its nonce and the balance are right when a
      round checks them, mined and found with its receipt; a mined block is served by number, hash and tag; balance and nonce
      queries read the head state; a log query returns exactly the matching logs of the
      range; the ports of a configuration follow the flags; the console never brings the
      node down.
    - Defects, each proved from the code as it is: fee updates lost between
      goroutines, tips paid by the EVM and again with the block reward, zeroed balances that come back at the next commit, transactions of
      one sender reordered between waves, rewards paid for a block imported
      again, locks that are never released after a failed seal or a removed peer, a
      shutdown that waits for itself, log queries that answer for another block,
      messages lost in the decoder's buffer, an allocation a peer controls, an
      authentication that can be replayed, rewards any sender can trigger, a canonical
      mapping that stale blocks overwrite, one genesis hash for four networks, blocks that are stored and
      cannot be read.

    ** Fuel and bounds

    [schedule_loop] runs with the number of transactions as fuel: every pass takes at
    least one, so it always returns. [sync_loop] runs with one step more than the
    stored validator count; a count of 2^64 - 1 makes the Go loop endless, and the
    model then returns [None] for every fuel. [get_blocks] runs with one step more
    than the number of database keys, which [get_blocks_total] shows to be enough.
    [decodeSliceElems] has one step more than the bytes left; an element takes at
    least one byte. [collect_logs] runs for 2002 blocks, more than the widest range
    [eth_GetLogs] accepts. Liveness counts the node's timeouts: at most 1000 for each
    validator before it, the number after which the engine slashes one. The endless loops
    of the clients run for a number of polls; [transfer_outcome] says how many are enough.

    ** Not modelled

    The EVM (beyond [PlainCalls], which Staking.v and Supply.v use,
    and [avoids], what Isolation.v asks of it), secp256k1, Keccak, the Verkle commitment and encoding/json are
    parameters. Data races below the level of one state call are not modelled: a call is
    one step. The code cache is not part of the equivalence of states, and the
    state roots of equivalent states are not compared. Sockets and their I/O,
    signals and logging are not modelled. [Listen] has fixed ports only: port 0, for which the system
    picks a free one, is left out. Blob and set-code transactions count as unreadable. The block handed to the network, the commit and the
    insertion at the end of a mining round are one step, under the lock the code holds for all three.
    go-ethereum's JSON-RPC server, which
    decodes the arguments, and the transport of its client are libraries: methods start from
    decoded values, and a client sees the answer of a method or an error. [mesh_step] delivers whole
    blocks and runs whole ticks; how a message becomes a block is P2P.v, and what can happen inside a tick is
    Running.v. The blocks of [network_in_step]
    carry transactions that share an account, for which all interleavings agree.
    White space outside ASCII is not split
    by the model of the console's [strings.Fields]. *)

From Stdlib Require Export ZArith Lia.
From stdpp Require Export base tactics numbers option list gmap sorting countable strings.

#[global] Open Scope Z_scope.

(** ** Scope and notation *)

Declare Scope zephyria_scope.
Delimit Scope zephyria_scope with zeph.

(** Errors as values: Go's [(T, error)] results. *)
Inductive result (E A : Type) : Type :=
| Ok (a : A)
| Err (e : E).
Arguments Ok {E A} _.
Arguments Err {E A} _.

Definition rbind {E A B} (m : result E A) (k : A -> result E B) : result E B :=
  match m with Ok a => k a | Err e => Err e end.

Notation "'try' x <- m ; k" := (rbind m (fun x => k))
  (at level 60, x name, m at next level, right associativity) : zephyria_scope.

(** ** Tactics *)

(** [zmod] gives [lia] the defining equations of every [/] and [mod] of the goal. *)
Ltac zmod := Z.div_mod_to_equations; nia.

(** [bdestruct b] case-splits a boolean comparison into its proposition. *)
Ltac bdestruct b :=
  let H := fresh "Hb" in
  destruct b eqn:H;
  rewrite ?Z.ltb_lt, ?Z.ltb_ge, ?Z.leb_le, ?Z.leb_gt, ?Z.eqb_eq, ?Z.eqb_neq,
    ?bool_decide_eq_true, ?bool_decide_eq_false in H.

(** [zcase] evaluates every integer comparison of the goal that [lia] decides. *)
Ltac zcase :=
  repeat match goal with
  | |- context [?a <? ?b] =>
      first [ replace (a <? b) with true by (symmetry; apply Z.ltb_lt; lia)
            | replace (a <? b) with false by (symmetry; apply Z.ltb_ge; lia) ]
  | |- context [?a <=? ?b] =>
      first [ replace (a <=? b) with true by (symmetry; apply Z.leb_le; lia)
            | replace (a <=? b) with false by (symmetry; apply Z.leb_gt; lia) ]
  | |- context [?a =? ?b] =>
      first [ replace (a =? b) with true by (symmetry; apply Z.eqb_eq; lia)
            | replace (a =? b) with false by (symmetry; apply Z.eqb_neq; lia) ]
  end; cbv iota beta.

(** The lemmas that decide lookups and word arithmetic are collected here. *)
Create HintDb zeph.
#[export] Hint Constants Opaque : zeph.
Create Rewrite HintDb zeph_rw.

(** ** Lists *)

(** A list of choices, one per position. *)
Lemma list_choice {A B} (R : nat -> A -> B -> Prop) (l : list A) :
  (forall i x, l !! i = Some x -> exists y, R i x y) ->
  exists k, length k = length l /\ forall i x, l !! i = Some x -> exists y, k !! i = Some y /\ R i x y.
Proof.
  revert R. induction l as [|x l IH]; intros R H; [by exists []|].
  destruct (H 0%nat x eq_refl) as [y Hy]. destruct (IH (fun i => R (S i))) as (k & Hlen & Hk); [intros i; apply (H (S i))|].
  exists (y :: k). split; [by cbn; rewrite Hlen|]. intros [|i] z Hz; cbn in *; [|by apply Hk]. injection Hz as <-. eauto.
Qed.

(** Big-step sum of an integer-valued function over a list. *)
Definition sumZ {A} (f : A -> Z) (l : list A) : Z :=
  foldr (fun x acc => f x + acc) 0 l.

Section SumZ.
Context {A : Type} (f : A -> Z).

Lemma sumZ_app l1 l2 : sumZ f (l1 ++ l2) = sumZ f l1 + sumZ f l2.
Proof. induction l1 as [|x l1 IH]; simpl; [done|]. rewrite IH. lia. Qed.

Lemma sumZ_nonneg l : (forall x, x ∈ l -> 0 <= f x) -> 0 <= sumZ f l.
Proof.
  induction l as [|x l IH]; intros H; simpl; [lia|].
  pose proof (H x ltac:(set_solver)).
  pose proof (IH ltac:(set_solver)). lia.
Qed.

Lemma sumZ_elem_le l x :
  (forall y, y ∈ l -> 0 <= f y) -> x ∈ l -> f x <= sumZ f l.
Proof.
  induction l as [|y l IH]; intros H Hx; [set_solver|]. simpl.
  assert (0 <= f y /\ 0 <= sumZ f l) as [? ?].
  { split; [|apply sumZ_nonneg; intros]; apply H; set_solver. }
  apply elem_of_cons in Hx as [->|Hx]; [lia|].
  enough (f x <= sumZ f l) by lia. apply IH; [set_solver|done].
Qed.

Lemma sumZ_permutation l1 l2 : l1 ≡ₚ l2 -> sumZ f l1 = sumZ f l2.
Proof. induction 1; simpl; lia. Qed.
End SumZ.

Lemma sumZ_ext {A} (f g : A -> Z) l :
  (forall x, x ∈ l -> f x = g x) -> sumZ f l = sumZ g l.
Proof.
  induction l as [|x l IH]; intros H; simpl; [done|].
  rewrite (H x), IH; [done| |]; set_solver.
Qed.

Lemma sumZ_cons {A} (f : A -> Z) x l : sumZ f (x :: l) = f x + sumZ f l.
Proof. done. Qed.
Lemma sumZ_nil {A} (f : A -> Z) : sumZ f [] = 0.
Proof. done. Qed.
Arguments sumZ : simpl never.
#[export] Hint Rewrite @sumZ_cons @sumZ_nil : zeph_rw.

Lemma cons_eq_inv {A} (x y : A) l k : x :: l = y :: k -> x = y /\ l = k.
Proof. by intros [= -> ->]. Qed.
