(* ===== verification/Words.v ===== *)
(** * Words: the fixed-width integers, byte strings and 20/32-byte identifiers
    of the Go code.

    [word w] is a w-bit unsigned integer; [byte], [u64], [u256], [Address] and
    [Hash] are instances. [big.Int] is [Z]. The conversions follow
    go-ethereum's [common] package, holiman's [uint256] and [math/big]. *)

From Stdlib Require Import Logic.StrictProp.
From S2P Require Import Prelude.

(** ** Unsigned words *)

Definition inrange (w : N) (z : Z) : bool := (0 <=? z) && (z <? 2 ^ Z.of_N w).

(** The range proof lives in [SProp], so that two words with the same value
    are convertible and closed computations decide equality. *)
Definition sIs_true (b : bool) : SProp := if b then sUnit else sEmpty.

Record word (w : N) : Set := Word {
  uval : Z;
  uval_ok : sIs_true (inrange w uval)
}.
Arguments Word {w} _ _.
Arguments uval {w} _.

Lemma sIs_true_elim b : sIs_true b -> b = true.
Proof. destruct b; [done|]. intros []. Qed.

Lemma sIs_true_intro b : b = true -> sIs_true b.
Proof. intros ->. exact stt. Qed.

Lemma pow2_pos (w : N) : 0 < 2 ^ Z.of_N w.
Proof. apply Z.pow_pos_nonneg; lia. Qed.

Lemma inrange_mod w z : inrange w (z mod 2 ^ Z.of_N w) = true.
Proof.
  pose proof (Z.mod_pos_bound z _ (pow2_pos w)). unfold inrange.
  apply andb_true_iff; split; [apply Z.leb_le | apply Z.ltb_lt]; lia.
Qed.

(** Wrap-around conversion: the low [w] bits of [z]. *)
Definition wd {w : N} (z : Z) : word w :=
  Word (z mod 2 ^ Z.of_N w) (sIs_true_intro _ (inrange_mod w z)).

Section WordLemmas.
Context {w : N}.
Implicit Types x y : word w.

Lemma uval_range x : 0 <= uval x < 2 ^ Z.of_N w.
Proof.
  destruct x as [z Hz]. simpl. apply sIs_true_elim in Hz.
  unfold inrange in Hz. apply andb_true_iff in Hz as [H1 H2].
  apply Z.leb_le in H1. apply Z.ltb_lt in H2. lia.
Qed.

Lemma uval_inj x y : uval x = uval y -> x = y.
Proof. destruct x as [a Ha], y as [b Hb]. simpl. intros ->. reflexivity. Qed.

Lemma uval_wd z : uval (wd (w:=w) z) = z mod 2 ^ Z.of_N w.
Proof. reflexivity. Qed.

Lemma uval_wd_small z : 0 <= z < 2 ^ Z.of_N w -> uval (wd (w:=w) z) = z.
Proof. intros. rewrite uval_wd. by apply Z.mod_small. Qed.

Lemma wd_uval x : wd (uval x) = x.
Proof. apply uval_inj. apply uval_wd_small, uval_range. Qed.

#[global] Instance word_eq_dec : EqDecision (word w).
Proof.
  intros x y. destruct (decide (uval x = uval y)) as [E|E].
  - left. by apply uval_inj.
  - right. by intros ->.
Defined.

Lemma wd_eq_iff z1 z2 :
  wd (w:=w) z1 = wd z2 <-> z1 mod 2 ^ Z.of_N w = z2 mod 2 ^ Z.of_N w.
Proof.
  split; [|intros H; by apply uval_inj].
  intros H. apply (f_equal uval) in H. exact H.
Qed.

Lemma wd_eq_cong z1 z2 : z1 = z2 -> wd (w:=w) z1 = wd z2.
Proof. by intros ->. Qed.

#[global] Program Instance word_countable : Countable (word w) :=
  inj_countable uval (fun z => if inrange w z then Some (wd z) else None) _.
Next Obligation.
  intros x. pose proof (uval_range x). cbv beta.
  assert (inrange w (uval x) = true) as ->; [|by rewrite wd_uval]. apply andb_true_iff. split; [apply Z.leb_le|apply Z.ltb_lt]; lia.
Qed.

#[global] Instance word_inhabited : Inhabited (word w) := populate (wd 0).

(** Arithmetic wraps, comparisons are unsigned. *)
Definition wadd x y : word w := wd (uval x + uval y).
Definition wsub x y : word w := wd (uval x - uval y).
Definition wneg x : word w := wd (- uval x).

Lemma uval_wadd x y :
  uval x + uval y < 2 ^ Z.of_N w -> uval (wadd x y) = uval x + uval y.
Proof. intros. pose proof (uval_range x); pose proof (uval_range y). apply uval_wd_small. lia. Qed.

Lemma uval_wsub x y : uval y <= uval x -> uval (wsub x y) = uval x - uval y.
Proof. intros. pose proof (uval_range x); pose proof (uval_range y). apply uval_wd_small. lia. Qed.

(** [x + (-y)] is wrapping subtraction: how [SubBalance] subtracts. *)
Lemma wadd_wneg x y : wadd x (wneg y) = wsub x y.
Proof.
  apply wd_eq_iff. unfold wneg. rewrite uval_wd.
  rewrite Zplus_mod_idemp_r. reflexivity.
Qed.

Lemma wadd_cancel x y : wadd x y = x -> y = wd 0.
Proof.
  intros E. apply (f_equal uval) in E. apply uval_inj. revert E. unfold wadd. rewrite !uval_wd.
  pose proof (uval_range x). pose proof (uval_range y). pose proof (pow2_pos w).
  rewrite Z.mod_0_l by lia. destruct (Z_lt_le_dec (uval x + uval y) (2 ^ Z.of_N w)).
  - rewrite Z.mod_small by lia. lia.
  - replace (uval x + uval y) with ((uval x + uval y - 2 ^ Z.of_N w) + 1 * 2 ^ Z.of_N w) by lia.
    rewrite Z.mod_add, Z.mod_small by lia. lia.
Qed.
End WordLemmas.

Abbreviation byte := (word 8).
Abbreviation bytes := (list (word 8)).
Abbreviation u64 := (word 64).
Abbreviation u256 := (word 256).
Abbreviation Address := (word 160).
Abbreviation Hash := (word 256).

(** ** Big-endian byte strings *)

(** [be_val] is [big.Int.SetBytes]. *)
Definition be_val (b : bytes) : Z := fold_left (fun acc x => acc * 256 + uval x) b 0.

Fixpoint le_pad (n : nat) (z : Z) : bytes :=
  match n with
  | O => []
  | S n' => wd z :: le_pad n' (z / 256)
  end.

(** [be_pad n z] are the low [n] bytes of [z], most significant first. *)
Definition be_pad (n : nat) (z : Z) : bytes := reverse (le_pad n z).

(** Number of bytes of the minimal encoding of [|z|]. *)
Definition byte_len (z : Z) : nat :=
  if z =? 0 then O else Z.to_nat (Z.log2 (Z.abs z) / 8 + 1).

(** [big.Int.Bytes]: the minimal big-endian encoding of the absolute value. *)
Definition be_bytes (z : Z) : bytes := be_pad (byte_len z) (Z.abs z).

Section BigEndian.
Lemma fold_be_val l acc :
  fold_left (fun acc (x : byte) => acc * 256 + uval x) l acc
  = acc * 256 ^ Z.of_nat (length l) + be_val l.
Proof.
  revert acc. unfold be_val. induction l as [|x l IH]; intros acc.
  - simpl. lia.
  - cbn [fold_left length]. rewrite IH, (IH (0 * 256 + uval x)).
    rewrite Nat2Z.inj_succ, Z.pow_succ_r by lia. ring.
Qed.

Lemma be_val_app l1 l2 :
  be_val (l1 ++ l2) = be_val l1 * 256 ^ Z.of_nat (length l2) + be_val l2.
Proof. unfold be_val at 1. rewrite fold_left_app. apply fold_be_val. Qed.

Lemma be_val_singleton (x : byte) : be_val [x] = uval x.
Proof. reflexivity. Qed.

Lemma be_val_cons x l :
  be_val (x :: l) = uval x * 256 ^ Z.of_nat (length l) + be_val l.
Proof. change (x :: l) with ([x] ++ l). rewrite be_val_app. by rewrite be_val_singleton. Qed.

Lemma be_val_range l : 0 <= be_val l < 256 ^ Z.of_nat (length l).
Proof.
  induction l as [|x l IH]; [done|].
  rewrite be_val_cons. cbn [length]. rewrite Nat2Z.inj_succ, Z.pow_succ_r by lia.
  pose proof (uval_range x) as Hx. change (2 ^ Z.of_N 8) with 256 in Hx. nia.
Qed.

Lemma length_le_pad n z : length (le_pad n z) = n.
Proof. revert z. induction n as [|n IH]; intros z; simpl; auto. Qed.

Lemma length_be_pad n z : length (be_pad n z) = n.
Proof. unfold be_pad. by rewrite length_reverse, length_le_pad. Qed.

Lemma be_pad_S n z : be_pad (S n) z = be_pad n (z / 256) ++ [wd z].
Proof. unfold be_pad. cbn [le_pad]. by rewrite reverse_cons. Qed.

Lemma be_val_pad n z : be_val (be_pad n z) = z mod 256 ^ Z.of_nat n.
Proof.
  revert z. induction n as [|n IH]; intros z.
  - cbn. by rewrite Z.mod_1_r.
  - rewrite be_pad_S, be_val_app, IH, be_val_singleton, uval_wd.
    cbn [length]. change (2 ^ Z.of_N 8) with 256.
    change (256 ^ Z.of_nat 1) with 256.
    rewrite Nat2Z.inj_succ, Z.pow_succ_r by lia.
    rewrite (Z.rem_mul_r z 256); [lia|lia|]. apply Z.pow_pos_nonneg; lia.
Qed.

Lemma be_pad_val l : be_pad (length l) (be_val l) = l.
Proof.
  induction l as [|x l IH] using rev_ind; [done|].
  rewrite length_app, Nat.add_comm. cbn [length Nat.add].
  rewrite be_pad_S, be_val_app, be_val_singleton. cbn [length].
  change (256 ^ Z.of_nat 1) with 256.
  pose proof (uval_range x) as Hx. change (2 ^ Z.of_N 8) with 256 in Hx.
  rewrite Z.div_add_l, Z.div_small, Z.add_0_r, IH by lia.
  f_equal. f_equal. apply uval_inj. rewrite uval_wd. change (2 ^ Z.of_N 8) with 256.
  rewrite Z.add_comm, Z.mod_add by lia. by apply Z.mod_small.
Qed.

Lemma be_val_inj l1 l2 : length l1 = length l2 -> be_val l1 = be_val l2 -> l1 = l2.
Proof.
  intros Hl Hv. rewrite <- (be_pad_val l1), <- (be_pad_val l2). by rewrite Hl, Hv.
Qed.

Lemma byte_len_bound z : Z.abs z < 256 ^ Z.of_nat (byte_len z).
Proof.
  unfold byte_len. destruct (Z.eqb_spec z 0) as [->|Hz]; [done|].
  pose proof (Z.log2_nonneg (Z.abs z)).
  rewrite Z2Nat.id by zmod. change 256 with (2 ^ 8). rewrite <- Z.pow_mul_r by zmod.
  apply Z.log2_lt_pow2; [lia|]. zmod.
Qed.

Lemma byte_len_le z n : Z.abs z < 256 ^ Z.of_nat n -> (byte_len z <= n)%nat.
Proof.
  unfold byte_len. destruct (Z.eqb_spec z 0) as [->|Hz]; [lia|]. intros H.
  change 256 with (2 ^ 8) in H. rewrite <- Z.pow_mul_r in H by lia.
  apply Z.log2_lt_pow2 in H; [|lia].
  pose proof (Z.log2_nonneg (Z.abs z)). zmod.
Qed.

Lemma be_val_bytes z : be_val (be_bytes z) = Z.abs z.
Proof.
  unfold be_bytes. rewrite be_val_pad. apply Z.mod_small.
  pose proof (byte_len_bound z). lia.
Qed.

Lemma length_be_bytes z : length (be_bytes z) = byte_len z.
Proof. apply length_be_pad. Qed.

Lemma be_bytes_nil z : be_bytes z = [] <-> z = 0.
Proof.
  split; [|by intros ->].
  intros H. apply (f_equal be_val) in H. rewrite be_val_bytes in H.
  change (be_val []) with 0 in H. lia.
Qed.

Lemma length_be_bytes_le (z : Z) (n : nat) :
  Z.abs z < 256 ^ Z.of_nat n -> (length (be_bytes z) <= n)%nat.
Proof. rewrite length_be_bytes. apply byte_len_le. Qed.
End BigEndian.

(** ** go-ethereum's [common] conversions *)

(** The last [n] bytes of [b] ("cropped from the left"). *)
Definition crop_left (n : nat) (b : bytes) : bytes := drop (length b - n) b.

Definition BytesToHash (b : bytes) : Hash := wd (be_val (crop_left 32 b)).
Definition BytesToAddress (b : bytes) : Address := wd (be_val (crop_left 20 b)).
Definition hash_bytes (h : Hash) : bytes := be_pad 32 (uval h).
Definition addr_bytes (a : Address) : bytes := be_pad 20 (uval a).
Definition BigToHash (z : Z) : Hash := BytesToHash (be_bytes z).
Definition hash_big (h : Hash) : Z := be_val (hash_bytes h).

Definition zero_hash : Hash := wd 0.
Definition zero_addr : Address := wd 0.

(** ** holiman/uint256 and machine conversions *)

(** [uint256.FromBig]: the value truncated to 256 bits (two's complement for
    negative inputs) and the overflow flag. *)
Definition FromBig (b : Z) : u256 * bool :=
  let z : u256 := wd (Z.abs b) in
  (if b <? 0 then wneg z else z, 2 ^ 256 <=? Z.abs b).

(** [uint256.Int.SetBytes]: at most the last 32 bytes count. *)
Definition u256_set_bytes (b : bytes) : u256 := wd (be_val (crop_left 32 b)).
Definition u256_bytes (x : u256) : bytes := be_bytes (uval x).

(** [big.Int.Uint64]: the low 64 bits of the absolute value. *)
Definition big_uint64 (z : Z) : u64 := wd (Z.abs z).

(** Go's [int64(x)] on a [uint64]: two's complement reinterpretation. *)
Definition to_int64 (x : u64) : Z :=
  if uval x <? 2 ^ 63 then uval x else uval x - 2 ^ 64.

(** [[]byte(s)] *)
Definition bytes_of_string (s : string) : bytes :=
  (fun c => wd (Z.of_N (Ascii.N_of_ascii c))) <$> String.list_ascii_of_string s.

Section Conversions.
Lemma crop_left_small n b : (length b <= n)%nat -> crop_left n b = b.
Proof. intros. unfold crop_left. by replace (length b - n)%nat with O by lia. Qed.

Lemma length_hash_bytes h : length (hash_bytes h) = 32%nat.
Proof. apply length_be_pad. Qed.

Lemma length_addr_bytes a : length (addr_bytes a) = 20%nat.
Proof. apply length_be_pad. Qed.

Lemma be_val_hash_bytes h : be_val (hash_bytes h) = uval h.
Proof.
  unfold hash_bytes. rewrite be_val_pad. apply Z.mod_small.
  apply (uval_range h).
Qed.

Lemma be_val_addr_bytes a : be_val (addr_bytes a) = uval a.
Proof.
  unfold addr_bytes. rewrite be_val_pad. apply Z.mod_small.
  apply (uval_range a).
Qed.

Lemma hash_big_uval h : hash_big h = uval h.
Proof. apply be_val_hash_bytes. Qed.

Lemma hash_bytes_inj h1 h2 : hash_bytes h1 = hash_bytes h2 -> h1 = h2.
Proof. intros H. apply uval_inj. rewrite <- !be_val_hash_bytes. by rewrite H. Qed.

Lemma addr_bytes_inj a1 a2 : addr_bytes a1 = addr_bytes a2 -> a1 = a2.
Proof. intros H. apply uval_inj. rewrite <- !be_val_addr_bytes. by rewrite H. Qed.

Lemma BytesToHash_hash_bytes h : BytesToHash (hash_bytes h) = h.
Proof.
  unfold BytesToHash. rewrite crop_left_small by (rewrite length_hash_bytes; lia).
  rewrite be_val_hash_bytes. apply wd_uval.
Qed.

(** [BytesToHash(addr.Bytes())], the validator's storage key, keeps the value. *)
Lemma BytesToAddress_addr_bytes a : BytesToAddress (addr_bytes a) = a.
Proof.
  unfold BytesToAddress. rewrite crop_left_small by (rewrite length_addr_bytes; lia).
  rewrite be_val_addr_bytes. apply wd_uval.
Qed.

Lemma uval_BytesToHash_addr a : uval (BytesToHash (addr_bytes a)) = uval a.
Proof.
  unfold BytesToHash. rewrite crop_left_small by (rewrite length_addr_bytes; lia).
  rewrite be_val_addr_bytes. apply uval_wd_small.
  pose proof (uval_range a). change (Z.of_N 160) with 160 in *. change (Z.of_N 256) with 256. lia.
Qed.

Lemma BytesToHash_addr_inj a1 a2 :
  BytesToHash (addr_bytes a1) = BytesToHash (addr_bytes a2) -> a1 = a2.
Proof.
  intros H. apply uval_inj. rewrite <- !uval_BytesToHash_addr. by rewrite H.
Qed.

Lemma uval_BigToHash z : 0 <= z < 2 ^ 256 -> uval (BigToHash z) = z.
Proof.
  intros Hz. unfold BigToHash, BytesToHash.
  rewrite crop_left_small by (apply length_be_bytes_le; change (256 ^ Z.of_nat 32) with (2 ^ 256); lia).
  rewrite be_val_bytes, uval_wd_small; change (Z.of_N 256) with 256; lia.
Qed.

Lemma BigToHash_hash_big h : BigToHash (hash_big h) = h.
Proof.
  apply uval_inj. rewrite hash_big_uval. apply uval_BigToHash. apply (uval_range h).
Qed.

Lemma hash_big_BigToHash z : 0 <= z < 2 ^ 256 -> hash_big (BigToHash z) = z.
Proof. intros. rewrite hash_big_uval. by apply uval_BigToHash. Qed.

(** An address survives the trip through a 32-byte storage slot. *)
Lemma BytesToAddress_slot a :
  BytesToAddress (hash_bytes (BytesToHash (addr_bytes a))) = a.
Proof.
  apply uval_inj. unfold BytesToAddress, hash_bytes. rewrite uval_BytesToHash_addr.
  unfold crop_left. rewrite length_be_pad.
  change (32 - 20)%nat with 12%nat.
  pose proof (uval_range a) as Ha. change (Z.of_N 160) with 160 in Ha.
  assert (be_pad 32 (uval a) = be_pad 12 0 ++ be_pad 20 (uval a)) as ->.
  { apply be_val_inj; [by rewrite length_app, !length_be_pad|].
    rewrite be_val_app, !be_val_pad, Z.mod_0_l, Z.mul_0_l, Z.add_0_l by done.
    change (256 ^ Z.of_nat 32) with (2 ^ 256). change (256 ^ Z.of_nat 20) with (2 ^ 160).
    rewrite !Z.mod_small by lia. done. }
  rewrite drop_app_length' by by rewrite length_be_pad.
  rewrite be_val_pad, uval_wd. change (256 ^ Z.of_nat 20) with (2 ^ 160).
  change (Z.of_N 160) with 160. by do 2 rewrite (Z.mod_small (uval a)) by lia.
Qed.

Lemma u256_set_bytes_bytes x : u256_set_bytes (u256_bytes x) = x.
Proof.
  pose proof (uval_range x) as Hx. change (Z.of_N 256) with 256 in Hx.
  unfold u256_set_bytes, u256_bytes.
  rewrite crop_left_small by (apply length_be_bytes_le; change (256 ^ Z.of_nat 32) with (2 ^ 256); lia).
  rewrite be_val_bytes, Z.abs_eq by lia. apply wd_uval.
Qed.

Lemma length_u256_bytes x : (length (u256_bytes x) <= 32)%nat.
Proof.
  pose proof (uval_range x) as Hx. change (Z.of_N 256) with 256 in Hx.
  apply length_be_bytes_le. change (256 ^ Z.of_nat 32) with (2 ^ 256). lia.
Qed.

Lemma u256_bytes_nil x : u256_bytes x = [] <-> x = wd 0.
Proof.
  unfold u256_bytes. rewrite be_bytes_nil. split; [|by intros ->].
  intros. apply uval_inj. by rewrite H.
Qed.

Lemma FromBig_wd b : (FromBig b).1 = wd b.
Proof.
  unfold FromBig. cbn [fst]. bdestruct (b <? 0).
  - apply wd_eq_iff. rewrite uval_wd, Z.abs_neq by lia.
    rewrite <- (Z.opp_involutive b) at 2. set (m := 2 ^ Z.of_N 256).
    assert (0 < m) by (apply pow2_pos).
    rewrite <- (Z.sub_0_l (_ mod m)), <- (Z.sub_0_l (- b)).
    apply Zminus_mod_idemp_r.
  - by rewrite Z.abs_eq by lia.
Qed.
End Conversions.

#[export] Hint Rewrite @uval_wd @wd_uval length_hash_bytes length_addr_bytes
  hash_big_uval BytesToHash_hash_bytes BigToHash_hash_big u256_set_bytes_bytes : zeph_rw.

#[global] Opaque be_pad be_bytes be_val.
