(* ===== verification/Interfaces.v ===== *)
(** * Interfaces: what the node relies on from the packages it calls.

    - [Crypto]: go-ethereum's [crypto] package (Keccak-256, secp256k1
      signatures with public-key recovery, address derivation);
    - [Verkle]: go-verkle's in-memory tree ([New], [Insert], [Get], [Commit],
      [Hash]).

    Each interface is a class of operations and a class of laws; the laws are
    the documented behaviour the node relies on. The last section gives
    concrete instances, which show the laws can be met together and let the
    witnesses of the theorems compute. *)

From S2P Require Import Prelude Words.

(** ** go-ethereum/crypto *)

Class Crypto := {
  PrivateKey : Type;
  PublicKey : Type;
  (** [crypto.Keccak256Hash] *)
  keccak256 : bytes -> Hash;
  (** [crypto.Sign(digest, key)]; [None] is the error result. *)
  Sign : bytes -> PrivateKey -> option bytes;
  (** [crypto.SigToPub(digest, sig)]; [None] is the error result. *)
  SigToPub : bytes -> bytes -> option PublicKey;
  (** [key.PublicKey] *)
  pub_of : PrivateKey -> PublicKey;
  PubkeyToAddress : PublicKey -> Address
}.

(** A signature has the 65-byte [R || S || V] format, and recovery from the
    signed digest returns the signer's public key. *)
Class CryptoLaws (C : Crypto) := {
  sign_length : forall d k sig, Sign d k = Some sig -> length sig = 65%nat;
  sign_recover : forall d k sig, Sign d k = Some sig -> SigToPub d sig = Some (pub_of k)
}.

(** The order of the curve. *)
Definition secp256k1N : Z := 0xfffffffffffffffffffffffffffffffebaaedce6af48a03bbfd25e8cd0364141.

(** The parts of a signature. *)
Definition sig_r (sig : bytes) : Z := be_val (take 32 sig).
Definition sig_s (sig : bytes) : Z := be_val (take 32 (drop 32 sig)).
Definition sig_v (sig : bytes) : byte := default (wd 0) (sig !! 64%nat).

(** [Sign] produces canonical signatures: R and S in the range of the curve, S in its lower half,
    V 0 or 1. *)
Class CanonicalSigs (C : Crypto) := {
  sign_canonical : forall d k sig, Sign d k = Some sig ->
    1 <= sig_r sig < secp256k1N /\ 1 <= sig_s sig <= secp256k1N / 2 /\ uval (sig_v sig) <= 1
}.

(** ** go-verkle

    Keys are 32 bytes: a 31-byte stem and a suffix. [vget] identifies a
    missing value with the empty one: the callers only look at the length of
    the value. *)

Class Verkle := {
  vtree : Type;
  vnew : vtree;
  vinsert : vtree -> bytes -> bytes -> vtree;
  vget : vtree -> bytes -> bytes;
  (** [tree.Commit()] followed by [tree.Hash()] *)
  vroot : vtree -> Hash
}.

(** [leafToComms] of go-verkle's tree.go: the two field elements a leaf value
    contributes to the commitment. The value is copied left-aligned into a
    17-byte little-endian buffer whose last byte is the leaf marker; the
    remaining bytes form the second element. [None] is the error result. *)
Definition leafToComms (val : bytes) : option (Z * Z) :=
  let le := fun b : bytes => be_val (reverse b) in
  if bool_decide (length val = 0%nat) then Some (0, 0)
  else if (32 <? length val)%nat then None
  else Some (le (take 16 val ++ replicate (16 - length (take 16 val)) (wd 0) ++ [wd 1]),
             le (drop 16 val)).

(** The laws are read off tree.go: [InternalNode.Insert]/[Get] and, for an
    existing leaf, [updateMultipleLeaves], which skips values of length 0:
    inserting the empty value never erases the value stored under a key.
    A key's commitment depends on the inserted value through [leafToComms]. *)
Class VerkleLaws (V : Verkle) := {
  vget_new : forall k, vget vnew k = [];
  vget_insert_eq : forall t k v,
    length k = 32%nat -> v <> [] -> (length v <= 32)%nat -> vget (vinsert t k v) k = v;
  vget_insert_ne : forall t k k' v,
    length k = 32%nat -> length k' = 32%nat -> k <> k' -> vget (vinsert t k v) k' = vget t k';
  vget_insert_nil : forall t k, length k = 32%nat -> vget (vinsert t k []) k = vget t k;
  vroot_comms : forall t k v v',
    length k = 32%nat -> v <> [] -> v' <> [] -> leafToComms v = leafToComms v' ->
    vroot (vinsert t k v) = vroot (vinsert t k v')
}.

(** Inserting the empty value is never observable. *)
Lemma vget_insert_nil_any {V : Verkle} {VL : VerkleLaws V} t k k' :
  length k = 32%nat -> length k' = 32%nat -> vget (vinsert t k []) k' = vget t k'.
Proof.
  intros. destruct (decide (k = k')) as [<-|].
  - by apply vget_insert_nil.
  - by apply vget_insert_ne.
Qed.

(** ** Concrete instances *)

Module Concrete.

(** A tree that stores the values in a finite map, with a root that commits to
    nothing. *)
#[export] Instance flat_verkle : Verkle := {
  vtree := gmap bytes bytes;
  vnew := ∅;
  vinsert := fun t k v => if bool_decide (v = []) then t else <[k := v]> t;
  vget := fun t k => default [] (t !! k);
  vroot := fun _ => wd 0
}.

#[export] Instance flat_verkle_laws : VerkleLaws flat_verkle.
Proof.
  split; simpl.
  - intros k. by rewrite lookup_empty.
  - intros t k v _ Hv _. case_bool_decide; [done|]. by rewrite lookup_insert_eq.
  - intros t k k' v _ _ Hk. case_bool_decide; [done|]. by rewrite lookup_insert_ne.
  - done.
  - done.
Qed.

(** A toy hash: the 20-byte inputs (account stems) are left-aligned, the 52-byte inputs
    (storage slots) keep their first 20 and last 12 bytes and get their top bit flipped, so
    that account keys and storage keys of the sample data never meet; other inputs (headers,
    code) are reduced modulo a large number. *)
Definition toy_keccak (b : bytes) : Hash :=
  if (length b <=? 20)%nat then wd (be_val b * 256 ^ 12)
  else if (length b =? 52)%nat then wd (be_val (take 20 b ++ crop_left 12 b) + 2 ^ 255)
  else wd (be_val b mod (2 ^ 254 - 1)).

(** A toy signature scheme: the key is its address, R holds the first byte of the digest and
    the signer's address, S the rest of the digest. *)
Definition toy_sig (d a : bytes) : bytes :=
  ([wd 1] ++ take 1 d ++ be_pad 10 0 ++ a) ++ be_pad 32 (1 + be_val (drop 1 d)) ++ [wd 0].

#[export] Instance toy_crypto : Crypto := {
  PrivateKey := Address;
  PublicKey := Address;
  keccak256 := toy_keccak;
  Sign := fun d k => if bool_decide (length d = 32%nat) then Some (toy_sig d (addr_bytes k)) else None;
  SigToPub := fun d sig =>
    if bool_decide (length d = 32%nat /\ sig = toy_sig d (take 20 (drop 12 sig)))
    then Some (BytesToAddress (take 20 (drop 12 sig))) else None;
  pub_of := id;
  PubkeyToAddress := id
}.

Section Toy.
Context (d a : bytes).
Hypothesis (Hd : length d = 32%nat) (Ha : length a = 20%nat).

Lemma toy_r_length : length ([wd 1] ++ take 1 d ++ be_pad 10 0 ++ a) = 32%nat.
Proof. rewrite !length_app, length_take, length_be_pad, Ha, Hd. done. Qed.

Lemma toy_sig_addr : take 20 (drop 12 (toy_sig d a)) = a.
Proof.
  unfold toy_sig. rewrite !app_assoc.
  set (pre := ([wd 1] ++ take 1 d) ++ be_pad 10 0). rewrite <- (app_assoc pre), <- (app_assoc pre).
  rewrite drop_app_length' by (unfold pre; rewrite !length_app, length_take, length_be_pad, Hd; done).
  rewrite <- app_assoc. by rewrite take_app_length' by done.
Qed.

Lemma toy_s_val : be_val (be_pad 32 (1 + be_val (drop 1 d))) = 1 + be_val (drop 1 d) /\ 0 <= be_val (drop 1 d) < 2 ^ 248.
Proof using Hd.
  clear a Ha.
  pose proof (be_val_range (drop 1 d)) as Hr. rewrite length_drop, Hd in Hr. change (256 ^ Z.of_nat (32 - 1)) with (2 ^ 248) in Hr.
  rewrite be_val_pad. change (256 ^ Z.of_nat 32) with (2 ^ 256). rewrite Z.mod_small by lia. done.
Qed.

Lemma toy_sig_canonical : 1 <= sig_r (toy_sig d a) < secp256k1N /\ 1 <= sig_s (toy_sig d a) <= secp256k1N / 2 /\ uval (sig_v (toy_sig d a)) <= 1.
Proof.
  pose proof toy_r_length as Hl. pose proof toy_s_val as [Es Hs]. unfold sig_r, sig_s, sig_v, toy_sig.
  rewrite take_app_length', drop_app_length' by done. rewrite take_app_length' by (by rewrite length_be_pad). rewrite Es.
  rewrite lookup_app_r, Hl by lia. rewrite lookup_app_r, length_be_pad by (rewrite length_be_pad; lia).
  assert (2 ^ 248 * 2 < secp256k1N /\ 2 ^ 248 + 1 <= secp256k1N / 2) as [? ?] by (vm_compute; split; reflexivity || discriminate).
  split; [|split; [lia|vm_compute; discriminate]]. rewrite be_val_app, be_val_singleton, uval_wd_small by (cbn; lia).
  pose proof (be_val_range (take 1 d ++ be_pad 10 0 ++ a)) as Hr.
  assert (length (take 1 d ++ be_pad 10 0 ++ a) = 31%nat) as E31 by (rewrite !length_app, length_take, length_be_pad, Ha, Hd; done).
  rewrite E31 in *. change (256 ^ Z.of_nat 31) with (2 ^ 248) in *. lia.
Qed.
End Toy.

Lemma toy_sig_inj d d' a a' :
  length d = 32%nat -> length d' = 32%nat -> length a = 20%nat -> length a' = 20%nat -> toy_sig d a = toy_sig d' a' -> d = d'.
Proof.
  intros Hd Hd' Ha Ha' E. unfold toy_sig in E. apply app_inj_1 in E as [Er Es]; [|by rewrite !toy_r_length].
  apply app_inj_1 in Es as [Es _]; [|by rewrite !length_be_pad]. apply (f_equal be_val) in Es.
  rewrite (proj1 (toy_s_val d Hd)), (proj1 (toy_s_val d' Hd')) in Es.
  assert (drop 1 d = drop 1 d') as E1 by (apply be_val_inj; [rewrite !length_drop; lia|lia]).
  apply app_inj_1 in Er as [_ Er]; [|done]. apply app_inj_1 in Er as [Et _]; [|rewrite !length_take; lia].
  by rewrite <- (take_drop 1 d), <- (take_drop 1 d'), Et, E1.
Qed.

#[export] Instance toy_crypto_laws : CryptoLaws toy_crypto.
Proof.
  split; simpl; intros d k sig; case_bool_decide as Hd; intros [= <-].
  - unfold toy_sig. rewrite length_app, toy_r_length by (done || apply length_addr_bytes). by rewrite length_app, length_be_pad.
  - rewrite toy_sig_addr by (done || apply length_addr_bytes). rewrite bool_decide_eq_true_2 by done. by rewrite BytesToAddress_addr_bytes.
Qed.

#[export] Instance toy_crypto_canonical : CanonicalSigs toy_crypto.
Proof.
  split; simpl; intros d k sig; case_bool_decide as Hd; intros [= <-]. apply toy_sig_canonical; [done|apply length_addr_bytes].
Qed.

End Concrete.
