(* ===== verification/Rlp.v ===== *)
(** * Rlp: go-ethereum's RLP encoder as the node uses it, and its [Split].

    [puthead], [writeBytes], [writeUint64], [writeBigInt] and the list header
    follow rlp/encode.go and rlp/encbuffer.go; [readSize], [readKind] and
    [Split] follow rlp/raw.go. The section at the end proves that [Split]
    inverts the encoder, hence that encodings are uniquely decodable. *)

From S2P Require Import Prelude Words.

(** ** Encoding *)

Definition zlen (b : bytes) : Z := Z.of_nat (length b).

(** rlp/encode.go [puthead] (and [encodeStringHeader], its string case). *)
Definition puthead (smalltag largetag size : Z) : bytes :=
  if size <? 56 then [wd (smalltag + size)]
  else wd (largetag + Z.of_nat (byte_len size)) :: be_bytes size.

Definition fits_single (b : bytes) : bool :=
  match b with [x] => uval x <=? 127 | _ => false end.

(** rlp/encbuffer.go [writeBytes] *)
Definition writeBytes (b : bytes) : bytes :=
  if fits_single b then b else puthead 128 183 (zlen b) ++ b.

(** rlp/encbuffer.go [writeUint64] *)
Definition writeUint64 (i : Z) : bytes :=
  if i =? 0 then [wd 128]
  else if i <? 128 then [wd i]
  else wd (128 + Z.of_nat (byte_len i)) :: be_bytes i.

(** rlp/encode.go [writeBigIntPtr] with rlp/encbuffer.go [writeBigInt]: a nil
    pointer is the empty string, a negative number is an error. *)
Definition writeBigInt (z : option Z) : option bytes :=
  match z with
  | None => Some [wd 128]
  | Some z =>
      if z <? 0 then None
      else if z <? 2 ^ 64 then Some (writeUint64 z)
      else Some (puthead 128 183 (Z.of_nat (byte_len z)) ++ be_bytes z)
  end.

Definition writeList (payload : bytes) : bytes :=
  puthead 192 247 (zlen payload) ++ payload.

(** ** Splitting *)

Inductive Kind := KByte | KString | KList.

(** rlp/raw.go [readSize] *)
Definition readSize (b : bytes) (slen : nat) : option Z :=
  if (length b <? slen)%nat then None
  else
    let s := be_val (take slen b) in
    match b with
    | [] => None
    | b0 :: _ => if (s <? 56) || (uval b0 =? 0) then None else Some s
    end.

(** rlp/raw.go [readKind]: kind, tag size and content size. *)
Definition readKind (buf : bytes) : option (Kind * Z * Z) :=
  match buf with
  | [] => None
  | b0 :: rest =>
      let b := uval b0 in
      let r :=
        if b <? 128 then Some (KByte, 0, 1)
        else if b <? 184 then
          if (b - 128 =? 1) && (match rest with b1 :: _ => uval b1 <? 128 | [] => false end)
          then None else Some (KString, 1, b - 128)
        else if b <? 192 then
          s ← readSize rest (Z.to_nat (b - 183)); Some (KString, b - 183 + 1, s)
        else if b <? 248 then Some (KList, 1, b - 192)
        else s ← readSize rest (Z.to_nat (b - 247)); Some (KList, b - 247 + 1, s) in
      '(k, ts, cs) ← r;
      if zlen buf - ts <? cs then None else Some (k, ts, cs)
  end.

(** rlp/raw.go [Split] *)
Definition Split (b : bytes) : option (Kind * bytes * bytes) :=
  '(k, ts, cs) ← readKind b;
  Some (k, take (Z.to_nat cs) (drop (Z.to_nat ts) b), drop (Z.to_nat (ts + cs)) b).

(** ** Unique decodability *)

Section Decodable.
Definition fits (b : bytes) : Prop := zlen b < 2 ^ 64.

Lemma zlen_app a b : zlen (a ++ b) = zlen a + zlen b.
Proof. unfold zlen. rewrite length_app. lia. Qed.

Lemma be_bytes_head z : z <> 0 -> exists x l, be_bytes z = x :: l /\ uval x <> 0.
Proof.
  intros Hz. destruct (be_bytes z) as [|x l] eqn:E.
  { by apply be_bytes_nil in E. }
  exists x, l. split; [done|]. intros Hx.
  pose proof (f_equal be_val E) as Hv. rewrite be_val_bytes, be_val_cons, Hx in Hv.
  pose proof (be_val_range l) as Hl.
  assert (byte_len z <= length l)%nat by (apply byte_len_le; lia).
  apply (f_equal length) in E. rewrite length_be_bytes in E. simpl in E. lia.
Qed.

Lemma byte_len_pos z : z <> 0 -> (1 <= byte_len z)%nat.
Proof.
  intros Hz. destruct (be_bytes_head z Hz) as (x & l & E & _).
  apply (f_equal length) in E. rewrite length_be_bytes in E. simpl in E. lia.
Qed.

Lemma readSize_be_bytes size s :
  56 <= size -> readSize (be_bytes size ++ s) (byte_len size) = Some size.
Proof.
  intros Hs. unfold readSize.
  rewrite length_app, length_be_bytes, take_app_length' by (by rewrite length_be_bytes).
  destruct (Nat.ltb_spec (byte_len size + length s) (byte_len size)); [lia|].
  rewrite be_val_bytes, Z.abs_eq by lia.
  destruct (be_bytes_head size) as (x & l & -> & Hx); [lia|]. simpl.
  destruct (Z.ltb_spec size 56); [lia|]. by destruct (Z.eqb_spec (uval x) 0).
Qed.

Lemma zlen_cons x b : zlen (x :: b) = 1 + zlen b.
Proof. unfold zlen. cbn [length]. lia. Qed.

Lemma zlen_nonneg b : 0 <= zlen b.
Proof. unfold zlen. lia. Qed.

Lemma zlen_be_bytes z : zlen (be_bytes z) = Z.of_nat (byte_len z).
Proof. unfold zlen. by rewrite length_be_bytes. Qed.

Lemma fits_byte_len b : fits b -> 56 <= zlen b -> (1 <= byte_len (zlen b) <= 8)%nat.
Proof.
  unfold fits. intros Hf Hb. split; [apply byte_len_pos; lia|].
  apply byte_len_le. change (256 ^ Z.of_nat 8) with (2 ^ 64). lia.
Qed.

Lemma canonical_check b s :
  fits_single b = false ->
  (zlen b =? 1) && (match b ++ s with b1 :: _ => uval b1 <? 128 | [] => false end) = false.
Proof.
  intros Hs. destruct (Z.eqb_spec (zlen b) 1) as [E|]; [|done].
  destruct b as [|x [|y b]]; unfold zlen in E; simpl in E; [lia| |lia].
  simpl in *. apply Z.leb_gt in Hs. apply Z.ltb_ge. lia.
Qed.

(** A header followed by its content is read back with the content's size. *)
Lemma readKind_string b s :
  fits b -> fits_single b = false ->
  readKind (puthead 128 183 (zlen b) ++ b ++ s)
  = Some (KString, zlen (puthead 128 183 (zlen b)), zlen b).
Proof.
  intros Hf Hs. pose proof (zlen_nonneg b). pose proof (zlen_nonneg s).
  unfold puthead. destruct (Z.ltb_spec (zlen b) 56) as [Hl|Hl]; unfold readKind; cbn [app].
  - rewrite uval_wd_small by (cbn; lia).
    replace (128 + zlen b - 128) with (zlen b) by lia. rewrite canonical_check by done.
    zcase. cbn [mbind option_bind]. rewrite zlen_cons, zlen_app. by zcase.
  - pose proof (fits_byte_len b Hf Hl) as Hn. rewrite uval_wd_small by (cbn; lia).
    replace (Z.to_nat (183 + Z.of_nat (byte_len (zlen b)) - 183)) with (byte_len (zlen b)) by lia.
    rewrite readSize_be_bytes by lia. zcase. cbn [mbind option_bind].
    rewrite !zlen_cons, !zlen_app, zlen_be_bytes. zcase. repeat first [done | lia | f_equal].
Qed.

Lemma readKind_list p s :
  fits p ->
  readKind (puthead 192 247 (zlen p) ++ p ++ s)
  = Some (KList, zlen (puthead 192 247 (zlen p)), zlen p).
Proof.
  intros Hf. pose proof (zlen_nonneg p). pose proof (zlen_nonneg s).
  unfold puthead. destruct (Z.ltb_spec (zlen p) 56) as [Hl|Hl]; unfold readKind; cbn [app].
  - rewrite uval_wd_small by (cbn; lia).
    replace (192 + zlen p - 192) with (zlen p) by lia.
    zcase. cbn [mbind option_bind]. rewrite zlen_cons, zlen_app. by zcase.
  - pose proof (fits_byte_len p Hf Hl) as Hn. rewrite uval_wd_small by (cbn; lia).
    replace (Z.to_nat (247 + Z.of_nat (byte_len (zlen p)) - 247)) with (byte_len (zlen p)) by lia.
    rewrite readSize_be_bytes by lia. zcase. cbn [mbind option_bind].
    rewrite !zlen_cons, !zlen_app, zlen_be_bytes. zcase. repeat first [done | lia | f_equal].
Qed.

Lemma Split_intro k h c s :
  readKind (h ++ c ++ s) = Some (k, zlen h, zlen c) ->
  Split (h ++ c ++ s) = Some (k, c, s).
Proof.
  intros Hr. unfold Split. rewrite Hr. cbn [mbind option_bind].
  replace (Z.to_nat (zlen h)) with (length h) by (unfold zlen; lia).
  replace (Z.to_nat (zlen c)) with (length c) by (unfold zlen; lia).
  replace (Z.to_nat (zlen h + zlen c)) with (length (h ++ c)) by (rewrite length_app; unfold zlen; lia).
  rewrite drop_app_length. rewrite take_app_length. rewrite app_assoc. by rewrite drop_app_length.
Qed.

(** [Split] undoes [writeBytes] and [writeList], whatever follows. *)
Lemma Split_writeBytes b s :
  fits b ->
  Split (writeBytes b ++ s) = Some (if fits_single b then KByte else KString, b, s).
Proof.
  intros Hf. unfold writeBytes. destruct (fits_single b) eqn:Hs.
  - apply (Split_intro _ [] b s). destruct b as [|x [|]]; try done. simpl in Hs.
    apply Z.leb_le in Hs. unfold readKind. cbn [app]. zcase. cbn [mbind option_bind].
    rewrite zlen_cons. pose proof (zlen_nonneg s). by zcase.
  - rewrite <- app_assoc. apply Split_intro. by apply readKind_string.
Qed.

Lemma Split_writeList p s : fits p -> Split (writeList p ++ s) = Some (KList, p, s).
Proof.
  intros Hf. unfold writeList. rewrite <- app_assoc.
  apply Split_intro. by apply readKind_list.
Qed.

Lemma writeBytes_app_inj a b s t :
  fits a -> fits b -> writeBytes a ++ s = writeBytes b ++ t -> a = b /\ s = t.
Proof.
  intros Ha Hb H. apply (f_equal Split) in H.
  rewrite !Split_writeBytes in H by done. by simplify_eq.
Qed.

Lemma writeList_inj p q : fits p -> fits q -> writeList p = writeList q -> p = q.
Proof.
  intros Hp Hq H. apply (f_equal (fun b => Split (b ++ []))) in H.
  rewrite !Split_writeList in H by done. by simplify_eq.
Qed.

(** Integers are encoded as their minimal big-endian byte string. *)
Lemma writeUint64_bytes z : 0 <= z < 256 ^ 55 -> writeUint64 z = writeBytes (be_bytes z).
Proof.
  intros Hz. unfold writeUint64.
  destruct (Z.eqb_spec z 0) as [->|Hz0]; [done|].
  assert (be_val (be_bytes z) = z) as Hv by (rewrite be_val_bytes; lia).
  pose proof (byte_len_le z 55 ltac:(lia)) as Hn. unfold writeBytes.
  destruct (Z.ltb_spec z 128) as [H|H].
  - pose proof (byte_len_le z 1 ltac:(lia)). pose proof (length_be_bytes z).
    destruct (be_bytes z) as [|x [|y l]] eqn:E; simpl in *; [|rewrite be_val_singleton in Hv|lia].
    { by apply be_bytes_nil in E. }
    subst z. zcase. f_equal. by rewrite wd_uval.
  - assert (fits_single (be_bytes z) = false) as ->.
    { destruct (be_bytes z) as [|x [|]]; simpl; [done| |done].
      rewrite be_val_singleton in Hv. apply Z.leb_gt. lia. }
    unfold puthead. rewrite zlen_be_bytes. zcase. done.
Qed.

Lemma writeBigInt_bytes z b : writeBigInt z = Some b -> b = writeBytes (be_bytes (default 0 z)).
Proof.
  unfold writeBigInt. destruct z as [z|]; simpl; [|by intros [= <-]].
  destruct (Z.ltb_spec z 0) as [|Hz]; [done|].
  destruct (Z.ltb_spec z (2 ^ 64)) as [H|H]; intros [= <-].
  - apply writeUint64_bytes. lia.
  - unfold writeBytes. rewrite zlen_be_bytes.
    assert (fits_single (be_bytes z) = false) as ->; [|done].
    pose proof (be_val_bytes z) as Hv. destruct (be_bytes z) as [|x [|]]; simpl; [done| |done].
    rewrite be_val_singleton in Hv. apply Z.leb_gt. lia.
Qed.

Lemma be_bytes_inj z1 z2 : 0 <= z1 -> 0 <= z2 -> be_bytes z1 = be_bytes z2 -> z1 = z2.
Proof. intros ? ? H. apply (f_equal be_val) in H. rewrite !be_val_bytes in H. lia. Qed.
End Decodable.

#[global] Opaque puthead writeBytes writeUint64 writeList.
