(* ===== verification/Types.v ===== *)
(** * Types: the chain's data (types/block.go, types/receipt.go) and the part of
    go-ethereum's transactions, messages and logs the node reads. *)

From S2P Require Import Prelude Words Interfaces Rlp.

(** ** types/block.go *)

(** [*big.Int] fields may be nil: [option Z]. *)
Record Header := mkHeader {
  ParentHash : Hash;
  Number : option Z;
  Time : u64;
  VerkleRoot : Hash;
  TxHash : Hash;
  Coinbase : Address;
  ExtraData : bytes;
  Difficulty : option Z;
  GasLimit : u64;
  GasUsed : u64;
  BaseFee : option Z
}.

(** [header.Number.Uint64()] *)
Definition number64 (h : Header) : u64 := big_uint64 (default 0 (Number h)).

Definition set_extra (h : Header) (x : bytes) : Header :=
  mkHeader (ParentHash h) (Number h) (Time h) (VerkleRoot h) (TxHash h) (Coinbase h)
    x (Difficulty h) (GasLimit h) (GasUsed h) (BaseFee h).
Definition set_root (h : Header) (r : Hash) : Header :=
  mkHeader (ParentHash h) (Number h) (Time h) r (TxHash h) (Coinbase h)
    (ExtraData h) (Difficulty h) (GasLimit h) (GasUsed h) (BaseFee h).
Definition set_gas_used (h : Header) (g : u64) : Header :=
  mkHeader (ParentHash h) (Number h) (Time h) (VerkleRoot h) (TxHash h) (Coinbase h)
    (ExtraData h) (Difficulty h) (GasLimit h) g (BaseFee h).

#[export] Instance Header_eq_dec : EqDecision Header.
Proof. solve_decision. Defined.

(** ** go-ethereum transactions

    [tx_hash], [tx_size] and [tx_sender] are the values go-ethereum computes
    from the signed transaction and caches in it ([tx.Hash()], [tx.Size()],
    [types.Sender(signer, tx)], [None] for an invalid signature); [tx_sig] are the
    signature values V, R and S. *)
Record Transaction := mkTx {
  tx_type : Z;
  tx_chainId : Z;
  tx_nonce : u64;
  tx_gasPrice : Z;
  tx_gasTipCap : Z;
  tx_gasFeeCap : Z;
  tx_gas : u64;
  tx_to : option Address;
  tx_value : Z;
  tx_data : bytes;
  tx_hash : Hash;
  tx_size : Z;
  tx_sender : option Address;
  tx_sig : Z * Z * Z
}.

#[export] Instance Transaction_eq_dec : EqDecision Transaction.
Proof. solve_decision. Defined.

Record Block := NewBlock {
  BHeader : Header;
  Transactions : list Transaction
}.

#[export] Instance Block_eq_dec : EqDecision Block.
Proof. solve_decision. Defined.

(** go-ethereum [types.Log] *)
Record Log := mkLog {
  log_address : Address;
  log_topics : list Hash;
  log_data : bytes;
  log_blockNumber : u64;
  log_txHash : Hash;
  log_txIndex : u64;
  log_blockHash : Hash;
  log_index : u64;
  log_removed : bool
}.

#[export] Instance Log_eq_dec : EqDecision Log.
Proof. solve_decision. Defined.

(** ** types/receipt.go *)
Record Receipt := mkReceipt {
  PostState : bytes;
  Status : u64;
  CumulativeGasUsed : u64;
  Bloom : bytes;
  Logs : list Log;
  RTxHash : Hash;
  ContractAddress : Address;
  RGasUsed : u64
}.

#[export] Instance Receipt_eq_dec : EqDecision Receipt.
Proof. solve_decision. Defined.

(** The zero value of the 256-byte [ethtypes.Bloom]. *)
Definition zero_bloom : bytes := replicate 256 (wd 0).

(** The composite literal [&Receipt{TxHash: h, Status: 0, GasUsed: 0}]. *)
Definition failed_receipt (h : Hash) : Receipt :=
  mkReceipt [] (wd 0) (wd 0) zero_bloom [] h zero_addr (wd 0).

Definition set_cumulative (r : Receipt) (c : u64) : Receipt :=
  mkReceipt (PostState r) (Status r) c (Bloom r) (Logs r) (RTxHash r) (ContractAddress r) (RGasUsed r).

(** ** go-ethereum [core.Message], the fields the node sets or reads *)
Record Message := mkMessage {
  msg_to : option Address;
  msg_from : Address;
  msg_nonce : u64;
  msg_value : Z;
  msg_gasLimit : u64;
  msg_gasPrice : Z;
  msg_gasFeeCap : option Z;
  msg_gasTipCap : option Z;
  msg_data : bytes
}.

(** core/state_transition.go [TransactionToMessage]: the effective gas price is
    [min(tip + baseFee, feeCap)] when the block has a base fee. *)
Definition TransactionToMessage (tx : Transaction) (baseFee : option Z) : option Message :=
  let price := match baseFee with
               | None => tx_gasPrice tx
               | Some bf => if tx_gasFeeCap tx <? tx_gasTipCap tx + bf then tx_gasFeeCap tx
                            else tx_gasTipCap tx + bf
               end in
  from ← tx_sender tx;
  Some (mkMessage (tx_to tx) from (tx_nonce tx) (tx_value tx) (tx_gas tx) price
          (Some (tx_gasFeeCap tx)) (Some (tx_gasTipCap tx)) (tx_data tx)).

(** ** Header hashing *)

(** rlp/encode.go [makeByteArrayWriter] (arrays longer than one byte). *)
Definition writeByteArray (b : bytes) : bytes := puthead 128 183 (zlen b) ++ b.

(** The struct writer of [Header]: the fields in order, a negative integer is
    an error. *)
Definition header_rlp (h : Header) : option bytes :=
  n ← writeBigInt (Number h);
  d ← writeBigInt (Difficulty h);
  b ← writeBigInt (BaseFee h);
  Some (writeList (
    writeByteArray (hash_bytes (ParentHash h)) ++ n ++ writeUint64 (uval (Time h)) ++
    writeByteArray (hash_bytes (VerkleRoot h)) ++ writeByteArray (hash_bytes (TxHash h)) ++
    writeByteArray (addr_bytes (Coinbase h)) ++ writeBytes (ExtraData h) ++ d ++
    writeUint64 (uval (GasLimit h)) ++ writeUint64 (uval (GasUsed h)) ++ b)).

Section Hashing.
Context {C : Crypto}.

(** [(h *Header) Hash()]: the encoding error is dropped, the hash is then that
    of the nil slice. *)
Definition HeaderHash (h : Header) : Hash := keccak256 (default [] (header_rlp h)).

(** [(b *Block) Hash()] *)
Definition BlockHash (b : Block) : Hash := HeaderHash (BHeader b).

(** crypto/crypto.go [CreateAddress]; [Keccak256(data)[12:]] *)
Definition CreateAddress (b : Address) (nonce : u64) : Address :=
  let data := writeList (writeByteArray (addr_bytes b) ++ writeUint64 (uval nonce)) in
  BytesToAddress (drop 12 (hash_bytes (keccak256 data))).
End Hashing.

(** ** The header encoding is injective *)

(** Integers that fit the EVM's words and an extra field below 4 GiB: what every
    header of the chain satisfies. *)
Definition header_ok (h : Header) : Prop :=
  0 <= default 0 (Number h) < 2 ^ 256 /\
  0 <= default 0 (Difficulty h) < 2 ^ 256 /\
  0 <= default 0 (BaseFee h) < 2 ^ 256 /\
  zlen (ExtraData h) < 2 ^ 32.

(** RLP cannot tell a nil [*big.Int] from zero: headers are compared up to that. *)
Definition norm_header (h : Header) : Header :=
  mkHeader (ParentHash h) (Some (default 0 (Number h))) (Time h) (VerkleRoot h) (TxHash h)
    (Coinbase h) (ExtraData h) (Some (default 0 (Difficulty h))) (GasLimit h) (GasUsed h)
    (Some (default 0 (BaseFee h))).

Section Injective.
Definition header_fields (h : Header) : list bytes :=
  [hash_bytes (ParentHash h); be_bytes (default 0 (Number h)); be_bytes (uval (Time h));
   hash_bytes (VerkleRoot h); hash_bytes (TxHash h); addr_bytes (Coinbase h); ExtraData h;
   be_bytes (default 0 (Difficulty h)); be_bytes (uval (GasLimit h)); be_bytes (uval (GasUsed h));
   be_bytes (default 0 (BaseFee h))].

Lemma writeByteArray_bytes b : (2 <= length b)%nat -> writeByteArray b = writeBytes b.
Proof.
  Transparent writeBytes.
  intros. unfold writeByteArray, writeBytes. destruct b as [|x [|y b]]; simpl in *; try lia. done.
  Opaque writeBytes.
Qed.

Lemma uint64_field (x : u64) : writeUint64 (uval x) = writeBytes (be_bytes (uval x)).
Proof. apply writeUint64_bytes. pose proof (uval_range x). change (Z.of_N 64) with 64 in *. lia. Qed.

Lemma header_rlp_fields h b :
  header_ok h -> header_rlp h = Some b ->
  b = writeList (concat (writeBytes <$> header_fields h)).
Proof.
  intros (Hn & Hd & Hb & _). unfold header_rlp.
  destruct (writeBigInt (Number h)) as [n|] eqn:En; [|done].
  destruct (writeBigInt (Difficulty h)) as [d|] eqn:Ed; [|done].
  destruct (writeBigInt (BaseFee h)) as [f|] eqn:Ef; [|done]. cbn [mbind option_bind].
  intros [= <-].
  apply writeBigInt_bytes in En, Ed, Ef. subst n d f.
  rewrite !uint64_field, !writeByteArray_bytes
    by (rewrite ?length_hash_bytes, ?length_addr_bytes; lia).
  f_equal. unfold header_fields. cbn [fmap list_fmap concat]. by rewrite app_nil_r.
Qed.

Lemma concat_writeBytes_inj l1 l2 :
  length l1 = length l2 -> Forall fits l1 -> Forall fits l2 ->
  concat (writeBytes <$> l1) = concat (writeBytes <$> l2) -> l1 = l2.
Proof.
  revert l2. induction l1 as [|a l1 IH]; intros [|b l2] Hl H1 H2 H; try done.
  inversion_clear H1. inversion_clear H2. cbn in H.
  apply writeBytes_app_inj in H as [-> H]; [|done..].
  f_equal. apply IH; auto.
Qed.

Lemma be_bytes_len_le z n : Z.abs z < 256 ^ Z.of_nat n -> zlen (be_bytes z) <= Z.of_nat n.
Proof. intros. unfold zlen. pose proof (length_be_bytes_le z n H). lia. Qed.

Lemma header_fields_len h :
  header_ok h -> Forall (fun b => zlen b < 2 ^ 32) (header_fields h).
Proof.
  intros (Hn & Hd & Hb & He). unfold header_fields.
  assert (forall x : u64, zlen (be_bytes (uval x)) < 2 ^ 32) as Hw.
  { intros x. pose proof (uval_range x) as Hx.
    pose proof (be_bytes_len_le (uval x) 8). change (256 ^ Z.of_nat 8) with (2 ^ Z.of_N 64) in *. lia. }
  assert (forall z, 0 <= z < 2 ^ 256 -> zlen (be_bytes z) < 2 ^ 32) as Hz.
  { intros z Hzr. pose proof (be_bytes_len_le z 32).
    change (256 ^ Z.of_nat 32) with (2 ^ 256) in *. lia. }
  repeat constructor; unfold zlen in *; rewrite ?length_hash_bytes, ?length_addr_bytes; auto; lia.
Qed.

(** The writer's header is at most nine bytes. *)
Lemma zlen_writeBytes_le b : fits b -> zlen (writeBytes b) <= zlen b + 9.
Proof.
  Transparent writeBytes puthead.
  intros Hf. unfold writeBytes. destruct (fits_single b); [lia|]. rewrite zlen_app. unfold puthead.
  destruct (Z.ltb_spec (zlen b) 56) as [|Hl]; [rewrite zlen_cons; change (zlen []) with 0; lia|].
  rewrite zlen_cons, zlen_be_bytes. pose proof (fits_byte_len b Hf Hl). lia.
  Opaque writeBytes puthead.
Qed.

Lemma concat_writeBytes_len l :
  Forall (fun b => zlen b < 2 ^ 32) l ->
  zlen (concat (writeBytes <$> l)) <= Z.of_nat (length l) * (2 ^ 32 + 9).
Proof.
  induction 1 as [|b l Hb Hl IH]; [done|]. rewrite fmap_cons. cbn [concat length].
  assert (zlen (writeBytes b) <= zlen b + 9) by (apply zlen_writeBytes_le; unfold fits; lia).
  rewrite zlen_app, Nat2Z.inj_succ. lia.
Qed.

Lemma header_payload_fits h : header_ok h -> fits (concat (writeBytes <$> header_fields h)).
Proof.
  intros Hh. unfold fits.
  pose proof (concat_writeBytes_len _ (header_fields_len h Hh)) as Hc. cbn [length header_fields] in Hc. lia.
Qed.

Lemma header_fields_inj h1 h2 :
  header_ok h1 -> header_ok h2 -> header_fields h1 = header_fields h2 ->
  norm_header h1 = norm_header h2.
Proof.
  intros (Hn1 & Hd1 & Hb1 & _) (Hn2 & Hd2 & Hb2 & _) H. unfold header_fields in H.
  apply cons_eq_inv in H as [Ep H]. apply cons_eq_inv in H as [En H].
  apply cons_eq_inv in H as [Et H]. apply cons_eq_inv in H as [Ev H].
  apply cons_eq_inv in H as [Ex H]. apply cons_eq_inv in H as [Ec H].
  apply cons_eq_inv in H as [Ee H]. apply cons_eq_inv in H as [Ed H].
  apply cons_eq_inv in H as [El H]. apply cons_eq_inv in H as [Eu H].
  apply cons_eq_inv in H as [Ef _].
  assert (forall x y : u64, be_bytes (uval x) = be_bytes (uval y) -> x = y) as Hw.
  { intros x y Hxy. apply uval_inj. pose proof (uval_range x); pose proof (uval_range y).
    apply be_bytes_inj; [lia|lia|done]. }
  apply hash_bytes_inj in Ep, Ev, Ex. apply addr_bytes_inj in Ec. apply Hw in Et, El, Eu.
  apply be_bytes_inj in En; [|lia..]. apply be_bytes_inj in Ed; [|lia..].
  apply be_bytes_inj in Ef; [|lia..]. unfold norm_header. congruence.
Qed.

(** Two well-formed headers with the same RLP encoding agree on every field,
    up to nil and zero integers. *)
Lemma header_rlp_inj h1 h2 b :
  header_ok h1 -> header_ok h2 -> header_rlp h1 = Some b -> header_rlp h2 = Some b ->
  norm_header h1 = norm_header h2.
Proof.
  intros H1 H2 E1 E2. apply header_rlp_fields in E1; [|done]. apply header_rlp_fields in E2; [|done].
  rewrite E1 in E2. apply writeList_inj in E2; [|by apply header_payload_fits..].
  apply concat_writeBytes_inj in E2; [by apply header_fields_inj|done|..];
    (eapply Forall_impl; [by apply header_fields_len|]; unfold fits; intros; cbn in *; lia).
Qed.

Lemma header_rlp_total h : header_ok h -> is_Some (header_rlp h).
Proof.
  intros (Hn & Hd & Hb & _). unfold header_rlp.
  assert (forall z, 0 <= default 0 z -> is_Some (writeBigInt z)) as Hs.
  { intros [z|]; simpl; intros; [|by eexists]. zcase. destruct (z <? 2 ^ 64); by eexists. }
  destruct (Hs (Number h)) as [n ->]; [lia|]. destruct (Hs (Difficulty h)) as [d ->]; [lia|].
  destruct (Hs (BaseFee h)) as [f ->]; [lia|]. by eexists.
Qed.

(** C31: The block hash binds the header. Two well-formed headers with the same hash agree
    on every field (up to nil and zero integers), unless the hash function collides on
    their two encodings. *)
Theorem header_hash_binds {C : Crypto} h1 h2 :
  header_ok h1 -> header_ok h2 ->
  (header_rlp h1 <> header_rlp h2 -> keccak256 (default [] (header_rlp h1)) <> keccak256 (default [] (header_rlp h2))) ->
  HeaderHash h1 = HeaderHash h2 -> norm_header h1 = norm_header h2.
Proof.
  intros H1 H2 Hcol E. destruct (header_rlp_total h1 H1) as [b Hb].
  apply (header_rlp_inj h1 h2 b H1 H2 Hb). rewrite <- Hb.
  destruct (decide (header_rlp h1 = header_rlp h2)) as [->|Hne]; [done|]. by destruct (Hcol Hne).
Qed.
End Injective.
