(* ===== verification/Hex.v ===== *)
(** * Hex: the textual conversions the node uses.

    go-ethereum's [common.FromHex]/[HexToAddress]/[HexToHash], math/big's
    [SetString], [strings.Split] and [hexutil]-style encoding, on byte strings. *)

From S2P Require Import Prelude Words.

(** ** Decoding *)

(** encoding/hex [fromHexChar] and math/big's digit values for bases up to 16:
    both cases of the letters are accepted. *)
Definition hex_digit (c : byte) : option Z :=
  let c := uval c in
  if (48 <=? c) && (c <=? 57) then Some (c - 48)
  else if (97 <=? c) && (c <=? 102) then Some (c - 87)
  else if (65 <=? c) && (c <=? 70) then Some (c - 55)
  else None.

(** [h, _ := hex.DecodeString(str)]: the bytes decoded before the first error. *)
Fixpoint Hex2Bytes (s : bytes) : bytes :=
  match s with
  | a :: b :: rest =>
      match hex_digit a, hex_digit b with
      | Some x, Some y => wd (16 * x + y) :: Hex2Bytes rest
      | _, _ => []
      end
  | _ => []
  end.

(** [common.FromHex]: an optional 0x or 0X prefix, odd lengths padded on the left. *)
Definition strip0x (s : bytes) : bytes :=
  match s with
  | a :: b :: rest =>
      if bool_decide (uval a = 48) && (bool_decide (uval b = 120) || bool_decide (uval b = 88))
      then rest else s
  | _ => s
  end.
Definition FromHex (s : bytes) : bytes :=
  let s := strip0x s in
  Hex2Bytes (if Nat.odd (length s) then wd 48 :: s else s).

Definition HexToAddress (s : bytes) : Address := BytesToAddress (FromHex s).
Definition HexToHash (s : bytes) : Hash := BytesToHash (FromHex s).

(** [new(big.Int).SetString(s, base)] for an explicit base of at most 16: an
    optional sign, then at least one digit, and nothing else. *)
Fixpoint scan_digits (base : Z) (acc : Z) (s : bytes) : option Z :=
  match s with
  | [] => Some acc
  | c :: rest =>
      match hex_digit c with
      | Some d => if d <? base then scan_digits base (acc * base + d) rest else None
      | None => None
      end
  end.
Definition SetString (base : Z) (s : bytes) : option Z :=
  let '(neg, digits) := match s with
                        | c :: rest => if bool_decide (uval c = 45) then (true, rest)
                                       else if bool_decide (uval c = 43) then (false, rest) else (false, s)
                        | [] => (false, [])
                        end in
  match digits with
  | [] => None
  | _ => (fun z => if neg : bool then - z else z) <$> scan_digits base 0 digits
  end.

(** [strings.Split(s, sep)] for a one-byte separator. *)
Fixpoint Split_bytes (sep : byte) (s : bytes) : list bytes :=
  match s with
  | [] => [[]]
  | c :: rest =>
      if bool_decide (c = sep) then [] :: Split_bytes sep rest
      else match Split_bytes sep rest with
           | p :: ps => (c :: p) :: ps
           | [] => [[c]]
           end
  end.

(** ** Encoding *)

Definition hex_char (d : Z) : byte := wd (if d <? 10 then 48 + d else 87 + d).

Definition hex_encode (b : bytes) : bytes :=
  b ≫= fun x => [hex_char (uval x / 16); hex_char (uval x mod 16)].

Section HexLemmas.
Lemma byte_range (x : byte) : 0 <= uval x < 256.
Proof. exact (uval_range x). Qed.

Lemma uval_hex_char d : 0 <= d < 16 -> uval (hex_char d) = if d <? 10 then 48 + d else 87 + d.
Proof.
  intros. unfold hex_char. apply uval_wd_small. change (2 ^ Z.of_N 8) with 256.
  destruct (Z.ltb_spec d 10); lia.
Qed.

Lemma hex_digit_char d : 0 <= d < 16 -> hex_digit (hex_char d) = Some d.
Proof.
  intros. unfold hex_digit. rewrite uval_hex_char by done.
  destruct (Z.ltb_spec d 10); zcase; cbn [andb]; f_equal; lia.
Qed.

Lemma Hex2Bytes_encode b : Hex2Bytes (hex_encode b) = b.
Proof.
  induction b as [|x b IH]; [done|]. unfold hex_encode in *. cbn [mbind list_bind app Hex2Bytes].
  pose proof (byte_range x).
  rewrite !hex_digit_char by (split; [apply Z.div_pos; lia|apply Z.div_lt_upper_bound; lia] || (apply Z.mod_pos_bound; lia)).
  rewrite IH. f_equal. rewrite <- Z.div_mod by lia. apply wd_uval.
Qed.

Lemma length_hex_encode b : length (hex_encode b) = (2 * length b)%nat.
Proof. induction b as [|x b IH]; [done|]. unfold hex_encode in *. cbn in *. rewrite IH. lia. Qed.

Lemma hex_char_not d c : 0 <= d < 16 -> uval c = 120 \/ uval c = 88 \/ uval c = 58 -> hex_char d <> c.
Proof. intros Hd Hc E. subst c. rewrite uval_hex_char in Hc by done. destruct (Z.ltb_spec d 10); lia. Qed.

(** Every character of an encoding is one of the sixteen digits. *)
Lemma hex_encode_chars b : Forall (fun c => exists d, 0 <= d < 16 /\ c = hex_char d) (hex_encode b).
Proof.
  induction b as [|x b IH]; [constructor|]. unfold hex_encode in *. cbn. pose proof (byte_range x).
  repeat constructor; [| |done].
  - exists (uval x / 16). split; [|done]. split; [apply Z.div_pos; lia|apply Z.div_lt_upper_bound; lia].
  - exists (uval x mod 16). split; [|done]. apply Z.mod_pos_bound; lia.
Qed.

Lemma FromHex_encode b : FromHex (hex_encode b) = b.
Proof.
  unfold FromHex.
  assert (strip0x (hex_encode b) = hex_encode b) as ->.
  { destruct b as [|x b]; [done|]. unfold hex_encode. cbn [mbind list_bind app strip0x].
    pose proof (byte_range x).
    assert (0 <= uval x mod 16 < 16) as Hm by (apply Z.mod_pos_bound; lia).
    rewrite !(uval_hex_char (uval x mod 16)) by done.
    rewrite (bool_decide_eq_false_2 (_ = 120)), (bool_decide_eq_false_2 (_ = 88))
      by (destruct (Z.ltb_spec (uval x mod 16) 10); lia).
    by rewrite andb_false_r. }
  rewrite length_hex_encode, Nat.odd_even. apply Hex2Bytes_encode.
Qed.

Lemma HexToAddress_encode a : HexToAddress (hex_encode (addr_bytes a)) = a.
Proof.
  unfold HexToAddress, BytesToAddress. rewrite FromHex_encode.
  rewrite crop_left_small by (rewrite length_addr_bytes; lia). rewrite be_val_addr_bytes. apply wd_uval.
Qed.

Lemma scan_hex_encode b acc :
  scan_digits 16 acc (hex_encode b) = Some (acc * 256 ^ Z.of_nat (length b) + be_val b).
Proof.
  revert acc. induction b as [|x b IH]; intros acc.
  { cbn. f_equal. change (be_val []) with 0. lia. }
  unfold hex_encode in *. cbn [mbind list_bind app scan_digits]. pose proof (byte_range x).
  assert (0 <= uval x / 16 < 16) by (split; [apply Z.div_pos; lia|apply Z.div_lt_upper_bound; lia]).
  assert (0 <= uval x mod 16 < 16) by (apply Z.mod_pos_bound; lia).
  rewrite !hex_digit_char by done. zcase. rewrite IH. f_equal.
  rewrite be_val_cons. cbn [length]. rewrite Nat2Z.inj_succ, Z.pow_succ_r by lia.
  pose proof (Z.div_mod (uval x) 16 ltac:(lia)). nia.
Qed.

Lemma SetString_hex_encode b : b <> [] -> SetString 16 (hex_encode b) = Some (be_val b).
Proof.
  intros Hb. pose proof (hex_encode_chars b) as HF. pose proof (scan_hex_encode b 0) as Hs.
  unfold SetString. destruct (hex_encode b) as [|c rest] eqn:E.
  { apply (f_equal length) in E. rewrite length_hex_encode in E. by destruct b. }
  inversion_clear HF as [|? ? (d & Hd & ->) _].
  rewrite uval_hex_char by done.
  rewrite (bool_decide_eq_false_2 (_ = 45)), (bool_decide_eq_false_2 (_ = 43))
    by (destruct (Z.ltb_spec d 10); lia).
  rewrite Hs. cbn. f_equal.
Qed.

Lemma Split_bytes_none sep s : sep ∉ s -> Split_bytes sep s = [s].
Proof.
  induction s as [|c s IH]; intros H; [done|]. apply not_elem_of_cons in H as [Hc Hs].
  cbn [Split_bytes]. rewrite bool_decide_eq_false_2 by congruence. by rewrite IH.
Qed.

Lemma Split_bytes_two sep s1 s2 :
  sep ∉ s1 -> sep ∉ s2 -> Split_bytes sep (s1 ++ sep :: s2) = [s1; s2].
Proof.
  intros H1 H2. induction s1 as [|c s IH]; cbn [app Split_bytes].
  - rewrite bool_decide_eq_true_2 by done. by rewrite Split_bytes_none.
  - apply not_elem_of_cons in H1 as [Hc Hs]. rewrite bool_decide_eq_false_2 by congruence.
    by rewrite IH.
Qed.

Lemma colon_not_hex b : wd 58 ∉ hex_encode b.
Proof.
  intros Hin. pose proof (hex_encode_chars b) as HF. rewrite Forall_forall in HF.
  destruct (HF _ Hin) as (d & Hd & E). symmetry in E. revert E. apply hex_char_not; [done|].
  right; right. reflexivity.
Qed.
End HexLemmas.
