(* ===== verification/Sanity.v ===== *)
(** * Sanity: the transactions that survive JSON (core/types/transaction.go,
    core/types/transaction_signing.go, core/types/transaction_marshalling.go and crypto/crypto.go
    of the vendored go-ethereum).

    Blocks are stored as JSON. [Transaction.MarshalJSON] writes whatever a transaction holds, but
    [Transaction.UnmarshalJSON] refuses numbers of more than 256 bits and signatures that fail
    [sanityCheckSignature]. A block that carries such a transaction can be written and not
    read back. *)

From S2P Require Import Prelude Words Interfaces Types Hex.

(** The magnitude of a [big.Int] that does not fit n bits. *)
Definition bitlen_above (z n : Z) : bool := 2 ^ n <=? Z.abs z.

Definition ValidateSignatureValues (v : byte) (r s : Z) (homestead : bool) : bool :=
  if (r <? 1) || (s <? 1) then false
  else if homestead && (secp256k1N / 2 <? s) then false
  else (r <? secp256k1N) && (s <? secp256k1N) && ((uval v =? 0) || (uval v =? 1)).

Definition isProtectedV (v : Z) : bool :=
  if bitlen_above v 8 then true
  else let v := uval (big_uint64 v) in negb (v =? 27) && negb (v =? 28) && negb (v =? 1) && negb (v =? 0).

Definition deriveChainId (v : Z) : Z :=
  if bitlen_above v 64 then Z.shiftr (v - 35) 1
  else
    let v := big_uint64 v in
    if (uval v =? 27) || (uval v =? 28) then 0 else uval (wsub v (wd 35)) / 2.

Definition sanityCheckSignature (v r s : Z) (maybeProtected : bool) : bool :=
  if isProtectedV v && negb maybeProtected then false
  else
    let plainV : byte :=
      if isProtectedV v then wd (uval (big_uint64 v) - 35 - 2 * uval (big_uint64 (deriveChainId v)))
      else if maybeProtected then wd (uval (big_uint64 v) - 27)
      else wd (uval (big_uint64 v)) in
    ValidateSignatureValues plainV r s false.

(** A number a [hexutil.Big] decodes. *)
Definition fits_big (z : Z) : bool := (0 <=? z) && (z <? 2 ^ 256).

(** The checks of [UnmarshalJSON] on a signature; an unsigned transaction passes. *)
Definition readable_sig (vrs : Z * Z * Z) (maybeProtected : bool) : bool :=
  let '(v, r, s) := vrs in
  fits_big v && fits_big r && fits_big s &&
  (bool_decide ((v, r, s) = (0, 0, 0)) || sanityCheckSignature v r s maybeProtected).

(** What [UnmarshalJSON] asks of what [MarshalJSON] wrote for a legacy, an access-list and a dynamic-fee
    transaction. Blob and set-code transactions have further conditions and are left out. *)
Definition readable_tx (tx : Transaction) : bool :=
  if tx_type tx =? 0 then fits_big (tx_gasPrice tx) && fits_big (tx_value tx) && readable_sig (tx_sig tx) true
  else if tx_type tx =? 1 then
    fits_big (tx_chainId tx) && fits_big (tx_gasPrice tx) && fits_big (tx_value tx) && readable_sig (tx_sig tx) false
  else if tx_type tx =? 2 then
    fits_big (tx_chainId tx) && fits_big (tx_gasTipCap tx) && fits_big (tx_gasFeeCap tx) && fits_big (tx_value tx) &&
    readable_sig (tx_sig tx) false
  else false.

Definition readable (b : Block) : Prop := Forall (fun tx => readable_tx tx = true) (Transactions b).

#[export] Instance readable_dec b : Decision (readable b).
Proof. unfold readable. apply _. Defined.

(** The header has no say in it. *)
Lemma readable_header h h' txs : readable (NewBlock h txs) -> readable (NewBlock h' txs).
Proof. done. Qed.

Lemma readable_empty h : readable (NewBlock h []).
Proof. constructor. Qed.

#[export] Hint Resolve readable_empty : zeph.
