(* ===== verification/StateDB.v ===== *)
(** * StateDB: state/statedb.go.

    [StateDB] is the EVM state over a Verkle tree. A base state owns the tree;
    an overlay ([NewOverlay]) buffers its writes in its [dirty] map and reads
    through to its parent. The methods are state-passing functions. The database handle the
    Go struct shares with the rest of the node is an argument [db] of the
    methods that read it ([New], [GetCode]), so that they always see its
    current contents. *)

From S2P Require Import Prelude Words Interfaces Rlp Types.

(** The contents of a leveldb database, and [db.Get]/[db.Put]. *)
Abbreviation DB := (gmap bytes bytes).

(** A [leveldb.Batch] is the list of its puts; [db.Write] replays it. *)
Abbreviation Batch := (list (bytes * bytes)).
Definition db_write (db : DB) (batch : Batch) : DB :=
  fold_left (fun d kv => <[kv.1 := kv.2]> d) batch db.

(** A function changed at one point. *)
Definition fset {A B : Type} `{EqDecision A} (f : A -> B) (a : A) (b : B) : A -> B :=
  fun x => if decide (a = x) then b else f x.

Section StateDB.
Context {C : Crypto} {V : Verkle}.

(** ** The struct *)

(** The maps every StateDB owns. *)
Record fields := mkFields {
  dirty : gmap bytes bytes;
  code : gmap Hash bytes;
  logs : gmap Hash (list Log);
  preimages : gmap Hash bytes;
  transientStorage : gmap Address (gmap Hash Hash)
}.

(** [parent == nil] is [Base], which owns the tree; an overlay's tree is nil. *)
Inductive StateDB :=
| Base (f : fields) (tree : vtree)
| Overlay (f : fields) (parent : StateDB).

Definition own (s : StateDB) : fields :=
  match s with Base f _ => f | Overlay f _ => f end.

Definition with_own (s : StateDB) (f : fields) : StateDB :=
  match s with Base _ t => Base f t | Overlay _ p => Overlay f p end.

Definition set_dirty (f : fields) (d : gmap bytes bytes) : fields :=
  mkFields d (code f) (logs f) (preimages f) (transientStorage f).
Definition set_code (f : fields) (c : gmap Hash bytes) : fields :=
  mkFields (dirty f) c (logs f) (preimages f) (transientStorage f).
Definition set_logs (f : fields) (l : gmap Hash (list Log)) : fields :=
  mkFields (dirty f) (code f) l (preimages f) (transientStorage f).
Definition set_preimages (f : fields) (m : gmap Hash bytes) : fields :=
  mkFields (dirty f) (code f) (logs f) m (transientStorage f).
Definition set_transient (f : fields) (t : gmap Address (gmap Hash Hash)) : fields :=
  mkFields (dirty f) (code f) (logs f) (preimages f) t.

Definition empty_fields : fields := mkFields ∅ ∅ ∅ ∅ ∅.

(** ** Low-level access *)

(** Dirty value first, then the parent, then the tree. *)
Fixpoint getVerkleValue (s : StateDB) (key : bytes) : bytes :=
  match s with
  | Base f t => match dirty f !! key with Some v => v | None => vget t key end
  | Overlay f p => match dirty f !! key with Some v => v | None => getVerkleValue p key end
  end.

Definition setVerkleValue (s : StateDB) (key value : bytes) : StateDB :=
  match s with
  | Base f t => Base (set_dirty f (<[key := value]> (dirty f))) (vinsert t key value)
  | Overlay f p => Overlay (set_dirty f (<[key := value]> (dirty f))) p
  end.

(** ** Construction, overlay, merge, commit *)

(** The database keys of leaf values ("v" + key) and code ("c" + hash). *)
Definition vprefix (k : bytes) : bytes := wd 118 :: k.
Definition cprefix (h : Hash) : bytes := wd 99 :: hash_bytes h.

(** [New]: the tree is rebuilt by inserting every "v" entry of the database;
    the root argument is ignored. *)
Definition rebuild_tree (db : DB) : vtree :=
  foldr (fun kv t =>
           match kv.1 with
           | p :: realKey => if bool_decide (p = wd 118) then vinsert t realKey kv.2 else t
           | [] => t
           end) vnew (map_to_list db).

Definition New (root : Hash) (db : option DB) : StateDB :=
  Base empty_fields (match db with Some db => rebuild_tree db | None => vnew end).

Definition NewOverlay (s : StateDB) : StateDB := Overlay empty_fields s.

(** [Merge]: the parent after the overlay's maps were flushed into it; a base
    state has no parent. The four loops range over Go maps: their iteration
    order is that of [map_to_list]. *)
Definition Merge (s : StateDB) : option StateDB :=
  match s with
  | Base _ _ => None
  | Overlay f p =>
      let p1 := foldr (fun kv p => setVerkleValue p kv.1 kv.2) p (map_to_list (dirty f)) in
      let g := own p1 in
      let g1 := set_code g (code f ∪ code g) in
      let g2 := set_logs g1 (union_with (fun l l' => Some (l' ++ l)) (logs f) (logs g1)) in
      let g3 := set_preimages g2 (preimages f ∪ preimages g2) in
      Some (with_own p1 g3)
  end.

Fixpoint IntermediateRoot (s : StateDB) : Hash :=
  match s with
  | Base _ t => vroot t
  | Overlay _ p => IntermediateRoot p
  end.

(** [Commit]: the batch with the dirty values and the cached code appended, the
    state with its dirty set cleared, and the root. *)
Definition Commit (s : StateDB) (batch : Batch) : StateDB * Batch * Hash :=
  let f := own s in
  let puts := (fun kv => (vprefix kv.1, kv.2)) <$> map_to_list (dirty f) in
  let cputs := (fun kv => (cprefix kv.1, kv.2)) <$> map_to_list (code f) in
  let s' := with_own s (set_dirty f ∅) in
  (s', batch ++ puts ++ cputs, IntermediateRoot s').

(** ** Keys *)

Definition accountStem (addr : Address) : bytes :=
  take 31 (hash_bytes (keccak256 (addr_bytes addr))).
Definition nonceKey (addr : Address) : bytes := accountStem addr ++ [wd 0].
Definition balanceKey (addr : Address) : bytes := accountStem addr ++ [wd 1].
Definition codeHashKey (addr : Address) : bytes := accountStem addr ++ [wd 2].
Definition storageKey (addr : Address) (key : Hash) : bytes :=
  hash_bytes (keccak256 (addr_bytes addr ++ hash_bytes key)).

(** ** Accounts *)

Definition GetBalance (s : StateDB) (addr : Address) : u256 :=
  let val := getVerkleValue s (balanceKey addr) in
  match val with [] => wd 0 | _ => u256_set_bytes val end.

Definition SetBalance (s : StateDB) (addr : Address) (amount : u256) : StateDB :=
  setVerkleValue s (balanceKey addr) (u256_bytes amount).

Definition addBalance (s : StateDB) (addr : Address) (amount : u256) : StateDB * u256 :=
  let newBal := wadd (GetBalance s addr) amount in
  (SetBalance s addr newBal, newBal).

Definition AddBalance (s : StateDB) (addr : Address) (amount : u256) : StateDB * u256 :=
  addBalance s addr amount.

Definition AddBalanceReward (s : StateDB) (addr : Address) (amount : u256) : StateDB :=
  (AddBalance s addr amount).1.

Definition SubBalance (s : StateDB) (addr : Address) (amount : u256) : StateDB * u256 :=
  addBalance s addr (wneg amount).

Definition GetNonce (s : StateDB) (addr : Address) : u64 :=
  let val := getVerkleValue s (nonceKey addr) in
  match val with [] => wd 0 | _ => big_uint64 (be_val val) end.

(** [big.NewInt(int64(nonce)).Bytes()] *)
Definition SetNonce (s : StateDB) (addr : Address) (nonce : u64) : StateDB :=
  setVerkleValue s (nonceKey addr) (be_bytes (to_int64 nonce)).

Definition GetCodeHash (s : StateDB) (addr : Address) : Hash :=
  let val := getVerkleValue s (codeHashKey addr) in
  match val with [] => zero_hash | _ => BytesToHash val end.

Definition EmptyCodeHash : Hash := keccak256 [].

(** [GetCode] looks in the state's own code cache, then in the database, whose
    answer it caches. *)
Definition GetCode (db : option DB) (s : StateDB) (addr : Address) : StateDB * bytes :=
  let hash := GetCodeHash s addr in
  if bool_decide (hash = EmptyCodeHash) then (s, [])
  else match code (own s) !! hash with
       | Some c => (s, c)
       | None =>
           match db with
           | Some d =>
               match d !! cprefix hash with
               | Some c => (with_own s (set_code (own s) (<[hash := c]> (code (own s)))), c)
               | None => (s, [])
               end
           | None => (s, [])
           end
       end.

Definition SetCode (s : StateDB) (addr : Address) (c : bytes) : StateDB * bytes :=
  let h := keccak256 c in
  let s1 := setVerkleValue s (codeHashKey addr) (hash_bytes h) in
  (with_own s1 (set_code (own s1) (<[h := c]> (code (own s1)))), c).

Definition GetCodeSize (db : option DB) (s : StateDB) (addr : Address) : StateDB * Z :=
  let '(s', c) := GetCode db s addr in (s', zlen c).

Definition GetLogs (s : StateDB) (txHash : Hash) : list Log := default [] (logs (own s) !! txHash).

(** ** Storage *)

Definition GetState (s : StateDB) (addr : Address) (key : Hash) : Hash :=
  let val := getVerkleValue s (storageKey addr key) in
  match val with [] => zero_hash | _ => BytesToHash val end.

Definition SetState (s : StateDB) (addr : Address) (key value : Hash) : StateDB * Hash :=
  let oldVal := GetState s addr key in
  (setVerkleValue s (storageKey addr key) (hash_bytes value), oldVal).

Definition GetStateAndCommittedState (s : StateDB) (addr : Address) (key : Hash) : Hash * Hash :=
  let val := GetState s addr key in (val, val).

(** ** The rest of the [vm.StateDB] interface *)

Definition SelfDestruct (s : StateDB) (addr : Address) : StateDB * u256 :=
  let bal := GetBalance s addr in (SetBalance s addr (wd 0), bal).

Definition SelfDestruct6780 (s : StateDB) (addr : Address) : StateDB * (u256 * bool) :=
  let '(s', bal) := SelfDestruct s addr in (s', (bal, true)).

(** Go evaluates [&&] from the left: the code is only loaded for an account
    with zero balance and nonce. *)
Definition Empty (db : option DB) (s : StateDB) (addr : Address) : StateDB * bool :=
  if bool_decide (GetBalance s addr = wd 0) && bool_decide (GetNonce s addr = wd 0)
  then let '(s', c) := GetCode db s addr in (s', bool_decide (c = []))
  else (s, false).

Definition GetTransientState (s : StateDB) (addr : Address) (key : Hash) : Hash :=
  match transientStorage (own s) !! addr with
  | Some m => default zero_hash (m !! key)
  | None => zero_hash
  end.

Definition SetTransientState (s : StateDB) (addr : Address) (key value : Hash) : StateDB :=
  let f := own s in
  let m := default ∅ (transientStorage f !! addr) in
  with_own s (set_transient f (<[addr := <[key := value]> m]> (transientStorage f))).

(** The methods below are stubs in the source: they return a constant or do
    nothing. *)
Definition CreateAccount (s : StateDB) (addr : Address) : StateDB := s.
Definition CreateContract (s : StateDB) (addr : Address) : StateDB := s.
Definition HasSelfDestructed (s : StateDB) (addr : Address) : bool := false.
Definition Exist (s : StateDB) (addr : Address) : bool := true.
Definition AddressInAccessList (s : StateDB) (addr : Address) : bool := true.
Definition SlotInAccessList (s : StateDB) (addr : Address) (slot : Hash) : bool * bool := (true, true).
Definition AddAddressToAccessList (s : StateDB) (addr : Address) : StateDB := s.
Definition AddSlotToAccessList (s : StateDB) (addr : Address) (slot : Hash) : StateDB := s.
Definition RevertToSnapshot (s : StateDB) (revid : Z) : StateDB := s.
Definition Snapshot (s : StateDB) : StateDB * Z := (s, 0).
Definition AddLog (s : StateDB) (l : Log) : StateDB := s.
Definition AddPreimage (s : StateDB) (h : Hash) (p : bytes) : StateDB := s.
Definition GetStorageRoot (s : StateDB) (addr : Address) : Hash := zero_hash.
Definition GetRefund (s : StateDB) : u64 := wd 0.
Definition AddRefund (s : StateDB) (gas : u64) : StateDB := s.
Definition SubRefund (s : StateDB) (gas : u64) : StateDB := s.
Definition Prepare (s : StateDB) : StateDB := s.
Definition Finalise (s : StateDB) (deleteEmptyObjects : bool) : StateDB := s.
Definition Prefetch (s : StateDB) (addrs : list Address) : StateDB := s.

End StateDB.

(** ** Keys: every state slot has a 32-byte key *)

Inductive slot :=
| SNonce (a : Address)
| SBalance (a : Address)
| SCodeHash (a : Address)
| SStorage (a : Address) (k : Hash).

#[export] Instance slot_eq_dec : EqDecision slot.
Proof. solve_decision. Defined.

Definition is_key (k : bytes) : Prop := length k = 32%nat.

Section Keys.
Context {C : Crypto}.

Definition slot_key (sl : slot) : bytes :=
  match sl with
  | SNonce a => nonceKey a
  | SBalance a => balanceKey a
  | SCodeHash a => codeHashKey a
  | SStorage a k => storageKey a k
  end.

(** The hash of the slots in [D] does not collide. (No hash is injective on
    all of them; the theorems name the slots they need.) *)
Definition collision_free (D : slot -> Prop) : Prop :=
  forall s1 s2, D s1 -> D s2 -> slot_key s1 = slot_key s2 -> s1 = s2.

Lemma length_accountStem a : length (accountStem a) = 31%nat.
Proof. unfold accountStem. rewrite length_take, length_hash_bytes. lia. Qed.

Lemma slot_key_is_key sl : is_key (slot_key sl).
Proof.
  destruct sl; unfold is_key; simpl; unfold nonceKey, balanceKey, codeHashKey, storageKey;
    rewrite ?length_app, ?length_accountStem, ?length_hash_bytes; done.
Qed.

(** The three slots of one account never collide. *)
Lemma account_slots_distinct a :
  nonceKey a <> balanceKey a /\ nonceKey a <> codeHashKey a /\ balanceKey a <> codeHashKey a.
Proof.
  unfold nonceKey, balanceKey, codeHashKey.
  split_and!; intros H; apply app_inv_head in H; apply cons_eq_inv in H as [H _];
    by apply (f_equal uval) in H.
Qed.

Lemma collision_free_mono (D D' : slot -> Prop) :
  (forall sl, D' sl -> D sl) -> collision_free D -> collision_free D'.
Proof. intros H Hc s1 s2 H1 H2. auto. Qed.

Lemma collision_free_ne D s1 s2 :
  collision_free D -> D s1 -> D s2 -> s1 <> s2 -> slot_key s1 <> slot_key s2.
Proof. intros Hc H1 H2 Hne E. by apply Hne, Hc. Qed.
End Keys.

#[export] Hint Resolve slot_key_is_key : zeph.

(** ** Reading back what was written *)

Section ReadWrite.
Context {C : Crypto} {V : Verkle} {VL : VerkleLaws V}.
Implicit Types s p : StateDB.

Lemma get_set_eq s k v : getVerkleValue (setVerkleValue s k v) k = v.
Proof. destruct s; simpl; by rewrite lookup_insert_eq. Qed.

Lemma get_set_ne s k k' v :
  is_key k -> is_key k' -> k <> k' ->
  getVerkleValue (setVerkleValue s k v) k' = getVerkleValue s k'.
Proof.
  intros Hk Hk' Hne. destruct s; simpl; rewrite lookup_insert_ne by done; [|done].
  by rewrite vget_insert_ne.
Qed.

Lemma get_set s k k' v :
  is_key k -> is_key k' ->
  getVerkleValue (setVerkleValue s k v) k'
  = if decide (k = k') then v else getVerkleValue s k'.
Proof.
  intros. case_decide as E; [subst; apply get_set_eq|by apply get_set_ne].
Qed.

Lemma get_with_own s f k :
  dirty f = dirty (own s) -> getVerkleValue (with_own s f) k = getVerkleValue s k.
Proof. intros E. destruct s; simpl in *; by rewrite E. Qed.

Lemma own_with_own s f : own (with_own s f) = f.
Proof. by destruct s. Qed.

Lemma own_set s k v :
  own (setVerkleValue s k v) = set_dirty (own s) (<[k := v]> (dirty (own s))).
Proof. by destruct s. Qed.

Lemma get_new_overlay s k : getVerkleValue (NewOverlay s) k = getVerkleValue s k.
Proof. simpl. by rewrite lookup_empty. Qed.

(** *** Round trips of the encodings *)

Lemma decode_balance x :
  match u256_bytes x with [] => wd 0 | _ => u256_set_bytes (u256_bytes x) end = x.
Proof.
  rewrite u256_set_bytes_bytes. destruct (u256_bytes x) eqn:E; [|done].
  symmetry. by apply u256_bytes_nil.
Qed.

Lemma decode_hash h :
  match hash_bytes h with [] => zero_hash | _ => BytesToHash (hash_bytes h) end = h.
Proof.
  rewrite BytesToHash_hash_bytes. destruct (hash_bytes h) eqn:E; [|done].
  apply (f_equal length) in E. by rewrite length_hash_bytes in E.
Qed.

(** The nonce is encoded through [int64]: above 2^63 its complement is read
    back. *)
Lemma decode_nonce (n : u64) :
  match be_bytes (to_int64 n) with
  | [] => wd 0 | _ => big_uint64 (be_val (be_bytes (to_int64 n))) end
  = if uval n <=? 2 ^ 63 then n else wd (2 ^ 64 - uval n).
Proof.
  rewrite be_val_bytes. unfold big_uint64, to_int64.
  pose proof (uval_range n) as Hn. change (Z.of_N 64) with 64 in Hn.
  destruct (be_bytes _) eqn:E.
  - apply be_bytes_nil in E. destruct (Z.ltb_spec (uval n) (2 ^ 63)); [|lia].
    zcase. apply uval_inj. by rewrite E.
  - clear E. rewrite Z.abs_idemp. destruct (Z.ltb_spec (uval n) (2 ^ 63)).
    + zcase. rewrite Z.abs_eq by lia. apply wd_uval.
    + rewrite Z.abs_neq by lia. destruct (Z.leb_spec (uval n) (2 ^ 63)).
      * replace (- (uval n - 2 ^ 64)) with (uval n) by lia. apply wd_uval.
      * f_equal. lia.
Qed.

Lemma GetBalance_set_eq s a x : GetBalance (SetBalance s a x) a = x.
Proof. unfold GetBalance, SetBalance. rewrite get_set_eq. apply decode_balance. Qed.

Lemma GetState_set_eq s a k h : GetState (SetState s a k h).1 a k = h.
Proof. unfold GetState at 1, SetState. simpl. rewrite get_set_eq. apply decode_hash. Qed.

(** Reads of a slot only depend on the value under its key. *)
Lemma GetBalance_ext s s' a :
  getVerkleValue s (balanceKey a) = getVerkleValue s' (balanceKey a) ->
  GetBalance s a = GetBalance s' a.
Proof. unfold GetBalance. by intros ->. Qed.
Lemma GetNonce_ext s s' a :
  getVerkleValue s (nonceKey a) = getVerkleValue s' (nonceKey a) -> GetNonce s a = GetNonce s' a.
Proof. unfold GetNonce. by intros ->. Qed.
Lemma GetCodeHash_ext s s' a :
  getVerkleValue s (codeHashKey a) = getVerkleValue s' (codeHashKey a) ->
  GetCodeHash s a = GetCodeHash s' a.
Proof. unfold GetCodeHash. by intros ->. Qed.
Lemma GetState_ext s s' a k :
  getVerkleValue s (storageKey a k) = getVerkleValue s' (storageKey a k) ->
  GetState s a k = GetState s' a k.
Proof. unfold GetState. by intros ->. Qed.
End ReadWrite.

(** ** Well-formed states

    Dirty keys are 32-byte keys, dirty values fit a leaf, and the tree of a base
    state holds every non-empty dirty value. *)

Section WellFormed.
Context {C : Crypto} {V : Verkle} {VL : VerkleLaws V}.
Implicit Types s p : StateDB.

Definition dirty_ok (d : gmap bytes bytes) : Prop :=
  map_Forall (fun k v => is_key k /\ (length v <= 32)%nat) d.

Fixpoint state_wf (s : StateDB) : Prop :=
  match s with
  | Base f t => dirty_ok (dirty f) /\
                map_Forall (fun k v => v <> [] -> vget t k = v) (dirty f)
  | Overlay f p => dirty_ok (dirty f) /\ state_wf p
  end.

Lemma dirty_ok_own s : state_wf s -> dirty_ok (dirty (own s)).
Proof. destruct s; simpl; tauto. Qed.

Lemma dirty_ok_insert d k v :
  is_key k -> (length v <= 32)%nat -> dirty_ok d -> dirty_ok (<[k := v]> d).
Proof. intros. by apply map_Forall_insert_2. Qed.

Lemma state_wf_set s k v :
  is_key k -> (length v <= 32)%nat -> state_wf s -> state_wf (setVerkleValue s k v).
Proof.
  intros Hk Hv. destruct s as [f t|f p]; simpl; intros [Hd Ht].
  - split; [by apply dirty_ok_insert|].
    intros k' v' Hl Hne. destruct (decide (k = k')) as [<-|Hkk].
    + rewrite lookup_insert_eq in Hl. simplify_eq. by apply vget_insert_eq.
    + rewrite lookup_insert_ne in Hl by done. pose proof (Hd _ _ Hl) as [Hk' _].
      rewrite vget_insert_ne by done. by apply (Ht _ _ Hl).
  - split; [by apply dirty_ok_insert|done].
Qed.

Lemma state_wf_with_own s f :
  dirty f = dirty (own s) -> state_wf s -> state_wf (with_own s f).
Proof. intros E. destruct s; simpl in *; by rewrite E. Qed.

Lemma state_wf_overlay s : state_wf s -> state_wf (NewOverlay s).
Proof. intros. simpl. split; [apply map_Forall_empty|done]. Qed.

Lemma state_wf_new r db : state_wf (New r db).
Proof. simpl. split; apply map_Forall_empty. Qed.

Lemma length_nonce_bytes n : (length (be_bytes (to_int64 n)) <= 32)%nat.
Proof.
  apply length_be_bytes_le. pose proof (uval_range n). change (Z.of_N 64) with 64 in *.
  unfold to_int64. change (256 ^ Z.of_nat 32) with (2 ^ 256). destruct (_ <? _); lia.
Qed.

Lemma length_hash_bytes_le h : (length (hash_bytes h) <= 32)%nat.
Proof. rewrite length_hash_bytes. lia. Qed.

(** *** Merge *)

Lemma get_fold_set p (l : list (bytes * bytes)) k :
  is_key k -> Forall (fun kv => is_key kv.1) l -> NoDup l.*1 ->
  getVerkleValue (foldr (fun kv p => setVerkleValue p kv.1 kv.2) p l) k
  = default (getVerkleValue p k) (list_to_map (M := gmap bytes bytes) l !! k).
Proof.
  intros Hk. induction l as [|[k' v'] l IH]; intros HF HN; cbn [foldr list_to_map]; [done|].
  inversion_clear HF. inversion_clear HN. rewrite get_set by done. case_decide as E.
  - subst. by rewrite lookup_insert_eq.
  - rewrite lookup_insert_ne by done. by apply IH.
Qed.

Lemma dirty_ok_keys d : dirty_ok d -> Forall (fun kv : bytes * bytes => is_key kv.1) (map_to_list d).
Proof.
  intros H. apply Forall_forall. intros [k v] Hin%elem_of_map_to_list. by destruct (H _ _ Hin).
Qed.

(** Flushing an overlay's writes into its parent, in any iteration order of the
    Go map, makes the parent read as the overlay did. *)
Lemma get_flush f p (l : list (bytes * bytes)) k :
  is_key k -> dirty_ok (dirty f) -> l ≡ₚ map_to_list (dirty f) ->
  getVerkleValue (foldr (fun kv p => setVerkleValue p kv.1 kv.2) p l) k
  = getVerkleValue (Overlay f p) k.
Proof.
  intros Hk Hd Hl. assert (NoDup l.*1) as HN by (rewrite Hl; apply NoDup_fst_map_to_list).
  rewrite get_fold_set; [|done|rewrite Hl; by apply dirty_ok_keys|done].
  rewrite (list_to_map_proper l (map_to_list (dirty f))) by done.
  rewrite list_to_map_to_list. simpl. by destruct (dirty f !! k).
Qed.

Lemma Merge_some s : (exists f p, s = Overlay f p) <-> is_Some (Merge s).
Proof.
  split; [by intros (f & p & ->)|]. destruct s; simpl; [by intros [? [=]]|eauto].
Qed.

Lemma Merge_get f p p' k :
  Merge (Overlay f p) = Some p' -> dirty_ok (dirty f) -> is_key k ->
  getVerkleValue p' k = getVerkleValue (Overlay f p) k.
Proof.
  intros [= <-] Hd Hk. rewrite get_with_own by done. by apply get_flush.
Qed.

Lemma state_wf_fold p l :
  Forall (fun kv : bytes * bytes => is_key kv.1 /\ (length kv.2 <= 32)%nat) l -> state_wf p ->
  state_wf (foldr (fun kv p => setVerkleValue p kv.1 kv.2) p l).
Proof.
  induction 1 as [|[k v] l [Hk Hv] _ IH]; intros Hp; [done|].
  cbn [foldr]. apply state_wf_set; auto.
Qed.

Lemma state_wf_merge s p' : state_wf s -> Merge s = Some p' -> state_wf p'.
Proof.
  destruct s as [|f p]; [done|]. intros [Hd Hp] [= <-].
  apply state_wf_with_own; [done|]. apply state_wf_fold; [|done].
  apply Forall_forall. intros [k v] Hin%elem_of_map_to_list. by apply (Hd _ _ Hin).
Qed.
End WellFormed.

(** ** Commit and restart *)

Section Persistence.
Context {C : Crypto} {V : Verkle} {VL : VerkleLaws V}.
Implicit Types s : StateDB.

Definition committed (s : StateDB) : StateDB := (Commit s []).1.1.
Definition commit_batch (s : StateDB) : Batch := (Commit s []).1.2.

(** What a base state reads after [Commit]: the tree. *)
Lemma get_committed f t k :
  state_wf (Base f t) ->
  getVerkleValue (committed (Base f t)) k
  = match dirty f !! k with
    | Some [] => vget t k
    | _ => getVerkleValue (Base f t) k
    end.
Proof.
  intros [_ Ht]. simpl. rewrite lookup_empty.
  destruct (dirty f !! k) as [[|x v]|] eqn:E; [done| |done]. by apply (Ht _ _ E).
Qed.

(** Leaf entries of the database: 32-byte keys, values that fit a leaf. *)
Definition db_ok (db : DB) : Prop :=
  map_Forall (fun k v => match k with
                         | p :: k' => p = wd 118 -> is_key k' /\ (length v <= 32)%nat
                         | [] => True
                         end) db.

Definition db_leaf (db : DB) (k : bytes) : bytes := default [] (db !! vprefix k).

Lemma rebuild_list (l : list (bytes * bytes)) k :
  is_key k -> NoDup l.*1 ->
  Forall (fun kv => match kv.1 with
                    | p :: k' => p = wd 118 -> is_key k' /\ (length kv.2 <= 32)%nat
                    | [] => True end) l ->
  vget (foldr (fun kv t => match kv.1 with
                | p :: rk => if bool_decide (p = wd 118) then vinsert t rk kv.2 else t
                | [] => t end) vnew l) k
  = default [] (list_to_map (M := gmap bytes bytes) l !! vprefix k).
Proof.
  intros Hk. induction l as [|[k' v'] l IH]; intros HN HF; cbn [foldr list_to_map].
  { rewrite lookup_empty. apply vget_new. }
  inversion_clear HN as [|? ? Hnin HN']. inversion_clear HF as [|? ? Hkv HF'].
  specialize (IH HN' HF'). cbn [fst snd] in *.
  destruct k' as [|x rk].
  { by rewrite lookup_insert_ne. }
  case_bool_decide as Hx; [subst x; destruct (Hkv eq_refl) as [Hrk Hlen]|].
  - destruct (decide (rk = k)) as [->|Hne].
    + rewrite lookup_insert_eq. destruct v' as [|y v'].
      * rewrite vget_insert_nil by done. rewrite IH.
        rewrite (not_elem_of_list_to_map_1 l) by done. done.
      * by rewrite vget_insert_eq.
    + rewrite lookup_insert_ne by (unfold vprefix; by intros [= ?]).
      by rewrite vget_insert_ne.
  - rewrite lookup_insert_ne; [done|]. unfold vprefix. intros E.
    by apply cons_eq_inv in E as [? _].
Qed.

Lemma vget_rebuild db k : is_key k -> db_ok db -> vget (rebuild_tree db) k = db_leaf db k.
Proof.
  intros Hk Hdb. unfold rebuild_tree. rewrite rebuild_list.
  - by rewrite list_to_map_to_list.
  - done.
  - apply NoDup_fst_map_to_list.
  - apply Forall_forall. intros [k' v] Hin%elem_of_map_to_list.
    pose proof (Hdb _ _ Hin) as H. by destruct k'.
Qed.

Lemma get_New r db k : is_key k -> db_ok db -> getVerkleValue (New r (Some db)) k = db_leaf db k.
Proof. intros. simpl. rewrite lookup_empty. by apply vget_rebuild. Qed.

Lemma db_write_app db b1 b2 : db_write db (b1 ++ b2) = db_write (db_write db b1) b2.
Proof. unfold db_write. apply fold_left_app. Qed.

Lemma db_write_cons db k v b : db_write db ((k, v) :: b) = db_write (<[k := v]> db) b.
Proof. done. Qed.

Lemma db_write_lookup_ne db b k : k ∉ b.*1 -> db_write db b !! k = db !! k.
Proof.
  revert db. induction b as [|[k' v'] b IH]; intros db Hk; [done|].
  rewrite fmap_cons, not_elem_of_cons in Hk. destruct Hk as [Hne Hk].
  rewrite db_write_cons, IH by done. by rewrite lookup_insert_ne.
Qed.

Lemma db_write_lookup_in db b k v : (k, v) ∈ b -> NoDup b.*1 -> db_write db b !! k = Some v.
Proof.
  revert db. induction b as [|[k' v'] b IH]; intros db Hin HN; [by apply elem_of_nil in Hin|].
  rewrite fmap_cons in HN. apply NoDup_cons in HN as [Hnin HN]. rewrite db_write_cons.
  apply elem_of_cons in Hin as [[= -> ->]|Hin].
  - rewrite db_write_lookup_ne by done. apply lookup_insert_eq.
  - by apply IH.
Qed.

Lemma vprefix_inj k k' : vprefix k = vprefix k' -> k = k'.
Proof. unfold vprefix. intros E. by apply cons_eq_inv in E as [_ ?]. Qed.

Lemma vprefix_cprefix k h : vprefix k <> cprefix h.
Proof. unfold vprefix, cprefix. intros E. apply cons_eq_inv in E as [E _]. by apply (f_equal uval) in E. Qed.

(** The database after [Commit] and [db.Write] of its batch. *)
Lemma db_leaf_commit db s k :
  db_leaf (db_write db (commit_batch s)) k
  = match dirty (own s) !! k with Some v => v | None => db_leaf db k end.
Proof.
  unfold db_leaf, commit_batch, Commit. cbn [fst snd]. rewrite app_nil_l, db_write_app.
  rewrite db_write_lookup_ne.
  2:{ rewrite <- list_fmap_compose. intros Hin. apply list_elem_of_fmap in Hin as (? & E & _).
      by apply vprefix_cprefix in E. }
  set (puts := _ <$> map_to_list (dirty (own s))).
  assert (puts.*1 = vprefix <$> (map_to_list (dirty (own s))).*1) as Hk.
  { unfold puts. by rewrite <- !list_fmap_compose. }
  destruct (dirty (own s) !! k) as [v|] eqn:E.
  - rewrite (db_write_lookup_in _ _ _ v); [done| |].
    + unfold puts. apply list_elem_of_fmap. exists (k, v). split; [done|]. by apply elem_of_map_to_list.
    + rewrite Hk. apply NoDup_fmap_2; [intros ? ?; apply vprefix_inj|]. apply NoDup_fst_map_to_list.
  - rewrite db_write_lookup_ne; [done|]. rewrite Hk. intros Hin.
    apply list_elem_of_fmap in Hin as (k' & Ek & Hin). apply vprefix_inj in Ek. subst k'.
    apply list_elem_of_fmap in Hin as ([k' v] & -> & Hin). apply elem_of_map_to_list in Hin. cbn in E. congruence.
Qed.

(** The state is in sync with the database when the clean part of the tree
    holds what the database holds. *)
Definition in_sync (s : StateDB) (db : DB) : Prop :=
  match s with
  | Base f t => forall k, is_key k -> dirty f !! k = None -> vget t k = db_leaf db k
  | Overlay _ _ => False
  end.

Lemma in_sync_New r db : db_ok db -> in_sync (New r (Some db)) db.
Proof. intros Hdb k Hk _. by apply vget_rebuild. Qed.

Lemma in_sync_set s db k v :
  is_key k -> in_sync s db -> in_sync (setVerkleValue s k v) db.
Proof.
  intros Hk. destruct s as [f t|]; [|done]. simpl. intros Hs k' Hk' Hd.
  destruct (decide (k = k')) as [<-|Hne]; [by rewrite lookup_insert_eq in Hd|].
  rewrite lookup_insert_ne in Hd by done. rewrite vget_insert_ne by done. by apply Hs.
Qed.

Lemma db_ok_write db b :
  db_ok db ->
  Forall (fun kv => match kv.1 with
                    | p :: k' => p = wd 118 -> is_key k' /\ (length kv.2 <= 32)%nat
                    | [] => True end) b ->
  db_ok (db_write db b).
Proof.
  intros Hdb HF. revert db Hdb. induction HF as [|[k v] b Hkv _ IH]; intros db Hdb; [done|].
  rewrite db_write_cons. apply IH. by apply map_Forall_insert_2.
Qed.

Lemma db_ok_commit db s : db_ok db -> state_wf s -> db_ok (db_write db (commit_batch s)).
Proof.
  intros Hdb Hs%dirty_ok_own. apply db_ok_write; [done|].
  unfold commit_batch, Commit. cbn [fst snd]. rewrite app_nil_l. apply Forall_app. split.
  - apply Forall_fmap, Forall_forall. intros [k v] Hin%elem_of_map_to_list. cbn.
    intros _. by apply (Hs _ _ Hin).
  - apply Forall_fmap, Forall_forall. intros [h c] _. cbn. intros E. by apply (f_equal uval) in E.
Qed.
(** ** A state and its database over time

    [lived s db last]: the state was opened on some database and then written to and committed any number of
    times, while the rest of the node used the other keys of the database; [last] holds the
    last value written under each key (at the start, that of the database). *)
Inductive lived : StateDB -> DB -> (bytes -> bytes) -> Prop :=
| lv_open r db : db_ok db -> lived (New r (Some db)) db (db_leaf db)
| lv_write s db last k v :
    lived s db last -> is_key k -> (length v <= 32)%nat -> lived (setVerkleValue s k v) db (fset last k v)
| lv_own s db last f : lived s db last -> dirty f = dirty (own s) -> lived (with_own s f) db last
| lv_commit s db last : lived s db last -> lived (committed s) (db_write db (commit_batch s)) last
| lv_store s db db' last :
    lived s db last -> db_ok db' -> (forall k, db' !! vprefix k = db !! vprefix k) -> lived s db' last.

(** What is then known of each key: a pending write is the last value; otherwise the database has it, and the
    tree as well unless it is empty. *)
Definition key_ok (f : fields) (t : vtree) (db : DB) (last : bytes -> bytes) (k : bytes) : Prop :=
  match dirty f !! k with
  | Some v => last k = v
  | None => db_leaf db k = last k /\ (last k <> [] -> vget t k = last k)
  end.

Definition base_keys_ok (s : StateDB) (db : DB) (last : bytes -> bytes) : Prop :=
  match s with
  | Base f t => forall k, is_key k -> key_ok f t db last k
  | Overlay _ _ => False
  end.

Lemma lived_ok s db last :
  lived s db last ->
  match s with Base _ _ => True | Overlay _ _ => False end /\ state_wf s /\ db_ok db /\ base_keys_ok s db last.
Proof.
  induction 1 as [r db Hdb|s db last k v _ (Hb & Hw & Hdb & Hk) Hkey Hlen|s db last f _ (Hb & Hw & Hdb & Hk) Ef|s db last _ (Hb & Hw & Hdb & Hk)|s db db' last _ (Hb & Hw & Hdb & Hk) Hdb' Heq].
  - split_and!; [done|apply state_wf_new|done|]. intros k Hk. unfold key_ok. cbn [dirty empty_fields]. rewrite lookup_empty.
    split; [done|]. intros _. by apply vget_rebuild.
  - destruct s as [f t|]; [|done]. split_and!; [done|by apply state_wf_set|done|]. intros k' Hk'. unfold key_ok, fset. cbn [dirty set_dirty].
    destruct (decide (k = k')) as [<-|Hne]; [by rewrite lookup_insert_eq|]. rewrite lookup_insert_ne by done.
    specialize (Hk k' Hk'). unfold key_ok in Hk. rewrite vget_insert_ne by done. exact Hk.
  - destruct s as [f0 t|]; [|done]. cbn in Ef. split_and!; [done|by apply state_wf_with_own|done|]. intros k Hkey. unfold key_ok. rewrite Ef.
    by apply Hk.
  - destruct s as [f t|]; [|done]. split_and!; [done|split; apply map_Forall_empty|by apply db_ok_commit|]. intros k Hkey. specialize (Hk k Hkey).
    unfold key_ok in *. cbn [dirty set_dirty own with_own committed Commit fst]. rewrite lookup_empty, db_leaf_commit. cbn [own].
    destruct (dirty f !! k) as [v|] eqn:E; [|done]. split; [done|]. intros Hne. rewrite Hk in Hne |- *. destruct Hw as [_ Ht]. destruct v; [done|]. by apply (Ht _ _ E).
  - destruct s as [f t|]; [|done]. split_and!; [done..|]. intros k Hkey. specialize (Hk k Hkey). unfold key_ok, db_leaf in *. by rewrite Heq.
Qed.

Lemma lived_fold p db last (l : list (bytes * bytes)) :
  Forall (fun kv => is_key kv.1 /\ (length kv.2 <= 32)%nat) l -> lived p db last ->
  exists last', lived (foldr (fun kv p => setVerkleValue p kv.1 kv.2) p l) db last'.
Proof.
  induction 1 as [|[k v] l [Hk Hv] _ IH]; intros Hp; [by exists last|]. destruct (IH Hp) as [last' Hl].
  cbn [foldr]. eexists. by apply lv_write.
Qed.

(** A merge is a sequence of writes. *)
Lemma lived_merge f p p' db last :
  dirty_ok (dirty f) -> lived p db last -> Merge (Overlay f p) = Some p' -> exists last', lived p' db last'.
Proof.
  intros Hd Hp [= <-]. destruct (lived_fold p db last (map_to_list (dirty f))) as [last' Hl]; [|done|].
  - apply Forall_forall. intros [k v] Hin%elem_of_map_to_list. by apply (Hd _ _ Hin).
  - exists last'. by apply lv_own.
Qed.
End Persistence.

(** ** Theorems *)

Section Theorems.
Context {C : Crypto} {V : Verkle} {VL : VerkleLaws V}.
Implicit Types s : StateDB.

(** C1: Restart recovers what was written. Over any number of writes, commits and changes of the rest of
    the database, starting from a StateDB opened on a database: committing once more, writing the
    batch and rebuilding a StateDB from the database ([New], whose root argument is ignored) reads,
    under every 32-byte key, the last value written to it, empty values included. The running
    state reads the same under every key whose last value is not empty. *)
Theorem restart_recovers s db last r k :
  lived s db last -> is_key k ->
  getVerkleValue (New r (Some (db_write db (commit_batch s)))) k = last k /\
  (last k <> [] -> getVerkleValue s k = last k /\ getVerkleValue (committed s) k = last k).
Proof.
  intros Hl Hk. destruct (lived_ok _ _ _ Hl) as (Hb & Hw & Hdb & Hkeys). destruct s as [f t|]; [|done]. split.
  - rewrite get_New; [|done|by apply db_ok_commit]. rewrite db_leaf_commit. cbn [own].
    specialize (Hkeys k Hk). unfold key_ok in Hkeys. destruct (dirty f !! k); [done|apply Hkeys].
  - intros Hne. rewrite get_committed by done. specialize (Hkeys k Hk). unfold key_ok in Hkeys; cbn.
    destruct (dirty f !! k) as [[|x v]|]; [by rewrite Hkeys in Hne|by rewrite Hkeys|]. destruct Hkeys as [_ Hg]. auto.
Qed.

(** Merging an overlay makes its parent read, under every 32-byte key, exactly as
    the overlay did, keeps the parent well formed, and the values do not depend on the
    iteration order of the overlay's dirty map. *)
Theorem merge_flushes_overlay f p :
  state_wf (Overlay f p) ->
  exists p', Merge (Overlay f p) = Some p' /\ state_wf p' /\
    forall k, is_key k ->
      getVerkleValue p' k = getVerkleValue (Overlay f p) k /\
      forall l, l ≡ₚ map_to_list (dirty f) ->
        getVerkleValue (foldr (fun kv p => setVerkleValue p kv.1 kv.2) p l) k
        = getVerkleValue p' k.
Proof.
  intros Hwf. destruct (proj1 (Merge_some (Overlay f p))) as [p' Hp]; [eauto|].
  pose proof (dirty_ok_own _ Hwf) as Hd.
  exists p'. split_and!; [done|by eapply state_wf_merge|]. intros k Hk.
  rewrite (Merge_get _ _ _ _ Hp) by done. split; [done|]. intros l Hl. by apply get_flush.
Qed.

(** C34: A balance set to zero comes back at the next commit. In memory the tree
    keeps the old leaf (its encoding of zero is the empty string, which [Insert] skips),
    so once [Commit] clears the dirty set the account again has the balance it had at
    the previous commit, while a node restarted from the same database reads zero. *)
Theorem commit_revives_zeroed_balance f t db r a :
  state_wf (Base f t) -> db_ok db ->
  let s1 := committed (Base f t) in
  let s2 := SetBalance s1 a (wd 0) in
  GetBalance s2 a = wd 0 /\
  GetBalance (committed s2) a = GetBalance s1 a /\
  GetBalance (New r (Some (db_write db (commit_batch s2)))) a = wd 0.
Proof.
  intros Hwf Hdb s1 s2.
  pose proof (slot_key_is_key (SBalance a)) as Hk. cbn [slot_key] in Hk.
  split_and!; [apply GetBalance_set_eq| |].
  - apply GetBalance_ext. unfold s2, s1, SetBalance. cbn. rewrite !lookup_empty.
    by apply vget_insert_nil.
  - assert (state_wf s2) as Hs2.
    { apply state_wf_set; [done|apply length_u256_bytes|].
      split; apply map_Forall_empty. }
    unfold GetBalance. rewrite get_New; [|done|by apply db_ok_commit].
    rewrite db_leaf_commit. unfold s2, SetBalance. rewrite own_set. cbn [dirty set_dirty].
    by rewrite lookup_insert_eq.
Qed.

(** [GetNonce] after [SetNonce] returns the nonce when it is at most 2^63;
    above that the [int64] conversion makes it read back as its two's complement. *)
Theorem nonce_roundtrip s a n :
  GetNonce (SetNonce s a n) a = (if uval n <=? 2 ^ 63 then n else wd (2 ^ 64 - uval n)).
Proof. unfold GetNonce, SetNonce. rewrite get_set_eq. apply decode_nonce. Qed.

(** Code deployed in a state is readable from that state, but an overlay created
    on top of it finds the code hash and no code until the code reaches the database:
    [GetCode] never consults the parent's code cache. *)
Theorem overlay_misses_parent_code db s a c :
  keccak256 c <> EmptyCodeHash -> db !! cprefix (keccak256 c) = None ->
  let s' := (SetCode s a c).1 in
  (GetCode (Some db) s' a).2 = c /\
  GetCodeHash (NewOverlay s') a = keccak256 c /\
  (GetCode (Some db) (NewOverlay s') a).2 = [].
Proof.
  intros Hc Hdb s'.
  assert (GetCodeHash s' a = keccak256 c) as Hh.
  { unfold GetCodeHash, s', SetCode. cbn [fst]. rewrite get_with_own by done.
    rewrite get_set_eq. apply decode_hash. }
  assert (GetCodeHash (NewOverlay s') a = keccak256 c) as Hh'.
  { rewrite <- Hh. apply GetCodeHash_ext, get_new_overlay. }
  split_and!; [|done|].
  - unfold GetCode. rewrite Hh, bool_decide_eq_false_2 by done.
    unfold s', SetCode. cbn [fst]. rewrite own_with_own. cbn [code set_code].
    by rewrite lookup_insert_eq.
  - unfold GetCode. rewrite Hh', bool_decide_eq_false_2 by done.
    cbn [own NewOverlay code empty_fields]. by rewrite lookup_empty, Hdb.
Qed.

(** The state root does not determine balances: a leaf is committed to
    left-aligned, so a balance of 1 (one byte) and a balance of 256 (the same byte
    followed by a zero byte) give the same root. *)
Theorem root_confuses_balances f t a :
  IntermediateRoot (SetBalance (Base f t) a (wd 1))
  = IntermediateRoot (SetBalance (Base f t) a (wd 256)).
Proof.
  unfold SetBalance. cbn [IntermediateRoot setVerkleValue].
  apply vroot_comms; [apply (slot_key_is_key (SBalance a))| | |vm_compute; reflexivity];
    by vm_compute.
Qed.
End Theorems.
