(* ===== verification/StateOps.v ===== *)
(** * StateOps: the [vm.StateDB] interface as a signature of operations.

    go-ethereum's EVM reaches the node's state only through the [vm.StateDB]
    interface (core/vm/interface.go), and so do the native system contracts.
    [StateOp] lists the methods of the interface, [exec_op] interprets each by
    the StateDB method of the same name, and a [prog] is a client: a
    deterministic computation that calls methods and finally returns a value
    (finite, as every EVM run is bounded by its gas). The EVM is a parameter
    of the model of this type; the system contracts are written in it. *)

From S2P Require Import Prelude Words Interfaces Rlp Types StateDB.

(** ** The interface *)

Inductive StateOp : Type -> Type :=
| OCreateAccount (a : Address) : StateOp unit
| OCreateContract (a : Address) : StateOp unit
| OSubBalance (a : Address) (x : u256) : StateOp u256
| OAddBalance (a : Address) (x : u256) : StateOp u256
| OGetBalance (a : Address) : StateOp u256
| OGetNonce (a : Address) : StateOp u64
| OSetNonce (a : Address) (n : u64) : StateOp unit
| OGetCodeHash (a : Address) : StateOp Hash
| OGetCode (a : Address) : StateOp bytes
| OSetCode (a : Address) (c : bytes) : StateOp bytes
| OGetCodeSize (a : Address) : StateOp Z
| OAddRefund (g : u64) : StateOp unit
| OSubRefund (g : u64) : StateOp unit
| OGetRefund : StateOp u64
| OGetStateAndCommittedState (a : Address) (k : Hash) : StateOp (Hash * Hash)
| OGetState (a : Address) (k : Hash) : StateOp Hash
| OSetState (a : Address) (k v : Hash) : StateOp Hash
| OGetStorageRoot (a : Address) : StateOp Hash
| OGetTransientState (a : Address) (k : Hash) : StateOp Hash
| OSetTransientState (a : Address) (k v : Hash) : StateOp unit
| OSelfDestruct (a : Address) : StateOp u256
| OHasSelfDestructed (a : Address) : StateOp bool
| OSelfDestruct6780 (a : Address) : StateOp (u256 * bool)
| OExist (a : Address) : StateOp bool
| OEmpty (a : Address) : StateOp bool
| OAddressInAccessList (a : Address) : StateOp bool
| OSlotInAccessList (a : Address) (k : Hash) : StateOp (bool * bool)
| OAddAddressToAccessList (a : Address) : StateOp unit
| OAddSlotToAccessList (a : Address) (k : Hash) : StateOp unit
| OPrepare : StateOp unit
| ORevertToSnapshot (id : Z) : StateOp unit
| OSnapshot : StateOp Z
| OAddLog (l : Log) : StateOp unit
| OAddPreimage (h : Hash) (p : bytes) : StateOp unit
| OFinalise (b : bool) : StateOp unit.

Section Exec.
Context {C : Crypto} {V : Verkle}.

Definition exec_op {X : Type} (db : option DB) (o : StateOp X) (s : StateDB) : StateDB * X :=
  match o in StateOp X return StateDB * X with
  | OCreateAccount a => (CreateAccount s a, tt)
  | OCreateContract a => (CreateContract s a, tt)
  | OSubBalance a x => SubBalance s a x
  | OAddBalance a x => AddBalance s a x
  | OGetBalance a => (s, GetBalance s a)
  | OGetNonce a => (s, GetNonce s a)
  | OSetNonce a n => (SetNonce s a n, tt)
  | OGetCodeHash a => (s, GetCodeHash s a)
  | OGetCode a => GetCode db s a
  | OSetCode a c => SetCode s a c
  | OGetCodeSize a => GetCodeSize db s a
  | OAddRefund g => (AddRefund s g, tt)
  | OSubRefund g => (SubRefund s g, tt)
  | OGetRefund => (s, GetRefund s)
  | OGetStateAndCommittedState a k => (s, GetStateAndCommittedState s a k)
  | OGetState a k => (s, GetState s a k)
  | OSetState a k v => SetState s a k v
  | OGetStorageRoot a => (s, GetStorageRoot s a)
  | OGetTransientState a k => (s, GetTransientState s a k)
  | OSetTransientState a k v => (SetTransientState s a k v, tt)
  | OSelfDestruct a => SelfDestruct s a
  | OHasSelfDestructed a => (s, HasSelfDestructed s a)
  | OSelfDestruct6780 a => SelfDestruct6780 s a
  | OExist a => (s, Exist s a)
  | OEmpty a => Empty db s a
  | OAddressInAccessList a => (s, AddressInAccessList s a)
  | OSlotInAccessList a k => (s, SlotInAccessList s a k)
  | OAddAddressToAccessList a => (AddAddressToAccessList s a, tt)
  | OAddSlotToAccessList a k => (AddSlotToAccessList s a k, tt)
  | OPrepare => (Prepare s, tt)
  | ORevertToSnapshot id => (RevertToSnapshot s id, tt)
  | OSnapshot => Snapshot s
  | OAddLog l => (AddLog s l, tt)
  | OAddPreimage h p => (AddPreimage s h p, tt)
  | OFinalise b => (Finalise s b, tt)
  end.
End Exec.

(** ** Clients of the interface *)

Inductive prog (R : Type) : Type :=
| Ret (r : R)
| Vis {X : Type} (o : StateOp X) (k : X -> prog R).
Arguments Ret {R} _.
Arguments Vis {R X} _ _.

#[export] Instance prog_ret : MRet prog := fun R r => Ret r.
#[export] Instance prog_bind : MBind prog :=
  fix bind A B f p := match p with Ret r => f r | Vis o k => Vis o (fun x => bind A B f (k x)) end.

Definition call {X : Type} (o : StateOp X) : prog X := Vis o Ret.

Section Run.
Context {C : Crypto} {V : Verkle}.

Fixpoint run {R : Type} (db : option DB) (p : prog R) (s : StateDB) : StateDB * R :=
  match p with
  | Ret r => (s, r)
  | Vis o k => let '(s', x) := exec_op db o s in run db (k x) s'
  end.

Lemma run_bind {A B} db (p : prog A) (f : A -> prog B) s :
  run db (p ≫= f) s = let '(s', a) := run db p s in run db (f a) s'.
Proof.
  revert s. induction p as [r|X o k IH]; intros s; [done|].
  cbn [mbind prog_bind run]. destruct (exec_op db o s) as [s' x]. apply IH.
Qed.

Lemma run_call {X B} db (o : StateOp X) (f : X -> prog B) s :
  run db (call o ≫= f) s = let '(s', x) := exec_op db o s in run db (f x) s'.
Proof. done. Qed.
End Run.

(** ** Footprints

    The state keys an operation may read or write, and those of a whole run. *)

Section Footprint.
Context {C : Crypto} {V : Verkle}.

Definition op_keys {X : Type} (o : StateOp X) : list bytes :=
  match o with
  | OSubBalance a _ | OAddBalance a _ | OGetBalance a | OSelfDestruct a | OSelfDestruct6780 a =>
      [balanceKey a]
  | OGetNonce a | OSetNonce a _ => [nonceKey a]
  | OGetCodeHash a | OGetCode a | OSetCode a _ | OGetCodeSize a => [codeHashKey a]
  | OGetStateAndCommittedState a k | OGetState a k | OSetState a k _ => [storageKey a k]
  | OEmpty a => [balanceKey a; nonceKey a; codeHashKey a]
  | _ => []
  end.

Fixpoint run_keys {R : Type} (db : option DB) (p : prog R) (s : StateDB) : list bytes :=
  match p with
  | Ret _ => []
  | Vis o k => let '(s', x) := exec_op db o s in op_keys o ++ run_keys db (k x) s'
  end.

(** Two states with the same own maps over parents that agree on the keys an
    operation uses. *)
Definition agree_on (ks : list bytes) (p p' : StateDB) : Prop :=
  forall k, k ∈ ks -> getVerkleValue p k = getVerkleValue p' k.

Lemma overlay_get_agree f p p' k :
  getVerkleValue p k = getVerkleValue p' k ->
  getVerkleValue (Overlay f p) k = getVerkleValue (Overlay f p') k.
Proof. intros H. simpl. by destruct (dirty f !! k). Qed.

Definition lift_parent {X : Type} (p : StateDB) (r : fields * X) : StateDB * X := (Overlay r.1 p, r.2).

Lemma GetCode_frame db f p p' a :
  getVerkleValue p (codeHashKey a) = getVerkleValue p' (codeHashKey a) ->
  exists r, GetCode db (Overlay f p) a = lift_parent p r /\
            GetCode db (Overlay f p') a = lift_parent p' r.
Proof.
  intros H. unfold GetCode.
  rewrite (GetCodeHash_ext (Overlay f p) (Overlay f p') a) by by apply overlay_get_agree.
  set (h := GetCodeHash _ _). cbn [own with_own].
  case_bool_decide; [by exists (f, [])|].
  destruct (code f !! h) as [c|]; [by exists (f, c)|].
  destruct db as [d|]; [|by exists (f, [])].
  destruct (d !! cprefix h) as [c|]; [|by exists (f, [])].
  by exists (set_code f (<[h := c]> (code f)), c).
Qed.

(** An operation on an overlay depends on the parent only through the keys of
    the operation, and leaves the parent alone. *)
Lemma exec_frame {X} db (o : StateOp X) f p p' :
  agree_on (op_keys o) p p' ->
  exists r, exec_op db o (Overlay f p) = lift_parent p r /\
            exec_op db o (Overlay f p') = lift_parent p' r.
Proof.
  intros H.
  assert (forall k, k ∈ op_keys o ->
            getVerkleValue (Overlay f p) k = getVerkleValue (Overlay f p') k) as Hg.
  { intros. apply overlay_get_agree. by apply H. }
  destruct o; cbn [op_keys] in Hg;
    try (by exists (f, tt)); try (by eexists (f, _));
    cbn [exec_op]; unfold SubBalance, AddBalance, addBalance, SelfDestruct6780, SelfDestruct,
      GetStateAndCommittedState, SetState, GetCodeSize, Empty;
    rewrite ?(GetBalance_ext (Overlay f p) (Overlay f p') a),
      ?(GetState_ext (Overlay f p) (Overlay f p') a k),
      ?(GetNonce_ext (Overlay f p) (Overlay f p') a),
      ?(GetCodeHash_ext (Overlay f p) (Overlay f p') a) by (apply Hg; set_solver);
    try (by eexists (_, _)).
  - apply GetCode_frame, H. set_solver.
  - destruct (GetCode_frame db f p p' a) as ([f' c] & -> & ->); [apply H; set_solver|].
    by exists (f', zlen c).
  - destruct (_ && _); [|by exists (f, false)].
    destruct (GetCode_frame db f p p' a) as ([f' c] & -> & ->); [apply H; set_solver|].
    by exists (f', bool_decide (c = [])).
Qed.

Lemma exec_overlay {X} db (o : StateOp X) f p :
  exists r, exec_op db o (Overlay f p) = lift_parent p r.
Proof. destruct (exec_frame db o f p p) as (r & H & _); [done|eauto]. Qed.
End Footprint.

Section RunFrame.
Context {C : Crypto} {V : Verkle}.

Lemma agree_on_app l1 l2 p p' : agree_on (l1 ++ l2) p p' <-> agree_on l1 p p' /\ agree_on l2 p p'.
Proof. unfold agree_on. set_solver. Qed.

Lemma run_frame {R : Type} db (pr : prog R) f p p' :
  agree_on (run_keys db pr (Overlay f p)) p p' ->
  run_keys db pr (Overlay f p') = run_keys db pr (Overlay f p) /\
  exists r, run db pr (Overlay f p) = lift_parent p r /\
            run db pr (Overlay f p') = lift_parent p' r.
Proof.
  revert f. induction pr as [r|X o k IH]; intros f H.
  { split; [done|]. by exists (f, r). }
  cbn [run_keys run] in *.
  destruct (exec_overlay db o f p) as [[f' x] Hr]. rewrite Hr in H. cbn in H.
  apply agree_on_app in H as [H1 H2].
  destruct (exec_frame db o f p p' H1) as ([f'' x''] & Hr1 & Hr2).
  rewrite Hr in Hr1. injection Hr1 as <- <-. rewrite Hr, Hr2. cbn.
  destruct (IH x f' H2) as [Hk Hrun]. by rewrite Hk.
Qed.

Lemma run_overlay {R : Type} db (pr : prog R) f p :
  exists r, run db pr (Overlay f p) = lift_parent p r.
Proof. destruct (run_frame db pr f p p) as (_ & r & H & _); [done|eauto]. Qed.

(** Own maps that an operation may change: the dirty entries of its keys. *)
Lemma exec_dirty {X : Type} db (o : StateOp X) s k :
  k ∉ op_keys o -> dirty (own (exec_op db o s).1) !! k = dirty (own s) !! k.
Proof.
  assert (forall s a, dirty (own (GetCode db s a).1) = dirty (own s)) as HG.
  { intros s0 a. unfold GetCode. case_bool_decide; [done|]. destruct (code _ !! _); [done|].
    destruct db as [d|]; [|done]. destruct (d !! _); [|done]. cbn [fst]. by rewrite own_with_own. }
  destruct o; cbn [op_keys exec_op]; intros Hk; try done; rewrite ?HG; try done;
    unfold SubBalance, AddBalance, addBalance, SelfDestruct6780, SelfDestruct, SetBalance,
      SetNonce, SetState, SetCode, SetTransientState, Empty, GetCodeSize; cbn [fst];
    rewrite ?own_with_own, ?own_set; cbn [dirty set_dirty set_code set_transient];
    rewrite ?own_set; cbn [dirty set_dirty];
    try (rewrite lookup_insert_ne; [done|set_solver]); try done.
  - specialize (HG s a). destruct (GetCode db s a); cbn in *. by rewrite HG.
  - destruct (_ && _); [|done]. specialize (HG s a). destruct (GetCode db s a); cbn in *. by rewrite HG.
Qed.

Lemma run_dirty {R : Type} db (pr : prog R) s k :
  k ∉ run_keys db pr s -> dirty (own (run db pr s).1) !! k = dirty (own s) !! k.
Proof.
  revert s. induction pr as [r|X o kk IH]; intros s Hk; [done|]. cbn [run run_keys] in *.
  pose proof (exec_dirty db o s k) as He. destruct (exec_op db o s) as [s' x]. cbn in *.
  rewrite not_elem_of_app in Hk. destruct Hk as [Hk1 Hk2]. rewrite IH by done. by apply He.
Qed.

Lemma op_keys_is_key {X : Type} (o : StateOp X) k : k ∈ op_keys o -> is_key k.
Proof.
  intros Hk. destruct o; cbn [op_keys] in Hk; rewrite ?elem_of_cons in Hk;
    destruct_or?; try (by apply elem_of_nil in Hk); subst;
    first [apply (slot_key_is_key (SBalance _)) | apply (slot_key_is_key (SNonce _))
          | apply (slot_key_is_key (SCodeHash _)) | apply (slot_key_is_key (SStorage _ _))].
Qed.

Lemma run_keys_is_key {R : Type} db (pr : prog R) s k : k ∈ run_keys db pr s -> is_key k.
Proof.
  revert s. induction pr as [r|X o kk IH]; intros s; cbn [run_keys]; [by intros ?%elem_of_nil|].
  destruct (exec_op db o s) as [s' x]. rewrite elem_of_app.
  intros [H|H]; [by eapply op_keys_is_key|by eapply IH].
Qed.
End RunFrame.

(** ** Preservation of well-formedness and of the (empty) log *)

Section Preserve.
Context {C : Crypto} {V : Verkle} {VL : VerkleLaws V}.

Lemma GetCode_own db s a :
  exists c, (GetCode db s a).1 = with_own s (set_code (own s) c).
Proof.
  assert (s = with_own s (set_code (own s) (code (own s)))) as E.
  { by destruct s as [[]|[]]. }
  unfold GetCode. case_bool_decide; [eauto|]. destruct (code _ !! _); [eauto|].
  destruct db as [d|]; [|eauto]. destruct (d !! _); eauto.
Qed.

(** Every operation writes the value of at most one key, or only own maps. *)
Lemma exec_shape {X : Type} db (o : StateOp X) s :
  (exists k v, (exec_op db o s).1 = setVerkleValue s k v /\ is_key k /\ (length v <= 32)%nat) \/
  (exists k v c, (exec_op db o s).1
      = with_own (setVerkleValue s k v) (set_code (own (setVerkleValue s k v)) c)
      /\ is_key k /\ (length v <= 32)%nat) \/
  (exists c t, (exec_op db o s).1 = with_own s (set_transient (set_code (own s) c) t)).
Proof.
  assert (forall c, with_own s (set_code (own s) c)
    = with_own s (set_transient (set_code (own s) c) (transientStorage (own s)))) as Et.
  { by destruct s as [[]|[]]. }
  assert (s = with_own s (set_code (own s) (code (own s)))) as E by (by destruct s as [[]|[]]).
  assert (forall a, is_key (balanceKey a)) by (intros a; apply (slot_key_is_key (SBalance a))).
  assert (forall a, is_key (nonceKey a)) by (intros a; apply (slot_key_is_key (SNonce a))).
  assert (forall a, is_key (codeHashKey a)) by (intros a; apply (slot_key_is_key (SCodeHash a))).
  assert (forall a k, is_key (storageKey a k)) by (intros a k; apply (slot_key_is_key (SStorage a k))).
  destruct o; cbn [exec_op fst];
    try (right; right; eexists _, _; rewrite <- Et; exact E);
    try (left; eexists _, _; split_and!; [reflexivity|auto|
           first [apply length_u256_bytes|apply length_nonce_bytes|apply length_hash_bytes_le]]).
  - right; right. destruct (GetCode_own db s a) as [c ->]. rewrite Et. eauto.
  - right; left. unfold SetCode. cbn [fst]. eexists _, _, _. split_and!; [reflexivity|auto|].
    apply length_hash_bytes_le.
  - right; right. unfold GetCodeSize. destruct (GetCode_own db s a) as [c Hc].
    destruct (GetCode db s a). cbn in *. subst. rewrite Et. eauto.
  - right; right. unfold SetTransientState. eexists (code (own s)), _. by destruct s as [[]|[]].
  - right; right. unfold Empty. destruct (_ && _); [|eexists _, _; rewrite <- Et; exact E].
    destruct (GetCode_own db s a) as [c Hc]. destruct (GetCode db s a). cbn in *. subst. rewrite Et. eauto.
Qed.

Lemma exec_wf {X : Type} db (o : StateOp X) s : state_wf s -> state_wf (exec_op db o s).1.
Proof.
  intros Hs. destruct (exec_shape db o s) as [(k & v & -> & Hk & Hv)|[(k & v & c & -> & Hk & Hv)|(c & t & ->)]].
  - by apply state_wf_set.
  - apply state_wf_with_own; [done|]. by apply state_wf_set.
  - by apply state_wf_with_own.
Qed.

Lemma run_wf {R : Type} db (pr : prog R) s : state_wf s -> state_wf (run db pr s).1.
Proof.
  revert s. induction pr as [r|X o k IH]; intros s Hs; [done|]. cbn [run].
  pose proof (exec_wf db o s Hs). destruct (exec_op db o s). by apply IH.
Qed.

Lemma exec_logs {X : Type} db (o : StateOp X) s : logs (own (exec_op db o s).1) = logs (own s).
Proof.
  destruct (exec_shape db o s) as [(k & v & -> & _ & _)|[(k & v & c & -> & _ & _)|(c & t & ->)]];
    rewrite ?own_with_own, ?own_set; cbn; by rewrite ?own_set.
Qed.

Lemma run_logs {R : Type} db (pr : prog R) s : logs (own (run db pr s).1) = logs (own s).
Proof.
  revert s. induction pr as [r|X o k IH]; intros s; [done|]. cbn [run].
  pose proof (exec_logs db o s). destruct (exec_op db o s). cbn in *. by rewrite IH.
Qed.
End Preserve.

(** ** Specification: the account state the interface promises

    An account state is four total functions: what an EVM client expects of
    balances, nonces, code hashes and storage, with no keys, no encodings
    and no overlays. *)

Record AState := mkAState {
  a_balance : Address -> u256;
  a_nonce : Address -> u64;
  a_codehash : Address -> Hash;
  a_storage : Address -> Hash -> Hash
}.

Definition aset_balance (st : AState) a x :=
  mkAState (fset (a_balance st) a x) (a_nonce st) (a_codehash st) (a_storage st).
Definition aset_nonce (st : AState) a n :=
  mkAState (a_balance st) (fset (a_nonce st) a n) (a_codehash st) (a_storage st).
Definition aset_codehash (st : AState) a h :=
  mkAState (a_balance st) (a_nonce st) (fset (a_codehash st) a h) (a_storage st).
Definition aset_storage (st : AState) a k v :=
  mkAState (a_balance st) (a_nonce st) (a_codehash st)
    (fset (a_storage st) a (fset (a_storage st a) k v)).

Section Spec.
Context {C : Crypto} {V : Verkle} {VL : VerkleLaws V}.

(** The behaviour of each account operation; [None] marks the calls that are not about
    balances, nonces, code hashes and storage, and nonces above 2^63 (see [nonce_roundtrip]). [full_op]
    below specifies the whole interface. *)
Definition spec_op {X : Type} (o : StateOp X) (st : AState) : option (AState * X) :=
  match o in StateOp X return option (AState * X) with
  | OSubBalance a x => let b := wsub (a_balance st a) x in Some (aset_balance st a b, b)
  | OAddBalance a x => let b := wadd (a_balance st a) x in Some (aset_balance st a b, b)
  | OGetBalance a => Some (st, a_balance st a)
  | OGetNonce a => Some (st, a_nonce st a)
  | OSetNonce a n => if uval n <=? 2 ^ 63 then Some (aset_nonce st a n, tt) else None
  | OGetCodeHash a => Some (st, a_codehash st a)
  | OSetCode a c => Some (aset_codehash st a (keccak256 c), c)
  | OGetStateAndCommittedState a k => Some (st, (a_storage st a k, a_storage st a k))
  | OGetState a k => Some (st, a_storage st a k)
  | OSetState a k v => Some (aset_storage st a k v, a_storage st a k)
  | OSelfDestruct a => Some (aset_balance st a (wd 0), a_balance st a)
  | OSelfDestruct6780 a => Some (aset_balance st a (wd 0), (a_balance st a, true))
  | _ => None
  end.

Definition op_slots {X : Type} (o : StateOp X) : list slot :=
  match o with
  | OSubBalance a _ | OAddBalance a _ | OGetBalance a | OSelfDestruct a | OSelfDestruct6780 a =>
      [SBalance a]
  | OGetNonce a | OSetNonce a _ => [SNonce a]
  | OGetCodeHash a | OSetCode a _ => [SCodeHash a]
  | OGetStateAndCommittedState a k | OGetState a k | OSetState a k _ => [SStorage a k]
  | _ => []
  end.

(** The state reads as the abstract state on the slots in [D]. *)
Definition refines (D : slot -> Prop) (s : StateDB) (st : AState) : Prop :=
  forall sl, D sl ->
    match sl with
    | SBalance a => GetBalance s a = a_balance st a
    | SNonce a => GetNonce s a = a_nonce st a
    | SCodeHash a => GetCodeHash s a = a_codehash st a
    | SStorage a k => GetState s a k = a_storage st a k
    end.

(** What a write of slot [sl] must establish. *)
Lemma refines_write D s st st' sl v :
  collision_free D -> D sl -> refines D s st ->
  (forall sl', sl' <> sl ->
     match sl' with
     | SBalance a => a_balance st' a = a_balance st a
     | SNonce a => a_nonce st' a = a_nonce st a
     | SCodeHash a => a_codehash st' a = a_codehash st a
     | SStorage a k => a_storage st' a k = a_storage st a k
     end) ->
  (match sl with
   | SBalance a => match v with [] => wd 0 | _ => u256_set_bytes v end = a_balance st' a
   | SNonce a => match v with [] => wd 0 | _ => big_uint64 (be_val v) end = a_nonce st' a
   | SCodeHash a => match v with [] => zero_hash | _ => BytesToHash v end = a_codehash st' a
   | SStorage a k => match v with [] => zero_hash | _ => BytesToHash v end = a_storage st' a k
   end) ->
  refines D (setVerkleValue s (slot_key sl) v) st'.
Proof.
  intros HD Hsl Hr Hother Hself sl' Hsl'. destruct (decide (sl' = sl)) as [->|Hne].
  - destruct sl; unfold GetBalance, GetNonce, GetCodeHash, GetState;
      cbn [slot_key]; rewrite get_set_eq; exact Hself.
  - assert (getVerkleValue (setVerkleValue s (slot_key sl) v) (slot_key sl')
            = getVerkleValue s (slot_key sl')) as E.
    { apply get_set_ne; [auto with zeph..|]. intros Ek. apply Hne. by apply HD. }
    specialize (Hother sl' Hne). specialize (Hr sl' Hsl').
    destruct sl'; cbn [slot_key] in E; rewrite Hother, <- Hr;
      [apply GetNonce_ext|apply GetBalance_ext|apply GetCodeHash_ext|apply GetState_ext]; exact E.
Qed.

Lemma refines_with_own D s f st :
  dirty f = dirty (own s) -> refines D s st -> refines D (with_own s f) st.
Proof.
  intros E Hr sl Hsl. specialize (Hr sl Hsl).
  destruct sl; rewrite <- Hr;
    [apply GetNonce_ext|apply GetBalance_ext|apply GetCodeHash_ext|apply GetState_ext];
    by apply get_with_own.
Qed.

Ltac solve_other := intros [] Hne; cbn; unfold fset; repeat case_decide; subst; congruence.

Lemma refines_set_balance D s st a x :
  collision_free D -> D (SBalance a) -> refines D s st ->
  refines D (SetBalance s a x) (aset_balance st a x).
Proof.
  intros HD Ha Hr. apply (refines_write D s st _ (SBalance a)); try done.
  - solve_other.
  - cbn. unfold fset. rewrite decide_True by done. apply decode_balance.
Qed.

Lemma refines_set_storage D s st a k v :
  collision_free D -> D (SStorage a k) -> refines D s st ->
  refines D (SetState s a k v).1 (aset_storage st a k v).
Proof.
  intros HD Ha Hr. apply (refines_write D s st _ (SStorage a k)); try done.
  - solve_other.
  - cbn. unfold fset. rewrite !decide_True by done. apply decode_hash.
Qed.

(** One operation. *)
Lemma exec_op_spec {X : Type} (D : slot -> Prop) db (o : StateOp X) s st st' x :
  collision_free D -> refines D s st ->
  (forall sl, sl ∈ op_slots o -> D sl) ->
  spec_op o st = Some (st', x) ->
  (exec_op db o s).2 = x /\ refines D (exec_op db o s).1 st'.
Proof.
  intros HD Hr Hsl Hspec.
  destruct o; cbn [spec_op op_slots exec_op fst snd] in *; try discriminate.
  all: match type of Hsl with
       | forall sl, sl ∈ [?x] -> _ =>
           assert (D x) as Hx by (apply Hsl; set_solver); pose proof (Hr _ Hx) as Hb; cbn in Hb
       end.
  - injection Hspec as <- <-. unfold SubBalance, addBalance. cbn.
    rewrite wadd_wneg, Hb. split; [done|]. apply refines_set_balance; auto.
  - injection Hspec as <- <-. unfold AddBalance, addBalance. cbn. rewrite Hb.
    split; [done|]. apply refines_set_balance; auto.
  - by injection Hspec as <- <-.
  - by injection Hspec as <- <-.
  - destruct (uval n <=? 2 ^ 63) eqn:En; [|done]. injection Hspec as <- <-. split; [done|].
    apply (refines_write D s st _ (SNonce a)); try done; [solve_other|].
    cbn. unfold fset. rewrite decide_True by done. rewrite decode_nonce. by rewrite En.
  - by injection Hspec as <- <-.
  - injection Hspec as <- <-. split; [done|]. unfold SetCode. cbn [fst].
    apply refines_with_own; [done|].
    apply (refines_write D s st _ (SCodeHash a)); try done; [solve_other|].
    cbn. unfold fset. rewrite decide_True by done. apply decode_hash.
  - injection Hspec as <- <-. unfold GetStateAndCommittedState. by rewrite Hb.
  - by injection Hspec as <- <-.
  - injection Hspec as <- <-. split; [done|]. apply refines_set_storage; auto.
  - injection Hspec as <- <-. split; [done|]. apply refines_set_balance; auto.
  - injection Hspec as <- <-. unfold SelfDestruct6780, SelfDestruct. cbn. rewrite Hb.
    split; [done|]. apply refines_set_balance; auto.
Qed.

(** A whole client on the specification, and the slots it uses. *)
Fixpoint spec_run {R : Type} (p : prog R) (st : AState) : option (AState * R) :=
  match p with
  | Ret r => Some (st, r)
  | Vis o k => match spec_op o st with Some (st', x) => spec_run (k x) st' | None => None end
  end.

Fixpoint spec_slots {R : Type} (p : prog R) (st : AState) : list slot :=
  match p with
  | Ret _ => []
  | Vis o k => op_slots o ++ match spec_op o st with Some (st', x) => spec_slots (k x) st' | None => [] end
  end.

Lemma spec_run_bind {A B : Type} (p : prog A) (f : A -> prog B) st :
  spec_run (p ≫= f) st
  = match spec_run p st with Some (st', a) => spec_run (f a) st' | None => None end.
Proof.
  revert st. induction p as [r|X o k IH]; intros st; [done|].
  cbn [mbind prog_bind spec_run]. destruct (spec_op o st) as [[st' x]|]; [apply IH|done].
Qed.

Lemma spec_run_call {X B : Type} (o : StateOp X) (f : X -> prog B) st :
  spec_run (call o ≫= f) st
  = match spec_op o st with Some (st', x) => spec_run (f x) st' | None => None end.
Proof. done. Qed.

Lemma run_spec {R : Type} (D : slot -> Prop) db (p : prog R) s st st' r :
  collision_free D -> refines D s st -> (forall sl, sl ∈ spec_slots p st -> D sl) ->
  spec_run p st = Some (st', r) ->
  (run db p s).2 = r /\ refines D (run db p s).1 st'.
Proof.
  intros HD. revert s st. induction p as [r0|X o k IH]; intros s st Hr Hsl Hspec.
  { cbn in *. by injection Hspec as <- <-. }
  cbn [spec_run spec_slots run] in *.
  destruct (spec_op o st) as [[st1 x]|] eqn:Eo; [|done].
  destruct (exec_op_spec D db o s st st1 x HD Hr) as [Hx Hr1]; [set_solver|done|].
  destruct (exec_op db o s) as [s1 x1]. cbn in Hx, Hr1. subst x1.
  apply (IH x s1 st1); [done|set_solver|done].
Qed.

(** *** The whole interface

    The account state with the code known for each hash and the transient storage. Every method has a
    promised behaviour, which for most of them is that of a stub: accounts always exist, nothing
    is reverted, there are no refunds and no logs. *)

Record FState := mkFState {
  f_acct : AState;
  f_code : Hash -> bytes;
  f_transient : Address -> Hash -> Hash
}.

Definition with_acct (st : FState) (a : AState) : FState := mkFState a (f_code st) (f_transient st).

(** The nonce that reads back after [SetNonce], see [nonce_roundtrip]. *)
Definition kept_nonce (n : u64) : u64 := if uval n <=? 2 ^ 63 then n else wd (2 ^ 64 - uval n).

Definition spec_code (st : FState) (a : Address) : bytes :=
  let h := a_codehash (f_acct st) a in if bool_decide (h = EmptyCodeHash) then [] else f_code st h.

Definition spec_empty (st : FState) (a : Address) : bool :=
  bool_decide (a_balance (f_acct st) a = wd 0) && bool_decide (a_nonce (f_acct st) a = wd 0) && bool_decide (spec_code st a = []).

Definition full_op {X : Type} (o : StateOp X) (st : FState) : FState * X :=
  let acct := f_acct st in
  match o in StateOp X return FState * X with
  | OSubBalance a x => let b := wsub (a_balance acct a) x in (with_acct st (aset_balance acct a b), b)
  | OAddBalance a x => let b := wadd (a_balance acct a) x in (with_acct st (aset_balance acct a b), b)
  | OGetBalance a => (st, a_balance acct a)
  | OGetNonce a => (st, a_nonce acct a)
  | OSetNonce a n => (with_acct st (aset_nonce acct a (kept_nonce n)), tt)
  | OGetCodeHash a => (st, a_codehash acct a)
  | OGetCode a => (st, spec_code st a)
  | OSetCode a c => (mkFState (aset_codehash acct a (keccak256 c)) (fset (f_code st) (keccak256 c) c) (f_transient st), c)
  | OGetCodeSize a => (st, zlen (spec_code st a))
  | OGetStateAndCommittedState a k => (st, (a_storage acct a k, a_storage acct a k))
  | OGetState a k => (st, a_storage acct a k)
  | OSetState a k v => (with_acct st (aset_storage acct a k v), a_storage acct a k)
  | OGetTransientState a k => (st, f_transient st a k)
  | OSetTransientState a k v => (mkFState acct (f_code st) (fset (f_transient st) a (fset (f_transient st a) k v)), tt)
  | OSelfDestruct a => (with_acct st (aset_balance acct a (wd 0)), a_balance acct a)
  | OSelfDestruct6780 a => (with_acct st (aset_balance acct a (wd 0)), (a_balance acct a, true))
  | OEmpty a => (st, spec_empty st a)
  | OHasSelfDestructed _ => (st, false)
  | OExist _ | OAddressInAccessList _ => (st, true)
  | OSlotInAccessList _ _ => (st, (true, true))
  | OGetStorageRoot _ => (st, zero_hash)
  | OGetRefund => (st, wd 0)
  | OSnapshot => (st, 0)
  | OCreateAccount _ | OCreateContract _ | OAddRefund _ | OSubRefund _ | OAddAddressToAccessList _ | OAddSlotToAccessList _ _
  | OPrepare | ORevertToSnapshot _ | OAddLog _ | OAddPreimage _ _ | OFinalise _ => (st, tt)
  end.

(** The slots a call reads or writes. *)
Definition full_slots {X : Type} (o : StateOp X) : list slot :=
  match o with
  | OGetCode a | OGetCodeSize a => [SCodeHash a]
  | OEmpty a => [SBalance a; SNonce a; SCodeHash a]
  | _ => op_slots o
  end.

Fixpoint full_run {R : Type} (p : prog R) (st : FState) : FState * R :=
  match p with
  | Ret r => (st, r)
  | Vis o k => let '(st', x) := full_op o st in full_run (k x) st'
  end.

Fixpoint full_run_slots {R : Type} (p : prog R) (st : FState) : list slot :=
  match p with
  | Ret _ => []
  | Vis o k => full_slots o ++ let '(st', x) := full_op o st in full_run_slots (k x) st'
  end.

(** The code a state finds for a hash. *)
Definition known_code (db : option DB) (s : StateDB) (h : Hash) : bytes :=
  match code (own s) !! h with
  | Some c => c
  | None => match db with Some d => default [] (d !! cprefix h) | None => [] end
  end.

Record refines_full (D : slot -> Prop) (db : option DB) (s : StateDB) (st : FState) : Prop := {
  rf_acct : refines D s (f_acct st);
  rf_code : forall h, known_code db s h = f_code st h;
  rf_transient : forall a k, GetTransientState s a k = f_transient st a k
}.

(** A write to the tree leaves the rest alone. *)
Lemma refines_full_set D db s st acct k v :
  refines_full D db s st -> refines D (setVerkleValue s k v) acct -> refines_full D db (setVerkleValue s k v) (with_acct st acct).
Proof.
  intros [_ Hc Ht] Hr. split; [done| |]; cbn [f_code f_transient with_acct].
  - intros h. rewrite <- Hc. unfold known_code. by rewrite own_set.
  - intros a k'. rewrite <- Ht. unfold GetTransientState. by rewrite own_set.
Qed.

(** Looking at code may fill the cache, which is not observable. *)
Lemma GetCode_full D db s st a :
  refines_full D db s st -> D (SCodeHash a) ->
  refines_full D db (GetCode db s a).1 st /\ (GetCode db s a).2 = spec_code st a.
Proof.
  intros HR Ha. pose proof HR as [Hr Hc Ht]. pose proof (Hr _ Ha) as Hh. cbn in Hh. unfold GetCode, spec_code. rewrite <- Hh.
  set (h := GetCodeHash s a). case_bool_decide; [done|]. rewrite <- Hc. unfold known_code.
  destruct (code (own s) !! h) as [c|] eqn:E; [done|]. destruct db as [d|]; [|done].
  destruct (d !! cprefix h) as [c|] eqn:Ed; [|done]. cbn [fst snd default from_option id]. split; [|done]. split.
  - by apply refines_with_own.
  - intros h'. rewrite <- Hc. unfold known_code. rewrite own_with_own. cbn [code set_code].
    destruct (decide (h = h')) as [<-|Hne]; [by rewrite lookup_insert_eq, E, Ed|by rewrite lookup_insert_ne].
  - intros a' k. rewrite <- Ht. unfold GetTransientState. by rewrite own_with_own.
Qed.

(** One call of any method. *)
Lemma exec_op_full {X : Type} (D : slot -> Prop) db (o : StateOp X) s st :
  collision_free D -> refines_full D db s st -> (forall sl, sl ∈ full_slots o -> D sl) ->
  (exec_op db o s).2 = (full_op o st).2 /\ refines_full D db (exec_op db o s).1 (full_op o st).1.
Proof.
  intros HD HR Hsl. pose proof HR as [Hr Hc Ht].
  assert (forall st' x, spec_op o (f_acct st) = Some (st', x) -> full_slots o = op_slots o ->
            (exec_op db o s).2 = x /\ refines D (exec_op db o s).1 st') as Hspec.
  { intros st' x E Es. apply (exec_op_spec D db o s (f_acct st)); [done|done| |done]. by rewrite <- Es. }
  destruct o; cbn [full_op full_slots op_slots spec_op exec_op fst snd] in *; try done;
    try (destruct (Hspec _ _ eq_refl eq_refl) as [Hx Hst]; split; [exact Hx|by first [apply refines_full_set|exact HR]]).
  - split; [done|]. apply refines_full_set; [done|]. assert (D (SNonce a)) as Hd by (apply Hsl; left).
    apply (refines_write D s (f_acct st) _ (SNonce a)); [done|done|done|solve_other|].
    cbn. unfold fset. rewrite decide_True by done. apply decode_nonce.
  - destruct (GetCode_full D db s st a HR) as [H1 H2]; [apply Hsl; left|done].
  - destruct (Hspec _ _ eq_refl eq_refl) as [_ Hst]. split; [done|]. split; [exact Hst| |]; unfold SetCode; cbn [fst f_code f_transient].
    + intros h. unfold known_code, fset. rewrite own_with_own. cbn [code set_code]. rewrite own_set. cbn [code set_dirty].
      case_decide as E; [subst h; by rewrite lookup_insert_eq|]. rewrite lookup_insert_ne by done. apply Hc.
    + intros a' k. rewrite <- Ht. unfold GetTransientState. rewrite own_with_own. cbn [transientStorage set_code]. by rewrite own_set.
  - destruct (GetCode_full D db s st a HR) as [H1 H2]; [apply Hsl; left|]. unfold GetCodeSize.
    destruct (GetCode db s a) as [s1 c]. cbn in *. by subst.
  - split; [done|]. unfold SetTransientState. split; cbn [f_acct f_code f_transient].
    + by apply refines_with_own.
    + intros h. rewrite <- Hc. unfold known_code. by rewrite own_with_own.
    + intros a' k'. unfold GetTransientState, fset. rewrite own_with_own. cbn [transientStorage set_transient].
      pose proof (Ht a' k') as Hold. unfold GetTransientState in Hold. destruct (decide (a = a')) as [<-|Hne].
      * rewrite lookup_insert_eq. destruct (decide (k = k')) as [<-|Hk]; [by rewrite lookup_insert_eq|]. rewrite lookup_insert_ne by done.
        rewrite <- Hold. by destruct (transientStorage (own s) !! a).
      * by rewrite lookup_insert_ne.
  - unfold Empty, spec_empty.
    assert (D (SBalance a) /\ D (SNonce a) /\ D (SCodeHash a)) as (Hb & Hn & Hh) by (split_and!; apply Hsl; set_solver).
    pose proof (Hr _ Hb) as Eb. pose proof (Hr _ Hn) as En. cbn in Eb, En. rewrite Eb, En. destruct (_ && _); [|done]. cbn [andb].
    destruct (GetCode_full D db s st a HR Hh) as [H1 H2]. destruct (GetCode db s a) as [s1 c]. cbn in *. by subst.
Qed.

(** C10: The StateDB implements its specification. On slots whose tree keys do not collide, any client of the
    [vm.StateDB] interface, whichever methods it calls, returns the value it returns on the abstract
    state of accounts, code and transient storage, the resulting state reads as the resulting
    abstract state, and a well-formed StateDB stays well formed. (In the specification, as in the code, snapshots,
    refunds, access lists, logs and account creation have no effect.) *)
Theorem run_refines {R : Type} (D : slot -> Prop) db (p : prog R) s st :
  collision_free D -> refines_full D db s st -> (forall sl, sl ∈ full_run_slots p st -> D sl) -> state_wf s ->
  (run db p s).2 = (full_run p st).2 /\ refines_full D db (run db p s).1 (full_run p st).1 /\ state_wf (run db p s).1.
Proof.
  intros HD HR Hsl Hwf. enough ((run db p s).2 = (full_run p st).2 /\ refines_full D db (run db p s).1 (full_run p st).1) as [? ?]
    by (split_and!; [done..|by apply run_wf]).
  clear Hwf. revert s st HR Hsl. induction p as [r|X o k IH]; intros s st HR Hsl; [done|]. cbn [run full_run full_run_slots] in *.
  destruct (exec_op_full D db o s st HD HR) as [Hx HR1]; [set_solver|]. destruct (exec_op db o s) as [s1 x], (full_op o st) as [st1 x']. cbn [fst snd] in *.
  subst x'. apply IH; [done|set_solver].
Qed.
End Spec.
