(* ===== verification/Scheduler.v ===== *)
(** * Scheduler: core/scheduler.go.

    [schedule] groups the transactions of a block into waves whose members
    touch pairwise distinct accounts. One round ([sched_pass]) walks the queue
    once; the loop repeats on the deferred transactions. *)

From S2P Require Import Prelude Words Interfaces Rlp Types.

(** [sender, _ := types.Sender(signer, tx)]: the zero address on error. *)
Definition sched_sender (tx : Transaction) : Address := default zero_addr (tx_sender tx).

(** The inner [for] of one round: the accounts touched so far, the wave and the
    next queue. *)
Fixpoint sched_pass (touched : gset Address) (queue : list Transaction)
  : list Transaction * list Transaction :=
  match queue with
  | [] => ([], [])
  | tx :: rest =>
      let sender := sched_sender tx in
      let recipient := default zero_addr (tx_to tx) in
      if bool_decide (sender ∈ touched)
         || (bool_decide (is_Some (tx_to tx)) && bool_decide (recipient ∈ touched))
      then let '(wave, next) := sched_pass touched rest in (wave, tx :: next)
      else
        let touched := {[sender]} ∪ touched in
        let touched := match tx_to tx with Some to => {[to]} ∪ touched | None => touched end in
        let '(wave, next) := sched_pass touched rest in (tx :: wave, next)
  end.

(** The outer loop. [None] means the fuel ran out. *)
Fixpoint schedule_loop (fuel : nat) (queue : list Transaction) : option (list (list Transaction)) :=
  match queue with
  | [] => Some []
  | _ =>
      match fuel with
      | O => None
      | S fuel =>
          let '(currentWave, nextQueue) := sched_pass ∅ queue in
          match currentWave with
          | [] =>
              match nextQueue with
              | forced :: rest => waves ← schedule_loop fuel rest; Some ([forced] :: waves)
              | [] => Some []
              end
          | _ => waves ← schedule_loop fuel nextQueue; Some (currentWave :: waves)
          end
      end
  end.

(** Each round schedules at least one transaction: [len(txs)] rounds suffice
    (see [schedule_partition]). *)
Definition schedule (txs : list Transaction) : option (list (list Transaction)) :=
  schedule_loop (length txs) txs.

(** ** Independence *)

(** The accounts the scheduler attributes to a transaction. *)
Definition tx_accounts (tx : Transaction) : gset Address :=
  {[sched_sender tx]} ∪ (match tx_to tx with Some to => {[to]} | None => ∅ end).

Definition conflict (tx tx' : Transaction) : Prop := tx_accounts tx ## tx_accounts tx' -> False.

(** Pairwise disjoint from the accounts [t] and from each other. *)
Fixpoint independent (t : gset Address) (wave : list Transaction) : Prop :=
  match wave with
  | [] => True
  | tx :: rest => tx_accounts tx ## t /\ independent (tx_accounts tx ∪ t) rest
  end.

Section Pass.
Implicit Types q w n : list Transaction.

Lemma pass_test (t : gset Address) tx :
  bool_decide (sched_sender tx ∈ t)
  || (bool_decide (is_Some (tx_to tx)) && bool_decide (default zero_addr (tx_to tx) ∈ t)) = true
  <-> ~ tx_accounts tx ## t.
Proof.
  rewrite orb_true_iff, andb_true_iff, !bool_decide_eq_true. unfold tx_accounts.
  destruct (tx_to tx) as [to|]; cbn.
  - destruct (decide (sched_sender tx ∈ t)), (decide (to ∈ t)); set_solver by eauto.
  - destruct (decide (sched_sender tx ∈ t)).
    + set_solver.
    + split; [intros [?|[[? ?] ?]]; [done|discriminate]|]. intros H. exfalso. apply H. set_solver.
Qed.

Lemma pass_cons t tx q :
  sched_pass t (tx :: q)
  = if decide (tx_accounts tx ## t)
    then let '(w, n) := sched_pass (tx_accounts tx ∪ t) q in (tx :: w, n)
    else let '(w, n) := sched_pass t q in (w, tx :: n).
Proof.
  cbn [sched_pass]. pose proof (pass_test t tx) as Ht.
  destruct (decide (tx_accounts tx ## t)) as [Hd|Hd].
  - rewrite (not_true_is_false _ (fun E => proj1 Ht E Hd)).
    unfold tx_accounts. destruct (tx_to tx) as [to|].
    + by replace ({[to]} ∪ ({[sched_sender tx]} ∪ t)) with ({[sched_sender tx]} ∪ {[to]} ∪ t) by set_solver.
    + by replace ({[sched_sender tx]} ∪ ∅ ∪ t) with ({[sched_sender tx]} ∪ t) by set_solver.
  - rewrite (proj2 Ht) by done. done.
Qed.

Lemma pass_perm t q : (sched_pass t q).1 ++ (sched_pass t q).2 ≡ₚ q.
Proof.
  revert t. induction q as [|tx q IH]; intros t; [done|]. rewrite pass_cons. case_decide.
  - specialize (IH (tx_accounts tx ∪ t)). destruct (sched_pass _ q) as [w n]. cbn in *. by rewrite IH.
  - specialize (IH t). destruct (sched_pass t q) as [w n]. cbn in *.
    rewrite <- Permutation_middle. by rewrite IH.
Qed.

Lemma pass_independent t q : independent t (sched_pass t q).1.
Proof.
  revert t. induction q as [|tx q IH]; intros t; [done|]. rewrite pass_cons. case_decide.
  - specialize (IH (tx_accounts tx ∪ t)). destruct (sched_pass _ q) as [w n]. cbn in *. done.
  - specialize (IH t). by destruct (sched_pass t q) as [w n].
Qed.

(** The wave and the next queue keep the order of the queue. *)
Lemma pass_sublist t q : (sched_pass t q).1 `sublist_of` q /\ (sched_pass t q).2 `sublist_of` q.
Proof.
  revert t. induction q as [|tx q IH]; intros t; [done|]. rewrite pass_cons. case_decide.
  - specialize (IH (tx_accounts tx ∪ t)). destruct (sched_pass _ q) as [w n]. cbn in *.
    destruct IH. split; [by apply sublist_skip|by apply sublist_cons].
  - specialize (IH t). destruct (sched_pass t q) as [w n]. cbn in *.
    destruct IH. split; [by apply sublist_cons|by apply sublist_skip].
Qed.

(** A transaction is deferred only because it conflicts with what the round
    already touched. *)
Lemma pass_deferred t q tx :
  tx ∈ (sched_pass t q).2 ->
  ~ tx_accounts tx ## t \/ exists tx', tx' ∈ (sched_pass t q).1 /\ conflict tx tx'.
Proof.
  revert t. induction q as [|tx0 q IH]; intros t; [by intros ?%elem_of_nil|]. rewrite pass_cons. case_decide as Hd.
  - specialize (IH (tx_accounts tx0 ∪ t)). destruct (sched_pass _ q) as [w n]. cbn in *.
    intros Hin. destruct (IH Hin) as [Hc|(tx' & Hin' & Hc)].
    + destruct (decide (tx_accounts tx ## t)) as [Ht|]; [|by left].
      right. exists tx0. split; [set_solver|]. intros H0. apply Hc. set_solver.
    + right. exists tx'. split; [set_solver|done].
  - specialize (IH t). destruct (sched_pass t q) as [w n]. cbn in *.
    intros [->|Hin]%elem_of_cons; [by left|auto].
Qed.

(** The first transaction of a round is always scheduled, so the "force one to
    progress" branch of the loop is never taken. *)
Lemma pass_head tx q : exists w, (sched_pass ∅ (tx :: q)).1 = tx :: w.
Proof.
  rewrite pass_cons, decide_True by set_solver. destruct (sched_pass _ q) as [w n]. by exists w.
Qed.

Lemma independent_disjoint t w i j tx tx' :
  independent t w -> (i < j)%nat -> w !! i = Some tx -> w !! j = Some tx' ->
  tx_accounts tx ## tx_accounts tx'.
Proof.
  assert (forall t w, independent t w -> forall tx, tx ∈ w -> tx_accounts tx ## t) as Hall.
  { clear. intros t w. revert t. induction w as [|a w IH]; intros t H tx Hin; [by apply elem_of_nil in Hin|].
    destruct H as [Ha Hw]. apply elem_of_cons in Hin as [->|Hin]; [done|].
    specialize (IH _ Hw _ Hin). set_solver. }
  revert t i j. induction w as [|a w IH]; intros t i j H Hij Hi Hj; [done|].
  destruct H as [Ha Hw]. destruct j as [|j]; [lia|]. destruct i as [|i]; cbn in *.
  - injection Hi as <-. apply list_elem_of_lookup_2 in Hj. specialize (Hall _ _ Hw _ Hj). set_solver.
  - apply (IH _ i j Hw); [lia|done|done].
Qed.
End Pass.

(** ** The loop *)

Section Loop.
Implicit Types waves : list (list Transaction).

(** One iteration on a non-empty queue: the forced branch is dead. *)
Lemma schedule_loop_cons fuel tx q :
  schedule_loop (S fuel) (tx :: q)
  = waves ← schedule_loop fuel (sched_pass ∅ (tx :: q)).2;
    Some ((sched_pass ∅ (tx :: q)).1 :: waves).
Proof.
  destruct (pass_head tx q) as [w Hw]. cbn [schedule_loop].
  destruct (sched_pass ∅ (tx :: q)) as [w' n]. cbn in Hw. by subst w'.
Qed.

(** The queue shrinks by the size of the wave. *)
Lemma pass_shrinks tx q : (length (sched_pass ∅ (tx :: q)).2 <= length q)%nat.
Proof.
  pose proof (Permutation_length (pass_perm ∅ (tx :: q))) as H.
  destruct (pass_head tx q) as [w Hw]. rewrite Hw, length_app in H. cbn [length] in H. lia.
Qed.

(** What a run of the loop returns, as a relation: each wave is the first round on
    the queue the previous rounds left. *)
Inductive rounds : list Transaction -> list (list Transaction) -> Prop :=
| rounds_nil : rounds [] []
| rounds_cons tx q waves :
    rounds (sched_pass ∅ (tx :: q)).2 waves ->
    rounds (tx :: q) ((sched_pass ∅ (tx :: q)).1 :: waves).

Lemma schedule_loop_rounds fuel q :
  (length q <= fuel)%nat -> exists waves, schedule_loop fuel q = Some waves /\ rounds q waves.
Proof.
  revert q. induction fuel as [|fuel IH]; intros [|tx q] Hl; try (cbn in Hl; lia);
    try (exists []; split; [done|constructor]).
  rewrite schedule_loop_cons. pose proof (pass_shrinks tx q). cbn [length] in Hl.
  destruct (IH (sched_pass ∅ (tx :: q)).2) as (waves & -> & Hr); [lia|].
  eexists. split; [done|]. by constructor.
Qed.

Lemma rounds_perm q waves : rounds q waves -> concat waves ≡ₚ q.
Proof.
  induction 1 as [|tx q waves _ IH]; [done|]. cbn [concat]. rewrite IH. apply pass_perm.
Qed.

Lemma rounds_nonempty q waves : rounds q waves -> Forall (fun w => w <> []) waves.
Proof.
  induction 1 as [|tx q waves _ IH]; constructor; [|done].
  destruct (pass_head tx q) as [w ->]. done.
Qed.

Lemma rounds_independent q waves : rounds q waves -> Forall (independent ∅) waves.
Proof. induction 1; constructor; [apply pass_independent|done]. Qed.

Lemma rounds_sublist q waves : rounds q waves -> Forall (fun w => w `sublist_of` q) waves.
Proof.
  induction 1 as [|tx q waves _ IH]; constructor; [apply pass_sublist|].
  eapply Forall_impl; [exact IH|]. intros w Hw. etransitivity; [exact Hw|]. apply pass_sublist.
Qed.

Lemma rounds_elem q waves tx w i : rounds q waves -> waves !! i = Some w -> tx ∈ w -> tx ∈ q.
Proof.
  intros Hr Hi Hin. pose proof (rounds_sublist _ _ Hr) as HF. rewrite Forall_lookup in HF.
  specialize (HF _ _ Hi). apply (elem_of_submseteq w); [done|by apply sublist_submseteq].
Qed.

(** A transaction waits only for a reason: it conflicts with a member of every
    earlier wave. *)
Lemma rounds_deferred q waves i j w w' tx :
  rounds q waves -> (i < j)%nat -> waves !! i = Some w -> waves !! j = Some w' -> tx ∈ w' ->
  exists tx', tx' ∈ w /\ conflict tx tx'.
Proof.
  intros Hr. revert i j. induction Hr as [|tx0 q waves Hr IH]; intros i j Hij Hi Hj Hin; [done|].
  destruct j as [|j]; [lia|]. destruct i as [|i]; cbn in Hi, Hj; [|apply (IH i j); [lia|done..]].
  injection Hi as <-. pose proof (rounds_elem _ _ _ _ _ Hr Hj Hin) as Hd.
  destruct (pass_deferred _ _ _ Hd) as [H|H]; [|done]. exfalso. apply H. set_solver.
Qed.

(** Once a shared account is touched, the rest of its transactions is deferred. *)
Lemma sched_pass_deferred (t : gset Address) a queue :
  a ∈ t -> Forall (fun tx => a ∈ tx_accounts tx) queue -> sched_pass t queue = ([], queue).
Proof.
  intros Ha. induction 1 as [|tx queue Htx _ IH]; [done|]. rewrite pass_cons, decide_False by set_solver. by rewrite IH.
Qed.

(** Transactions that share an account run one after the other, in block order. *)
Lemma schedule_shared_account a txs :
  Forall (fun tx => a ∈ tx_accounts tx) txs -> schedule txs = Some ((fun tx => [tx]) <$> txs).
Proof.
  unfold schedule. induction 1 as [|tx txs Ha HF IH]; [done|]. cbn [length schedule_loop].
  rewrite pass_cons, decide_True by set_solver. rewrite (sched_pass_deferred _ a) by (done || set_solver).
  cbn [mbind option_bind]. by rewrite IH.
Qed.

End Loop.

(** ** Theorems *)

(** C6: The scheduler terminates within one round per transaction and partitions the
    block: the concatenation of the waves is a permutation of the transactions, no wave is
    empty, each wave keeps the block order, the members of a wave touch pairwise
    disjoint sets of accounts (sender and recipient), and a transaction put in a later wave
    conflicts with some member of each earlier wave. *)
Theorem schedule_correct txs :
  exists waves, schedule txs = Some waves /\
    concat waves ≡ₚ txs /\
    Forall (fun w => w <> [] /\ w `sublist_of` txs) waves /\
    (forall w i j tx tx', w ∈ waves -> (i < j)%nat -> w !! i = Some tx -> w !! j = Some tx' ->
       tx_accounts tx ## tx_accounts tx') /\
    (forall i j w w' tx, (i < j)%nat -> waves !! i = Some w -> waves !! j = Some w' -> tx ∈ w' ->
       exists tx', tx' ∈ w /\ ~ tx_accounts tx ## tx_accounts tx').
Proof.
  destruct (schedule_loop_rounds (length txs) txs) as (waves & Hs & Hr); [lia|].
  exists waves. split_and!; [done|by apply rounds_perm| | |].
  - apply Forall_and. split; [by eapply rounds_nonempty|by apply rounds_sublist].
  - intros w i j tx tx' Hw. apply independent_disjoint with (t := ∅).
    pose proof (rounds_independent _ _ Hr) as HF. rewrite Forall_forall in HF. auto.
  - intros i j w w' tx. by apply (rounds_deferred txs).
Qed.

(** Two transactions of one sender can be executed in the opposite order: a deferred
    transaction does not reserve its accounts, so when the first transaction of the
    sender is deferred because of its recipient, the second one (with the next nonce)
    is put in the earlier wave. *)
Theorem schedule_reorders_sender :
  exists t1 t2 t3, tx_sender t2 = tx_sender t3 /\
    uval (tx_nonce t3) = uval (tx_nonce t2) + 1 /\
    schedule [t1; t2; t3] = Some [[t1; t3]; [t2]].
Proof.
  set (tx := fun (from to : Address) n =>
    mkTx 0 1 (wd n) 1 1 1 (wd 21000) (Some to) 0 [] (wd n) 100 (Some from) (0, 0, 0)).
  exists (tx (wd 1) (wd 2) 0), (tx (wd 3) (wd 2) 0), (tx (wd 3) (wd 4) 1).
  split_and!; vm_compute; reflexivity.
Qed.
