(* ===== verification/Consensus.v ===== *)
(** * Consensus: consensus/zelius.go, the stake-weighted leader schedule.

    [ZeliusEngine] keeps the validator list, the local key and a cache of
    elected leaders. Every method is a state-passing function; a Go panic (an
    index or division by zero on an empty validator list, a nil pointer) is
    [None]. *)

From S2P Require Import Prelude Words Interfaces Rlp Types Hex StateDB.

Record Validator := mkValidator { v_address : Address; v_stake : Z }.

#[export] Instance Validator_eq_dec : EqDecision Validator.
Proof. solve_decision. Defined.

Inductive seal_error := ErrReadonly | ErrSign.
Inductive verify_error :=
| ErrMissingSignature
| ErrRecovery
| ErrWrongLeader (expected got : Address).

Section Engine.
Context {C : Crypto} {V : Verkle}.

Record ZeliusEngine := mkEngine {
  Validators : list Validator;
  fault : Z;
  privKey : option PrivateKey;
  NonCompliantValidators : gmap Address Z;
  LeaderSchedule : gmap u64 Address;
  CurrentEpoch : u64;
  EpochSchedule : list Address
}.

(** [(len(validators) - 1) / 3]: Go's division truncates. *)
Definition tolerance (vs : list Validator) : Z := Z.quot (Z.of_nat (length vs) - 1) 3.

Definition NewZelius (validators : list Validator) (key : option PrivateKey) : ZeliusEngine :=
  mkEngine validators (tolerance validators) key ∅ ∅ (wd 0) [].

Definition set_validators (e : ZeliusEngine) (vs : list Validator) : ZeliusEngine :=
  mkEngine vs (fault e) (privKey e) (NonCompliantValidators e) (LeaderSchedule e)
    (CurrentEpoch e) (EpochSchedule e).
Definition set_fault (e : ZeliusEngine) (f : Z) : ZeliusEngine :=
  mkEngine (Validators e) f (privKey e) (NonCompliantValidators e) (LeaderSchedule e)
    (CurrentEpoch e) (EpochSchedule e).
Definition set_noncompliant (e : ZeliusEngine) (m : gmap Address Z) : ZeliusEngine :=
  mkEngine (Validators e) (fault e) (privKey e) m (LeaderSchedule e)
    (CurrentEpoch e) (EpochSchedule e).
Definition set_leaders (e : ZeliusEngine) (m : gmap u64 Address) : ZeliusEngine :=
  mkEngine (Validators e) (fault e) (privKey e) (NonCompliantValidators e) m
    (CurrentEpoch e) (EpochSchedule e).

(** ** Sealing *)

(** [Seal] mutates the header it signs: the extra data is emptied before hashing
    and stays empty when signing fails. *)
Definition Seal (e : ZeliusEngine) (b : Block) : Block * result seal_error unit :=
  match privKey e with
  | None => (b, Err ErrReadonly)
  | Some key =>
      let origExtra := ExtraData (BHeader b) in
      let b0 := NewBlock (set_extra (BHeader b) []) (Transactions b) in
      let hash := BlockHash b0 in
      match Sign (hash_bytes hash) key with
      | None => (b0, Err ErrSign)
      | Some sig =>
          let extra := if (0 <? length origExtra)%nat then origExtra ++ sig else sig in
          (NewBlock (set_extra (BHeader b0) extra) (Transactions b0), Ok tt)
      end
  end.

(** ** The leader schedule *)

(** [RecalculateSchedule] drops the cache. *)
Definition RecalculateSchedule (e : ZeliusEngine) : ZeliusEngine := set_leaders e ∅.

(** The cumulative-stake loop of [GetLeader]. *)
Fixpoint pick_leader (vs : list Validator) (current target : Z) : option Address :=
  match vs with
  | [] => None
  | v :: rest =>
      let current := current + v_stake v in
      if target <=? current then Some (v_address v) else pick_leader rest current target
  end.

Definition GetLeader (e : ZeliusEngine) (view : u64) : option (ZeliusEngine * Address) :=
  match LeaderSchedule e !! view with
  | Some leader => Some (e, leader)
  | None =>
      let totalStake := sumZ v_stake (Validators e) in
      if totalStake =? 0 then
        match Validators e with
        | [] => None
        | _ => v ← Validators e !! Z.to_nat (uval view mod Z.of_nat (length (Validators e)));
               Some (e, v_address v)
        end
      else
        let seed := keccak256 (be_bytes (uval view)) in
        let hashVal := be_val (hash_bytes seed) in
        let target := hashVal mod Z.abs totalStake in
        match pick_leader (Validators e) 0 target with
        | Some leader => Some (set_leaders e (<[view := leader]> (LeaderSchedule e)), leader)
        | None =>
            v ← Validators e !! 0%nat;
            Some (set_leaders e (<[view := v_address v]> (LeaderSchedule e)), v_address v)
        end
  end.

(** [SelectProposer] ignores both arguments. *)
Definition SelectProposer (e : ZeliusEngine) (seed : Hash) (round : Z)
  : option (ZeliusEngine * Address) := GetLeader e (wd 0).

(** ** Verification *)

Definition Verify (e : ZeliusEngine) (b : Block)
  : option (ZeliusEngine * result verify_error unit) :=
  let header := BHeader b in
  let n := length (ExtraData header) in
  if (n <? 65)%nat then Some (e, Err ErrMissingSignature)
  else
    let sig := drop (n - 65) (ExtraData header) in
    let preSealExtra := take (n - 65) (ExtraData header) in
    let sealHash := BlockHash (NewBlock (set_extra header preSealExtra) []) in
    match SigToPub (hash_bytes sealHash) sig with
    | None => Some (e, Err ErrRecovery)
    | Some pubKey =>
        let signer := PubkeyToAddress pubKey in
        number ← Number header;
        '(e', expectedLeader) ← GetLeader e (big_uint64 number);
        if bool_decide (expectedLeader = signer) then Some (e', Ok tt)
        else Some (e', Err (ErrWrongLeader expectedLeader signer))
    end.

(** ** Membership *)

Fixpoint add_stake (vs : list Validator) (addr : Address) (stake : Z) : option (list Validator) :=
  match vs with
  | [] => None
  | v :: rest =>
      if bool_decide (v_address v = addr) then Some (mkValidator addr (v_stake v + stake) :: rest)
      else (cons v) <$> add_stake rest addr stake
  end.

Definition AddValidator (e : ZeliusEngine) (addr : Address) (stake : Z) : ZeliusEngine :=
  match add_stake (Validators e) addr stake with
  | Some vs => RecalculateSchedule (set_validators e vs)
  | None =>
      let e1 := set_validators e (Validators e ++ [mkValidator addr stake]) in
      RecalculateSchedule (set_fault e1 (tolerance (Validators e1)))
  end.

(** Removal of the first validator with the address. *)
Fixpoint remove_first (vs : list Validator) (addr : Address) : option (list Validator) :=
  match vs with
  | [] => None
  | v :: rest => if bool_decide (v_address v = addr) then Some rest
                 else (cons v) <$> remove_first rest addr
  end.

Definition RemoveValidator (e : ZeliusEngine) (addr : Address) : ZeliusEngine :=
  if (length (Validators e) <=? 1)%nat then e
  else match remove_first (Validators e) addr with
       | Some vs => let e1 := set_validators e vs in
                    RecalculateSchedule (set_fault e1 (tolerance (Validators e1)))
       | None => e
       end.

Definition Slash (e : ZeliusEngine) (addr : Address) : ZeliusEngine := RemoveValidator e addr.

Definition RecordNonCompliance (e : ZeliusEngine) (addr : Address) : ZeliusEngine :=
  let count := default 0 (NonCompliantValidators e !! addr) + 1 in
  let e1 := set_noncompliant e (<[addr := count]> (NonCompliantValidators e)) in
  if 1000 <=? count then Slash e1 addr else e1.

(** ** Reloading the validators from the state *)

(** The addresses [SyncValidators] hard-codes. *)
Definition sync_validatorAddr : Address :=
  HexToAddress (bytes_of_string "0x0000000000000000000000000000000000003000").
Definition sync_stakingAddr : Address :=
  HexToAddress (bytes_of_string "0x0000000000000000000000000000000000002000").

(** The body of the loop: the [i]-th entry of the registry. *)
Definition sync_entry (s : StateDB) (i : u64) : Validator :=
  let indexKey := BigToHash (uval i) in
  let addrHash := GetState s sync_validatorAddr indexKey in
  let addr := BytesToAddress (hash_bytes addrHash) in
  let key := BytesToHash (addr_bytes addr) in
  let stakeBytes := GetState s sync_stakingAddr key in
  mkValidator addr (hash_big stakeBytes).

(** [for i := uint64(1); i <= n; i++]: the counter wraps, so the loop does not
    terminate for n = 2^64 - 1 ([None]). *)
Fixpoint sync_loop (fuel : nat) (s : StateDB) (i n : u64) : option (list Validator) :=
  if uval i <=? uval n then
    match fuel with
    | O => None
    | S fuel => rest ← sync_loop fuel s (wadd i (wd 1)) n; Some (sync_entry s i :: rest)
    end
  else Some [].

Definition SyncValidators (e : ZeliusEngine) (s : StateDB) : option ZeliusEngine :=
  let count := hash_big (GetState s sync_validatorAddr zero_hash) in
  if count =? 0 then Some e
  else
    let n := big_uint64 count in
    newValidators ← sync_loop (S (Z.to_nat (uval n))) s (wd 1) n;
    let e1 := set_validators e newValidators in
    Some (RecalculateSchedule (set_fault e1 (tolerance (Validators e1)))).

(** ** A simulated round

    [sort_by_nonce] is Go's [sort.Slice] with the nonce comparison, which is not
    stable: any sorted permutation. [now] is [time.Now().Unix()]. *)
Definition SimulateRound (sort_by_nonce : list Transaction -> list Transaction) (now : u64)
    (e : ZeliusEngine) (parent : Block) (txs : list Transaction) (stateDB : option StateDB)
  : option (ZeliusEngine * result seal_error Block) :=
  e ← match stateDB with Some s => SyncValidators e s | None => Some e end;
  parentNumber ← Number (BHeader parent);
  let nextBlockNum := parentNumber + 1 in
  '(e, proposer) ← GetLeader e (big_uint64 nextBlockNum);
  key ← privKey e;
  let myAddr := PubkeyToAddress (pub_of key) in
  let agreedBatches := [txs] in
  let finalTxs := sort_by_nonce (concat agreedBatches) in
  let header := mkHeader (BlockHash parent) (Some (parentNumber + 1)) now zero_hash zero_hash
                  myAddr [] (Some 0) (wd 30000000) (wd 0) (Some 10) in
  let '(block, r) := Seal e (NewBlock header finalTxs) in
  match r with
  | Err err => Some (e, Err err)
  | Ok _ => Some (e, Ok block)
  end.

End Engine.

(** ** Election *)

Section Election.
Context {C : Crypto} {V : Verkle}.
Implicit Types (e : ZeliusEngine) (vs : list Validator).

(** The election as a function of the validator list alone. *)
Definition view_target (view : u64) (total : Z) : Z :=
  be_val (hash_bytes (keccak256 (be_bytes (uval view)))) mod Z.abs total.

Definition leader_of vs (view : u64) : option Address :=
  let total := sumZ v_stake vs in
  if total =? 0 then v_address <$> vs !! Z.to_nat (uval view mod Z.of_nat (length vs))
  else match pick_leader vs 0 (view_target view total) with
       | Some a => Some a
       | None => v_address <$> vs !! 0%nat
       end.

(** The cache only holds leaders of the current validator list. *)
Definition cache_ok e : Prop :=
  forall view a, LeaderSchedule e !! view = Some a -> leader_of (Validators e) view = Some a.

Lemma pick_leader_Some vs c t :
  (forall v, v ∈ vs -> 0 <= v_stake v) -> vs <> [] -> t <= c + sumZ v_stake vs ->
  is_Some (pick_leader vs c t).
Proof.
  revert c. induction vs as [|v vs IH]; intros c Hs Hne Ht; [done|]. cbn [pick_leader].
  destruct (Z.leb_spec t (c + v_stake v)); [by eexists|]. rewrite sumZ_cons in Ht. destruct vs as [|v' vs].
  - rewrite sumZ_nil in Ht. lia.
  - apply IH; [set_solver|done|lia].
Qed.

Lemma pick_leader_elem vs c t a : pick_leader vs c t = Some a -> a ∈ v_address <$> vs.
Proof.
  revert c. induction vs as [|v vs IH]; intros c; [done|]. cbn [pick_leader].
  destruct (_ <=? _); [intros [= <-]; set_solver|]. intros H%IH. set_solver.
Qed.

(** The elected index is the first whose cumulative stake reaches the target. *)
Lemma pick_leader_spec vs c t a :
  pick_leader vs c t = Some a <->
  exists i v, vs !! i = Some v /\ v_address v = a /\ t <= c + sumZ v_stake (take (S i) vs) /\
    forall j, (j < i)%nat -> c + sumZ v_stake (take (S j) vs) < t.
Proof.
  revert c. induction vs as [|v vs IH]; intros c; cbn [pick_leader].
  { split; [done|]. by intros (i & v & Hi & _). }
  destruct (Z.leb_spec t (c + v_stake v)) as [Hle|Hgt].
  - split.
    + intros [= <-]. exists O, v. split_and!; [done..| |lia]. cbn [take].
      rewrite ?take_0. autorewrite with zeph_rw. lia.
    + intros (i & v' & Hi & Ha & _ & Hj). destruct i as [|i]; [cbn in Hi; congruence|].
      specialize (Hj O ltac:(lia)). cbn [take] in Hj. rewrite ?take_0 in Hj.
      autorewrite with zeph_rw in Hj. lia.
  - rewrite IH. split.
    + intros (i & v' & Hi & Ha & Ht & Hj). exists (S i), v'. split_and!; [done..| |].
      * cbn [take] in *. autorewrite with zeph_rw. lia.
      * intros [|j] Hlt; cbn [take]; autorewrite with zeph_rw; [rewrite ?take_0; autorewrite with zeph_rw; lia|].
        specialize (Hj j ltac:(lia)). cbn [take] in Hj. lia.
    + intros ([|i] & v' & Hi & Ha & Ht & Hj); [cbn [take] in Ht; rewrite ?take_0 in Ht; autorewrite with zeph_rw in Ht; lia|].
      exists i, v'. split_and!; [done..| |].
      * cbn [take] in *. autorewrite with zeph_rw in Ht. lia.
      * intros j Hlt. specialize (Hj (S j) ltac:(lia)). cbn [take] in *.
        autorewrite with zeph_rw in Hj. lia.
Qed.

Lemma GetLeader_spec e view :
  cache_ok e ->
  match GetLeader e view with
  | Some (e', a) => leader_of (Validators e) view = Some a /\ cache_ok e' /\
                    exists m, e' = set_leaders e m
  | None => leader_of (Validators e) view = None
  end.
Proof.
  intros Hc. unfold GetLeader. destruct (LeaderSchedule e !! view) as [a|] eqn:El.
  { split_and!; [by apply Hc|done|]. exists (LeaderSchedule e). by destruct e. }
  assert (forall a, leader_of (Validators e) view = Some a ->
            cache_ok (set_leaders e (<[view := a]> (LeaderSchedule e)))) as Hins.
  { intros a Ha v b. cbn. destruct (decide (view = v)) as [<-|Hne].
    - rewrite lookup_insert_eq. by intros [= <-].
    - rewrite lookup_insert_ne by done. apply Hc. }
  assert (e = set_leaders e (LeaderSchedule e)) as He by (by destruct e). clear El.
  unfold leader_of in *. destruct (_ =? 0).
  - destruct (Validators e) as [|v0 vs] eqn:Ev; [done|].
    destruct ((v0 :: vs) !! _); cbn [fmap option_fmap option_map mbind option_bind]; eauto.
  - unfold view_target in *. destruct (pick_leader _ _ _) as [a|]; [eauto|].
    destruct (Validators e !! _); cbn [mbind option_bind]; eauto.
Qed.

Lemma leader_of_elem vs view a : leader_of vs view = Some a -> a ∈ v_address <$> vs.
Proof.
  assert (forall i v, vs !! i = Some v -> v_address v ∈ v_address <$> vs) as Hl.
  { intros i v Hi. apply list_elem_of_fmap. exists v. split; [done|]. by eapply list_elem_of_lookup_2. }
  unfold leader_of. destruct (_ =? 0).
  - destruct (vs !! _) eqn:E; [|done]. intros [= <-]. eauto.
  - destruct (pick_leader _ _ _) as [b|] eqn:E; [intros [= <-]; by eapply pick_leader_elem|].
    destruct (vs !! 0%nat) eqn:E0; [|done]. intros [= <-]. eauto.
Qed.

Lemma leader_of_total vs view : vs <> [] -> is_Some (leader_of vs view).
Proof.
  intros Hne. unfold leader_of. destruct (_ =? 0).
  - apply fmap_is_Some, lookup_lt_is_Some. destruct vs as [|v vs]; [done|].
    pose proof (uval_range view). set (n := Z.of_nat (length (v :: vs))).
    assert (0 < n) by (unfold n; cbn [length]; lia).
    pose proof (Z.mod_pos_bound (uval view) n ltac:(lia)). lia.
  - destruct (pick_leader _ _ _); [by eexists|]. destruct vs; [done|]. by eexists.
Qed.

(** With non-negative stakes the fallback branch is dead. *)
Lemma leader_of_weighted vs view :
  (forall v, v ∈ vs -> 0 <= v_stake v) -> sumZ v_stake vs <> 0 ->
  leader_of vs view = pick_leader vs 0 (view_target view (sumZ v_stake vs)).
Proof.
  intros Hs Hne. unfold leader_of. rewrite (proj2 (Z.eqb_neq _ _)) by done.
  destruct (pick_leader_Some vs 0 (view_target view (sumZ v_stake vs))) as [a ->]; [done| | |done].
  - intros ->. done.
  - pose proof (sumZ_nonneg v_stake vs Hs). unfold view_target.
    pose proof (Z.mod_pos_bound (be_val (hash_bytes (keccak256 (be_bytes (uval view)))))
                  (Z.abs (sumZ v_stake vs)) ltac:(lia)). lia.
Qed.
End Election.

(** ** The engine as a transition system *)

Section Reachable.
Context {C : Crypto} {V : Verkle}.
Implicit Types (e : ZeliusEngine) (vs : list Validator).

(** The calls the node, the RPC server and the timers make on the engine, in any
    order; [A] restricts the states [SyncValidators] is given. *)
Inductive engine_step (A : StateDB -> Prop) : ZeliusEngine -> ZeliusEngine -> Prop :=
| es_leader e view e' a : GetLeader e view = Some (e', a) -> engine_step A e e'
| es_verify e b e' r : Verify e b = Some (e', r) -> engine_step A e e'
| es_add e addr stake : engine_step A e (AddValidator e addr stake)
| es_remove e addr : engine_step A e (RemoveValidator e addr)
| es_noncompliance e addr : engine_step A e (RecordNonCompliance e addr)
| es_sync e s e' : A s -> SyncValidators e s = Some e' -> engine_step A e e'
| es_simulate sort now e parent txs e' r :
    SimulateRound sort now e parent txs None = Some (e', r) -> engine_step A e e'.

Lemma cache_ok_cleared e : LeaderSchedule e = ∅ -> cache_ok e.
Proof. intros H view a. by rewrite H, lookup_empty. Qed.

Lemma cache_ok_ext e e' :
  Validators e' = Validators e -> LeaderSchedule e' = LeaderSchedule e -> cache_ok e -> cache_ok e'.
Proof. unfold cache_ok. by intros -> ->. Qed.

Lemma RemoveValidator_cases e addr :
  RemoveValidator e addr = e \/
  exists vs, remove_first (Validators e) addr = Some vs /\ (1 < length (Validators e))%nat /\
    RemoveValidator e addr
    = RecalculateSchedule (set_fault (set_validators e vs) (tolerance vs)).
Proof.
  unfold RemoveValidator. destruct (Nat.leb_spec (length (Validators e)) 1); [by left|].
  destruct (remove_first _ _) as [vs|]; [right; eauto|by left].
Qed.

(** The engine's local invariant: a coherent cache and the fault threshold of the
    current list. *)
Definition engine_ok e : Prop := cache_ok e /\ fault e = tolerance (Validators e).

Lemma engine_ok_leaders e view e' a :
  engine_ok e -> GetLeader e view = Some (e', a) -> engine_ok e' /\ Validators e' = Validators e.
Proof.
  intros [Hc Hf] Hg. pose proof (GetLeader_spec e view Hc) as H. rewrite Hg in H.
  destruct H as (_ & Hc' & m & ->). done.
Qed.

Lemma add_stake_length vs addr stake vs' :
  add_stake vs addr stake = Some vs' -> v_address <$> vs' = v_address <$> vs.
Proof.
  revert vs'. induction vs as [|v vs IH]; intros vs'; cbn [add_stake]; [done|].
  case_bool_decide; [intros [= <-]; cbn; congruence|].
  destruct (add_stake vs addr stake) as [w|]; [|done]. intros [= <-]. cbn. f_equal. by apply IH.
Qed.

Lemma remove_first_length vs addr vs' :
  remove_first vs addr = Some vs' -> length vs = S (length vs').
Proof.
  revert vs'. induction vs as [|v vs IH]; intros vs'; cbn [remove_first]; [done|].
  case_bool_decide; [by intros [= <-]|].
  destruct (remove_first vs addr) as [w|]; [|done]. intros [= <-]. cbn. f_equal. by apply IH.
Qed.

Lemma tolerance_length vs vs' : length vs = length vs' -> tolerance vs = tolerance vs'.
Proof. unfold tolerance. by intros ->. Qed.

Lemma add_stake_tolerance vs addr stake vs' :
  add_stake vs addr stake = Some vs' -> tolerance vs' = tolerance vs.
Proof.
  intros H%add_stake_length. apply tolerance_length.
  by rewrite <- (length_fmap v_address vs'), H, length_fmap.
Qed.

Lemma RemoveValidator_ok e addr :
  engine_ok e -> Validators e <> [] ->
  engine_ok (RemoveValidator e addr) /\ Validators (RemoveValidator e addr) <> [].
Proof.
  intros Hok Hne. destruct (RemoveValidator_cases e addr) as [->|(vs & Hr & Hl & ->)]; [done|].
  apply remove_first_length in Hr. split; [split; [by apply cache_ok_cleared|done]|].
  cbn. intros ->. cbn in Hr. lia.
Qed.

Lemma RemoveValidator_ok' e addr : engine_ok e -> engine_ok (RemoveValidator e addr).
Proof.
  intros Hok. destruct (RemoveValidator_cases e addr) as [->|(vs & Hr & Hl & ->)]; [done|].
  split; [by apply cache_ok_cleared|done].
Qed.

Lemma noncompliant_ok e m : engine_ok e -> engine_ok (set_noncompliant e m).
Proof. by intros [? ?]. Qed.

Lemma engine_ok_verify e b e' r :
  engine_ok e -> Verify e b = Some (e', r) -> engine_ok e' /\ Validators e' = Validators e.
Proof.
  intros Hok. unfold Verify. destruct (_ <? _)%nat; [by intros [= <- _]|].
  destruct (SigToPub _ _) as [pk|]; [|by intros [= <- _]].
  destruct (Number (BHeader b)) as [z|]; [|done]. cbn [mbind option_bind].
  destruct (GetLeader e _) as [[e1 a]|] eqn:Hg; [|done]. cbn [mbind option_bind].
  destruct (engine_ok_leaders _ _ _ _ Hok Hg). case_bool_decide; by intros [= <- _].
Qed.

Lemma engine_ok_simulate sort now e parent txs e' r :
  engine_ok e -> SimulateRound sort now e parent txs None = Some (e', r) ->
  engine_ok e' /\ Validators e' = Validators e.
Proof.
  intros Hok. unfold SimulateRound. cbn [mbind option_bind].
  destruct (Number (BHeader parent)) as [z|]; [|done]. cbn [mbind option_bind].
  destruct (GetLeader e _) as [[e1 a]|] eqn:Hg; [|done]. cbn [mbind option_bind].
  destruct (privKey e1); [|done]. cbn [mbind option_bind].
  destruct (engine_ok_leaders _ _ _ _ Hok Hg).
  destruct (Seal _ _) as [b [?|?]]; by intros [= <- _].
Qed.

Lemma engine_step_ok A e e' : engine_step A e e' -> engine_ok e -> engine_ok e'.
Proof.
  destruct 1 as [e view e' a Hg|e b e' r Hv|e addr stake|e addr|e addr|e s e' HA Hs|sort now e p txs e' r Hr];
    intros Hok.
  - by apply (engine_ok_leaders e view e' a).
  - by apply (engine_ok_verify e b e' r).
  - unfold AddValidator. destruct (add_stake _ _ _) as [vs|] eqn:Ea.
    + split; [by apply cache_ok_cleared|]. destruct Hok as [_ Hf]. cbn. rewrite Hf.
      symmetry. by eapply add_stake_tolerance.
    + split; [by apply cache_ok_cleared|done].
  - by apply RemoveValidator_ok'.
  - unfold RecordNonCompliance, Slash. destruct (1000 <=? _); [apply RemoveValidator_ok'|];
      by apply noncompliant_ok.
  - unfold SyncValidators in Hs. destruct (_ =? 0); [by injection Hs as <-|].
    destruct (sync_loop _ _ _ _) as [vs|]; [|done]. injection Hs as <-.
    split; [by apply cache_ok_cleared|done].
  - by apply (engine_ok_simulate sort now e p txs e' r).
Qed.

Lemma engine_reachable_ok A vs key e : rtc (engine_step A) (NewZelius vs key) e -> engine_ok e.
Proof.
  intros H. assert (engine_ok (NewZelius vs key)) as H0 by (split; [by apply cache_ok_cleared|done]).
  revert H0. induction H as [|e1 e2 e3 H12 _ IH]; [done|]. intros H1. apply IH. by eapply engine_step_ok.
Qed.
End Reachable.

(** ** The registry loop *)

Section Sync.
Context {C : Crypto} {V : Verkle}.

Lemma sync_loop_spec fuel s (i n : u64) :
  uval n < 2 ^ 64 - 1 -> (Z.to_nat (uval n - uval i + 1) <= fuel)%nat ->
  sync_loop fuel s i n = Some ((fun j => sync_entry s (wd j)) <$> seqZ (uval i) (uval n - uval i + 1)).
Proof.
  intros Hn. revert i. induction fuel as [|fuel IH]; intros i Hf; cbn [sync_loop];
    destruct (Z.leb_spec (uval i) (uval n)) as [Hi|Hi].
  - lia.
  - by rewrite seqZ_nil by lia.
  - assert (uval (wadd i (wd 1)) = uval i + 1) as Hi1.
    { pose proof (uval_range i). change (Z.of_N 64) with 64 in *.
      assert (uval (wd (w:=64) 1) = 1) as H1 by done.
      rewrite uval_wadd, H1; [done|]. rewrite H1. change (Z.of_N 64) with 64; lia. }
    rewrite IH by (rewrite Hi1; lia). rewrite Hi1. cbn [mbind option_bind].
    rewrite (seqZ_cons (uval i)) by lia. rewrite fmap_cons, wd_uval. do 3 f_equal.
    unfold Z.succ, Z.pred. f_equal. lia.
  - by rewrite seqZ_nil by lia.
Qed.

(** When the counter would have to pass 2^64 - 1 the loop never ends. *)
Lemma sync_loop_diverges fuel s i : sync_loop fuel s i (wd (2 ^ 64 - 1)) = None.
Proof.
  revert i. induction fuel as [|fuel IH]; intros i; cbn [sync_loop];
    rewrite (proj2 (Z.leb_le _ _)); [done| |by rewrite IH|];
    pose proof (uval_range i); change (Z.of_N 64) with 64 in *;
    rewrite uval_wd_small by (change (Z.of_N 64) with 64; lia); lia.
Qed.

Lemma SyncValidators_spec e s :
  let count := hash_big (GetState s sync_validatorAddr zero_hash) in
  0 < count < 2 ^ 64 - 1 ->
  let vs := (fun j => sync_entry s (wd j)) <$> seqZ 1 count in
  SyncValidators e s = Some (RecalculateSchedule (set_fault (set_validators e vs) (tolerance vs))).
Proof.
  intros count Hc vs. unfold SyncValidators. fold count. rewrite (proj2 (Z.eqb_neq _ _)) by lia.
  assert (uval (big_uint64 count) = count) as Hu.
  { unfold big_uint64. rewrite Z.abs_eq by lia. apply uval_wd_small. change (Z.of_N 64) with 64. lia. }
  assert (uval (wd (w:=64) 1) = 1) as H1 by done.
  rewrite sync_loop_spec by (rewrite ?Hu, ?H1; lia). rewrite Hu, H1. cbn [mbind option_bind].
  replace (count - 1 + 1) with count by lia. done.
Qed.
End Sync.

(** ** Theorems *)

Section Theorems.
Context {C : Crypto} {CL : CryptoLaws C} {V : Verkle}.
Implicit Types (e : ZeliusEngine) (vs : list Validator) (b : Block).

(** C4: Leader agreement. Two engines that reached the same validator list, through any
    histories of elections, block verifications, membership changes, slashings and
    reloads, elect the same leader for every view: the cache of past elections never
    makes a difference, and the result is the election function of the list. *)
Theorem leader_agreement A1 A2 vs1 vs2 k1 k2 e1 e2 view :
  rtc (engine_step A1) (NewZelius vs1 k1) e1 -> rtc (engine_step A2) (NewZelius vs2 k2) e2 ->
  Validators e1 = Validators e2 ->
  snd <$> GetLeader e1 view = snd <$> GetLeader e2 view /\
  snd <$> GetLeader e1 view = leader_of (Validators e1) view.
Proof.
  intros H1 H2 Hv. apply engine_reachable_ok in H1 as [H1 _]. apply engine_reachable_ok in H2 as [H2 _].
  pose proof (GetLeader_spec e1 view H1) as L1. pose proof (GetLeader_spec e2 view H2) as L2.
  rewrite <- Hv in L2. destruct (GetLeader e1 view) as [[e1' a1]|], (GetLeader e2 view) as [[e2' a2]|]; cbn.
  - destruct L1 as [L1 _], L2 as [L2 _]. split; congruence.
  - destruct L1. congruence.
  - destruct L2. congruence.
  - done.
Qed.

(** C29: The engine never panics. From a non-empty validator list, and reloading only from
    states whose registry holds a 64-bit count, every reachable engine has validators,
    tolerates f with 3f < n, and elects for every view one of its validators. *)
Theorem engine_never_panics vs key e view :
  vs <> [] ->
  rtc (engine_step (fun s => hash_big (GetState s sync_validatorAddr zero_hash) < 2 ^ 64 - 1))
    (NewZelius vs key) e ->
  Validators e <> [] /\ 3 * fault e < Z.of_nat (length (Validators e)) /\
  exists e' a, GetLeader e view = Some (e', a) /\ a ∈ v_address <$> Validators e.
Proof.
  intros Hne Hr.
  assert (engine_ok e /\ Validators e <> []) as [[Hc Hf] Hv].
  { assert (engine_ok (NewZelius vs key) /\ Validators (NewZelius vs key) <> []) as H0.
    { split; [split; [by apply cache_ok_cleared|done]|done]. }
    revert H0. induction Hr as [|e1 e2 e3 H12 _ IH]; [done|]. intros [H1 Hn]. apply IH.
    split; [by eapply engine_step_ok|]. clear IH e3.
    destruct H12 as [e view' e' a Hg|e b e' r Hg|e addr stake|e addr|e addr|e s e' HA Hs|srt now e p txs e' r Hg].
    - destruct (engine_ok_leaders _ _ _ _ H1 Hg) as [_ ->]. done.
    - destruct (engine_ok_verify _ _ _ _ H1 Hg) as [_ ->]. done.
    - unfold AddValidator. destruct (add_stake _ _ _) as [w|] eqn:Ea; cbn.
      + intros ->. apply add_stake_length in Ea. by destruct (Validators e).
      + by destruct (Validators e).
    - by apply RemoveValidator_ok.
    - unfold RecordNonCompliance, Slash. destruct (1000 <=? _); [|done].
      apply RemoveValidator_ok; [by apply noncompliant_ok|done].
    - destruct (Z.eqb_spec (hash_big (GetState s sync_validatorAddr zero_hash)) 0) as [E|E].
      + unfold SyncValidators in Hs. rewrite E in Hs. by injection Hs as <-.
      + assert (0 <= hash_big (GetState s sync_validatorAddr zero_hash)).
        { rewrite hash_big_uval. apply uval_range. }
        rewrite SyncValidators_spec in Hs by lia. injection Hs as <-. cbn.
        rewrite (seqZ_cons 1) by lia. done.
    - destruct (engine_ok_simulate _ _ _ _ _ _ _ H1 Hg) as [_ ->]. done. }
  split_and!; [done| |].
  - rewrite Hf. unfold tolerance. destruct (Validators e) as [|v l]; [done|]. cbn [length].
    rewrite Z.quot_div_nonneg by lia. zmod.
  - pose proof (GetLeader_spec e view Hc) as L. destruct (leader_of_total (Validators e) view Hv) as [a Ha].
    destruct (GetLeader e view) as [[e' a']|]; [|congruence].
    destruct L as (L & _). exists e', a'. split; [done|]. by eapply leader_of_elem.
Qed.

(** Elections follow the stakes. With non-negative stakes that are not all zero the
    leader of a view is the validator in whose cumulative-stake interval the
    view's hash falls: at index i, the target is at most the stake of the first i+1
    validators and, unless i is 0, more than the stake of the first i. *)
Theorem leader_interval vs key view :
  (forall v, v ∈ vs -> 0 <= v_stake v) -> sumZ v_stake vs <> 0 ->
  let target := view_target view (sumZ v_stake vs) in
  exists i v e', vs !! i = Some v /\ GetLeader (NewZelius vs key) view = Some (e', v_address v) /\
    target <= sumZ v_stake (take (S i) vs) /\ (i <> 0%nat -> sumZ v_stake (take i vs) < target).
Proof.
  intros Hs Hne target.
  assert (cache_ok (NewZelius vs key)) as Hc by by apply cache_ok_cleared.
  pose proof (GetLeader_spec _ view Hc) as L.
  rewrite (leader_of_weighted vs view) in L by done. fold target in L.
  destruct (GetLeader _ _) as [[e' a]|].
  - destruct L as (Hp & _). apply pick_leader_spec in Hp as (i & v & Hi & <- & Ht & Hj).
    exists i, v, e'. split_and!; [done..|lia|]. intros Hi0. destruct i as [|i]; [done|].
    specialize (Hj i ltac:(lia)). lia.
  - exfalso. destruct (leader_of_total vs view) as [a Ha]; [by intros ->|].
    rewrite leader_of_weighted in Ha by done. fold target in Ha. congruence.
Qed.

(** The comparison in the election is off by one. The last validator of the list
    needs a stake of two to be elected: with a stake of one it is the leader of no
    view; and the first validator is the leader of every view whose target is zero,
    even with no stake at all. *)
Theorem leader_off_by_one vs first rest last key view :
  vs = first :: rest ++ [last] ->
  (forall v, v ∈ vs -> 0 <= v_stake v) -> sumZ v_stake vs <> 0 -> NoDup (v_address <$> vs) ->
  (v_stake last = 1 -> snd <$> GetLeader (NewZelius vs key) view <> Some (v_address last)) /\
  (view_target view (sumZ v_stake vs) = 0 ->
     snd <$> GetLeader (NewZelius vs key) view = Some (v_address first)).
Proof.
  intros Hvs Hs Hne HN.
  assert (cache_ok (NewZelius vs key)) as Hc by by apply cache_ok_cleared.
  pose proof (GetLeader_spec _ view Hc) as L.
  assert (snd <$> GetLeader (NewZelius vs key) view
          = pick_leader vs 0 (view_target view (sumZ v_stake vs))) as ->.
  { rewrite <- leader_of_weighted by done. destruct (GetLeader _ _) as [[e' a]|]; cbn; [|done].
    by destruct L. }
  clear L Hc. set (t := view_target _ _).
  assert (t < sumZ v_stake vs) as Ht.
  { pose proof (sumZ_nonneg v_stake vs Hs). unfold t, view_target.
    pose proof (Z.mod_pos_bound (be_val (hash_bytes (keccak256 (be_bytes (uval view)))))
                  (Z.abs (sumZ v_stake vs)) ltac:(lia)). lia. }
  split.
  - intros Hl Hp. apply pick_leader_spec in Hp as (i & v & Hi & Ha & _ & Hj).
    assert (i = S (length rest)) as ->.
    { apply (NoDup_lookup (v_address <$> vs) i (S (length rest)) (v_address last)); [done| |].
      - by rewrite list_lookup_fmap, Hi, <- Ha.
      - rewrite list_lookup_fmap, Hvs.
        change ((first :: rest ++ [last]) !! S (length rest)) with ((rest ++ [last]) !! length rest).
        rewrite lookup_app_r, Nat.sub_diag by lia. done. }
    specialize (Hj (length rest) ltac:(lia)). rewrite Hvs in Hj, Ht. cbn [take] in Hj.
    rewrite take_app_length in Hj. autorewrite with zeph_rw in Hj, Ht.
    rewrite sumZ_app in Ht. autorewrite with zeph_rw in Ht. lia.
  - intros Ht0. rewrite Ht0, Hvs. cbn [pick_leader].
    assert (0 <= v_stake first) by (apply Hs; rewrite Hvs; set_solver). zcase. done.
Qed.

(** Sealing and verifying a block without extra data. *)
(** A block whose extra data is its signature: any engine that knows the leader of its
    number decides on it. *)
Lemma signed_verifies e b key sig n e' leader :
  ExtraData (BHeader b) = [] -> Number (BHeader b) = Some n ->
  Sign (hash_bytes (BlockHash b)) key = Some sig ->
  GetLeader e (big_uint64 n) = Some (e', leader) ->
  let signer := PubkeyToAddress (pub_of key) in
  Verify e (NewBlock (set_extra (BHeader b) sig) (Transactions b))
  = Some (e', if decide (leader = signer) then Ok tt else Err (ErrWrongLeader leader signer)).
Proof.
  intros Hx Hn Hs Hg signer. pose proof (sign_length _ _ _ Hs) as Hl.
  assert (set_extra (BHeader b) [] = BHeader b) as Hb.
  { destruct b as [[] txs]. cbn in *. by subst. }
  unfold Verify. cbn [BHeader]. cbn [ExtraData set_extra]. rewrite Hl. cbn [Nat.ltb Nat.leb Nat.sub].
  rewrite drop_0, take_0.
  replace (BlockHash (NewBlock (set_extra (set_extra (BHeader b) sig) []) [])) with (BlockHash b).
  2:{ unfold BlockHash. cbn [BHeader]. f_equal. rewrite <- Hb at 1. done. }
  rewrite (sign_recover _ _ _ Hs). cbn [Number set_extra]. rewrite Hn. cbn [mbind option_bind].
  rewrite Hg. cbn [mbind option_bind]. fold signer.
  case_bool_decide; by case_decide.
Qed.

(** Sealing a block without extra data signs its hash and appends the signature. *)
Lemma Seal_empty e b :
  ExtraData (BHeader b) = [] ->
  Seal e b = match privKey e with
             | None => (b, Err ErrReadonly)
             | Some key => match Sign (hash_bytes (BlockHash b)) key with
                           | None => (b, Err ErrSign)
                           | Some sig => (NewBlock (set_extra (BHeader b) sig) (Transactions b), Ok tt)
                           end
             end.
Proof.
  intros Hx. unfold Seal. destruct (privKey e) as [key|]; [|done].
  assert (set_extra (BHeader b) [] = BHeader b) as Hb.
  { destruct b as [[] txs]. cbn in *. by subst. }
  rewrite Hb, Hx. replace (NewBlock (BHeader b) (Transactions b)) with b by (by destruct b).
  by destruct (Sign _ key).
Qed.

Lemma sealed_verifies e b key sig n e' leader :
  privKey e = Some key -> ExtraData (BHeader b) = [] -> Number (BHeader b) = Some n ->
  Sign (hash_bytes (BlockHash b)) key = Some sig ->
  GetLeader e (big_uint64 n) = Some (e', leader) ->
  let signer := PubkeyToAddress (pub_of key) in
  exists b', Seal e b = (b', Ok tt) /\
    b' = NewBlock (set_extra (BHeader b) sig) (Transactions b) /\
    Verify e b' = Some (e', if decide (leader = signer) then Ok tt
                            else Err (ErrWrongLeader leader signer)).
Proof.
  intros Hk Hx Hn Hs Hg signer. eexists. rewrite Seal_empty, Hk, Hs by done.
  split_and!; [done..|]. by apply (signed_verifies e b key sig n).
Qed.

(** C13: A block sealed by the elected leader verifies. Sealing a block without extra
    data appends the 65-byte signature and changes nothing else, and [Verify] recovers
    the signer: the result is success when the signer is the leader of the block's
    number, and the wrong-leader error with both addresses otherwise. The verdict and
    the block hash stay the same when the transactions of the sealed block are
    replaced: no header field commits to them. *)
Theorem seal_verify e b key sig n e' leader :
  privKey e = Some key -> ExtraData (BHeader b) = [] -> Number (BHeader b) = Some n ->
  Sign (hash_bytes (BlockHash b)) key = Some sig ->
  GetLeader e (big_uint64 n) = Some (e', leader) ->
  let signer := PubkeyToAddress (pub_of key) in
  exists b', Seal e b = (b', Ok tt) /\
    b' = NewBlock (set_extra (BHeader b) sig) (Transactions b) /\
    forall txs, let forged := NewBlock (BHeader b') txs in
      BlockHash forged = BlockHash b' /\
      Verify e forged = Some (e', if decide (leader = signer) then Ok tt
                                  else Err (ErrWrongLeader leader signer)).
Proof.
  intros Hk Hx Hn Hs Hg signer.
  destruct (sealed_verifies e b key sig n e' leader) as (b' & Hseal & Hb & Hver); try done.
  exists b'. split_and!; [done..|]. intros txs forged. split; [done|]. exact Hver.
Qed.

(** Sealing a block that already carries extra data produces a block that [Verify]
    rejects: [Seal] signs the header with the extra data removed, [Verify] hashes it with
    the extra data kept. (The hypotheses say that the two header encodings do not
    collide and that a signature does not recover to its signer under another digest.) *)
Theorem seal_extra_rejected e b b' key sig n e' leader :
  let h := BHeader b in
  let digest := hash_bytes (HeaderHash (set_extra h [])) in
  header_ok h -> ExtraData h <> [] -> Number h = Some n -> privKey e = Some key ->
  Sign digest key = Some sig -> Seal e b = (b', Ok tt) ->
  GetLeader e (big_uint64 n) = Some (e', leader) -> leader = PubkeyToAddress (pub_of key) ->
  (header_rlp h <> header_rlp (set_extra h []) -> HeaderHash h <> HeaderHash (set_extra h [])) ->
  (forall d pk, d <> digest -> SigToPub d sig = Some pk -> PubkeyToAddress pk <> leader) ->
  exists e'' err, Verify e b' = Some (e'', Err err).
Proof.
  intros h digest Hok Hx Hn Hk Hs Hseal Hg Hl Hcol Hforge.
  pose proof (sign_length _ _ _ Hs) as Hlen.
  assert (HeaderHash h <> HeaderHash (set_extra h [])) as Hne.
  { apply Hcol. intros E. assert (header_ok (set_extra h [])) as Hok'.
    { destruct Hok as (Hn1 & Hd1 & Hb1 & _). refine (conj Hn1 (conj Hd1 (conj Hb1 _))). by vm_compute. }
    destruct (header_rlp_total h Hok) as [r Hr].
    pose proof (header_rlp_inj h (set_extra h []) r Hok Hok' Hr) as H.
    rewrite <- E in H. specialize (H Hr). apply (f_equal ExtraData) in H. by cbn in H. }
  unfold Seal in Hseal. rewrite Hk in Hseal. fold h in Hseal. cbn [BHeader Transactions] in Hseal.
  change (BlockHash (NewBlock (set_extra h []) (Transactions b))) with (HeaderHash (set_extra h [])) in Hseal.
  fold digest in Hseal. rewrite Hs in Hseal.
  destruct (ExtraData h) as [|x0 xs] eqn:Ex; [done|]. rewrite <- Ex in *.
  replace (0 <? length (ExtraData h))%nat with true in Hseal by (by rewrite Ex).
  injection Hseal as <-.
  unfold Verify. cbn [BHeader]. cbn [ExtraData set_extra]. rewrite length_app, Hlen.
  rewrite (proj2 (Nat.ltb_ge _ _)) by lia. rewrite Nat.add_sub, drop_app_length, take_app_length.
  replace (BlockHash _) with (HeaderHash h).
  2:{ unfold BlockHash, h. cbn [BHeader]. by destruct (BHeader b). }
  destruct (SigToPub _ sig) as [pk|] eqn:Hp; [|by eexists _, _].
  cbn [Number set_extra]. rewrite Hn. cbn [mbind option_bind]. rewrite Hg. cbn [mbind option_bind].
  rewrite bool_decide_eq_false_2; [by eexists _, _|]. intros E. symmetry in E. revert E.
  apply (Hforge (hash_bytes (HeaderHash h))); [|done]. intros E. apply hash_bytes_inj in E. done.
Qed.

(** The counter of an address after [n] more reports, below the limit. *)
Lemma noncompliance_count e addr c n :
  NonCompliantValidators e !! addr = c -> (0 <= default 0 c) -> default 0 c + Z.of_nat n < 1000 ->
  let e' := Nat.iter n (fun e => RecordNonCompliance e addr) e in
  Validators e' = Validators e /\
  default 0 (NonCompliantValidators e' !! addr) = default 0 c + Z.of_nat n.
Proof.
  intros Hc H0 Hn e'. subst e'. induction n as [|n IH].
  { split; [done|]. cbn [Nat.iter nat_rect]. rewrite Hc. lia. }
  destruct IH as [IHv IHc]; [lia|]. set (f := fun e => _) in *.
  change (Nat.iter (S n) f e) with (f (Nat.iter n f e)). set (e' := Nat.iter n f e) in *.
  unfold f at 1 2.
  unfold RecordNonCompliance. rewrite IHc. rewrite (proj2 (Z.leb_gt _ _)) by lia. cbn.
  rewrite lookup_insert_eq. cbn. split; [done|lia].
Qed.

Lemma noncompliance_limit e addr m :
  NonCompliantValidators e !! addr = None -> Z.of_nat m = 999 ->
  let e' := RecordNonCompliance (Nat.iter m (fun e => RecordNonCompliance e addr) e) addr in
  Validators e'
  = (if (length (Validators e) <=? 1)%nat then Validators e
     else default (Validators e) (remove_first (Validators e) addr)) /\
  (forall vs, (1 < length (Validators e))%nat -> remove_first (Validators e) addr = Some vs ->
     fault e' = tolerance vs).
Proof.
  intros Hc Hm. destruct (noncompliance_count e addr None m) as [Hv Hk]; [done|cbn; lia|cbn; lia|].
  set (e' := Nat.iter m _ e) in *. clearbody e'. unfold RecordNonCompliance.
  rewrite Hk, Hm. change (1000 <=? _ + _ + 1) with true. cbv iota.
  unfold Slash, RemoveValidator. cbn [Validators set_noncompliant]. rewrite Hv. split.
  - destruct (_ <=? 1)%nat; [done|]. by destruct (remove_first _ _).
  - intros vs Hl Hr. rewrite (proj2 (Nat.leb_gt _ _)) by lia. by rewrite Hr.
Qed.

Lemma iter_1000 {A : Type} (g : A -> A) x : Nat.iter 1000 g x = g (Nat.iter 999 g x).
Proof. done. Qed.

(** Slashing. A validator is removed exactly at its thousandth recorded
    non-compliance: after fewer reports the validator list is unchanged, at the thousandth
    the first entry with its address is gone (unless it is the last validator of the
    network, which is kept), and the fault threshold is that of the shorter list. *)
Theorem noncompliance_slashes e addr n :
  NonCompliantValidators e !! addr = None -> (n < 1000)%nat ->
  let report := fun e => RecordNonCompliance e addr in
  Validators (Nat.iter n report e) = Validators e /\
  Validators (Nat.iter 1000 report e)
  = (if (length (Validators e) <=? 1)%nat then Validators e
     else default (Validators e) (remove_first (Validators e) addr)) /\
  (forall vs, (1 < length (Validators e))%nat -> remove_first (Validators e) addr = Some vs ->
     fault (Nat.iter 1000 report e) = tolerance vs).
Proof.
  intros Hc Hn report.
  split; [apply (noncompliance_count e addr None); [done|cbn; lia|cbn; lia]|].
  rewrite iter_1000. apply noncompliance_limit; [done|reflexivity].
Qed.

(** A simulated round extends its parent. The block it returns points to the parent,
    has the next number, contains the given transactions in nonce order, is credited to
    the local key, and passes [Verify] exactly when the local key is the leader of its
    number: the round never checks that it is its turn. *)
Theorem simulate_round_block sort now e parent txs key n e' leader sig :
  (forall l, sort l ≡ₚ l /\ Sorted (fun t t' => uval (tx_nonce t) <= uval (tx_nonce t')) (sort l)) ->
  engine_ok e -> privKey e = Some key -> Number (BHeader parent) = Some n ->
  let me := PubkeyToAddress (pub_of key) in
  let h := mkHeader (BlockHash parent) (Some (n + 1)) now zero_hash zero_hash me [] (Some 0)
             (wd 30000000) (wd 0) (Some 10) in
  Sign (hash_bytes (HeaderHash h)) key = Some sig ->
  GetLeader e (big_uint64 (n + 1)) = Some (e', leader) ->
  exists b e'' r, SimulateRound sort now e parent txs None = Some (e', Ok b) /\
    BHeader b = set_extra h sig /\ Transactions b ≡ₚ txs /\
    Sorted (fun t t' => uval (tx_nonce t) <= uval (tx_nonce t')) (Transactions b) /\
    Verify e' b = Some (e'', r) /\ (r = Ok tt <-> leader = me).
Proof.
  intros Hsort Hok Hk Hn me h Hs Hg.
  pose proof (engine_ok_leaders _ _ _ _ Hok Hg) as [[Hc' _] Hv'].
  pose proof (GetLeader_spec e (big_uint64 (n + 1)) (proj1 Hok)) as L1. rewrite Hg in L1.
  destruct L1 as (Hl & _ & m & He').
  assert (privKey e' = Some key) as Hk' by (by rewrite He').
  assert (exists e'', GetLeader e' (big_uint64 (n + 1)) = Some (e'', leader)) as [e'' Hg'].
  { pose proof (GetLeader_spec e' (big_uint64 (n + 1)) Hc') as L. rewrite Hv', Hl in L.
    destruct (GetLeader e' _) as [[e'' a]|]; [|done]. exists e''. by destruct L as ([= <-] & _). }
  destruct (Hsort txs) as [Hp Hso].
  set (b0 := NewBlock h (sort txs)).
  destruct (sealed_verifies e' b0 key sig (n + 1) e'' leader) as (b & Hseal & Hb & Hver); try done.
  eexists b, e'', _. split_and!; [|by rewrite Hb|by rewrite Hb..|done|].
  - unfold SimulateRound. cbn [mbind option_bind]. rewrite Hn. cbn [mbind option_bind].
    rewrite Hg. cbn [mbind option_bind]. rewrite Hk'. cbn [mbind option_bind concat].
    rewrite app_nil_r. fold me. fold h. fold b0. by rewrite Hseal.
  - case_decide; naive_solver.
Qed.
End Theorems.
