(* ===== verification/Genesis.v ===== *)
(** * Genesis: core/genesis.go, the network parameters and the genesis block. *)

From S2P Require Import Prelude Words Interfaces Rlp Types Hex StateDB Consensus.

(** ** Records *)

Record SystemParams := mkSystemParams {
  StakingAddr : Address;
  RewardAddr : Address;
  ValidatorAddr : Address;
  DefaultGasLimit : u64;
  DefaultBaseFee : Z
}.

(** [BlockTimeout] in nanoseconds ([time.Duration]). *)
Record ConsensusConfig := mkConsensusConfig { BlockTimeout : Z }.

Record NetworkConfig := mkNetworkConfig {
  ChainID : Z;
  GenesisTime : u64;
  GenesisHash : Hash;
  cfg_Difficulty : Z;
  cfg_GasLimit : u64;
  cfg_BaseFee : option Z;
  cfg_Coinbase : Address;
  Alloc : gmap Address u256;
  cfg_Validators : list Validator;
  ConsensusCfg : ConsensusConfig;
  Params : SystemParams
}.

(** The fields of go-ethereum's [params.ChainConfig] the node sets: the fork
    blocks and times. *)
Record ChainConfig := mkChainConfig {
  cc_ChainID : Z;
  HomesteadBlock : option Z;
  DAOForkBlock : option Z;
  EIP150Block : option Z;
  EIP155Block : option Z;
  EIP158Block : option Z;
  ByzantiumBlock : option Z;
  ConstantinopleBlock : option Z;
  PetersburgBlock : option Z;
  IstanbulBlock : option Z;
  MuirGlacierBlock : option Z;
  BerlinBlock : option Z;
  LondonBlock : option Z;
  ArrowGlacierBlock : option Z;
  GrayGlacierBlock : option Z;
  MergeNetsplitBlock : option Z;
  ShanghaiTime : option u64;
  CancunTime : option u64
}.

Definition forks_from_genesis (id : Z) : ChainConfig :=
  mkChainConfig id (Some 0) (Some 0) (Some 0) (Some 0) (Some 0) (Some 0) (Some 0) (Some 0)
    (Some 0) (Some 0) (Some 0) (Some 0) None None None (Some (wd 0)) (Some (wd 0)).

(** [(c *NetworkConfig) ChainConfig()] *)
Definition network_ChainConfig (c : NetworkConfig) : ChainConfig := forks_from_genesis (ChainID c).

Definition DefaultChainConfig : ChainConfig := forks_from_genesis 99999.

(** ** Literals *)

Definition addr_lit (s : string) : Address := HexToAddress (bytes_of_string s).
Definition validator_lit (s : string) : Validator := mkValidator (addr_lit s) 100.

Definition DefaultValidators : list Validator :=
  validator_lit <$> ["0xf39Fd6e51aad88F6F4ce6aB8827279cffFb92266";
                     "0x96216849c49358B10257cb55b28eA603c874b05E";
                     "0x627306090abaB3A6e1400e9345bC60c78a8BEf57";
                     "0xf17f52151EbEF6C7334FAD080c5704D77216b732"]%string.

Definition SimulationValidators : list Validator :=
  validator_lit <$> ["0xf39Fd6e51aad88F6F4ce6aB8827279cffFb92266";
                     "0x70997970C51812dc3A010C7d01b50e0d17dc79C8";
                     "0x3C44CdDdB6a900fa2b585dd299e03d12FA4293BC";
                     "0x90F79bf6EB2c4f870365E785982E1f101E93b906"]%string.

(** The system addresses and defaults are the same on every network. *)
Definition default_params : SystemParams :=
  mkSystemParams (addr_lit "0x0000000000000000000000000000000000001000")
    (addr_lit "0x0000000000000000000000000000000000002000")
    (addr_lit "0x0000000000000000000000000000000000003000") (wd 60000000) 1000000000.

(** [time.Date(2025, 1, 1, 0, 0, 0, 0, time.UTC).Unix()] *)
Definition jan_2025 : u64 := wd 1735689600.

Definition genesis_hash_lit : Hash :=
  HexToHash (bytes_of_string "0x8cdc37cd690b6c953ea305b357eba4b443a844932e6bf99ccc06f659e6e10b5a").

Definition dev_addr : Address := addr_lit "0xf39Fd6e51aad88F6F4ce6aB8827279cffFb92266".

(** [GenesisAlloc]: later entries overwrite earlier ones. *)
Definition GenesisAlloc (p : SystemParams) : gmap Address u256 :=
  let balance := (FromBig 1000000000000000000000000).1 in
  let sysBal := (FromBig 1000000000000000000).1 in
  let reqAddr := addr_lit "0xfc77dd2e36da5546258f6c25cf0f71d1460aaff0" in
  let reqBal := (FromBig 10000000000000000000000).1 in
  <[reqAddr := reqBal]> (<[ValidatorAddr p := sysBal]> (<[RewardAddr p := sysBal]>
    (<[StakingAddr p := sysBal]> (<[dev_addr := balance]> ∅)))).

(** The four networks, by the name in the configuration; any other name is the
    devnet. *)
Inductive network := Mainnet | Testnet | Simulation | Devnet.

Definition network_of (name : string) : network :=
  if String.eqb name "mainnet" then Mainnet
  else if String.eqb name "testnet" then Testnet
  else if String.eqb name "simulation" then Simulation
  else Devnet.

Definition GetNetworkConfig (name : string) : NetworkConfig :=
  let cfg id fee vals ms :=
    mkNetworkConfig id jan_2025 genesis_hash_lit 1 (wd 60000000) fee dev_addr
      (GenesisAlloc default_params) vals (mkConsensusConfig (ms * 1000000)) default_params in
  match network_of name with
  | Mainnet => cfg 999 (Some 1000000000) DefaultValidators 1000
  | Testnet => cfg 9999 None DefaultValidators 500
  | Simulation => cfg 1338 None SimulationValidators 500
  | Devnet => cfg 99999 (Some 1000000000)
                [validator_lit "0xf39Fd6e51aad88F6F4ce6aB8827279cffFb92266"] 200
  end.

Definition GenerateGenesisBlock (cfg : NetworkConfig) : Block :=
  NewBlock (mkHeader zero_hash (Some 0) (GenesisTime cfg) zero_hash zero_hash (cfg_Coinbase cfg) []
              (Some (cfg_Difficulty cfg)) (cfg_GasLimit cfg) (wd 0) (cfg_BaseFee cfg)) [].

(** ** Facts about the configurations *)

Lemma default_params_values :
  uval (StakingAddr default_params) = 0x1000 /\ uval (RewardAddr default_params) = 0x2000 /\
  uval (ValidatorAddr default_params) = 0x3000.
Proof. by vm_compute. Qed.

Lemma GetNetworkConfig_params name : Params (GetNetworkConfig name) = default_params.
Proof. unfold GetNetworkConfig. by destruct (network_of name). Qed.

Lemma genesis_header_ok cfg r :
  0 <= cfg_Difficulty cfg < 2 ^ 256 -> 0 <= default 0 (cfg_BaseFee cfg) < 2 ^ 256 ->
  header_ok (set_root (BHeader (GenerateGenesisBlock cfg)) r).
Proof. intros Hd Hb. split_and!; cbn in *; try lia. by vm_compute. Qed.

(** The validators of every network are distinct and have positive stake. *)
Lemma network_validators_ok name :
  let vs := cfg_Validators (GetNetworkConfig name) in
  vs <> [] /\ NoDup (v_address <$> vs) /\ Forall (fun v => 0 < v_stake v) vs.
Proof.
  unfold GetNetworkConfig.
  destruct (network_of name); (split_and!; [by vm_compute| |by repeat constructor]);
    apply (bool_decide_unpack _); by vm_compute.
Qed.

(** One genesis hash cannot serve all networks. The four configurations expect the same
    genesis hash and allocate the same state, but the genesis headers of a network with
    a base fee and of one without have different encodings, whatever the state root:
    unless the hash collides, the start-up check against [GenesisHash] fails on at
    least two of the four networks. *)
Theorem genesis_hash_conflict {C : Crypto} (r : Hash) n1 n2 :
  let c1 := GetNetworkConfig n1 in
  let c2 := GetNetworkConfig n2 in
  let h1 := set_root (BHeader (GenerateGenesisBlock c1)) r in
  let h2 := set_root (BHeader (GenerateGenesisBlock c2)) r in
  cfg_BaseFee c1 = None -> cfg_BaseFee c2 <> None ->
  (header_rlp h1 <> header_rlp h2 -> HeaderHash h1 <> HeaderHash h2) ->
  Alloc c1 = Alloc c2 /\ GenesisHash c1 = GenesisHash c2 /\
  ~ (HeaderHash h1 = GenesisHash c1 /\ HeaderHash h2 = GenesisHash c2).
Proof.
  intros c1 c2 h1 h2 H1 H2 Hcol.
  assert (forall n, Alloc (GetNetworkConfig n) = GenesisAlloc default_params /\
    GenesisHash (GetNetworkConfig n) = genesis_hash_lit /\ cfg_Difficulty (GetNetworkConfig n) = 1 /\
    (cfg_BaseFee (GetNetworkConfig n) = None \/ cfg_BaseFee (GetNetworkConfig n) = Some 1000000000)) as Hn.
  { intros n. unfold GetNetworkConfig. destruct (network_of n); split_and!; cbn; auto. }
  destruct (Hn n1) as (Ha1 & Hg1 & Hd1 & _), (Hn n2) as (Ha2 & Hg2 & Hd2 & Hb2).
  fold c1 in Ha1, Hg1, Hd1. fold c2 in Ha2, Hg2, Hd2, Hb2.
  split_and!; [congruence..|]. intros [E1 E2]. apply Hcol; [|congruence].
  destruct Hb2 as [Hb2|Hb2]; [done|]. clear Hcol E1 E2.
  assert (header_ok h1) as Hok1 by (apply genesis_header_ok; rewrite ?Hd1, ?H1; cbn; lia).
  assert (header_ok h2) as Hok2 by (apply genesis_header_ok; rewrite ?Hd2, ?Hb2; cbn; lia).
  intros E. destruct (header_rlp_total h1 Hok1) as [b Hr].
  pose proof (header_rlp_inj h1 h2 b Hok1 Hok2 Hr) as Hinj. rewrite <- E in Hinj.
  specialize (Hinj Hr). apply (f_equal BaseFee) in Hinj. unfold h1, h2 in Hinj. cbn in Hinj.
  rewrite H1, Hb2 in Hinj. discriminate.
Qed.
