(* ===== verification/SystemContracts.v ===== *)
(** * SystemContracts: core/system_contracts.go.

    The native staking and reward contracts, written as clients of the
    state interface. The staking contract stores the stakes and keeps the
    validator registry: an iterable list in the storage of [ValidatorAddr],
    with the count under key 0, index -> address and address -> index. *)

From S2P Require Import Prelude Words Interfaces Rlp Types Hex StateDB StateOps Consensus Genesis.

(** The key of an account in the storage of the system contracts. *)
Definition acct_key (a : Address) : Hash := BytesToHash (addr_bytes a).

(** ** Staking *)

Section Programs.
Context (P : SystemParams).

(** The deposit branch ([msg.Value.Sign() > 0]). *)
Definition deposit (sender : Address) (value : Z) : prog unit :=
  let valBytes := BigToHash value in
  let key := acct_key sender in
  _ ← call (OSetState (StakingAddr P) key valBytes);
  existingIndex ← call (OGetState (ValidatorAddr P) key);
  if bool_decide (existingIndex = zero_hash) then
    let countHash := zero_hash in
    c ← call (OGetState (ValidatorAddr P) countHash);
    let currentCount := hash_big c in
    let newCount := currentCount + 1 in
    _ ← call (OSetState (ValidatorAddr P) countHash (BigToHash newCount));
    let indexKey := BigToHash newCount in
    _ ← call (OSetState (ValidatorAddr P) indexKey key);
    _ ← call (OSetState (ValidatorAddr P) key indexKey);
    mret tt
  else mret tt.

(** Steps 1-5 of the swap-and-pop removal. *)
Definition swap_and_pop (key : Hash) : prog unit :=
  i ← call (OGetState (ValidatorAddr P) key);
  let indexToRemove := hash_big i in
  let countHash := zero_hash in
  c ← call (OGetState (ValidatorAddr P) countHash);
  let currentCount := hash_big c in
  _ ← (if indexToRemove <? currentCount then
         let lastIndexKey := BigToHash currentCount in
         lastAddrHash ← call (OGetState (ValidatorAddr P) lastIndexKey);
         let slotKey := BigToHash indexToRemove in
         _ ← call (OSetState (ValidatorAddr P) slotKey lastAddrHash);
         _ ← call (OSetState (ValidatorAddr P) lastAddrHash slotKey);
         mret tt
       else mret tt);
  let zero := zero_hash in
  _ ← call (OSetState (ValidatorAddr P) (BigToHash currentCount) zero);
  let newCount := currentCount - 1 in
  _ ← call (OSetState (ValidatorAddr P) countHash (BigToHash newCount));
  _ ← call (OSetState (StakingAddr P) key zero);
  _ ← call (OSetState (ValidatorAddr P) key zero);
  mret tt.

(** The withdrawal branch ([tx.Data()] is "UNSTAKE"). *)
Definition unstake (sender : Address) : prog unit :=
  let key := acct_key sender in
  storedVal ← call (OGetState (StakingAddr P) key);
  if bool_decide (storedVal = zero_hash) then mret tt
  else
    let amt256 := (FromBig (hash_big storedVal)).1 in
    bal ← call (OGetBalance (StakingAddr P));
    if uval amt256 <=? uval bal then
      _ ← call (OSubBalance (StakingAddr P) amt256);
      _ ← call (OAddBalance sender amt256);
      swap_and_pop key
    else mret tt.

(** ** Rewards *)

(** "REWARD:<addr>:<amount_hex>" *)
Definition parse_reward (data : bytes) : option (Address * Z) :=
  if (7 <? length data)%nat && bool_decide (take 7 data = bytes_of_string "REWARD:") then
    match Split_bytes (wd 58) (drop 7 data) with
    | [p0; p1] => rewardAmt ← SetString 16 p1; Some (HexToAddress p0, rewardAmt)
    | _ => None
    end
  else None.

Definition reward (data : bytes) : prog unit :=
  match parse_reward data with
  | None => mret tt
  | Some (targetAddr, rewardAmt) =>
      let amt256 := (FromBig rewardAmt).1 in
      poolBal ← call (OGetBalance (RewardAddr P));
      if uval amt256 <=? uval poolBal then
        _ ← call (OSubBalance (RewardAddr P) amt256);
        _ ← call (OAddBalance targetAddr amt256);
        mret tt
      else mret tt
  end.

(** [ProcessSystemContracts]: the reward branch follows the staking branch; with
    distinct system addresses at most one of them runs. *)
Definition ProcessSystemContracts (msg : Message) (tx : Transaction) : prog unit :=
  let sender := msg_from msg in
  _ ← (if bool_decide (msg_to msg = Some (StakingAddr P)) then
         _ ← (if 0 <? msg_value msg then deposit sender (msg_value msg) else mret tt);
         if bool_decide (tx_data tx = bytes_of_string "UNSTAKE") then unstake sender else mret tt
       else mret tt);
  if bool_decide (msg_to msg = Some (RewardAddr P)) then
    if (msg_value msg =? 0) && (0 <? length (tx_data tx))%nat then reward (tx_data tx) else mret tt
  else mret tt.

End Programs.

(** The reward command round-trips: the text "REWARD:" followed by the hexadecimal
    address, a colon and the hexadecimal amount parses back to the address and the amount. *)
Theorem reward_command_roundtrip (a : Address) (amt : bytes) :
  amt <> [] ->
  parse_reward (bytes_of_string "REWARD:" ++ hex_encode (addr_bytes a) ++ [wd 58] ++ hex_encode amt)
  = Some (a, be_val amt).
Proof.
  intros Ha. unfold parse_reward.
  rewrite take_app_length', drop_app_length' by done.
  rewrite (bool_decide_eq_true_2 (_ = _)) by done.
  rewrite (proj2 (Nat.ltb_lt _ _)).
  2:{ rewrite !length_app, length_hex_encode, length_addr_bytes. cbn. lia. }
  cbn [andb app]. rewrite Split_bytes_two by apply colon_not_hex.
  rewrite SetString_hex_encode by done. cbn. by rewrite HexToAddress_encode.
Qed.

(** ** The registry

    The abstract contents of the staking contract: the list of validators. *)

(** Externally owned accounts: an address below 2^64 would be confused with an
    index of the list. *)
Definition regular (a : Address) : Prop := 2 ^ 64 <= uval a.

Definition index_key (i : nat) : Hash := BigToHash (Z.of_nat i + 1).

Record registry (P : SystemParams) (st : AState) (vals : list Address) : Prop := {
  reg_nodup : NoDup vals;
  reg_regular : forall a, a ∈ vals -> regular a;
  reg_len : Z.of_nat (length vals) < 2 ^ 64 - 1;
  reg_count : a_storage st (ValidatorAddr P) zero_hash = BigToHash (Z.of_nat (length vals));
  reg_index : forall i a, vals !! i = Some a -> a_storage st (ValidatorAddr P) (index_key i) = acct_key a;
  reg_ptr : forall i a, vals !! i = Some a -> a_storage st (ValidatorAddr P) (acct_key a) = index_key i;
  reg_absent : forall a, regular a -> a ∉ vals -> a_storage st (ValidatorAddr P) (acct_key a) = zero_hash;
  reg_stake : forall a, regular a -> a ∈ vals <-> a_storage st (StakingAddr P) (acct_key a) <> zero_hash
}.

(** The system addresses are pairwise distinct and are not accounts of users. *)
Definition params_ok (P : SystemParams) : Prop :=
  NoDup [StakingAddr P; RewardAddr P; ValidatorAddr P] /\
  ~ regular (StakingAddr P) /\ ~ regular (RewardAddr P) /\ ~ regular (ValidatorAddr P).

(** Removal of index [i]: the last entry takes its place. *)
Definition swap_pop (vals : list Address) (i : nat) : list Address :=
  match last vals with
  | Some l => if decide (S i = length vals) then removelast vals else <[i := l]> (removelast vals)
  | None => vals
  end.

Section Keys.
Lemma uval_acct_key a : uval (acct_key a) = uval a.
Proof. apply uval_BytesToHash_addr. Qed.

Lemma acct_key_inj a b : acct_key a = acct_key b -> a = b.
Proof. apply BytesToHash_addr_inj. Qed.

Lemma uval_index_key i : Z.of_nat i < 2 ^ 64 -> uval (index_key i) = Z.of_nat i + 1.
Proof. intros. apply uval_BigToHash. lia. Qed.

Lemma index_key_inj i j :
  Z.of_nat i < 2 ^ 64 -> Z.of_nat j < 2 ^ 64 -> index_key i = index_key j -> i = j.
Proof. intros Hi Hj E. apply (f_equal uval) in E. rewrite !uval_index_key in E by done. lia. Qed.

Lemma index_key_nonzero i : Z.of_nat i < 2 ^ 64 -> index_key i <> zero_hash.
Proof. intros Hi E. apply (f_equal uval) in E. rewrite uval_index_key in E by done. change (uval zero_hash) with 0 in E. lia. Qed.

Lemma acct_key_nonzero a : regular a -> acct_key a <> zero_hash.
Proof.
  intros Ha E. apply (f_equal uval) in E. rewrite uval_acct_key in E. unfold regular in Ha.
  change (uval zero_hash) with 0 in E. lia.
Qed.

Lemma index_key_acct i a : Z.of_nat i < 2 ^ 64 - 1 -> regular a -> index_key i <> acct_key a.
Proof.
  intros Hi Ha E. apply (f_equal uval) in E. rewrite uval_acct_key, uval_index_key in E by lia.
  unfold regular in Ha. lia.
Qed.
End Keys.

(** Reads after writes on the abstract storage. *)
Lemma storage_set st a k v a' k' :
  a_storage (aset_storage st a k v) a' k'
  = if decide (a = a' /\ k = k') then v else a_storage st a' k'.
Proof.
  cbn. unfold fset. destruct (decide (a = a')) as [<-|Ha].
  - destruct (decide (k = k')) as [<-|Hk]; [by rewrite decide_True|by rewrite decide_False by naive_solver].
  - by rewrite decide_False by naive_solver.
Qed.

Lemma storage_set_eq st a k v : a_storage (aset_storage st a k v) a k = v.
Proof. rewrite storage_set. by rewrite decide_True. Qed.

Lemma storage_set_ne st a k v a' k' :
  a <> a' \/ k <> k' -> a_storage (aset_storage st a k v) a' k' = a_storage st a' k'.
Proof. intros H. rewrite storage_set. rewrite decide_False; [done|]. naive_solver. Qed.

Lemma storage_set_balance st a x : a_storage (aset_balance st a x) = a_storage st.
Proof. done. Qed.

Lemma balance_set_storage st a k v : a_balance (aset_storage st a k v) = a_balance st.
Proof. done. Qed.

#[export] Hint Rewrite storage_set_eq storage_set_balance balance_set_storage : zeph_rw.
#[export] Hint Resolve acct_key_nonzero index_key_nonzero index_key_acct : zeph.

(** [key_neq] separates two keys of the registry storage: distinct accounts have distinct
    keys, the rest is arithmetic on the key values. [ssimpl] resolves the reads of the
    abstract storage whose keys are syntactically equal or separated by [key_neq]. *)
Ltac key_neq :=
  first [ done
        | let E := fresh "E" in intros E;
          first [ apply acct_key_inj in E; congruence
                | apply (f_equal uval) in E; rewrite ?uval_acct_key, ?uval_index_key in E by lia;
                  change (uval zero_hash) with 0 in E; unfold regular in *; lia ] ].
Ltac key_ne := first [ left; congruence | right; key_neq ].
Ltac ssimpl :=
  repeat first [ rewrite storage_set_eq | rewrite storage_set_ne by key_ne
               | rewrite storage_set_balance | rewrite balance_set_storage ].

Section Registry.
Context {C : Crypto} {V : Verkle} {VL : VerkleLaws V}.
Context (P : SystemParams) (HP : params_ok P).
Implicit Types st : AState.

Lemma staking_ne_validator : StakingAddr P <> ValidatorAddr P.
Proof. destruct HP as [HN _]. apply NoDup_cons in HN as [H _]. set_solver. Qed.

Lemma regular_ne_staking a : regular a -> a <> StakingAddr P.
Proof. intros H ->. by destruct HP as (_ & ? & _). Qed.

(** *** Deposit *)

(** The state after a deposit. *)
Definition after_deposit st (sender : Address) (value : Z) : AState :=
  let key := acct_key sender in
  let st1 := aset_storage st (StakingAddr P) key (BigToHash value) in
  if decide (a_storage st (ValidatorAddr P) key = zero_hash) then
    let n := hash_big (a_storage st (ValidatorAddr P) zero_hash) + 1 in
    aset_storage (aset_storage (aset_storage st1 (ValidatorAddr P) zero_hash (BigToHash n))
      (ValidatorAddr P) (BigToHash n) key) (ValidatorAddr P) key (BigToHash n)
  else st1.

Lemma deposit_run st sender value :
  spec_run (deposit P sender value) st = Some (after_deposit st sender value, tt).
Proof.
  pose proof staking_ne_validator as Hne. unfold deposit, after_deposit.
  cbn [mbind prog_bind call mret prog_ret spec_run spec_op]. rewrite storage_set_ne by key_ne.
  case_bool_decide as E; [rewrite decide_True by done|by rewrite decide_False by done].
  cbn [mbind prog_bind call mret prog_ret spec_run spec_op]. rewrite storage_set_ne by key_ne. reflexivity.
Qed.

Lemma BigToHash_nonzero z : 0 < z < 2 ^ 256 -> BigToHash z <> zero_hash.
Proof. intros Hz E. apply (f_equal uval) in E. rewrite uval_BigToHash in E by lia. change (uval zero_hash) with 0 in E. lia. Qed.

(** The index of a registered validator is not zero. *)
Lemma registered_ptr st vals a :
  registry P st vals -> regular a ->
  (a_storage st (ValidatorAddr P) (acct_key a) = zero_hash <-> a ∉ vals).
Proof.
  intros HR Ha. split; [|apply (reg_absent _ _ _ HR); done].
  intros E Hin. apply list_elem_of_lookup in Hin as [i Hi].
  rewrite (reg_ptr _ _ _ HR i a Hi) in E. revert E. apply index_key_nonzero.
  pose proof (reg_len _ _ _ HR). apply lookup_lt_Some in Hi. lia.
Qed.

Lemma registry_count st vals :
  registry P st vals -> hash_big (a_storage st (ValidatorAddr P) zero_hash) = Z.of_nat (length vals).
Proof.
  intros HR. rewrite (reg_count _ _ _ HR). apply hash_big_BigToHash.
  pose proof (reg_len _ _ _ HR). lia.
Qed.

Lemma registry_deposit st vals sender value :
  registry P st vals -> regular sender -> 0 < value < 2 ^ 256 ->
  Z.of_nat (length vals) + 1 < 2 ^ 64 - 1 ->
  registry P (after_deposit st sender value)
    (if decide (sender ∈ vals) then vals else vals ++ [sender]).
Proof.
  intros HR Hs Hv Hl. pose proof staking_ne_validator as Hne.
  pose proof (registered_ptr st vals sender HR Hs) as Hp. pose proof (registry_count st vals HR) as Hc.
  pose proof (BigToHash_nonzero value Hv) as Hvz.
  unfold after_deposit. rewrite Hc. destruct HR as [Hnd Hreg _ Hcnt Hidx Hptr Habs Hstk].
  destruct (decide (sender ∈ vals)) as [Hin|Hin].
  - rewrite decide_False by (intros E; by apply Hp in E).
    split; try done; try lia.
    + rewrite storage_set_ne by key_ne. done.
    + intros i a Hi. rewrite storage_set_ne by key_ne. eauto.
    + intros i a Hi. rewrite storage_set_ne by key_ne. eauto.
    + intros a Ha Hna. rewrite storage_set_ne by key_ne. eauto.
    + intros a Ha. destruct (decide (a = sender)) as [->|Has]; [by ssimpl|].
      rewrite storage_set_ne by (right; intros E; by apply acct_key_inj in E). auto.
  - rewrite decide_True by by apply Hp. fold (index_key (length vals)).
    assert (forall i a, vals !! i = Some a -> a <> sender /\ regular a) as Hns.
    { intros i a Hi%list_elem_of_lookup_2. split; [by intros ->|auto]. }
    split.
    + apply NoDup_app. split_and!; [done| |apply NoDup_singleton]. set_solver.
    + intros a. rewrite elem_of_app, list_elem_of_singleton. intros [?| ->]; auto.
    + rewrite length_app. cbn [length]. lia.
    + rewrite length_app. cbn [length]. ssimpl. unfold index_key. do 2 f_equal. lia.
    + intros i a Hi. apply lookup_snoc_Some in Hi as [[Hlt Hi]|[-> <-]]; ssimpl; eauto.
    + intros i a Hi. apply lookup_snoc_Some in Hi as [[Hlt Hi]|[-> <-]]; [|by ssimpl].
      destruct (Hns i a Hi). ssimpl. eauto.
    + intros a Ha Hna. assert (a <> sender /\ a ∉ vals) as [Has Hav] by set_solver. ssimpl. auto.
    + intros a Ha. destruct (decide (a = sender)) as [->|Has]; ssimpl; [set_solver|].
      rewrite <- Hstk by done. set_solver.
Qed.

(** *** Withdrawal *)

Lemma swap_pop_snoc init l i :
  swap_pop (init ++ [l]) i = if decide (i = length init) then init else <[i := l]> init.
Proof.
  unfold swap_pop. rewrite last_snoc, length_app, removelast_last. cbn [length].
  destruct (decide (i = length init)); [rewrite decide_True by lia|rewrite decide_False by lia]; done.
Qed.

Lemma swap_pop_perm vals i a : vals !! i = Some a -> vals ≡ₚ a :: swap_pop vals i.
Proof.
  intros Hi. destruct vals as [|l init _] using rev_ind; [done|].
  rewrite swap_pop_snoc. apply lookup_snoc_Some in Hi as [[Hlt Hi]|[-> <-]].
  - rewrite decide_False by lia. rewrite <- (take_drop_middle init i a) at 1 by done.
    rewrite insert_take_drop by done. solve_Permutation.
  - rewrite decide_True by done. solve_Permutation.
Qed.

Lemma swap_pop_lookup (init : list Address) l i j :
  (i < length init)%nat ->
  <[i := l]> init !! j = if decide (j = i) then Some l else init !! j.
Proof.
  intros. destruct (decide (j = i)) as [->|]; [by apply list_lookup_insert_eq|].
  by rewrite list_lookup_insert_ne.
Qed.

(** The state after [swap_and_pop]. *)
Definition after_pop st (key : Hash) : AState :=
  let VA := ValidatorAddr P in
  let idx := hash_big (a_storage st VA key) in
  let cnt := hash_big (a_storage st VA zero_hash) in
  let st1 := if idx <? cnt then
               let l := a_storage st VA (BigToHash cnt) in
               aset_storage (aset_storage st VA (BigToHash idx) l) VA l (BigToHash idx)
             else st in
  aset_storage (aset_storage (aset_storage (aset_storage st1 VA (BigToHash cnt) zero_hash)
    VA zero_hash (BigToHash (cnt - 1))) (StakingAddr P) key zero_hash) VA key zero_hash.

Lemma swap_and_pop_run st key : spec_run (swap_and_pop P key) st = Some (after_pop st key, tt).
Proof.
  unfold swap_and_pop, after_pop. rewrite !spec_run_call. cbn [spec_op].
  rewrite spec_run_call. cbn [spec_op]. rewrite spec_run_bind.
  set (idx := hash_big (a_storage st _ key)). set (cnt := hash_big (a_storage st _ zero_hash)).
  clearbody idx cnt. destruct (idx <? cnt); repeat (rewrite spec_run_call; cbn [spec_op]); reflexivity.
Qed.

(** The pointer of a registered validator, and the count as [after_pop] uses it. *)
Lemma registry_pointer st vals i a :
  registry P st vals -> vals !! i = Some a -> hash_big (a_storage st (ValidatorAddr P) (acct_key a)) = Z.of_nat i + 1.
Proof.
  intros HR Hi. apply lookup_lt_Some in Hi as Hlt. destruct HR as [_ _ Hlen _ _ Hptr _ _].
  rewrite (Hptr i a Hi). apply hash_big_BigToHash. lia.
Qed.

(** Removing the last entry. *)
Lemma registry_pop_last st init l :
  registry P st (init ++ [l]) -> registry P (after_pop st (acct_key l)) init.
Proof.
  intros HR. pose proof staking_ne_validator as Hne. pose proof (registry_count st _ HR) as Hc.
  assert ((init ++ [l]) !! length init = Some l) as Hl by (rewrite lookup_app_r, Nat.sub_diag by lia; done).
  pose proof (registry_pointer _ _ _ _ HR Hl) as Hix. destruct HR as [Hnd Hreg Hlen Hcnt Hidx Hptr Habs Hstk].
  rewrite length_app in Hc, Hlen, Hcnt. cbn [length] in Hc, Hlen, Hcnt.
  assert (regular l) as Hlr by (apply Hreg; by eapply list_elem_of_lookup_2).
  apply NoDup_app in Hnd as (Hnd & Hdis & _).
  assert (forall b, b ∈ init <-> b ∈ init ++ [l] /\ b <> l) as Hmem by set_solver.
  unfold after_pop. rewrite Hix, Hc. fold (index_key (length init)).
  replace (BigToHash (Z.of_nat (length init + 1))) with (index_key (length init)) by (unfold index_key; f_equal; lia).
  replace (Z.of_nat (length init + 1) - 1) with (Z.of_nat (length init)) by lia.
  rewrite (Hidx _ _ Hl), (proj2 (Z.ltb_ge _ _)) by lia. split; [done|set_solver|lia|by ssimpl|..].
  - intros j b Hj. apply lookup_lt_Some in Hj as Hjl. ssimpl. apply Hidx. by apply lookup_app_l_Some.
  - intros j b Hj. assert (b ∈ init) as [Hb Hba]%Hmem by (by eapply list_elem_of_lookup_2).
    pose proof (Hreg b Hb). ssimpl. apply Hptr. by apply lookup_app_l_Some.
  - intros b Hbr Hb. destruct (decide (b = l)) as [->|Hba]; ssimpl; [done|]. apply Habs; naive_solver.
  - intros b Hbr. rewrite Hmem. destruct (decide (b = l)) as [->|Hba]; ssimpl; [naive_solver|].
    rewrite <- Hstk by done. naive_solver.
Qed.

Lemma registry_pop st vals i a :
  registry P st vals -> vals !! i = Some a ->
  registry P (after_pop st (acct_key a)) (swap_pop vals i).
Proof.
  intros HR Hi. pose proof staking_ne_validator as Hne.
  destruct vals as [|l init _] using rev_ind; [done|]. destruct (decide (i = length init)) as [->|Hil].
  { rewrite swap_pop_snoc, decide_True by done. rewrite lookup_app_r, Nat.sub_diag in Hi by lia. injection Hi as ->.
    by apply registry_pop_last. }
  pose proof (registry_count st _ HR) as Hc. pose proof (swap_pop_perm _ i a Hi) as Hperm.
  pose proof (registry_pointer _ _ _ _ HR Hi) as Hix. destruct HR as [Hnd Hreg Hlen Hcnt Hidx Hptr Habs Hstk].
  assert (regular a) as Ha by (apply Hreg; by eapply list_elem_of_lookup_2).
  rewrite Hperm in Hnd. apply NoDup_cons in Hnd as [Hna Hnd].
  assert (forall b, b ∈ swap_pop (init ++ [l]) i <-> b ∈ init ++ [l] /\ b <> a) as Hmem.
  { revert Hna Hperm. generalize (swap_pop (init ++ [l]) i) as w. intros w Hna Hperm b.
    rewrite Hperm, elem_of_cons. naive_solver. }
  rewrite length_app in Hc, Hlen, Hcnt. cbn [length] in Hc, Hlen, Hcnt.
  assert ((init ++ [l]) !! length init = Some l) as Hl by (rewrite lookup_app_r, Nat.sub_diag by lia; done).
  assert (regular l) as Hlr by (apply Hreg; by eapply list_elem_of_lookup_2).
  apply lookup_snoc_Some in Hi as [[Hlt Hi]|[-> <-]]; [|done].
  unfold after_pop. rewrite Hix, Hc. fold (index_key i).
  replace (BigToHash (Z.of_nat (length init + 1))) with (index_key (length init))
    by (unfold index_key; f_equal; lia).
  replace (Z.of_nat (length init + 1) - 1) with (Z.of_nat (length init)) by lia.
  rewrite (Hidx _ _ Hl), swap_pop_snoc in *.
  rewrite (proj2 (Z.ltb_lt _ _)) by lia. rewrite !(decide_False (P := (i = length init))) in * by lia.
  assert (l <> a) as Hla by (intros ->; apply Hna; apply list_elem_of_insert; lia).
  split; [done|set_solver|rewrite length_insert; lia|rewrite length_insert; by ssimpl|..].
  - intros j b Hj. apply lookup_lt_Some in Hj as Hjl. rewrite length_insert in Hjl.
    rewrite swap_pop_lookup in Hj by done. case_decide as Eji; [subst j; injection Hj as <-; by ssimpl|].
    ssimpl. apply Hidx. by apply lookup_app_l_Some.
  - intros j b Hj. assert (b ∈ <[i:=l]> init) as [Hb Hba]%Hmem by (by eapply list_elem_of_lookup_2).
    pose proof (Hreg b Hb). rewrite swap_pop_lookup in Hj by done. case_decide as Eji; [subst j; injection Hj as <-; by ssimpl|].
    assert (b <> l) as Hbl.
    { intros ->. apply Eji. apply (NoDup_lookup _ _ _ l Hnd); [|by apply list_lookup_insert_eq].
      by rewrite swap_pop_lookup, decide_False by done. }
    ssimpl. apply Hptr. by apply lookup_app_l_Some.
  - intros b Hbr Hb. destruct (decide (b = a)) as [->|Hba]; [by ssimpl|].
    assert (b ∉ init ++ [l]) as Hbv by naive_solver.
    assert (b <> l) as Hbl by (intros ->; apply Hbv; set_solver). ssimpl. by apply Habs.
  - intros b Hbr. rewrite Hmem. destruct (decide (b = a)) as [->|Hba]; ssimpl; [naive_solver|].
    rewrite <- Hstk by done. naive_solver.
Qed.

(** The state after a successful withdrawal of [amt]. *)
Definition after_unstake st (sender : Address) (amt : u256) : AState :=
  let st1 := aset_balance st (StakingAddr P) (wsub (a_balance st (StakingAddr P)) amt) in
  after_pop (aset_balance st1 sender (wadd (a_balance st1 sender) amt)) (acct_key sender).

Lemma unstake_run st vals sender amt :
  registry P st vals -> regular sender -> sender ∈ vals ->
  a_storage st (StakingAddr P) (acct_key sender) = BigToHash (uval amt) ->
  uval amt <= uval (a_balance st (StakingAddr P)) ->
  spec_run (unstake P sender) st = Some (after_unstake st sender amt, tt).
Proof.
  intros HR Hs Hin Hst Hb. apply (reg_stake _ _ _ HR) in Hin as Hnz; [|done].
  assert ((FromBig (hash_big (a_storage st (StakingAddr P) (acct_key sender)))).1 = amt) as Hamt.
  { pose proof (uval_range amt). rewrite Hst, FromBig_wd, hash_big_BigToHash by done. apply wd_uval. }
  unfold unstake. rewrite spec_run_call. cbn [spec_op].
  rewrite bool_decide_eq_false_2 by done. rewrite spec_run_call. cbn [spec_op].
  rewrite Hamt, (proj2 (Z.leb_le _ _)) by done.
  rewrite spec_run_call. cbn [spec_op]. rewrite spec_run_call. cbn [spec_op].
  apply swap_and_pop_run.
Qed.

Lemma registry_balance st vals a x : registry P st vals -> registry P (aset_balance st a x) vals.
Proof. intros []. by split. Qed.

Lemma registry_unstake st vals i sender amt :
  registry P st vals -> vals !! i = Some sender ->
  registry P (after_unstake st sender amt) (swap_pop vals i).
Proof. intros HR Hi. unfold after_unstake. apply registry_pop; [|done]. by do 2 apply registry_balance. Qed.

(** Withdrawal only moves the stake from the contract to the sender. *)
Lemma after_unstake_balance st sender amt b :
  regular sender ->
  a_balance (after_unstake st sender amt) b
  = if decide (b = sender) then wadd (a_balance st sender) amt
    else if decide (b = StakingAddr P) then wsub (a_balance st b) amt else a_balance st b.
Proof.
  intros Hs. pose proof (regular_ne_staking sender Hs) as Hne.
  assert (forall st k, a_balance (after_pop st k) = a_balance st) as Hp.
  { intros st0 k. unfold after_pop. by destruct (_ <? _). }
  unfold after_unstake. rewrite Hp. cbn. unfold fset. repeat case_decide; subst; congruence.
Qed.
End Registry.

(** ** The contracts on the StateDB *)

Section Theorems.
Context {C : Crypto} {V : Verkle} {VL : VerkleLaws V}.
Context (P : SystemParams) (HP : params_ok P).
Context (D : slot -> Prop) (HD : collision_free D).
Implicit Types st : AState.

Lemma staking_not_reward msg :
  msg_to msg = Some (StakingAddr P) -> msg_to msg <> Some (RewardAddr P).
Proof using HP.
  intros -> [= E]. destruct HP as [HN _]. apply NoDup_cons in HN as [H _]. apply H. rewrite E. left.
Qed.

(** Deposits. A transaction with a positive value to the staking contract turns a
    state whose storage holds the validator list [vals] into one that holds the same
    list, extended by the sender unless it is already in it; the recorded stake of the
    sender becomes the value of this transaction (an earlier stake is replaced, not
    added to), all other stakes and every balance are unchanged. *)
Theorem staking_deposit db s st vals msg tx :
  refines D s st -> registry P st vals ->
  msg_to msg = Some (StakingAddr P) -> regular (msg_from msg) ->
  0 < msg_value msg < 2 ^ 256 -> tx_data tx <> bytes_of_string "UNSTAKE" ->
  Z.of_nat (length vals) + 1 < 2 ^ 64 - 1 ->
  (forall sl, sl ∈ spec_slots (ProcessSystemContracts P msg tx) st -> D sl) ->
  let sender := msg_from msg in
  exists st', refines D (run db (ProcessSystemContracts P msg tx) s).1 st' /\
    registry P st' (if decide (sender ∈ vals) then vals else vals ++ [sender]) /\
    a_storage st' (StakingAddr P) (acct_key sender) = BigToHash (msg_value msg) /\
    (forall a, a <> sender -> a_storage st' (StakingAddr P) (acct_key a)
                              = a_storage st (StakingAddr P) (acct_key a)) /\
    a_balance st' = a_balance st.
Proof.
  intros Hr HR Hto Hs Hv Hd Hl Hsl sender. exists (after_deposit P st sender (msg_value msg)).
  pose proof (staking_ne_validator P HP) as Hne.
  assert (spec_run (ProcessSystemContracts P msg tx) st
          = Some (after_deposit P st sender (msg_value msg), tt)) as Hrun.
  { unfold ProcessSystemContracts. rewrite spec_run_bind.
    rewrite (bool_decide_eq_true_2 (msg_to msg = Some (StakingAddr P))) by done.
    rewrite spec_run_bind, (proj2 (Z.ltb_lt _ _)) by lia. rewrite deposit_run by done.
    rewrite (bool_decide_eq_false_2 (tx_data tx = _)) by done. cbn [mret prog_ret spec_run].
    rewrite (bool_decide_eq_false_2 (msg_to msg = _)) by by apply staking_not_reward. done. }
  destruct (run_spec D db _ s st _ _ HD Hr Hsl Hrun) as [_ Href].
  split_and!; [done|by apply registry_deposit|..].
  - unfold after_deposit. case_decide; [|by ssimpl]. by ssimpl.
  - intros a Ha. unfold after_deposit. case_decide; by ssimpl.
  - unfold after_deposit. by case_decide.
Qed.

(** Withdrawals. A zero-value "UNSTAKE" transaction of the validator at index i, whose
    recorded stake the contract can pay, removes it from the list (the last entry takes
    its place, so the remaining validators are exactly the others), clears its stake,
    and moves exactly the stake from the contract's balance to the sender's. *)
Theorem staking_unstake db s st vals msg tx i amt :
  refines D s st -> registry P st vals ->
  msg_to msg = Some (StakingAddr P) -> msg_value msg = 0 -> tx_data tx = bytes_of_string "UNSTAKE" ->
  vals !! i = Some (msg_from msg) ->
  a_storage st (StakingAddr P) (acct_key (msg_from msg)) = BigToHash (uval amt) ->
  uval amt <= uval (a_balance st (StakingAddr P)) ->
  (forall sl, sl ∈ spec_slots (ProcessSystemContracts P msg tx) st -> D sl) ->
  let sender := msg_from msg in
  exists st', refines D (run db (ProcessSystemContracts P msg tx) s).1 st' /\
    registry P st' (swap_pop vals i) /\ vals ≡ₚ sender :: swap_pop vals i /\
    (forall b, a_balance st' b
       = if decide (b = sender) then wadd (a_balance st sender) amt
         else if decide (b = StakingAddr P) then wsub (a_balance st b) amt else a_balance st b).
Proof.
  intros Hr HR Hto Hv Hd Hi Hst Hb Hsl sender. exists (after_unstake P st sender amt).
  assert (sender ∈ vals) as Hin by by eapply list_elem_of_lookup_2.
  pose proof (reg_regular _ _ _ HR _ Hin) as Hs.
  assert (spec_run (ProcessSystemContracts P msg tx) st = Some (after_unstake P st sender amt, tt)) as Hrun.
  { unfold ProcessSystemContracts. rewrite spec_run_bind.
    rewrite (bool_decide_eq_true_2 (msg_to msg = Some (StakingAddr P))) by done.
    rewrite spec_run_bind, (proj2 (Z.ltb_ge _ _)) by lia. cbn [mret prog_ret spec_run].
    rewrite (bool_decide_eq_true_2 (tx_data tx = _)) by done. fold sender.
    rewrite (unstake_run P st vals sender amt) by done.
    rewrite (bool_decide_eq_false_2 (msg_to msg = _)) by by apply staking_not_reward. done. }
  destruct (run_spec D db _ s st _ _ HD Hr Hsl Hrun) as [_ Href].
  split_and!; [done|by apply registry_unstake|by apply swap_pop_perm|].
  intros b. by apply after_unstake_balance.
Qed.

(** The reward pool pays whoever asks. A zero-value transaction to the reward contract
    with a well-formed reward command moves the requested amount, when the pool holds
    it, from the pool to the target, whatever the sender: the restriction to the
    coinbase described in the source is not enforced. *)
Theorem reward_pays_any_sender db s st msg tx target amt :
  refines D s st -> msg_to msg = Some (RewardAddr P) -> msg_value msg = 0 ->
  parse_reward (tx_data tx) = Some (target, amt) -> 0 <= amt <= uval (a_balance st (RewardAddr P)) ->
  target <> RewardAddr P ->
  (forall sl, sl ∈ spec_slots (ProcessSystemContracts P msg tx) st -> D sl) ->
  exists st', refines D (run db (ProcessSystemContracts P msg tx) s).1 st' /\
    a_storage st' = a_storage st /\
    forall b, a_balance st' b
      = if decide (b = target) then wadd (a_balance st target) (wd amt)
        else if decide (b = RewardAddr P) then wsub (a_balance st b) (wd amt) else a_balance st b.
Proof.
  intros Hr Hto Hv Hp Ha Ht Hsl.
  set (st1 := aset_balance st (RewardAddr P) (wsub (a_balance st (RewardAddr P)) (wd amt))).
  exists (aset_balance st1 target (wadd (a_balance st1 target) (wd amt))).
  assert (spec_run (ProcessSystemContracts P msg tx) st
          = Some (aset_balance st1 target (wadd (a_balance st1 target) (wd amt)), tt)) as Hrun.
  { unfold ProcessSystemContracts. rewrite spec_run_bind.
    rewrite (bool_decide_eq_false_2 (msg_to msg = Some (StakingAddr P))).
    2:{ intros E. by apply staking_not_reward in E. }
    cbn [mret prog_ret spec_run].
    rewrite (bool_decide_eq_true_2 (msg_to msg = _)) by done.
    rewrite Hv, (proj2 (Nat.ltb_lt 0 _)).
    2:{ unfold parse_reward in Hp. destruct (_ && _) eqn:E; [|done].
        apply andb_true_iff in E as [E _]. apply Nat.ltb_lt in E. lia. }
    change ((0 =? 0) && true) with true. cbv iota. unfold reward. rewrite Hp.
    rewrite spec_run_call. cbn [spec_op]. rewrite FromBig_wd.
    pose proof (uval_range (a_balance st (RewardAddr P))).
    rewrite uval_wd_small by lia. rewrite (proj2 (Z.leb_le _ _)) by lia.
    do 2 (rewrite spec_run_call; cbn [spec_op]). done. }
  destruct (run_spec D db _ s st _ _ HD Hr Hsl Hrun) as [_ Href].
  split_and!; [done..|]. intros b. unfold st1. cbn. unfold fset. repeat case_decide; subst; congruence.
Qed.
End Theorems.

(** ** Reloading the validators *)

Section Reload.
Context {C : Crypto} {V : Verkle} {VL : VerkleLaws V}.

Lemma params_ok_default : params_ok default_params.
Proof.
  destruct default_params_values as (Hs & Hr & Hv). unfold params_ok, regular. rewrite Hs, Hr, Hv.
  split; [|lia]. apply (bool_decide_unpack _). by vm_compute.
Qed.

Lemma sync_addrs :
  sync_validatorAddr = ValidatorAddr default_params /\ sync_stakingAddr = RewardAddr default_params.
Proof. by vm_compute. Qed.

Lemma fmap_seqZ_lookup {A B : Type} (f : Z -> B) (g : A -> B) (l : list A) :
  (forall i a, l !! i = Some a -> f (Z.of_nat i + 1) = g a) ->
  f <$> seqZ 1 (Z.of_nat (length l)) = g <$> l.
Proof.
  intros H. apply list_eq. intros i. rewrite !list_lookup_fmap.
  destruct (l !! i) as [a|] eqn:E; cbn.
  - apply lookup_lt_Some in E as Hl. rewrite lookup_seqZ_lt by lia. cbn.
    f_equal. rewrite <- (H i a E). f_equal. lia.
  - apply lookup_ge_None in E. rewrite lookup_seqZ_ge by lia. done.
Qed.

(** The engine reloads exactly the registered validators. From a state that holds the
    list [vals], [SyncValidators] installs the validators of the list in registry order
    and drops the leader cache. Their stakes are read from the storage of the reward
    contract 0x2000 and not from that of the staking contract 0x1000, where deposits
    are recorded. *)
Theorem sync_reads_registry (D : slot -> Prop) e s st vals :
  refines D s st -> registry default_params st vals -> vals <> [] ->
  D (SStorage (ValidatorAddr default_params) zero_hash) ->
  (forall i, (i < length vals)%nat -> D (SStorage (ValidatorAddr default_params) (index_key i))) ->
  (forall a, a ∈ vals -> D (SStorage (RewardAddr default_params) (acct_key a))) ->
  exists e', SyncValidators e s = Some e' /\
    Validators e' = (fun a => mkValidator a (hash_big (a_storage st (RewardAddr default_params) (acct_key a))))
                    <$> vals /\
    fault e' = tolerance (Validators e') /\ LeaderSchedule e' = ∅.
Proof.
  intros Hr HR Hne H0 Hi Hs. destruct sync_addrs as [Ev Es].
  assert (hash_big (GetState s sync_validatorAddr zero_hash) = Z.of_nat (length vals)) as Hc.
  { rewrite Ev, (Hr _ H0). by apply registry_count. }
  pose proof (reg_len _ _ _ HR) as Hl.
  assert (0 < length vals)%nat by (destruct vals; [done|cbn; lia]).
  rewrite SyncValidators_spec; rewrite Hc; [|lia].
  eexists. split_and!; [done|cbn|done|done].
  apply fmap_seqZ_lookup. intros i a Ha. apply lookup_lt_Some in Ha as Hlt.
  unfold sync_entry. rewrite uval_wd_small by (change (Z.of_N 64) with 64; lia).
  fold (index_key i). rewrite Ev, Es, (Hr _ (Hi i Hlt)), (reg_index _ _ _ HR i a Ha).
  unfold acct_key at 1 2. rewrite BytesToAddress_slot. f_equal. fold (acct_key a).
  rewrite (Hr _ (Hs a ltac:(by eapply list_elem_of_lookup_2))). done.
Qed.
End Reload.
