(* ===== verification/Executor.v ===== *)
(** * Executor: core/executor.go and vm/evm.go.

    [ApplyBlock] executes the waves of the scheduler one after the other; the
    transactions of a wave run in parallel goroutines, each on an overlay of
    the block state, and merge their overlay under a lock. A goroutine is
    modelled as a thread whose steps are the single calls on its overlay and
    the locked section, interleaved arbitrarily with the others.

    go-ethereum's EVM is a parameter: a message runs as a client of the state
    interface. *)

From S2P Require Import Prelude Words Interfaces Rlp Types Hex StateDB StateOps Scheduler Consensus Genesis SystemContracts.

(** ** The EVM interface (vm/evm.go) *)

(** [vm.BlockContext] as [New] fills it. *)
Record BlockContext := mkBlockContext {
  ctx_GetHash : u64 -> Hash;
  ctx_Coinbase : Address;
  ctx_BlockNumber : option Z;
  ctx_Time : u64;
  ctx_Difficulty : option Z;
  ctx_GasLimit : u64;
  ctx_BaseFee : option Z
}.

(** [ethcore.ExecutionResult]; [res_failed] is [res.Failed()]. *)
Record ExecutionResult := mkResult {
  UsedGas : u64;
  res_failed : bool;
  ReturnData : bytes
}.

(** [ethcore.ApplyMessage(evm, msg, gp)]: [None] is an error. *)
Class EVM := {
  ApplyMessage : ChainConfig -> BlockContext -> Message -> u64 -> prog (option ExecutionResult)
}.

(** vm/evm.go [New]: the block context of a header. *)
Definition vm_New (header : Header) (getHash : u64 -> Hash) : BlockContext :=
  mkBlockContext getHash (Coinbase header) (Number header) (Time header) (Difficulty header)
    (GasLimit header) (BaseFee header).

Section Executor.
Context {C : Crypto} {V : Verkle} {EV : EVM}.

(** [bc] is the [GetBlockByNumber] of the chain, when there is one. *)
Record Executor := NewExecutor {
  config : ChainConfig;
  netCfg : NetworkConfig;
  bc : option (u64 -> option Block)
}.

(** The BLOCKHASH window: the 256 blocks before the current one. *)
Definition getHash (e : Executor) (header : Header) (n : u64) : Hash :=
  let number := uval (number64 header) in
  if (uval n <? number) && (number - uval n <=? 256) then
    match bc e with
    | Some get => match get n with Some block => BlockHash block | None => zero_hash end
    | None => zero_hash
    end
  else zero_hash.

(** ** One transaction *)

Definition isSystemTx (P : SystemParams) (msg : Message) : bool :=
  match msg_to msg with
  | Some to => bool_decide (to = StakingAddr P) || bool_decide (to = RewardAddr P)
               || bool_decide (to = ValidatorAddr P)
  | None => false
  end.

(** The guards before the overlay is used: the size limit and the sender. *)
Definition tx_message (header : Header) (tx : Transaction) : option Message :=
  if 512 * 1024 <? tx_size tx then None else TransactionToMessage tx (BaseFee header).

(** What the goroutine does on its overlay, up to the lock. *)
Definition tx_exec (e : Executor) (header : Header) (tx : Transaction) (msg : Message)
  : prog (option ExecutionResult) :=
  let P := Params (netCfg e) in
  _ ← call OPrepare;
  res ← ApplyMessage (config e) (vm_New header (getHash e header)) msg (GasLimit header);
  match res with
  | None => mret None
  | Some r =>
      let r := if isSystemTx P msg then mkResult (wd 0) (res_failed r) (ReturnData r) else r in
      _ ← ProcessSystemContracts P msg tx;
      mret (Some r)
  end.

Definition status (failed : bool) : u64 := if failed then wd 0 else wd 1.

(** The price of the fee: [min(GasPrice, BaseFee + TipCap)]. *)
Definition fee_price (header : Header) (tx : Transaction) : Z :=
  match BaseFee header with
  | None => tx_gasPrice tx
  | Some baseFee =>
      let priority := baseFee + tx_gasTipCap tx in
      if priority <? tx_gasPrice tx then priority else tx_gasPrice tx
  end.

(** The variables of [ApplyBlock] the goroutines share. *)
Record Shared := mkShared {
  statedb : StateDB;
  receipts : list (option Receipt);
  blockGasUsed : u64;
  totalFees : Z
}.

(** The map from transaction hash to index: later duplicates win, a missing hash
    reads as 0. *)
Definition txIndex (txs : list Transaction) : gmap Hash nat :=
  fold_left (fun m itx => <[tx_hash itx.2 := itx.1]> m) (imap pair txs) ∅.
Definition index_of (txs : list Transaction) (tx : Transaction) : nat :=
  default O (txIndex txs !! tx_hash tx).

(** The error path: a failed receipt and no merge. *)
Definition finish_error (txs : list Transaction) (tx : Transaction) (sh : Shared) : Shared :=
  mkShared (statedb sh) (<[index_of txs tx := Some (failed_receipt (tx_hash tx))]> (receipts sh))
    (blockGasUsed sh) (totalFees sh).

Definition tx_receipt (tx : Transaction) (msg : Message) (res : ExecutionResult) (cumulative : u64)
    (logs : list Log) : Receipt :=
  mkReceipt [] (status (res_failed res)) cumulative zero_bloom logs (tx_hash tx)
    (match msg_to msg with None => CreateAddress (msg_from msg) (tx_nonce tx) | Some _ => zero_addr end)
    (UsedGas res).

(** The section under [mergeLock]. *)
Definition finish (header : Header) (txs : list Transaction) (tx : Transaction) (msg : Message)
    (f : fields) (res : ExecutionResult) (sh : Shared) : Shared :=
  let overlay := Overlay f (statedb sh) in
  let parent := default (statedb sh) (Merge overlay) in
  let gas := wadd (blockGasUsed sh) (UsedGas res) in
  let fee := uval (UsedGas res) * fee_price header tx in
  let receipt := tx_receipt tx msg res gas (GetLogs overlay (tx_hash tx)) in
  mkShared parent (<[index_of txs tx := Some receipt]> (receipts sh)) gas (totalFees sh + fee).

(** ** A wave of goroutines *)

Inductive thread :=
| Ready (tx : Transaction)
| Running (tx : Transaction) (msg : Message) (f : fields) (p : prog (option ExecutionResult))
| Done (tx : Transaction).

(** One step of one goroutine against the shared variables. *)
Inductive thread_step (e : Executor) (header : Header) (txs : list Transaction) (db : option DB)
  : thread -> Shared -> thread -> Shared -> Prop :=
| ts_skip tx sh :
    tx_message header tx = None -> thread_step e header txs db (Ready tx) sh (Done tx) sh
| ts_start tx msg sh :
    tx_message header tx = Some msg ->
    thread_step e header txs db (Ready tx) sh (Running tx msg empty_fields (tx_exec e header tx msg)) sh
| ts_op tx msg f (X : Type) (o : StateOp X) k f' p' x sh :
    exec_op db o (Overlay f (statedb sh)) = (Overlay f' p', x) ->
    thread_step e header txs db (Running tx msg f (Vis o k)) sh (Running tx msg f' (k x)) sh
| ts_error tx msg f sh :
    thread_step e header txs db (Running tx msg f (Ret None)) sh (Done tx) (finish_error txs tx sh)
| ts_finish tx msg f res sh :
    thread_step e header txs db (Running tx msg f (Ret (Some res))) sh
      (Done tx) (finish header txs tx msg f res sh).

(** Any goroutine of the wave may move. *)
Inductive wave_step (e : Executor) (header : Header) (txs : list Transaction) (db : option DB)
  : list thread * Shared -> list thread * Shared -> Prop :=
| ws_thread ths i th th' sh sh' :
    ths !! i = Some th -> thread_step e header txs db th sh th' sh' ->
    wave_step e header txs db (ths, sh) (<[i := th']> ths, sh').

(** [waveWg.Wait()]: all goroutines are done. *)
Definition wave_exec e header txs db (wave : list Transaction) (sh sh' : Shared) : Prop :=
  rtc (wave_step e header txs db) (Ready <$> wave, sh) (Done <$> wave, sh').

(** The loop over the waves, with the 60M gas guard before each. *)
Inductive waves_exec (e : Executor) (header : Header) (txs : list Transaction) (db : option DB)
  : list (list Transaction) -> Shared -> Shared -> Prop :=
| we_nil sh : waves_exec e header txs db [] sh sh
| we_break wave waves sh :
    60000000 < uval (blockGasUsed sh) -> waves_exec e header txs db (wave :: waves) sh sh
| we_wave wave waves sh sh' sh'' :
    uval (blockGasUsed sh) <= 60000000 ->
    wave_exec e header txs db wave sh sh' -> waves_exec e header txs db waves sh' sh'' ->
    waves_exec e header txs db (wave :: waves) sh sh''.

(** ** The end of the block *)

Definition block_reward : Z := 10000000000000000000.

(** The compaction loop: missing receipts are replaced by failed ones and the
    cumulative gas is recomputed in block order. *)
Fixpoint compact (txs : list Transaction) (rs : list (option Receipt)) (cumulative : u64) : list Receipt :=
  match txs, rs with
  | tx :: txs, r :: rs =>
      let r := default (failed_receipt (tx_hash tx)) r in
      let cumulative := wadd cumulative (RGasUsed r) in
      set_cumulative r cumulative :: compact txs rs cumulative
  | _, _ => []
  end.

(** The reward and the results; [uint256.MustFromBig] panics on overflow. *)
Definition finalize (header : Header) (txs : list Transaction) (sh : Shared)
  : option (list Receipt * Hash * StateDB) :=
  let reward := block_reward + totalFees sh in
  let '(amount, overflow) := FromBig reward in
  if (overflow : bool) then None
  else
    let s := AddBalanceReward (statedb sh) (Coinbase header) amount in
    Some (compact txs (receipts sh) (wd 0), IntermediateRoot s, s).

Definition initial_shared (s : StateDB) (txs : list Transaction) : Shared :=
  mkShared s (replicate (length txs) None) (wd 0) 0.

(** [ApplyBlock]: every result some schedule of the goroutines can produce. *)
Definition ApplyBlock (e : Executor) (db : option DB) (s : StateDB) (header : Header)
    (txs : list Transaction) (out : option (list Receipt * Hash * StateDB)) : Prop :=
  exists waves sh, schedule txs = Some waves /\
    waves_exec e header txs db waves (initial_shared s txs) sh /\ out = finalize header txs sh.

(** ** The sequential reference: one transaction after the other. *)

Definition apply_tx (e : Executor) (header : Header) (txs : list Transaction) (db : option DB)
    (sh : Shared) (tx : Transaction) : Shared :=
  match tx_message header tx with
  | None => sh
  | Some msg =>
      let '(overlay, res) := run db (tx_exec e header tx msg) (NewOverlay (statedb sh)) in
      match res with
      | None => finish_error txs tx sh
      | Some r => finish header txs tx msg (own overlay) r sh
      end
  end.

Definition apply_wave e header txs db (sh : Shared) (wave : list Transaction) : Shared :=
  fold_left (apply_tx e header txs db) wave sh.

Fixpoint apply_waves e header txs db (sh : Shared) (waves : list (list Transaction)) : Shared :=
  match waves with
  | [] => sh
  | wave :: rest =>
      if 60000000 <? uval (blockGasUsed sh) then sh
      else apply_waves e header txs db (apply_wave e header txs db sh wave) rest
  end.

Definition ApplyBlock_seq (e : Executor) (db : option DB) (s : StateDB) (header : Header)
    (txs : list Transaction) : option (list Receipt * Hash * StateDB) :=
  waves ← schedule txs;
  finalize header txs (apply_waves e header txs db (initial_shared s txs) waves).

(** ** eth_call *)

(** [Call]: the message on a fresh overlay, which is dropped. BLOCKHASH is zero. *)
Definition Call (e : Executor) (db : option DB) (s : StateDB) (header : Header) (msg : Message)
  : StateDB * option ExecutionResult :=
  run db (_ ← call OPrepare;
          ApplyMessage (config e) (vm_New header (fun _ => zero_hash)) msg (GasLimit header))
    (NewOverlay s).

End Executor.

(** ** States that read the same under every key *)

Section Equivalence.
Context {C : Crypto} {V : Verkle} {VL : VerkleLaws V}.

Definition state_eq (s s' : StateDB) : Prop :=
  forall k, is_key k -> getVerkleValue s k = getVerkleValue s' k.

#[global] Instance state_eq_equiv : Equivalence state_eq.
Proof.
  split.
  - by intros s k _.
  - intros s s' H k Hk. symmetry. by apply H.
  - intros s1 s2 s3 H1 H2 k Hk. rewrite H1 by done. by apply H2.
Qed.

#[global] Instance set_state_eq k v :
  is_key k -> Proper (state_eq ==> state_eq) (fun s => setVerkleValue s k v).
Proof. intros Hk s s' H k' Hk'. rewrite !get_set by done. case_decide; [done|by apply H]. Qed.

Lemma agree_on_keys s s' ks :
  state_eq s s' -> (forall k, k ∈ ks -> is_key k) -> agree_on ks s s'.
Proof. intros H Hk k Hin. apply H. by apply Hk. Qed.

End Equivalence.

(** ** Effects of finished transactions *)

Section Effects.
Context {C : Crypto} {V : Verkle} {VL : VerkleLaws V} {EV : EVM}.
Context (e : Executor) (header : Header) (txs : list Transaction) (db : option DB).
Implicit Types (sh : Shared) (tx : Transaction).

(** How a transaction ends when it runs alone on an overlay of [s]: skipped, or its
    message, its overlay and its result. *)
Definition outcome (s : StateDB) tx : option (Message * fields * option ExecutionResult) :=
  msg ← tx_message header tx;
  let '(o, r) := run db (tx_exec e header tx msg) (NewOverlay s) in Some (msg, own o, r).

(** The keys it reads or writes. *)
Definition footprint (s : StateDB) tx : list bytes :=
  match tx_message header tx with
  | None => []
  | Some msg => run_keys db (tx_exec e header tx msg) (NewOverlay s)
  end.

Definition effect sh tx (oc : option (Message * fields * option ExecutionResult)) : Shared :=
  match oc with
  | None => sh
  | Some (_, _, None) => finish_error txs tx sh
  | Some (msg, f, Some r) => finish header txs tx msg f r sh
  end.

Lemma apply_tx_effect sh tx : apply_tx e header txs db sh tx = effect sh tx (outcome (statedb sh) tx).
Proof.
  unfold apply_tx, effect, outcome. destruct (tx_message header tx) as [msg|]; [|done]. cbn.
  destruct (run _ _ _) as [o r]. by destruct r.
Qed.

(** The writes an outcome merges. *)
Definition merged (oc : option (Message * fields * option ExecutionResult)) : gmap bytes bytes :=
  match oc with Some (_, f, Some _) => dirty f | _ => ∅ end.

Definition outcome_ok (oc : option (Message * fields * option ExecutionResult)) : Prop :=
  match oc with Some (_, f, _) => dirty_ok (dirty f) | None => True end.

Lemma outcome_ok_wf s tx : state_wf s -> outcome_ok (outcome s tx).
Proof.
  intros Hs. unfold outcome. destruct (tx_message header tx) as [msg|]; [|done]. cbn.
  pose proof (run_wf db (tx_exec e header tx msg) (NewOverlay s) (state_wf_overlay s Hs)) as Hw.
  destruct (run _ _ _) as [o r]. by apply dirty_ok_own.
Qed.

(** Only keys of the footprint are merged. *)
Lemma merged_footprint s tx k : k ∉ footprint s tx -> merged (outcome s tx) !! k = None.
Proof.
  unfold footprint, outcome. destruct (tx_message header tx) as [msg|]; [|done]. cbn. intros Hk.
  pose proof (run_dirty db (tx_exec e header tx msg) (NewOverlay s) k Hk) as Hd.
  destruct (run _ _ _) as [o [r|]]; [|done]. cbn in *. by rewrite Hd, lookup_empty.
Qed.

Lemma effect_get sh tx oc k :
  outcome_ok oc -> is_key k ->
  getVerkleValue (statedb (effect sh tx oc)) k
  = default (getVerkleValue (statedb sh) k) (merged oc !! k).
Proof.
  intros Hok Hk. destruct oc as [[[msg f] [r|]]|]; cbn [effect merged]; rewrite ?lookup_empty; [|done..].
  unfold finish. cbn [statedb].
  destruct (proj1 (Merge_some (Overlay f (statedb sh)))) as [p' Hp]; [eauto|].
  rewrite Hp. cbn [default]. rewrite (Merge_get _ _ _ _ Hp) by done. cbn. by destruct (dirty f !! k).
Qed.

End Effects.

(** ** The sequential order is one of the interleavings *)

Section Sequential.
Context {C : Crypto} {V : Verkle} {VL : VerkleLaws V} {EV : EVM}.
Context (e : Executor) (header : Header) (txs : list Transaction) (db : option DB).
Implicit Types (sh : Shared) (tx : Transaction) (th : thread) (ths : list thread).

Lemma list_insert_middle {A : Type} (l1 l2 : list A) x y :
  <[length l1 := y]> (l1 ++ x :: l2) = l1 ++ y :: l2.
Proof. rewrite <- (Nat.add_0_r (length l1)), insert_app_r. done. Qed.

Lemma run_thread ths1 ths2 tx msg p sh f f' r :
  run db p (Overlay f (statedb sh)) = (Overlay f' (statedb sh), r) ->
  rtc (wave_step e header txs db) (ths1 ++ Running tx msg f p :: ths2, sh)
    (ths1 ++ Running tx msg f' (Ret r) :: ths2, sh).
Proof.
  revert f. induction p as [r0|X o k IH]; intros f Hr; cbn [run] in Hr.
  { injection Hr as -> ->. done. }
  destruct (exec_overlay db o f (statedb sh)) as [[f1 x] E]. rewrite E in Hr. cbn in Hr.
  eapply rtc_l; [|by apply (IH x f1)].
  replace (ths1 ++ Running tx msg f1 (k x) :: ths2)
    with (<[length ths1 := Running tx msg f1 (k x)]> (ths1 ++ Running tx msg f (Vis o k) :: ths2)).
  2:{ by rewrite list_insert_middle. }
  apply (ws_thread _ _ _ _ _ _ (Running tx msg f (Vis o k))); [by apply list_lookup_middle|].
  by eapply ts_op.
Qed.

Lemma thread_once ths1 ths2 th th' sh sh' :
  thread_step e header txs db th sh th' sh' ->
  wave_step e header txs db (ths1 ++ th :: ths2, sh) (ths1 ++ th' :: ths2, sh').
Proof.
  intros H. replace (ths1 ++ th' :: ths2) with (<[length ths1 := th']> (ths1 ++ th :: ths2))
    by (by rewrite list_insert_middle).
  apply (ws_thread _ _ _ _ _ _ th); [by apply list_lookup_middle|done].
Qed.

Lemma apply_tx_exec ths1 ths2 tx sh :
  rtc (wave_step e header txs db) (ths1 ++ Ready tx :: ths2, sh)
    (ths1 ++ Done tx :: ths2, apply_tx e header txs db sh tx).
Proof.
  unfold apply_tx. destruct (tx_message header tx) as [msg|] eqn:Hm.
  - eapply rtc_l; [by apply thread_once, ts_start|].
    destruct (run_overlay db (tx_exec e header tx msg) empty_fields (statedb sh)) as [[f r] E].
    unfold NewOverlay. rewrite E. cbn [lift_parent fst snd own].
    etransitivity; [by apply run_thread|]. apply rtc_once, thread_once. destruct r; constructor.
  - apply rtc_once, thread_once. by constructor.
Qed.

Lemma apply_wave_exec_from done w sh :
  rtc (wave_step e header txs db) ((Done <$> done) ++ (Ready <$> w), sh)
    (Done <$> (done ++ w), apply_wave e header txs db sh w).
Proof.
  revert done sh. induction w as [|tx w IH]; intros done sh.
  - cbn. by rewrite !app_nil_r.
  - rewrite fmap_cons. etransitivity; [apply apply_tx_exec|].
    specialize (IH (done ++ [tx]) (apply_tx e header txs db sh tx)).
    rewrite fmap_app, <- !app_assoc in IH. cbn in IH. exact IH.
Qed.

Lemma apply_wave_exec w sh : wave_exec e header txs db w sh (apply_wave e header txs db sh w).
Proof. apply (apply_wave_exec_from [] w sh). Qed.

Lemma apply_waves_exec waves sh :
  waves_exec e header txs db waves sh (apply_waves e header txs db sh waves).
Proof.
  revert sh. induction waves as [|w waves IH]; intros sh; cbn; [constructor|].
  destruct (Z.ltb_spec 60000000 (uval (blockGasUsed sh))); [by constructor|].
  econstructor; [done|apply apply_wave_exec|apply IH].
Qed.

(** *** A goroutine alone *)

(** What the shared variables will be when the goroutine runs on alone. *)
Definition solo (th : thread) (sh : Shared) : Shared :=
  match th with
  | Ready tx => apply_tx e header txs db sh tx
  | Running tx msg f p =>
      let '(overlay, res) := run db p (Overlay f (statedb sh)) in
      match res with
      | None => finish_error txs tx sh
      | Some r => finish header txs tx msg (own overlay) r sh
      end
  | Done _ => sh
  end.

Lemma solo_step th sh th' sh' : thread_step e header txs db th sh th' sh' -> solo th' sh' = solo th sh.
Proof.
  destruct 1 as [tx sh Hm|tx msg sh Hm|tx msg f X o k f' p' x sh Hx|tx msg f sh|tx msg f res sh]; cbn [solo].
  - unfold apply_tx. by rewrite Hm.
  - unfold apply_tx. by rewrite Hm.
  - cbn [run]. destruct (exec_overlay db o f (statedb sh)) as [[f1 x1] E]. rewrite E in Hx |- *.
    injection Hx as -> <- ->. done.
  - done.
  - done.
Qed.

Lemma wave_exec_solo tx sh sh' : wave_exec e header txs db [tx] sh sh' -> sh' = apply_tx e header txs db sh tx.
Proof.
  assert (forall c c', rtc (wave_step e header txs db) c c' ->
            forall th, c.1 = [th] -> exists th', c'.1 = [th'] /\ solo th' c'.2 = solo th c.2) as H.
  { induction 1 as [c|c1 c2 c3 H12 _ IH]; intros th Hc; [eauto|].
    destruct H12 as [ths i t t' s1 s2 Hi Hst]. cbn [fst snd] in *. subst ths.
    apply list_lookup_singleton_Some in Hi as [-> ->]. destruct (IH t' eq_refl) as (th' & E & Hs).
    exists th'. split; [done|]. rewrite Hs. by apply solo_step. }
  intros Hw. destruct (H _ _ Hw (Ready tx) eq_refl) as (th' & E & Hs). cbn in E, Hs. by injection E as <-.
Qed.

Lemma waves_exec_solo waves sh sh' :
  Forall (fun w => length w = 1%nat) waves -> waves_exec e header txs db waves sh sh' ->
  sh' = apply_waves e header txs db sh waves.
Proof.
  intros HF. induction 1 as [sh|w ws sh Hg|w ws sh sh1 sh2 Hg Hw _ IH]; cbn [apply_waves]; [done|by zcase|].
  apply Forall_cons in HF as [H1 HF]. destruct w as [|tx [|]]; try done.
  zcase. apply wave_exec_solo in Hw as ->. by apply IH.
Qed.

(** *** Well-formedness along an interleaving *)

Definition thread_wf th : Prop :=
  match th with Running _ _ f _ => dirty_ok (dirty f) | _ => True end.

Lemma thread_step_wf th sh th' sh' :
  thread_step e header txs db th sh th' sh' -> thread_wf th -> state_wf (statedb sh) ->
  thread_wf th' /\ state_wf (statedb sh').
Proof.
  destruct 1 as [tx sh Hm|tx msg sh Hm|tx msg f X o k f' p' x sh Hx|tx msg f sh|tx msg f res sh];
    intros Hw Hs; try done.
  - split; [|done]. assert (state_wf (Overlay f (statedb sh))) as Hov by done.
    pose proof (exec_wf db o _ Hov) as H. rewrite Hx in H. by destruct H.
  - split; [done|]. unfold finish. cbn [statedb].
    destruct (Merge (Overlay f (statedb sh))) as [p|] eqn:E; [|done].
    by apply (state_wf_merge (Overlay f (statedb sh)) p).
Qed.

Lemma wave_steps_wf c c' :
  rtc (wave_step e header txs db) c c' -> Forall thread_wf c.1 -> state_wf (statedb c.2) ->
  state_wf (statedb c'.2).
Proof.
  induction 1 as [c|c1 c2 c3 H12 _ IH]; [done|]. intros HF Hs.
  destruct H12 as [ths i th th' sh sh' Hi Hst]. cbn [fst snd] in *.
  assert (thread_wf th) as Hth by (rewrite Forall_lookup in HF; eauto).
  destruct (thread_step_wf _ _ _ _ Hst Hth Hs). apply IH; [by apply Forall_insert|done].
Qed.

Lemma wave_exec_wf w sh sh' :
  wave_exec e header txs db w sh sh' -> state_wf (statedb sh) -> state_wf (statedb sh').
Proof.
  intros H Hs. apply (wave_steps_wf _ _ H); [|done]. apply Forall_fmap, Forall_true. done.
Qed.

End Sequential.

(** ** The part of the header the execution reads

    The root, the gas used, the extra data and the parent hash of a header are not read:
    sealing a block does not change how it executes. *)

Section HeaderContext.
Context {C : Crypto} {V : Verkle} {EV : EVM}.
Context (e : Executor) (txs : list Transaction) (db : option DB).

Definition same_context (h h' : Header) : Prop :=
  Coinbase h = Coinbase h' /\ Number h = Number h' /\ Time h = Time h' /\
  Difficulty h = Difficulty h' /\ GasLimit h = GasLimit h' /\ BaseFee h = BaseFee h'.

Lemma thread_step_context h h' th sh th' sh' :
  same_context h h' -> thread_step e h txs db th sh th' sh' -> thread_step e h' txs db th sh th' sh'.
Proof.
  destruct h, h'. intros (E1 & E2 & E3 & E4 & E5 & E6). cbn in *. subst.
  set (h' := mkHeader ParentHash0 _ _ _ _ _ _ _ _ _ _).
  destruct 1 as [tx sh Hm|tx msg sh Hm|tx msg f X o k f' p' x sh Hx|tx msg f sh|tx msg f res sh].
  - exact (ts_skip e h' txs db tx sh Hm).
  - exact (ts_start e h' txs db tx msg sh Hm).
  - by eapply ts_op.
  - apply ts_error.
  - exact (ts_finish e h' txs db tx msg f res sh).
Qed.

Lemma wave_exec_context h h' w sh sh' :
  same_context h h' -> wave_exec e h txs db w sh sh' -> wave_exec e h' txs db w sh sh'.
Proof.
  intros Hc. unfold wave_exec. apply rtc_subrel. intros c c' Hst.
  destruct Hst as [ths i th th' s1 s2 Hi Hst].
  by apply (ws_thread _ _ _ _ _ _ th); [|apply (thread_step_context h)].
Qed.

Lemma ApplyBlock_context h h' s out :
  same_context h h' -> ApplyBlock e db s h txs out -> ApplyBlock e db s h' txs out.
Proof.
  intros Hc (waves & sh & Hs & Hex & ->). exists waves, sh. split_and!; [done| |].
  - clear Hs. induction Hex as [sh|w ws sh Hg|w ws sh sh' sh'' Hg Hw _ IH]; [constructor|by constructor|].
    econstructor; [done|by eapply wave_exec_context|done].
  - unfold finalize. destruct Hc as (-> & _). done.
Qed.
End HeaderContext.

(** ** The index of a transaction *)

Section Index.
Implicit Types (txs : list Transaction) (tx : Transaction).

Lemma fold_index_spec (l : list (nat * Transaction)) (m : gmap Hash nat) h :
  (fold_left (fun m itx => <[tx_hash itx.2 := itx.1]> m) l m !! h = m !! h /\ forall itx, itx ∈ l -> tx_hash itx.2 <> h)
  \/ exists itx, itx ∈ l /\ tx_hash itx.2 = h /\
     fold_left (fun m itx => <[tx_hash itx.2 := itx.1]> m) l m !! h = Some itx.1.
Proof.
  revert m. induction l as [|x l IH]; intros m; [left; set_solver|]. cbn [fold_left].
  destruct (IH (<[tx_hash x.2 := x.1]> m)) as [[E H]|(itx & Hin & Hh & E)].
  - rewrite E. destruct (decide (tx_hash x.2 = h)) as [Hx|Hx].
    + right. exists x. rewrite Hx, lookup_insert_eq. set_solver.
    + left. rewrite lookup_insert_ne by done. set_solver.
  - right. exists itx. set_solver.
Qed.

Lemma index_of_spec txs tx :
  tx ∈ txs -> exists tx', txs !! index_of txs tx = Some tx' /\ tx_hash tx' = tx_hash tx.
Proof.
  intros Hin. unfold index_of, txIndex.
  destruct (fold_index_spec (imap pair txs) ∅ (tx_hash tx)) as [[_ H]|([i tx'] & Hi & Hh & ->)].
  - apply list_elem_of_lookup in Hin as [i Hi]. exfalso. apply (H (i, tx)); [|done].
    apply (list_elem_of_lookup_2 _ i). by rewrite list_lookup_imap, Hi.
  - apply list_elem_of_lookup in Hi as [j Hj]. rewrite list_lookup_imap in Hj.
    destruct (txs !! j) as [tx''|] eqn:E; [|done]. cbn in Hj. injection Hj as -> ->. eauto.
Qed.

Lemma index_of_lt txs tx : tx ∈ txs -> (index_of txs tx < length txs)%nat.
Proof. intros H. destruct (index_of_spec txs tx H) as (tx' & Hi & _). by eapply lookup_lt_Some. Qed.

Lemma index_of_inj txs tx tx' :
  NoDup (tx_hash <$> txs) -> tx ∈ txs -> tx' ∈ txs -> tx <> tx' -> index_of txs tx <> index_of txs tx'.
Proof.
  intros HN H1 H2 Hne E.
  destruct (index_of_spec txs tx H1) as (t1 & Ht1 & Hh1), (index_of_spec txs tx' H2) as (t2 & Ht2 & Hh2).
  rewrite <- E in Ht2. assert (tx_hash tx = tx_hash tx') as Hh by congruence.
  apply Hne. apply list_elem_of_lookup in H1 as [i Hi], H2 as [j Hj].
  assert (i = j) as ->; [|congruence].
  apply (NoDup_lookup _ i j (tx_hash tx) HN); rewrite list_lookup_fmap, ?Hi, ?Hj; cbn; congruence.
Qed.

Lemma index_of_position txs pre tx rest :
  NoDup (tx_hash <$> txs) -> txs = pre ++ tx :: rest -> index_of txs tx = length pre.
Proof.
  intros HN E. assert (txs !! length pre = Some tx) as Hi by (rewrite E, lookup_app_r, Nat.sub_diag by lia; done).
  destruct (index_of_spec txs tx) as (tx' & Hi' & Hh); [by eapply list_elem_of_lookup_2|].
  apply (NoDup_lookup _ _ _ (tx_hash tx) HN); rewrite list_lookup_fmap, ?Hi, ?Hi'; cbn; congruence.
Qed.
End Index.

(** ** Theorems *)

Section BlockTheorems.
Context {C : Crypto} {V : Verkle} {VL : VerkleLaws V} {EV : EVM}.
Context (e : Executor) (header : Header) (db : option DB).
Implicit Types (sh : Shared) (tx : Transaction) (txs : list Transaction).

Lemma ApplyBlock_seq_exec txs s :
  ApplyBlock e db s header txs (ApplyBlock_seq e db s header txs).
Proof.
  destruct (schedule_loop_rounds (length txs) txs) as (waves & Hs & _); [lia|].
  exists waves, (apply_waves e header txs db (initial_shared s txs) waves).
  split_and!; [done|apply apply_waves_exec|]. unfold ApplyBlock_seq, schedule. by rewrite Hs.
Qed.

(** The sequential execution is one of the results of [ApplyBlock]: the scheduler
    returns, every goroutine can run to its end, and the block has a result. *)
Theorem apply_block_returns txs s :
  ApplyBlock e db s header txs (ApplyBlock_seq e db s header txs).
Proof. apply ApplyBlock_seq_exec. Qed.

(** A block whose transactions share an account has one result. *)
Lemma ApplyBlock_shared_account txs s a out :
  Forall (fun tx => a ∈ tx_accounts tx) txs ->
  ApplyBlock e db s header txs out -> out = ApplyBlock_seq e db s header txs.
Proof.
  intros HF (waves & sh & Hs & Hex & ->). unfold ApplyBlock_seq. rewrite Hs. cbn [mbind option_bind]. f_equal.
  apply (waves_exec_solo e header txs db); [|done]. rewrite (schedule_shared_account a) in Hs by done.
  injection Hs as <-. by apply Forall_fmap, Forall_true.
Qed.

(** *** Receipts *)

Definition thread_tx (th : thread) : Transaction :=
  match th with Ready tx | Running tx _ _ _ | Done tx => tx end.

(** The receipt slots belong to the transaction of their position. *)
Definition receipts_ok txs sh : Prop :=
  length (receipts sh) = length txs /\
  forall i r, receipts sh !! i = Some (Some r) ->
    exists tx, txs !! i = Some tx /\ RTxHash r = tx_hash tx.

Lemma receipts_ok_insert txs sh tx r st gas fees :
  receipts_ok txs sh -> tx ∈ txs -> RTxHash r = tx_hash tx ->
  receipts_ok txs (mkShared st (<[index_of txs tx := Some r]> (receipts sh)) gas fees).
Proof.
  intros [Hl Hok] Hin Hr. split; [cbn; by rewrite length_insert|]. intros i r' Hi. cbn in Hi.
  apply list_lookup_insert_Some in Hi as [(<- & [= <-] & _)|[_ Hi]]; [|by apply Hok].
  destruct (index_of_spec txs tx Hin) as (tx' & Ht & Hh). exists tx'. split; [done|congruence].
Qed.

Lemma wave_steps_receipts txs c c' :
  rtc (wave_step e header txs db) c c' ->
  Forall (fun th => thread_tx th ∈ txs) c.1 -> receipts_ok txs c.2 -> receipts_ok txs c'.2.
Proof.
  induction 1 as [c|c1 c2 c3 H12 _ IH]; [done|]. intros HF Hok.
  destruct H12 as [ths i th th' sh sh' Hi Hst]. cbn [fst snd] in *.
  assert (thread_tx th ∈ txs) as Hth by (rewrite Forall_lookup in HF; by eapply HF).
  assert (thread_tx th' = thread_tx th) as Et by by destruct Hst.
  apply IH; [apply Forall_insert; [done|by rewrite Et]|].
  destruct Hst; try done; by apply receipts_ok_insert.
Qed.

Lemma waves_receipts txs waves sh sh' :
  Forall (fun w => forall tx, tx ∈ w -> tx ∈ txs) waves ->
  waves_exec e header txs db waves sh sh' -> receipts_ok txs sh -> receipts_ok txs sh'.
Proof.
  intros HF Hex. induction Hex as [sh|w waves sh Hg|w waves sh sh' sh'' Hg Hw _ IH]; try done.
  inversion_clear HF as [|? ? Hwin HF']. intros Hok. apply IH; [done|].
  apply (wave_steps_receipts txs _ _ Hw); [|done].
  apply Forall_fmap, Forall_forall. intros tx Hin. cbn. by apply Hwin.
Qed.

Lemma compact_spec txs rs c i tx :
  length rs = length txs -> txs !! i = Some tx ->
  exists r, compact txs rs c !! i = Some r /\
    (forall r0, rs !! i = Some (Some r0) -> r = set_cumulative r0 (CumulativeGasUsed r)) /\
    (rs !! i = Some None -> r = set_cumulative (failed_receipt (tx_hash tx)) (CumulativeGasUsed r)) /\
    CumulativeGasUsed r = wd (uval c + sumZ (fun r => uval (RGasUsed r)) (take (S i) (compact txs rs c))).
Proof.
  revert rs c i. induction txs as [|tx0 txs IH]; intros [|r0 rs] c i Hl Hi; try done.
  destruct i as [|i]; cbn in Hi.
  - injection Hi as ->. eexists. cbn [compact]. split_and!; [done| | |].
    + by intros r1 [= ->].
    + by intros [= ->].
    + cbn [take]. rewrite ?take_0. autorewrite with zeph_rw. cbn. unfold wadd. by rewrite Z.add_0_r.
  - injection Hl as Hl. cbn [compact]. set (r := default _ r0). set (c' := wadd c (RGasUsed r)).
    destruct (IH rs c' i Hl Hi) as (r' & Hr' & H1 & H2 & H3). exists r'. split_and!; [done..|].
    rewrite H3. cbn [take]. rewrite sumZ_cons. cbn [RGasUsed set_cumulative].
    apply wd_eq_iff. unfold c', wadd. rewrite uval_wd, Zplus_mod_idemp_l. f_equal. lia.
Qed.

Lemma block_receipts txs s rs root s' i tx :
  ApplyBlock e db s header txs (Some (rs, root, s')) -> txs !! i = Some tx ->
  length rs = length txs /\
  exists r, rs !! i = Some r /\ RTxHash r = tx_hash tx /\
    CumulativeGasUsed r = wd (sumZ (fun r => uval (RGasUsed r)) (take (S i) rs)).
Proof.
  intros (waves & sh & Hsch & Hex & Hfin) Hi.
  assert (receipts_ok txs sh) as [Hl Hok].
  { apply (waves_receipts txs waves (initial_shared s txs)); [|done|].
    - destruct (schedule_loop_rounds (length txs) txs) as (wv & Hwv & Hr); [lia|].
      unfold schedule in Hsch. rewrite Hsch in Hwv. injection Hwv as <-.
      eapply Forall_impl; [by apply rounds_sublist|]. intros w Hw t Hin.
      apply (elem_of_submseteq w); [done|by apply sublist_submseteq].
    - split; [cbn; by rewrite length_replicate|]. intros j r Hj. cbn in Hj.
      by apply lookup_replicate in Hj as [? _]. }
  unfold finalize in Hfin. destruct (FromBig _) as [x [|]]; [done|]. injection Hfin as -> -> ->.
  assert (forall l rs c, length rs = length l -> length (compact l rs c) = length l) as Hlen.
  { clear. induction l as [|a l IH]; intros [|r rs] c H; try done. cbn in *. f_equal. apply IH. lia. }
  split; [by apply Hlen|].
  destruct (compact_spec txs (receipts sh) (wd 0) i tx Hl Hi) as (r & Hr & H1 & H2 & H3).
  exists r. split_and!; [done| |by rewrite H3].
  destruct (lookup_lt_is_Some_2 (receipts sh) i) as [[r0|] Hr0].
  { rewrite Hl. by eapply lookup_lt_Some. }
  - rewrite (H1 r0 Hr0). cbn. destruct (Hok i r0 Hr0) as (tx' & Ht & ->). congruence.
  - by rewrite (H2 Hr0).
Qed.

(** C28: Receipts are aligned with the block. Whatever the interleaving, a finished block
    has exactly one receipt per transaction, in block order: the i-th receipt carries
    the hash of the i-th transaction, and its cumulative gas is the sum of the gas of
    the receipts up to it (modulo 2^64). *)
Theorem apply_block_receipts txs s rs root s' i tx :
  ApplyBlock e db s header txs (Some (rs, root, s')) -> txs !! i = Some tx ->
  length rs = length txs /\
  exists r, rs !! i = Some r /\ RTxHash r = tx_hash tx /\
    CumulativeGasUsed r = wd (sumZ (fun r => uval (RGasUsed r)) (take (S i) rs)).
Proof. apply block_receipts. Qed.

(** [Call] is isolated. The simulated message runs on an overlay, returns with the
    state it was given as the untouched parent of that overlay, and its result depends on
    the state only through the values it reads. *)
Theorem call_isolated s s' msg :
  state_eq s s' ->
  exists f r, Call e db s header msg = (Overlay f s, r) /\ Call e db s' header msg = (Overlay f s', r).
Proof.
  intros Heq. unfold Call, NewOverlay. set (p := _ ≫= _).
  destruct (run_frame db p empty_fields s s') as (_ & [f r] & E1 & E2).
  - apply agree_on_keys; [done|]. intros k. apply run_keys_is_key.
  - exists f, r. by rewrite E1, E2.
Qed.
End BlockTheorems.
