(* ===== verification/Serial.v ===== *)
(** * Serial: parallel execution and the sequential order.

    The goroutines of a wave run on overlays of one state and merge in any order. The EVM ends
    every message with a credit to the coinbase, so the transactions of a wave always share that
    one key, and credits can get lost ([coinbase_update_lost]). Everything else is serializable:
    [apply_block_serializable] compares every interleaving with the sequential execution on all
    other keys. States and overlays are therefore related up to one key [c]; a program is [blind]
    when it only ever credits the account of that key and ignores the answer, as
    [stateTransition.execute] does. *)

From S2P Require Import Prelude Words Interfaces Rlp Types Hex StateDB StateOps Scheduler Consensus Genesis SystemContracts Executor.

(** ** Agreement up to one key *)

Section But.
Context {C : Crypto} {V : Verkle} {VL : VerkleLaws V}.
Context (c : bytes).

Definition state_eq_but (s s' : StateDB) : Prop :=
  forall k, is_key k -> k <> c -> getVerkleValue s k = getVerkleValue s' k.

#[global] Instance state_eq_but_equiv : Equivalence state_eq_but.
Proof.
  split.
  - by intros s k _ _.
  - intros s s' H k Hk Hc. symmetry. by apply H.
  - intros s1 s2 s3 H1 H2 k Hk Hc. rewrite H1 by done. by apply H2.
Qed.

(** Two overlays that differ at most in what they wrote under [c]. *)
Record fields_but (f f' : fields) : Prop := {
  fb_dirty : forall k, k <> c -> dirty f !! k = dirty f' !! k;
  fb_code : code f = code f';
  fb_logs : logs f = logs f';
  fb_preimages : preimages f = preimages f';
  fb_transient : transientStorage f = transientStorage f'
}.

#[global] Instance fields_but_equiv : Equivalence fields_but.
Proof.
  split.
  - intros f. by split.
  - intros f f' [H ? ? ? ?]. split; [|congruence..]. intros k Hk. symmetry. auto.
  - intros f1 f2 f3 [H ? ? ? ?] [H' ? ? ? ?]. split; [|congruence..]. intros k Hk. rewrite H by done. auto.
Qed.

Lemma fields_but_set f f' k v :
  fields_but f f' -> fields_but (set_dirty f (<[k := v]> (dirty f))) (set_dirty f' (<[k := v]> (dirty f'))).
Proof.
  intros [Hd ? ? ? ?]. split; try done. intros k' Hk'. cbn.
  destruct (decide (k = k')) as [->|Hne]; [by rewrite !lookup_insert_eq|]. rewrite !lookup_insert_ne by done. auto.
Qed.

Lemma fields_but_hot f f' v v' :
  fields_but f f' -> fields_but (set_dirty f (<[c := v]> (dirty f))) (set_dirty f' (<[c := v']> (dirty f'))).
Proof. intros [Hd ? ? ? ?]. split; try done. intros k' Hk'. cbn. rewrite !lookup_insert_ne by done. auto. Qed.

Lemma get_overlay_but f f' p p' k :
  fields_but f f' -> k <> c -> getVerkleValue p k = getVerkleValue p' k ->
  getVerkleValue (Overlay f p) k = getVerkleValue (Overlay f' p') k.
Proof. intros Hf Hk Hp. cbn. rewrite (fb_dirty _ _ Hf) by done. by destruct (dirty f' !! k). Qed.

Lemma GetCode_but db s s' a :
  fields_but (own s) (own s') -> getVerkleValue s (codeHashKey a) = getVerkleValue s' (codeHashKey a) ->
  fields_but (own (GetCode db s a).1) (own (GetCode db s' a).1) /\ (GetCode db s a).2 = (GetCode db s' a).2.
Proof.
  intros Hf Hg. unfold GetCode. rewrite (GetCodeHash_ext s s' a Hg), <- (fb_code _ _ Hf).
  case_bool_decide; [done|]. destruct (code (own s) !! _) as [b|]; [done|]. destruct db as [d|]; [|done].
  destruct (d !! _) as [b|]; [|done]. cbn [fst snd]. rewrite !own_with_own. split; [|done]. destruct Hf as [? Hc ? ? ?]. split; try done.
Qed.

(** A call that does not use [c]. *)
Lemma exec_but {X : Type} db (o : StateOp X) s s' :
  fields_but (own s) (own s') -> c ∉ op_keys o -> (forall k, k ∈ op_keys o -> getVerkleValue s k = getVerkleValue s' k) ->
  fields_but (own (exec_op db o s).1) (own (exec_op db o s').1) /\ (exec_op db o s).2 = (exec_op db o s').2.
Proof.
  intros Hf Hc Hg.
  assert (forall k v, fields_but (own (setVerkleValue s k v)) (own (setVerkleValue s' k v))) as Hset.
  { intros k v. rewrite !own_set. by apply fields_but_set. }
  destruct o; cbn [op_keys] in Hg; cbn [exec_op fst snd]; try done;
    unfold SubBalance, AddBalance, addBalance, SelfDestruct6780, SelfDestruct, GetStateAndCommittedState, SetState, SetBalance,
      SetNonce, GetCodeSize, Empty, SetTransientState, GetTransientState; cbn [fst snd];
    rewrite ?(GetBalance_ext s s' a), ?(GetState_ext s s' a k), ?(GetNonce_ext s s' a), ?(GetCodeHash_ext s s' a)
      by (apply Hg; set_solver); try (by split).
  - apply GetCode_but; [done|]. apply Hg. set_solver.
  - split; [|done]. unfold SetCode. cbn [fst]. rewrite !own_with_own. destruct (Hset (codeHashKey a) (hash_bytes (keccak256 c0))) as [H1 H2 H3 H4 H5].
    split; [done| |done..]. cbn [code set_code]. by rewrite H2.
  - destruct (GetCode_but db s s' a Hf) as [H1 H2]; [apply Hg; set_solver|]. destruct (GetCode db s a), (GetCode db s' a). cbn in *. by subst.
  - split; [done|]. by rewrite (fb_transient _ _ Hf).
  - split; [|done]. rewrite !own_with_own, (fb_transient _ _ Hf). destruct Hf. by split.
  - destruct (_ && _); [|done]. destruct (GetCode_but db s s' a Hf) as [H1 H2]; [apply Hg; set_solver|].
    destruct (GetCode db s a), (GetCode db s' a). cbn in *. by subst.
Qed.

(** ** Programs that do not look at [c] *)

Definition is_credit {X : Type} (o : StateOp X) : Prop :=
  match o with OAddBalance _ _ => True | _ => False end.

Fixpoint blind {R : Type} (db : option DB) (p : prog R) (s : StateDB) : Prop :=
  match p with
  | Ret _ => True
  | Vis o k =>
      (c ∈ op_keys o -> is_credit o /\ forall x y, k x = k y) /\
      let '(s', x) := exec_op db o s in blind db (k x) s'
  end.

(** One call of a blind program, on two overlays over two parents. *)
Lemma blind_step {X R : Type} db (o : StateOp X) (k : X -> prog R) f f' p p' :
  fields_but f f' -> (forall key, key ∈ op_keys o -> key <> c -> getVerkleValue p key = getVerkleValue p' key) ->
  blind db (Vis o k) (Overlay f p) ->
  exists f1 x f1' x', exec_op db o (Overlay f p) = (Overlay f1 p, x) /\ exec_op db o (Overlay f' p') = (Overlay f1' p', x') /\
    fields_but f1 f1' /\ k x = k x'.
Proof.
  intros Hf Hg [Hb _]. destruct (exec_overlay db o f p) as [[f1 x] E1], (exec_overlay db o f' p') as [[f1' x'] E2].
  exists f1, x, f1', x'. split; [done|]. split; [done|]. destruct (decide (c ∈ op_keys o)) as [Hc|Hc].
  - destruct (Hb Hc) as [Hcr Hk]. split; [|apply Hk]. destruct o; try done. cbn [op_keys] in Hc. apply list_elem_of_singleton in Hc.
    cbn in E1, E2. injection E1 as <- <-. injection E2 as <- <-. rewrite <- Hc. by apply fields_but_hot.
  - destruct (exec_but db o (Overlay f p) (Overlay f' p')) as [H1 H2]; [done|done| |rewrite E1, E2 in H1, H2; cbn in H1, H2; by subst].
    intros key Hkey. assert (key <> c) by (intros ->; done). apply get_overlay_but; [done|done|by apply Hg].
Qed.

Lemma blind_run {R : Type} db (pr : prog R) f f' p p' :
  fields_but f f' -> blind db pr (Overlay f p) ->
  (forall key, key ∈ run_keys db pr (Overlay f p) -> key <> c -> getVerkleValue p key = getVerkleValue p' key) ->
  run_keys db pr (Overlay f' p') = run_keys db pr (Overlay f p) /\ blind db pr (Overlay f' p') /\
  exists f1 f1' r, run db pr (Overlay f p) = (Overlay f1 p, r) /\ run db pr (Overlay f' p') = (Overlay f1' p', r) /\ fields_but f1 f1'.
Proof.
  revert f f'. induction pr as [r|X o k IH]; intros f f' Hf Hb Hg.
  { split; [done|]. split; [done|]. by exists f, f', r. }
  cbn [run_keys run] in *.
  destruct (blind_step db o k f f' p p') as (f1 & x & f1' & x' & E1 & E2 & Hf1 & Hk); [done| |done|].
  { intros key Hkey. apply Hg. destruct (exec_op db o (Overlay f p)). set_solver. }
  destruct Hb as [Hb Hb']. cbn [blind]. rewrite E1 in Hb', Hg |- *. rewrite E2 in |- *. rewrite <- Hk.
  destruct (IH x f1 f1' Hf1 Hb') as (Hkeys & Hbl & Hrun); [intros key Hkey; apply Hg; set_solver|].
  split; [by rewrite Hkeys|]. done.
Qed.
End But.

(** ** Shared variables up to [c]

    Two shared states are equivalent when the state reads the same under every other key, the
    counters agree, and the receipts agree up to the cumulative gas, which [compact] recomputes. *)

Definition strip (r : option Receipt) : option Receipt := (fun r => set_cumulative r (wd 0)) <$> r.

(** The compaction only looks at the receipts up to their cumulative gas. *)
Lemma compact_strip txs rs rs' g : strip <$> rs = strip <$> rs' -> compact txs rs g = compact txs rs' g.
Proof.
  revert rs rs' g. induction txs as [|tx txs IH]; intros [|r rs] [|r' rs'] g H; try done.
  rewrite !fmap_cons in H. apply cons_eq_inv in H as [Hr H]. cbn [compact].
  assert (set_cumulative (default (failed_receipt (tx_hash tx)) r) (wd 0)
          = set_cumulative (default (failed_receipt (tx_hash tx)) r') (wd 0)) as E.
  { destruct r as [[]|], r' as [[]|]; cbn in *; congruence. }
  assert (RGasUsed (default (failed_receipt (tx_hash tx)) r)
          = RGasUsed (default (failed_receipt (tx_hash tx)) r')) as Eg
    by apply (f_equal RGasUsed E).
  rewrite Eg. f_equal; [|by apply IH].
  set (x := default _ r) in *. set (y := default _ r') in *. destruct x, y. cbn in *.
  injection E as -> -> -> -> -> -> ->. done.
Qed.

Lemma strip_insert (rs : list (option Receipt)) i r :
  strip <$> <[i := Some r]> rs = <[i := Some (set_cumulative r (wd 0))]> (strip <$> rs).
Proof. by rewrite list_fmap_insert. Qed.

Section Shared.
Context {C : Crypto} {V : Verkle} {VL : VerkleLaws V} {EV : EVM}.
Context (e : Executor) (header : Header) (txs : list Transaction) (db : option DB) (c : bytes).
Implicit Types (sh : Shared) (tx : Transaction) (th : thread) (ths : list thread).

Record shared_eq sh sh' : Prop := {
  se_state : state_eq_but c (statedb sh) (statedb sh');
  se_receipts : strip <$> receipts sh = strip <$> receipts sh';
  se_gas : blockGasUsed sh = blockGasUsed sh';
  se_fees : totalFees sh = totalFees sh'
}.

#[global] Instance shared_eq_equiv : Equivalence shared_eq.
Proof.
  split.
  - intros sh. by split.
  - intros sh sh' []. by split.
  - intros sh1 sh2 sh3 [H1 H2 H3 H4] [H1' H2' H3' H4']. split; [by rewrite H1| |..]; congruence.
Qed.

(** Two ends of one transaction, up to [c]. *)
Definition outcome_but (oc oc' : option (Message * fields * option ExecutionResult)) : Prop :=
  match oc, oc' with
  | None, None => True
  | Some (msg, f, r), Some (msg', f', r') => msg = msg' /\ fields_but c f f' /\ r = r'
  | _, _ => False
  end.

#[global] Instance outcome_but_refl : Reflexive outcome_but.
Proof. by intros [[[msg f] r]|]. Qed.

Lemma merged_but oc oc' k : outcome_but oc oc' -> k <> c -> merged oc !! k = merged oc' !! k.
Proof.
  destruct oc as [[[msg f] r]|], oc' as [[[msg' f'] r']|]; try done. cbn. intros (_ & Hf & <-) Hk.
  destruct r; [|done]. by apply (fb_dirty c f f' Hf).
Qed.

(** An effect is a function of the shared state and the outcome, up to equivalence. *)
Lemma effect_proper sh sh' tx oc oc' :
  outcome_ok oc -> outcome_ok oc' -> outcome_but oc oc' -> shared_eq sh sh' ->
  shared_eq (effect header txs sh tx oc) (effect header txs sh' tx oc').
Proof.
  intros Hok Hok' Hoc [H1 H2 H3 H4]. split.
  - intros k Hk Hc. rewrite !effect_get by done. by rewrite H1, (merged_but oc oc') by done.
  - destruct oc as [[[msg f] r]|], oc' as [[[msg' f'] r']|]; try done. cbn in Hoc. destruct Hoc as (<- & Hf & <-).
    destruct r as [r|]; cbn [effect]; unfold finish, finish_error, GetLogs; cbn [receipts own];
      rewrite !strip_insert, H2, ?(fb_logs c f f' Hf); done.
  - destruct oc as [[[msg f] r]|], oc' as [[[msg' f'] r']|]; try done. cbn in Hoc. destruct Hoc as (<- & _ & <-).
    destruct r; cbn; by rewrite H3.
  - destruct oc as [[[msg f] r]|], oc' as [[[msg' f'] r']|]; try done. cbn in Hoc. destruct Hoc as (<- & _ & <-).
    destruct r; cbn; by rewrite H4.
Qed.

(** Effects of distinct transactions whose writes are disjoint but for [c] commute. *)
Lemma effect_comm sh tx1 tx2 oc1 oc2 :
  outcome_ok oc1 -> outcome_ok oc2 -> index_of txs tx1 <> index_of txs tx2 ->
  (forall k, is_key k -> k <> c -> merged oc1 !! k = None \/ merged oc2 !! k = None) ->
  shared_eq (effect header txs (effect header txs sh tx1 oc1) tx2 oc2) (effect header txs (effect header txs sh tx2 oc2) tx1 oc1).
Proof.
  intros Hok1 Hok2 Hi Hd. split.
  - intros k Hk Hc. rewrite !effect_get by done. destruct (Hd k Hk Hc) as [-> | ->]; done.
  - destruct oc1 as [[[msg1 f1] [r1|]]|], oc2 as [[[msg2 f2] [r2|]]|]; try done;
      cbn [effect]; unfold finish, finish_error; cbn [receipts];
      rewrite !strip_insert, list_insert_insert_ne by done; done.
  - destruct oc1 as [[[msg1 f1] [r1|]]|], oc2 as [[[msg2 f2] [r2|]]|]; try done. cbn.
    apply uval_inj. unfold wadd. rewrite !uval_wd, !Zplus_mod_idemp_l. f_equal. lia.
  - destruct oc1 as [[[msg1 f1] [r1|]]|], oc2 as [[[msg2 f2] [r2|]]|]; try done. cbn. lia.
Qed.

(** *** Folding the effects of several transactions, all computed at [s0]. *)

Definition effects (s0 : StateDB) sh (l : list Transaction) : Shared :=
  fold_left (fun sh tx => effect header txs sh tx (outcome e header db s0 tx)) l sh.

(** What a transaction does at [s0] does not depend on the value of [c]. *)
Definition blind_tx (s0 : StateDB) tx : Prop :=
  match tx_message header tx with
  | None => True
  | Some msg => blind c db (tx_exec e header tx msg) (NewOverlay s0)
  end.

(** The transactions of a wave share no key but [c], and are blind to that one. *)
Definition wave_disjoint (s0 : StateDB) (w : list Transaction) : Prop :=
  (forall tx, tx ∈ w -> blind_tx s0 tx) /\
  forall tx tx', tx ∈ w -> tx' ∈ w -> tx <> tx' ->
    forall k, k <> c -> k ∈ footprint e header db s0 tx -> k ∉ footprint e header db s0 tx'.

Lemma effects_proper s0 sh sh' l :
  state_wf s0 -> shared_eq sh sh' -> shared_eq (effects s0 sh l) (effects s0 sh' l).
Proof.
  intros Hs. revert sh sh'. induction l as [|tx l IH]; intros sh sh' H; [done|].
  apply IH, effect_proper; [by apply outcome_ok_wf..|done|done].
Qed.

Lemma effects_app s0 sh l1 l2 : effects s0 sh (l1 ++ l2) = effects s0 (effects s0 sh l1) l2.
Proof. apply fold_left_app. Qed.

Lemma effects_get s0 sh l k :
  state_wf s0 -> is_key k -> (forall tx, tx ∈ l -> k ∉ footprint e header db s0 tx) ->
  getVerkleValue (statedb (effects s0 sh l)) k = getVerkleValue (statedb sh) k.
Proof.
  intros Hs Hk. revert sh. induction l as [|tx l IH]; intros sh Hl; [done|].
  change (effects s0 sh (tx :: l)) with (effects s0 (effect header txs sh tx (outcome e header db s0 tx)) l).
  rewrite IH by set_solver. rewrite effect_get by (done || by apply outcome_ok_wf).
  by rewrite merged_footprint by set_solver.
Qed.

Lemma effects_perm s0 sh l l' w :
  state_wf s0 -> l ≡ₚ l' -> NoDup l -> (forall tx, tx ∈ l -> tx ∈ w) ->
  wave_disjoint s0 w ->
  (forall tx tx', tx ∈ w -> tx' ∈ w -> tx <> tx' -> index_of txs tx <> index_of txs tx') ->
  shared_eq (effects s0 sh l) (effects s0 sh l').
Proof.
  intros Hs Hp HN Hw [_ Hd] Hi. revert sh.
  induction Hp as [|tx l l' Hp IH|tx1 tx2 l|l1 l2 l3 Hp1 IH1 Hp2 IH2]; intros sh.
  - done.
  - apply NoDup_cons in HN as [_ HN]. apply IH; set_solver.
  - apply NoDup_cons in HN as [H1 HN]. assert (tx1 <> tx2) as Hne by set_solver.
    change (shared_eq
      (effects s0 (effect header txs (effect header txs sh tx2 (outcome e header db s0 tx2)) tx1 (outcome e header db s0 tx1)) l)
      (effects s0 (effect header txs (effect header txs sh tx1 (outcome e header db s0 tx1)) tx2 (outcome e header db s0 tx2)) l)).
    apply effects_proper; [done|]. symmetry. apply effect_comm; try by apply outcome_ok_wf.
    + apply Hi; [set_solver..|done].
    + intros k Hk Hc. destruct (decide (k ∈ footprint e header db s0 tx1)) as [Hk1|Hk1].
      * right. apply merged_footprint. apply (Hd tx1 tx2); [set_solver..|done|done|done].
      * left. by apply merged_footprint.
  - etransitivity; [apply IH1; done|]. apply IH2; [by rewrite <- Hp1|]. intros tx. rewrite <- Hp1. apply Hw.
Qed.

(** *** Interleavings of a wave *)

Definition pending th : option Transaction :=
  match th with Ready tx => Some tx | Running tx _ _ _ => Some tx | Done _ => None end.

(** A goroutine is somewhere on the run its transaction would make alone on [s0], up to [c]. *)
Definition thread_ok (s0 : StateDB) th : Prop :=
  match th with
  | Ready _ | Done _ => True
  | Running tx msg f p =>
      tx_message header tx = Some msg /\ dirty_ok (dirty f) /\
      exists f0, fields_but c f0 f /\
        run db p (Overlay f0 s0) = run db (tx_exec e header tx msg) (NewOverlay s0) /\ blind c db p (Overlay f0 s0) /\
        forall k, k ∈ run_keys db p (Overlay f0 s0) -> k ∈ footprint e header db s0 tx
  end.

(** The transactions [done] have finished, in this order, and the shared state is what
    their effects at [s0] make of the initial one. *)
Definition wave_inv (s0 : StateDB) sh0 (w : list Transaction) (cf : list thread * Shared) : Prop :=
  exists done, done ++ omap pending cf.1 ≡ₚ w /\ Forall (thread_ok s0) cf.1 /\
    state_wf (statedb cf.2) /\ shared_eq cf.2 (effects s0 sh0 done).

Lemma pending_insert ths i th th' :
  ths !! i = Some th ->
  omap pending (<[i := th']> ths)
  ≡ₚ option_list (pending th') ++ omap pending (take i ths) ++ omap pending (drop (S i) ths) /\
  omap pending ths
  ≡ₚ option_list (pending th) ++ omap pending (take i ths) ++ omap pending (drop (S i) ths).
Proof.
  intros Hi. pose proof (lookup_lt_Some _ _ _ Hi) as Hl.
  split.
  - rewrite insert_take_drop by done. rewrite omap_app. cbn [omap list_omap].
    destruct (pending th') as [t|]; [change (option_list (Some t)) with [t]|]; solve_Permutation.
  - rewrite <- (take_drop_middle ths i th Hi) at 1. rewrite omap_app. cbn [omap list_omap].
    destruct (pending th) as [t|]; [change (option_list (Some t)) with [t]|]; solve_Permutation.
Qed.

(** The state a pending goroutine sees agrees with [s0] on its footprint, but for [c]. *)
Lemma wave_frame s0 sh0 w done sh tx :
  state_wf s0 -> NoDup w -> wave_disjoint s0 w -> statedb sh0 = s0 ->
  shared_eq sh (effects s0 sh0 done) ->
  (forall tx', tx' ∈ done -> tx' ∈ w /\ tx' <> tx) -> tx ∈ w ->
  forall k, k ∈ footprint e header db s0 tx -> k <> c ->
    getVerkleValue s0 k = getVerkleValue (statedb sh) k.
Proof.
  intros Hs HN [_ Hd] H0 Heq Hdone Hw k Hk Hc.
  assert (is_key k) as Hkey.
  { unfold footprint in Hk. destruct (tx_message header tx) as [msg|]; [|by apply elem_of_nil in Hk].
    by eapply run_keys_is_key. }
  rewrite (se_state _ _ Heq) by done. rewrite effects_get; [by rewrite H0|done..|].
  intros tx' Hin. destruct (Hdone tx' Hin). by apply (Hd tx tx').
Qed.

Lemma outcome_run s0 tx msg f r :
  tx_message header tx = Some msg ->
  (Overlay f s0, r) = run db (tx_exec e header tx msg) (NewOverlay s0) ->
  outcome e header db s0 tx = Some (msg, f, r).
Proof. intros Hm Hr. unfold outcome. rewrite Hm. cbn [mbind option_bind]. by rewrite <- Hr. Qed.

Lemma thread_step_inv s0 th sh th' sh' :
  state_wf (statedb sh) -> thread_step e header txs db th sh th' sh' -> thread_ok s0 th ->
  (forall tx, pending th = Some tx -> blind_tx s0 tx) ->
  (forall tx, pending th = Some tx -> forall k, k ∈ footprint e header db s0 tx -> k <> c ->
     getVerkleValue s0 k = getVerkleValue (statedb sh) k) ->
  (thread_ok s0 th' /\ pending th' = pending th /\ sh' = sh) \/
  (exists tx oc, th' = Done tx /\ pending th = Some tx /\ outcome_ok oc /\ outcome_but (outcome e header db s0 tx) oc /\
              sh' = effect header txs sh tx oc).
Proof.
  intros Hwf Hst Hok Hbl Hfr. destruct Hst as [tx sh Hm|tx msg sh Hm|tx msg f X o k f' p' x sh Hx|tx msg f sh|tx msg f res sh].
  - right. exists tx, None. split_and!; [done..| |done]. unfold outcome. by rewrite Hm.
  - left. split_and!; [|done..]. split_and!; [done|apply map_Forall_empty|]. exists empty_fields.
    specialize (Hbl tx eq_refl). unfold blind_tx in Hbl. rewrite Hm in Hbl.
    split_and!; [done|done|done|]. intros k Hk. unfold footprint. by rewrite Hm.
  - left. destruct Hok as (Hm & Hd & f0 & Hf & Hrun & Hb & Hkeys).
    assert (dirty_ok (dirty f')) as Hd'.
    { pose proof (exec_wf db o (Overlay f (statedb sh)) (conj Hd Hwf)) as H. rewrite Hx in H. by destruct H. }
    destruct (blind_step c db o k f0 f s0 (statedb sh)) as (f1 & x1 & f1' & x1' & E1 & E2 & Hf1 & Hk); [done| |done|].
    { intros key Hkey Hc. apply (Hfr tx eq_refl); [|done]. apply Hkeys. cbn [run_keys]. destruct (exec_op db o (Overlay f0 s0)); apply elem_of_app; by left. }
    rewrite Hx in E2. injection E2 as -> -> ->. cbn [run run_keys] in Hrun, Hkeys. destruct Hb as [_ Hb].
    rewrite E1 in Hrun, Hkeys, Hb. rewrite Hk in Hrun, Hkeys, Hb.
    split_and!; [|done..]. split_and!; [done|done|]. exists f1. split_and!; [done..|]. intros key Hkey. apply Hkeys. set_solver.
  - right. destruct Hok as (Hm & Hd & f0 & Hf & Hrun & _). exists tx, (Some (msg, f, None)). split_and!; [done..| |done].
    by rewrite (outcome_run s0 tx msg f0 None).
  - right. destruct Hok as (Hm & Hd & f0 & Hf & Hrun & _). exists tx, (Some (msg, f, Some res)). split_and!; [done..| |done].
    by rewrite (outcome_run s0 tx msg f0 (Some res)).
Qed.

Lemma thread_ok_wf s0 th : thread_ok s0 th -> thread_wf th.
Proof. destruct th; [done| |done]. by intros (_ & ? & _). Qed.

Lemma wave_step_inv s0 sh0 w cf cf' :
  state_wf s0 -> NoDup w -> wave_disjoint s0 w -> statedb sh0 = s0 ->
  wave_step e header txs db cf cf' -> wave_inv s0 sh0 w cf -> wave_inv s0 sh0 w cf'.
Proof.
  intros Hs HN Hd H0 Hst (done & Hp & HF & Hwf & Heq). destruct Hst as [ths i th th' sh sh' Hi Hst].
  cbn [fst snd] in *. destruct (pending_insert ths i th th' Hi) as [Hp' Hp0].
  assert (thread_ok s0 th) as Hok by (rewrite Forall_lookup in HF; eauto).
  destruct (thread_step_wf e header txs db _ _ _ _ Hst (thread_ok_wf _ _ Hok) Hwf) as [_ Hwf'].
  assert (forall tx, pending th = Some tx -> tx ∈ w) as Hin.
  { intros tx Epend. rewrite Hp0, Epend in Hp. cbn [option_list app] in Hp. rewrite <- Hp. set_solver. }
  destruct (thread_step_inv s0 th sh th' sh' Hwf Hst Hok) as [(Hok' & Epend & ->)|(tx & oc & -> & Epend & Hoc & Hocb & ->)].
  { intros tx Epend. apply Hd. auto. }
  { intros tx Epend. rewrite Hp0, Epend in Hp. cbn [option_list app] in Hp.
    assert (NoDup (done ++ tx :: omap pending (take i ths) ++ omap pending (drop (S i) ths))) as HN'
      by (by rewrite Hp).
    apply (wave_frame s0 sh0 w done sh tx); try done; [|auto].
    intros tx' Hin'. split; [rewrite <- Hp; set_solver|]. intros ->.
    apply NoDup_app in HN' as (_ & Hx & _). apply (Hx tx Hin'). set_solver. }
  - exists done. cbn [fst snd]. split_and!; [|by apply Forall_insert|done|done].
    rewrite Hp', Epend, <- Hp0. done.
  - exists (done ++ [tx]). cbn [fst snd]. split_and!; [|by apply Forall_insert|done|].
    + rewrite Hp', <- Hp, Hp0, Epend. cbn [pending option_list app]. by rewrite <- app_assoc.
    + rewrite effects_app. cbn. symmetry. apply effect_proper; [by apply outcome_ok_wf|done|done|by symmetry].
Qed.

Lemma pending_done (w : list Transaction) : omap pending (Done <$> w) = [].
Proof. induction w; [done|]. done. Qed.

Lemma pending_ready (w : list Transaction) : omap pending (Ready <$> w) = w.
Proof. induction w as [|tx w IH]; [done|]. cbn. f_equal. exact IH. Qed.

(** Every complete interleaving of a wave has the effects of its transactions, computed at the
    state the wave starts from, in wave order. *)
Lemma wave_exec_effects w sh sh' :
  state_wf (statedb sh) -> NoDup w -> wave_disjoint (statedb sh) w ->
  (forall tx tx', tx ∈ w -> tx' ∈ w -> tx <> tx' -> index_of txs tx <> index_of txs tx') ->
  wave_exec e header txs db w sh sh' ->
  shared_eq sh' (effects (statedb sh) sh w).
Proof.
  intros Hs HN Hd Hi Hex.
  assert (wave_inv (statedb sh) sh w (Done <$> w, sh')) as (done & Hp & _ & _ & Heq).
  { assert (wave_inv (statedb sh) sh w (Ready <$> w, sh)) as H0.
    { exists []. cbn [fst snd]. rewrite pending_ready. split_and!; [done| |done|done].
      apply Forall_fmap, Forall_true. done. }
    revert H0. unfold wave_exec in Hex.
    induction Hex as [cf|c1 c2 c3 H12 _ IH]; [done|]. intros H1. apply IH. by eapply wave_step_inv. }
  cbn [fst snd] in *. rewrite pending_done, app_nil_r in Hp. etransitivity; [exact Heq|].
  apply (effects_perm (statedb sh) sh done w w); try done.
  - by rewrite Hp.
  - intros tx. by rewrite Hp.
Qed.

(** *** Outcomes only depend on the reads *)

Lemma outcome_ext s s' tx :
  state_eq_but c s s' -> blind_tx s tx ->
  blind_tx s' tx /\ footprint e header db s' tx = footprint e header db s tx /\
  outcome_but (outcome e header db s tx) (outcome e header db s' tx).
Proof.
  intros Heq. unfold blind_tx, footprint, outcome. destruct (tx_message header tx) as [msg|]; [|done].
  cbn [mbind option_bind]. unfold NewOverlay. intros Hb.
  destruct (blind_run c db (tx_exec e header tx msg) empty_fields empty_fields s s') as (Hk & Hb' & f1 & f1' & r & -> & -> & Hf); [done|done| |].
  { intros k Hk Hc. apply Heq; [|done]. by eapply run_keys_is_key. }
  done.
Qed.

Lemma wave_disjoint_ext s s' w : state_eq_but c s s' -> wave_disjoint s w -> wave_disjoint s' w.
Proof.
  intros Heq [Hb Hd]. split; [intros tx Htx; by apply (outcome_ext s s' tx Heq (Hb tx Htx))|].
  intros tx tx' H1 H2 Hne k Hk. rewrite (proj1 (proj2 (outcome_ext s s' tx Heq (Hb tx H1)))), (proj1 (proj2 (outcome_ext s s' tx' Heq (Hb tx' H2)))).
  by apply Hd.
Qed.

Lemma effects_ext s s' sh sh' l :
  state_wf s -> state_wf s' -> state_eq_but c s s' -> (forall tx, tx ∈ l -> blind_tx s tx) -> shared_eq sh sh' ->
  shared_eq (effects s sh l) (effects s' sh' l).
Proof.
  intros Hs Hs' Heq. revert sh sh'. induction l as [|tx l IH]; intros sh sh' Hb Hsh; [done|]. cbn.
  apply IH; [set_solver|]. apply effect_proper; [by apply outcome_ok_wf..| |done].
  apply (outcome_ext s s' tx Heq). apply Hb. left.
Qed.

(** ** Waves and blocks *)

(** At each wave the sequential execution reaches, the transactions share no key but [c]. *)
Fixpoint block_disjoint sh (waves : list (list Transaction)) : Prop :=
  match waves with
  | [] => True
  | w :: rest =>
      uval (blockGasUsed sh) <= 60000000 ->
      wave_disjoint (statedb sh) w /\ block_disjoint (apply_wave e header txs db sh w) rest
  end.

Lemma wave_serial w sh1 sh2 sh' :
  NoDup (tx_hash <$> txs) -> NoDup w -> (forall tx, tx ∈ w -> tx ∈ txs) ->
  state_wf (statedb sh1) -> state_wf (statedb sh2) -> shared_eq sh1 sh2 ->
  wave_disjoint (statedb sh2) w ->
  wave_exec e header txs db w sh1 sh' -> shared_eq sh' (apply_wave e header txs db sh2 w).
Proof.
  intros HN HNw Hw Hs1 Hs2 Heq Hd Hex. pose proof (se_state _ _ Heq) as Hst.
  assert (forall tx tx', tx ∈ w -> tx' ∈ w -> tx <> tx' -> index_of txs tx <> index_of txs tx') as Hi.
  { intros. apply index_of_inj; auto. }
  assert (wave_disjoint (statedb sh1) w) as Hd1 by (apply (wave_disjoint_ext (statedb sh2)); [by symmetry|done]).
  rewrite (wave_exec_effects w sh1 sh') by done.
  rewrite (effects_ext (statedb sh1) (statedb sh2) sh1 sh2 w) by (done || apply Hd1).
  symmetry. apply wave_exec_effects; try done. apply apply_wave_exec.
Qed.

Lemma waves_serial waves sh1 sh2 sh' :
  NoDup (tx_hash <$> txs) -> Forall (fun w => NoDup w /\ forall tx, tx ∈ w -> tx ∈ txs) waves ->
  state_wf (statedb sh1) -> state_wf (statedb sh2) -> shared_eq sh1 sh2 ->
  block_disjoint sh2 waves ->
  waves_exec e header txs db waves sh1 sh' -> shared_eq sh' (apply_waves e header txs db sh2 waves).
Proof.
  intros HN HF Hs1 Hs2 Heq Hd Hex. revert sh2 Hs2 Heq HF Hd.
  induction Hex as [sh|w waves sh Hg|w waves sh sh' sh'' Hg Hw _ IH]; intros sh2 Hs2 Heq HF Hd; cbn.
  - done.
  - rewrite <- (se_gas _ _ Heq), (proj2 (Z.ltb_lt _ _)) by done. done.
  - rewrite (se_gas _ _ Heq) in Hg. rewrite (proj2 (Z.ltb_ge _ _)) by done.
    inversion_clear HF as [|? ? [HNw Hwin] HF']. destruct (Hd Hg) as [Hd1 Hd2].
    apply IH; try done.
    + by apply (wave_exec_wf e header txs db w sh).
    + apply (wave_exec_wf e header txs db w sh2); [apply apply_wave_exec|done].
    + by apply (wave_serial w sh).
Qed.
End Shared.

(** ** Theorems *)

Section SerialTheorems.
Context {C : Crypto} {V : Verkle} {VL : VerkleLaws V} {EV : EVM}.
Context (e : Executor) (header : Header) (db : option DB).
Implicit Types (sh : Shared) (tx : Transaction) (txs : list Transaction).

#[local] Abbreviation hot := (balanceKey (Coinbase header)).

Lemma reward_state_eq s s' a x y :
  state_eq_but (balanceKey a) s s' -> state_eq_but (balanceKey a) (AddBalanceReward s a x) (AddBalanceReward s' a y).
Proof.
  intros H k Hk Hc. pose proof (slot_key_is_key (SBalance a)) as Ha. cbn [slot_key] in Ha.
  unfold AddBalanceReward, AddBalance, addBalance, SetBalance. cbn [fst]. rewrite !get_set_ne by done. by apply H.
Qed.

(** C2: Parallel execution is serializable but for the coinbase's balance. Let the transactions of
    each wave share no state key except the balance of the coinbase, which they only credit, without
    looking at the result (the EVM's last call for every message). Then every interleaving of the
    goroutines, and every order of their merges, gives the receipts of the sequential execution
    and a state that reads the same under every key except possibly the coinbase's balance; one run
    panics on the reward only if the other does. *)
Theorem apply_block_serializable txs waves s out :
  NoDup (tx_hash <$> txs) -> state_wf s -> schedule txs = Some waves ->
  block_disjoint e header txs db hot (initial_shared s txs) waves ->
  ApplyBlock e db s header txs out ->
  match out, ApplyBlock_seq e db s header txs with
  | Some (rs, _, s'), Some (rs_seq, _, s_seq) => rs = rs_seq /\ state_eq_but hot s' s_seq
  | None, None => True
  | _, _ => False
  end.
Proof.
  intros HN Hs Hsch Hd (waves' & sh & Hsch' & Hex & ->).
  rewrite Hsch in Hsch'. injection Hsch' as <-. unfold ApplyBlock_seq. rewrite Hsch. cbn [mbind option_bind].
  assert (Forall (fun w => NoDup w /\ forall tx, tx ∈ w -> tx ∈ txs) waves) as HF.
  { destruct (schedule_loop_rounds (length txs) txs) as (wv & Hwv & Hr); [lia|].
    unfold schedule in Hsch. rewrite Hsch in Hwv. injection Hwv as <-.
    eapply Forall_impl; [by apply rounds_sublist|]. intros w Hw. split.
    - apply (sublist_NoDup w txs); [|done]. by eapply NoDup_fmap_1.
    - intros tx Hin. apply (elem_of_submseteq w); [done|by apply sublist_submseteq]. }
  pose proof (waves_serial e header txs db hot waves (initial_shared s txs) (initial_shared s txs) sh HN HF Hs Hs
                (reflexivity _) Hd Hex) as [Hst Hrc _ Hfee].
  set (sh2 := apply_waves _ _ _ _ _ _) in *. clearbody sh2.
  unfold finalize. rewrite Hfee. destruct (FromBig _) as [x [|]]; [done|].
  split; [by apply compact_strip|by apply reward_state_eq].
Qed.

(** *** The lost credit *)

Lemma finish_balance txs tx m f r sh a :
  dirty_ok (dirty f) ->
  GetBalance (statedb (finish header txs tx m f r sh)) a = GetBalance (Overlay f (statedb sh)) a.
Proof.
  intros Hd. apply GetBalance_ext.
  rewrite (effect_get header txs sh tx (Some (m, f, Some r))); [|done|apply (slot_key_is_key (SBalance a))].
  cbn. by destruct (dirty f !! _).
Qed.

(** At [s] the transaction succeeds and credits [tip] to [a]. *)
Definition credits (s : StateDB) tx m (tip : u256) (a : Address) : Prop :=
  let '(o, r) := run db (tx_exec e header tx m) (NewOverlay s) in is_Some r /\ GetBalance o a = wadd (GetBalance s a) tip.

Lemma credits_run tx m tip a s :
  credits s tx m tip a -> state_wf s ->
  exists f r, run db (tx_exec e header tx m) (NewOverlay s) = (Overlay f s, Some r) /\
    dirty_ok (dirty f) /\ GetBalance (Overlay f s) a = wadd (GetBalance s a) tip.
Proof.
  intros H Hs. unfold credits in H.
  pose proof (run_wf db (tx_exec e header tx m) (NewOverlay s) (state_wf_overlay s Hs)) as Hw.
  destruct (run_overlay db (tx_exec e header tx m) empty_fields s) as [[f r] E].
  unfold NewOverlay in *. rewrite E in H, Hw |- *. cbn in H. destruct H as [[r' ->] Hb]. exists f, r'.
  split_and!; [done| |done]. by destruct Hw.
Qed.

(** C33: Fee updates can be lost. Two transactions of a wave succeed at the state the wave starts from and
    each credits the coinbase ([tip1], [tip2], as the EVM does at the end of every message), and the
    second would do so after the first as well. Then the interleaving in which both finish their execution
    before either merges leaves the coinbase with the second tip only, while the sequential
    order credits both: two nodes that execute the same block can disagree on its state. *)
Theorem coinbase_update_lost txs sh tx1 tx2 m1 m2 tip1 tip2 a :
  state_wf (statedb sh) -> tx_message header tx1 = Some m1 -> tx_message header tx2 = Some m2 ->
  tip1 <> wd 0 -> tip2 <> wd 0 -> credits (statedb sh) tx1 m1 tip1 a -> credits (statedb sh) tx2 m2 tip2 a ->
  credits (statedb (apply_tx e header txs db sh tx1)) tx2 m2 tip2 a ->
  exists sh_par,
    wave_exec e header txs db [tx1; tx2] sh sh_par /\
    GetBalance (statedb sh_par) a = wadd (GetBalance (statedb sh) a) tip2 /\
    GetBalance (statedb (apply_wave e header txs db sh [tx1; tx2])) a
    = wadd (wadd (GetBalance (statedb sh) a) tip1) tip2 /\
    GetBalance (statedb sh_par) a <> GetBalance (statedb (apply_wave e header txs db sh [tx1; tx2])) a.
Proof.
  intros Hs Hm1 Hm2 Htip1 Htip H1 H2 H3.
  destruct (credits_run tx1 m1 tip1 a (statedb sh) H1 Hs) as (f1 & r1 & E1 & Hd1 & B1).
  destruct (credits_run tx2 m2 tip2 a (statedb sh) H2 Hs) as (f2 & r2 & E2 & Hd2 & B2).
  set (sh1 := finish header txs tx1 m1 f1 r1 sh).
  assert (state_wf (statedb sh1)) as Hs1.
  { apply (thread_step_wf e header txs db (Running tx1 m1 f1 (Ret (Some r1))) sh (Done tx1) sh1); [constructor|done..]. }
  assert (apply_tx e header txs db sh tx1 = sh1) as Ea by (unfold apply_tx; by rewrite Hm1, E1).
  assert (GetBalance (statedb (finish header txs tx2 m2 f2 r2 sh1)) a = wadd (GetBalance (statedb sh) a) tip2) as Epar.
  { rewrite finish_balance by done. rewrite <- B2. apply GetBalance_ext. cbn.
    destruct (dirty f2 !! balanceKey a) as [v|] eqn:Ed; [done|]. exfalso. apply Htip.
    apply (wadd_cancel (GetBalance (statedb sh) a)). rewrite <- B2. apply GetBalance_ext. cbn. by rewrite Ed. }
  assert (GetBalance (statedb (apply_wave e header txs db sh [tx1; tx2])) a
    = wadd (wadd (GetBalance (statedb sh) a) tip1) tip2) as Eseq.
  { unfold apply_wave. cbn [fold_left]. rewrite Ea in *. unfold apply_tx. rewrite Hm2.
    destruct (credits_run tx2 m2 tip2 a (statedb sh1) H3 Hs1) as (f3 & r3 & E3 & Hd3 & B3).
    rewrite E3. cbn [own]. rewrite finish_balance by done. rewrite B3. unfold sh1.
    rewrite finish_balance by done. by rewrite B1. }
  exists (finish header txs tx2 m2 f2 r2 sh1). split_and!; [|done|done|].
  - unfold wave_exec. cbn [fmap list_fmap].
    eapply rtc_l; [apply (thread_once e header txs db [] [Ready tx2]), ts_start; exact Hm1|].
    etransitivity; [apply (run_thread e header txs db [] [Ready tx2]); exact E1|].
    eapply rtc_l; [apply (thread_once e header txs db [Running tx1 m1 f1 (Ret (Some r1))] []), ts_start; exact Hm2|].
    etransitivity; [apply (run_thread e header txs db [_] []); exact E2|].
    eapply rtc_l; [apply (thread_once e header txs db [] [_]), ts_finish|].
    apply rtc_once. apply (thread_once e header txs db [_] []), ts_finish.
  - rewrite Epar, Eseq. intros E. apply Htip1. apply (wadd_cancel (GetBalance (statedb sh) a)).
    apply uval_inj. apply (f_equal uval) in E. unfold wadd in E |- *. repeat rewrite uval_wd in E. rewrite uval_wd.
    rewrite Zplus_mod_idemp_l in E. pose proof (uval_range (GetBalance (statedb sh) a)) as Hr.
    set (M := 2 ^ Z.of_N 256) in *. set (b := uval _) in *.
    assert ((b + uval tip2 - uval tip2) mod M = (b + uval tip1 + uval tip2 - uval tip2) mod M) as E'.
    { rewrite Zminus_mod, E, <- Zminus_mod. done. }
    replace (b + uval tip1 + uval tip2 - uval tip2) with (b + uval tip1) in E' by lia.
    replace (b + uval tip2 - uval tip2) with b in E' by lia. rewrite <- E'. by apply Z.mod_small.
Qed.
End SerialTheorems.
