(* ===== verification/RawDB.v ===== *)
(** * RawDB: core/rawdb/accessors_chain.go, the chain's database schema. *)

From S2P Require Import Prelude Words Interfaces Rlp Types Sanity Hex StateDB.

Record TxLookupEntry := mkLookup {
  le_BlockHash : Hash;
  le_BlockIndex : u64;
  le_TxIndex : u64
}.

#[export] Instance TxLookupEntry_eq_dec : EqDecision TxLookupEntry.
Proof. solve_decision. Defined.

(** ** encoding/json

    [json.Marshal] and [json.Unmarshal] at the three stored types. The laws are that unmarshalling a
    marshalled value fails or gives it back, and that it does not fail, for blocks only when [UnmarshalJSON] accepts
    their transactions ([Sanity.readable]); [CodecRefuses] says that it refuses a block with a bad legacy transaction. *)
Class Codec (A : Type) := {
  Marshal : A -> option bytes;
  Unmarshal : bytes -> option A
}.

Class CodecLaws (A : Type) (c : Codec A) (ok : A -> Prop) : Prop := {
  unmarshal_marshal : forall (a : A) d, ok a -> Marshal a = Some d -> Unmarshal d = Some a;
  unmarshal_faithful : forall (a : A) d a', Marshal a = Some d -> Unmarshal d = Some a' -> a' = a
}.

Definition always {A : Type} (a : A) : Prop := True.

Class CodecRefuses (c : Codec Block) : Prop := {
  unmarshal_refuses : forall b d tx, tx ∈ Transactions b -> tx_type tx = 0 -> readable_tx tx = false ->
    Marshal b = Some d -> Unmarshal d = None
}.

Inductive db_error := ErrMarshal.

(** ** Keys *)

Definition headBlockKey : bytes := bytes_of_string "HeadBlock".
Definition blockKey (hash : Hash) : bytes := bytes_of_string "b" ++ hash_bytes hash.
Definition receiptsKey (hash : Hash) : bytes := bytes_of_string "r" ++ hash_bytes hash.
Definition txLookupKey (hash : Hash) : bytes := bytes_of_string "l" ++ hash_bytes hash.
Definition canonicalKey (number : u64) : bytes := bytes_of_string "H" ++ be_pad 8 (uval number).

(** ** Accessors *)

Section Accessors.
Context {C : Crypto} {CB : Codec Block} {CR : Codec (list Receipt)} {CT : Codec TxLookupEntry}.

Definition WriteBlock (db : DB) (block : Block) : DB * result db_error unit :=
  match Marshal block with
  | None => (db, Err ErrMarshal)
  | Some data => (<[blockKey (BlockHash block) := data]> db, Ok tt)
  end.

Definition ReadBlock (db : DB) (hash : Hash) : option Block :=
  data ← db !! blockKey hash; Unmarshal data.

Definition WriteReceipts (db : DB) (block : Block) (rs : list Receipt) : DB * result db_error unit :=
  match Marshal rs with
  | None => (db, Err ErrMarshal)
  | Some data => (<[receiptsKey (BlockHash block) := data]> db, Ok tt)
  end.

(** A nil slice on any error. *)
Definition ReadReceipts (db : DB) (hash : Hash) : option (list Receipt) :=
  data ← db !! receiptsKey hash; Unmarshal data.

(** The loop of [WriteTxLookupEntries] from index [i]; entries written before an
    error stay. *)
Fixpoint write_lookups (db : DB) (hash : Hash) (number : u64) (i : Z) (txs : list Transaction)
  : DB * result db_error unit :=
  match txs with
  | [] => (db, Ok tt)
  | tx :: rest =>
      match Marshal (mkLookup hash number (wd i)) with
      | None => (db, Err ErrMarshal)
      | Some data => write_lookups (<[txLookupKey (tx_hash tx) := data]> db) hash number (i + 1) rest
      end
  end.

Definition WriteTxLookupEntries (db : DB) (block : Block) : DB * result db_error unit :=
  write_lookups db (BlockHash block) (number64 (BHeader block)) 0 (Transactions block).

Definition ReadTxLookupEntry (db : DB) (txHash : Hash) : option TxLookupEntry :=
  data ← db !! txLookupKey txHash; Unmarshal data.

Definition WriteHeadBlockHash (db : DB) (hash : Hash) : DB := <[headBlockKey := hash_bytes hash]> db.

Definition ReadHeadBlockHash (db : DB) : Hash :=
  match db !! headBlockKey with None => zero_hash | Some data => BytesToHash data end.

Definition WriteCanonicalHash (db : DB) (number : u64) (hash : Hash) : DB :=
  <[canonicalKey number := hash_bytes hash]> db.

Definition ReadCanonicalHash (db : DB) (number : u64) : Hash :=
  match db !! canonicalKey number with None => zero_hash | Some data => BytesToHash data end.

End Accessors.

(** ** The keys do not overlap *)

Section Keys.
(** The block number whose canonical key is the head-block key: the eight bytes
    "eadBlock". *)
Definition head_alias : u64 := wd 0x656164426c6f636b.

Lemma canonical_head_alias : canonicalKey head_alias = headBlockKey.
Proof. apply (bool_decide_unpack _). by vm_compute. Qed.

Lemma be_pad8_inj (n m : u64) : be_pad 8 (uval n) = be_pad 8 (uval m) -> n = m.
Proof.
  intros E. apply (f_equal be_val) in E. rewrite !be_val_pad in E.
  pose proof (uval_range n). pose proof (uval_range m). change (256 ^ Z.of_nat 8) with (2 ^ Z.of_N 64) in E.
  rewrite !Z.mod_small in E by done. by apply uval_inj.
Qed.

Lemma canonicalKey_inj n m : canonicalKey n = canonicalKey m -> n = m.
Proof. intros E. apply app_inv_head in E. by apply be_pad8_inj. Qed.

Lemma canonicalKey_head n : canonicalKey n = headBlockKey <-> n = head_alias.
Proof.
  rewrite <- canonical_head_alias. split; [apply canonicalKey_inj|by intros ->].
Qed.

Lemma blockKey_inj h h' : blockKey h = blockKey h' -> h = h'.
Proof. intros E. apply app_inv_head in E. by apply hash_bytes_inj. Qed.
Lemma receiptsKey_inj h h' : receiptsKey h = receiptsKey h' -> h = h'.
Proof. intros E. apply app_inv_head in E. by apply hash_bytes_inj. Qed.
Lemma txLookupKey_inj h h' : txLookupKey h = txLookupKey h' -> h = h'.
Proof. intros E. apply app_inv_head in E. by apply hash_bytes_inj. Qed.

(** The first byte separates the families. *)
Lemma first_byte_ne (k k' : bytes) (x y : byte) :
  head k = Some x -> head k' = Some y -> uval x <> uval y -> k <> k'.
Proof. intros Hx Hy Hne ->. rewrite Hx in Hy. congruence. Qed.

Lemma head_blockKey h : head (blockKey h) = Some (wd 98).
Proof. done. Qed.
Lemma head_receiptsKey h : head (receiptsKey h) = Some (wd 114).
Proof. done. Qed.
Lemma head_txLookupKey h : head (txLookupKey h) = Some (wd 108).
Proof. done. Qed.
Lemma head_canonicalKey n : head (canonicalKey n) = Some (wd 72).
Proof. done. Qed.
Lemma head_headBlockKey : head headBlockKey = Some (wd 72).
Proof. done. Qed.
Lemma head_vprefix k : head (vprefix k) = Some (wd 118).
Proof. done. Qed.
Lemma head_cprefix k : head (cprefix k) = Some (wd 99).
Proof. done. Qed.
End Keys.

#[global] Opaque blockKey receiptsKey txLookupKey canonicalKey headBlockKey vprefix cprefix.

(** [dbkey_ne] separates keys of different families. *)
Ltac dbkey_ne :=
  eapply first_byte_ne;
  [ first [ apply head_blockKey | apply head_receiptsKey | apply head_txLookupKey | apply head_canonicalKey
          | apply head_headBlockKey | apply head_vprefix | apply head_cprefix ]
  | first [ apply head_blockKey | apply head_receiptsKey | apply head_txLookupKey | apply head_canonicalKey
          | apply head_headBlockKey | apply head_vprefix | apply head_cprefix ]
  | vm_compute; congruence ].

Section Lookups.
Context {C : Crypto} {CT : Codec TxLookupEntry} {CTL : CodecLaws TxLookupEntry CT always}.

Lemma write_lookups_others db hash n i txs k :
  (forall tx, tx ∈ txs -> k <> txLookupKey (tx_hash tx)) -> (write_lookups db hash n i txs).1 !! k = db !! k.
Proof.
  revert db i. induction txs as [|tx txs IH]; intros db i Hk; cbn [write_lookups]; [done|].
  destruct (Marshal _); [|done]. rewrite IH by set_solver.
  rewrite lookup_insert_ne; [done|]. apply not_eq_sym. apply Hk. set_solver.
Qed.

Lemma write_lookups_other db hash n i txs db' k :
  write_lookups db hash n i txs = (db', Ok tt) ->
  (forall tx, tx ∈ txs -> k <> txLookupKey (tx_hash tx)) -> db' !! k = db !! k.
Proof. intros H Hk. pose proof (write_lookups_others db hash n i txs k Hk) as E. by rewrite H in E. Qed.

Lemma write_lookups_spec db hash n i txs db' j tx :
  write_lookups db hash n i txs = (db', Ok tt) -> NoDup (tx_hash <$> txs) -> txs !! j = Some tx ->
  ReadTxLookupEntry db' (tx_hash tx) = Some (mkLookup hash n (wd (i + Z.of_nat j))).
Proof.
  revert db i j. induction txs as [|tx0 txs IH]; intros db i j H HN Hj; [done|].
  cbn [write_lookups] in H. destruct (Marshal _) as [d|] eqn:Ed; [|done].
  rewrite fmap_cons in HN. apply NoDup_cons in HN as [Hnin HN]. destruct j as [|j]; cbn in Hj.
  - injection Hj as ->. unfold ReadTxLookupEntry.
    rewrite (write_lookups_other _ _ _ _ _ _ _ H).
    + rewrite lookup_insert_eq. cbn. rewrite Z.add_0_r. by apply (unmarshal_marshal _ _ I).
    + intros tx' Hin E. apply txLookupKey_inj in E. apply Hnin. rewrite E. by apply list_elem_of_fmap_2.
  - rewrite (IH _ _ j H HN Hj). do 2 f_equal. apply wd_eq_cong. lia.
Qed.

(** Nothing but lookup keys is touched, even when an entry fails. *)
Lemma write_lookups_frame db hash n i txs k :
  head k <> Some (wd 108) -> (write_lookups db hash n i txs).1 !! k = db !! k.
Proof.
  intros Hk. revert db i. induction txs as [|tx txs IH]; intros db i; [done|]. cbn [write_lookups].
  destruct (Marshal _); [|done]. rewrite IH, lookup_insert_ne; [done|]. intros <-. by rewrite head_txLookupKey in Hk.
Qed.

(** Whether the entries can be written does not depend on the database. *)
Lemma write_lookups_any db0 db hash n i txs : (write_lookups db0 hash n i txs).2 = (write_lookups db hash n i txs).2.
Proof. revert db0 db i. induction txs as [|tx txs IH]; intros db0 db i; [done|]. cbn [write_lookups]. destruct (Marshal _); [apply IH|done]. Qed.
End Lookups.
