(* ===== verification/Blockchain.v ===== *)
(** * Blockchain: core/blockchain.go.

    The chain keeps its blocks in the database and the head in memory. [None]
    is a Go panic (a nil block number, a missing head block, a zero gas target). *)

From S2P Require Import Prelude Words Interfaces Rlp Types Sanity Hex StateDB Consensus Genesis RawDB.

Inductive chain_error := ErrBlockKnown | ErrDB (err : db_error).

Section Chain.
Context {C : Crypto} {V : Verkle}.
Context {CB : Codec Block} {CR : Codec (list Receipt)} {CT : Codec TxLookupEntry}.

Record Blockchain := mkChain {
  chain_db : DB;
  chain_config : NetworkConfig;
  currentBlock : option Block
}.

Definition set_db (bc : Blockchain) (db : DB) : Blockchain :=
  mkChain db (chain_config bc) (currentBlock bc).

(** [AddBlock]: the block, its receipts and its transaction index are written in
    this order; an error leaves the earlier writes in place. *)
Definition AddBlock (bc : Blockchain) (b : Block) (rs : option (list Receipt))
  : option (Blockchain * result chain_error unit) :=
  let hash := BlockHash b in
  match ReadBlock (chain_db bc) hash with
  | Some _ => Some (bc, Err ErrBlockKnown)
  | None =>
      let '(db1, r1) := WriteBlock (chain_db bc) b in
      match r1 with
      | Err err => Some (set_db bc db1, Err (ErrDB err))
      | Ok _ =>
          let '(db2, r2) := match rs with
                            | Some rs => WriteReceipts db1 b rs
                            | None => (db1, Ok tt)
                            end in
          match r2 with
          | Err err => Some (set_db bc db2, Err (ErrDB err))
          | Ok _ =>
              number ← Number (BHeader b);
              let '(db3, r3) := WriteTxLookupEntries db2 b in
              match r3 with
              | Err err => Some (set_db bc db3, Err (ErrDB err))
              | Ok _ =>
                  newer ← match currentBlock bc with
                          | None => Some true
                          | Some cur => curNumber ← Number (BHeader cur); Some (curNumber <? number)
                          end;
                  let '(db4, cur) := if newer : bool then (WriteHeadBlockHash db3 hash, Some b)
                                     else (db3, currentBlock bc) in
                  let db5 := WriteCanonicalHash db4 (big_uint64 number) hash in
                  Some (mkChain db5 (chain_config bc) cur, Ok tt)
              end
          end
      end
  end.

Definition GetBlockByHash (bc : Blockchain) (hash : Hash) : option Block := ReadBlock (chain_db bc) hash.

Definition GetBlockByNumber (bc : Blockchain) (number : u64) : option Block :=
  let hash := ReadCanonicalHash (chain_db bc) number in
  if bool_decide (hash = zero_hash) then None else ReadBlock (chain_db bc) hash.

Definition GenesisBlock (bc : Blockchain) : option Block := GetBlockByNumber bc (wd 0).

Definition CurrentBlock (bc : Blockchain) : option Block := currentBlock bc.

Definition StateAt (bc : Blockchain) (root : Hash) : StateDB := New root (Some (chain_db bc)).

(** The genesis state: the allocations added to the state of the database, in the
    iteration order of the map. *)
Definition genesis_state (db : DB) (alloc : gmap Address u256) : StateDB :=
  foldr (fun ab s => (AddBalance s ab.1 ab.2).1) (New zero_hash (Some db)) (map_to_list alloc).

(** [NewBlockchain]: a database without a head gets the genesis block, otherwise the
    head is loaded. *)
Definition NewBlockchain (db : DB) (cfg : NetworkConfig) : option Blockchain :=
  let headHash := ReadHeadBlockHash db in
  if bool_decide (headHash = zero_hash) then
    let genesis := GenerateGenesisBlock cfg in
    let s := genesis_state db (GenesisAlloc (Params cfg)) in
    let '(_, batch, root) := Commit s [] in
    let db1 := db_write db batch in
    let genesis := NewBlock (set_root (BHeader genesis) root) [] in
    '(bc, r) ← AddBlock (mkChain db1 cfg None) genesis None;
    let bc := match r with
              | Err _ => bc
              | Ok _ => set_db bc (WriteHeadBlockHash (chain_db bc) (BlockHash genesis))
              end in
    Some (mkChain (chain_db bc) cfg (Some genesis))
  else
    cur ← ReadBlock db headHash;
    Some (mkChain db cfg (Some cur)).

(** ** EIP-1559 base fee

    [params.InitialBaseFee] and [ElasticityMultiplier()] of go-ethereum. *)
Definition InitialBaseFee : Z := 1000000000.
Definition ElasticityMultiplier : Z := 2.

Definition CalcBaseFee (config : ChainConfig) (parent : Header) : option Z :=
  number ← Number parent;
  london ← LondonBlock config;
  if uval (big_uint64 number) <? uval (big_uint64 london) then Some InitialBaseFee
  else match BaseFee parent with
       | None => Some InitialBaseFee
       | Some baseFee =>
           let parentGasTarget := uval (GasLimit parent) / ElasticityMultiplier in
           let gasUsed := uval (GasUsed parent) in
           if gasUsed =? parentGasTarget then Some baseFee
           else if parentGasTarget <? gasUsed then
             let x := gasUsed - parentGasTarget in
             let num := baseFee * x in
             let den := parentGasTarget * 8 in
             if den =? 0 then None
             else
               let delta := num / den in
               let delta := if delta <? 1 then 1 else delta in
               Some (baseFee + delta)
           else
             let x := parentGasTarget - gasUsed in
             let num := baseFee * x in
             let den := parentGasTarget * 8 in
             let delta := num / den in
             let floor := 1000000000 in
             let nextBaseFee := baseFee - delta in
             if nextBaseFee <? floor then Some floor else Some nextBaseFee
       end.

End Chain.

(** ** Adding a block *)

Section AddBlockLemmas.
Context {C : Crypto} {V : Verkle}.
Context {CB : Codec Block} {CBL : CodecLaws Block CB readable} {CR : Codec (list Receipt)}
  {CRL : CodecLaws (list Receipt) CR always} {CT : Codec TxLookupEntry} {CTL : CodecLaws TxLookupEntry CT always}.
Implicit Types (bc : Blockchain) (b : Block).

(** What a successful [AddBlock] did: the database as a sequence of writes. *)
Lemma AddBlock_ok_inv bc b rs bc' :
  AddBlock bc b rs = Some (bc', Ok tt) ->
  exists n data db2 db3,
    ReadBlock (chain_db bc) (BlockHash b) = None /\ Number (BHeader b) = Some n /\ Marshal b = Some data /\
    (match rs with
     | Some rs => exists d, Marshal rs = Some d /\
         db2 = <[receiptsKey (BlockHash b) := d]> (<[blockKey (BlockHash b) := data]> (chain_db bc))
     | None => db2 = <[blockKey (BlockHash b) := data]> (chain_db bc)
     end) /\
    WriteTxLookupEntries db2 b = (db3, Ok tt) /\ chain_config bc' = chain_config bc /\
    ((currentBlock bc' = Some b /\
      chain_db bc' = WriteCanonicalHash (WriteHeadBlockHash db3 (BlockHash b)) (big_uint64 n) (BlockHash b) /\
      (forall cur m, currentBlock bc = Some cur -> Number (BHeader cur) = Some m -> m < n)) \/
     (currentBlock bc' = currentBlock bc /\
      chain_db bc' = WriteCanonicalHash db3 (big_uint64 n) (BlockHash b) /\
      exists cur m, currentBlock bc = Some cur /\ Number (BHeader cur) = Some m /\ n <= m)).
Proof.
  unfold AddBlock, WriteBlock. destruct (ReadBlock _ _) eqn:Er; [done|].
  destruct (Marshal b) as [data|] eqn:Ed; [|done].
  destruct (match rs with Some rs => WriteReceipts _ b rs | None => (_, Ok tt) end) as [db2 [u2|]] eqn:E2; [|done].
  destruct (Number (BHeader b)) as [n|] eqn:En; [|done]. cbn [mbind option_bind].
  destruct (WriteTxLookupEntries db2 b) as [db3 [u3|]] eqn:E3; [|done]. destruct u2, u3.
  intros H. exists n, data, db2, db3.
  assert (match rs with
     | Some rs => exists d, Marshal rs = Some d /\
         db2 = <[receiptsKey (BlockHash b) := d]> (<[blockKey (BlockHash b) := data]> (chain_db bc))
     | None => db2 = <[blockKey (BlockHash b) := data]> (chain_db bc)
     end) as H2.
  { destruct rs as [rs|]; [|by injection E2 as <-]. unfold WriteReceipts in E2.
    destruct (Marshal rs) as [d|]; [|done]. injection E2 as <-. eauto. }
  destruct (currentBlock bc) as [cur|] eqn:Ec.
  - destruct (Number (BHeader cur)) as [m|] eqn:Em; [|done]. cbn [mbind option_bind] in H.
    destruct (Z.ltb_spec m n); injection H as <-; (split_and!; [done..|]).
    + left. split_and!; [done..|]. intros cur' m' [= <-] Hm. congruence.
    + right. split_and!; [done..|]. by exists cur, m.
  - cbn [mbind option_bind] in H. injection H as <-. split_and!; [done..|].
    left. by split_and!.
Qed.

Lemma lookup_head db k hash : k <> headBlockKey -> WriteHeadBlockHash db hash !! k = db !! k.
Proof. intros H. unfold WriteHeadBlockHash. by rewrite lookup_insert_ne by by apply not_eq_sym. Qed.

Lemma lookup_canonical db k n hash : k <> canonicalKey n -> WriteCanonicalHash db n hash !! k = db !! k.
Proof. intros H. unfold WriteCanonicalHash. by rewrite lookup_insert_ne by by apply not_eq_sym. Qed.

Lemma lookups_frame db b db' k :
  WriteTxLookupEntries db b = (db', Ok tt) -> head k <> Some (wd 108) -> db' !! k = db !! k.
Proof.
  intros H Hk. unfold WriteTxLookupEntries in H.
  pose proof (write_lookups_frame db (BlockHash b) (number64 (BHeader b)) 0 (Transactions b) k Hk) as E.
  by rewrite H in E.
Qed.

(** The database after a successful [AddBlock], outside the keys of the head. *)
Lemma AddBlock_lookup bc b rs bc' k :
  AddBlock bc b rs = Some (bc', Ok tt) -> head k <> Some (wd 72) -> head k <> Some (wd 108) ->
  chain_db bc' !! k
  = if decide (k = blockKey (BlockHash b)) then Marshal b
    else match rs with
         | Some rs => if decide (k = receiptsKey (BlockHash b)) then Marshal rs else chain_db bc !! k
         | None => chain_db bc !! k
         end.
Proof.
  intros H HkH Hkl. apply AddBlock_ok_inv in H as (n & data & db2 & db3 & _ & Hn & Hd & H2 & H3 & _ & Hcase).
  assert (k <> headBlockKey) by (intros ->; by rewrite head_headBlockKey in HkH).
  assert (k <> canonicalKey (big_uint64 n)) by (intros ->; by rewrite head_canonicalKey in HkH).
  assert (chain_db bc' !! k = db2 !! k) as ->.
  { rewrite <- (lookups_frame _ _ _ _ H3 Hkl).
    destruct Hcase as [(_ & -> & _)|(_ & -> & _)]; by rewrite lookup_canonical, ?lookup_head by done. }
  assert (blockKey (BlockHash b) <> receiptsKey (BlockHash b)) as Hbr by dbkey_ne.
  destruct rs as [rs|]; [destruct H2 as (d & Hdr & ->)|subst db2].
  - destruct (decide (k = blockKey (BlockHash b))) as [->|].
    + by rewrite lookup_insert_ne, lookup_insert_eq by by apply not_eq_sym.
    + destruct (decide (k = receiptsKey (BlockHash b))) as [->|].
      * by rewrite lookup_insert_eq.
      * by rewrite !lookup_insert_ne by by apply not_eq_sym.
  - destruct (decide (k = blockKey (BlockHash b))) as [->|].
    + by rewrite lookup_insert_eq.
    + by rewrite lookup_insert_ne by by apply not_eq_sym.
Qed.

Lemma AddBlock_ReadBlock bc b rs bc' h :
  AddBlock bc b rs = Some (bc', Ok tt) ->
  ReadBlock (chain_db bc') h = if decide (h = BlockHash b) then Marshal b ≫= Unmarshal else ReadBlock (chain_db bc) h.
Proof.
  intros H. unfold ReadBlock. rewrite (AddBlock_lookup _ _ _ _ _ H) by (by rewrite head_blockKey; vm_compute).
  destruct (decide (h = BlockHash b)) as [->|Hne].
  - by rewrite decide_True.
  - rewrite decide_False by (by intros E%blockKey_inj). destruct rs as [rs|]; [|done].
    rewrite decide_False; [done|]. dbkey_ne.
Qed.

Lemma AddBlock_reads bc b rs bc' :
  AddBlock bc b rs = Some (bc', Ok tt) -> readable b -> ReadBlock (chain_db bc') (BlockHash b) = Some b.
Proof.
  intros H Hb. rewrite (AddBlock_ReadBlock _ _ _ _ _ H), decide_True by done.
  apply AddBlock_ok_inv in H as (n & data & db2 & db3 & Hr & Hn & Hd & _). rewrite Hd. cbn. by apply unmarshal_marshal.
Qed.

Lemma AddBlock_canonical bc b rs bc' n m :
  AddBlock bc b rs = Some (bc', Ok tt) -> Number (BHeader b) = Some n -> m <> head_alias ->
  ReadCanonicalHash (chain_db bc') m
  = if decide (m = big_uint64 n) then BlockHash b else ReadCanonicalHash (chain_db bc) m.
Proof.
  intros H Hn Hm. assert (canonicalKey m <> headBlockKey) as Hmh by (by intros E%canonicalKey_head).
  apply AddBlock_ok_inv in H as (n' & data & db2 & db3 & _ & Hn' & Hd & H2 & H3 & _ & Hcase).
  assert (n' = n) as -> by congruence.
  assert (db3 !! canonicalKey m = chain_db bc !! canonicalKey m) as E3.
  { rewrite (lookups_frame _ _ _ _ H3) by (by rewrite head_canonicalKey; vm_compute).
    assert (blockKey (BlockHash b) <> canonicalKey m) by dbkey_ne.
    assert (receiptsKey (BlockHash b) <> canonicalKey m) by dbkey_ne.
    destruct rs as [rs|]; [destruct H2 as (d & _ & ->)|subst db2]; by rewrite !lookup_insert_ne. }
  unfold ReadCanonicalHash.
  destruct Hcase as [(_ & -> & _)|(_ & -> & _)]; (destruct (decide (m = big_uint64 n)) as [->|Hne];
    [unfold WriteCanonicalHash; rewrite lookup_insert_eq; apply BytesToHash_hash_bytes
    |rewrite lookup_canonical by (by intros E%canonicalKey_inj); rewrite ?lookup_head by done; by rewrite E3]).
Qed.

Lemma AddBlock_head bc b rs bc' n :
  AddBlock bc b rs = Some (bc', Ok tt) -> Number (BHeader b) = Some n -> big_uint64 n <> head_alias ->
  (currentBlock bc' = Some b /\ ReadHeadBlockHash (chain_db bc') = BlockHash b) \/
  (currentBlock bc' = currentBlock bc /\ ReadHeadBlockHash (chain_db bc') = ReadHeadBlockHash (chain_db bc)).
Proof.
  intros H Hn Hne. assert (headBlockKey <> canonicalKey (big_uint64 n)) as Hk
    by (intros E; symmetry in E; by apply canonicalKey_head in E).
  apply AddBlock_ok_inv in H as (n' & data & db2 & db3 & _ & Hn' & Hd & H2 & H3 & _ & Hcase).
  assert (n' = n) as -> by congruence. unfold ReadHeadBlockHash.
  destruct Hcase as [(-> & -> & _)|(-> & -> & _)]; [left|right]; (split; [done|]); rewrite lookup_canonical by done.
  - unfold WriteHeadBlockHash. rewrite lookup_insert_eq. apply BytesToHash_hash_bytes.
  - rewrite (lookups_frame _ _ _ _ H3) by (by rewrite head_headBlockKey; vm_compute).
    assert (blockKey (BlockHash b) <> headBlockKey) by dbkey_ne.
    assert (receiptsKey (BlockHash b) <> headBlockKey) by dbkey_ne.
    destruct rs as [rs|]; [destruct H2 as (d & _ & ->)|subst db2]; by rewrite !lookup_insert_ne.
Qed.
Lemma AddBlock_ReadReceipts bc b l bc' :
  AddBlock bc b (Some l) = Some (bc', Ok tt) -> ReadReceipts (chain_db bc') (BlockHash b) = Some l.
Proof.
  intros H. unfold ReadReceipts.
  rewrite (AddBlock_lookup _ _ _ _ _ H) by (by rewrite head_receiptsKey; vm_compute).
  rewrite decide_False by dbkey_ne. rewrite decide_True by done.
  apply AddBlock_ok_inv in H as (? & ? & ? & ? & _ & _ & _ & (d & Hd & _) & _). rewrite Hd. cbn.
  by apply (unmarshal_marshal _ _ I).
Qed.

Lemma AddBlock_tx_entry bc b rs bc' n i tx :
  AddBlock bc b rs = Some (bc', Ok tt) -> Number (BHeader b) = Some n ->
  NoDup (tx_hash <$> Transactions b) -> Transactions b !! i = Some tx ->
  ReadTxLookupEntry (chain_db bc') (tx_hash tx) = Some (mkLookup (BlockHash b) (big_uint64 n) (wd (Z.of_nat i))).
Proof.
  intros H Hn HN Hi.
  apply AddBlock_ok_inv in H as (n' & data & db2 & db3 & _ & Hn' & Hd & H2 & H3 & _ & Hcase).
  unfold WriteTxLookupEntries in H3.
  pose proof (write_lookups_spec _ _ _ _ _ _ i tx H3 HN Hi) as E. rewrite Z.add_0_l in E.
  unfold number64 in E. rewrite Hn in E. change (default 0 (Some n)) with n in E. rewrite <- E. unfold ReadTxLookupEntry.
  assert (txLookupKey (tx_hash tx) <> headBlockKey) by dbkey_ne.
  assert (forall m, txLookupKey (tx_hash tx) <> canonicalKey m) as Hc by (intros m; dbkey_ne).
  destruct Hcase as [(_ & -> & _)|(_ & -> & _)]; by rewrite lookup_canonical, ?lookup_head by done.
Qed.
End AddBlockLemmas.

(** ** The chain over time *)

Section ChainTheorems.
Context {C : Crypto} {V : Verkle}.
Context {CB : Codec Block} {CBL : CodecLaws Block CB readable} {CR : Codec (list Receipt)}
  {CRL : CodecLaws (list Receipt) CR always} {CT : Codec TxLookupEntry} {CTL : CodecLaws TxLookupEntry CT always}.
Implicit Types (bc : Blockchain) (b : Block).

(** C11: Insert then look up. A block of readable transactions (see [Sanity.readable]; the others are
    [unreadable_head]) that [AddBlock] accepts is afterwards found by its hash and by its number, with its
    receipts, and when its transactions have different hashes every one is found at its
    position; blocks under other hashes are unaffected, and adding the block again is
    refused with [ErrBlockKnown] and no change. (The block hash must not be zero and the number not the one
    whose canonical key is the literal "HeadBlock".) *)
Theorem add_block_lookup bc b rs bc' n :
  AddBlock bc b rs = Some (bc', Ok tt) -> readable b -> Number (BHeader b) = Some n ->
  big_uint64 n <> head_alias -> BlockHash b <> zero_hash ->
  GetBlockByHash bc' (BlockHash b) = Some b /\
  GetBlockByNumber bc' (big_uint64 n) = Some b /\
  (forall h, h <> BlockHash b -> GetBlockByHash bc' h = GetBlockByHash bc h) /\
  (forall l, rs = Some l -> ReadReceipts (chain_db bc') (BlockHash b) = Some l) /\
  (NoDup (tx_hash <$> Transactions b) -> forall i tx, Transactions b !! i = Some tx ->
     ReadTxLookupEntry (chain_db bc') (tx_hash tx)
     = Some (mkLookup (BlockHash b) (big_uint64 n) (wd (Z.of_nat i)))) /\
  (forall rs', AddBlock bc' b rs' = Some (bc', Err ErrBlockKnown)).
Proof.
  intros H Hb Hn Ha Hz.
  pose proof (AddBlock_reads _ _ _ _ H Hb) as Hr.
  split_and!; [done| | | | |].
  - unfold GetBlockByNumber. rewrite (AddBlock_canonical _ _ _ _ _ _ H Hn Ha), decide_True by done.
    by rewrite bool_decide_eq_false_2.
  - intros h Hh. unfold GetBlockByHash. rewrite (AddBlock_ReadBlock _ _ _ _ _ H). by rewrite decide_False.
  - intros l ->. by apply (AddBlock_ReadReceipts _ _ _ _ H).
  - intros HN i tx Hi. by apply (AddBlock_tx_entry _ _ _ _ _ _ _ H).
  - intros rs'. unfold AddBlock. by rewrite Hr.
Qed.

(** The head in memory is the head of the database. *)
Definition chain_ok bc : Prop :=
  exists cur n, currentBlock bc = Some cur /\ Number (BHeader cur) = Some n /\
    ReadHeadBlockHash (chain_db bc) = BlockHash cur /\ ReadBlock (chain_db bc) (BlockHash cur) = Some cur /\
    BlockHash cur <> zero_hash.

(** Calls of [AddBlock] with blocks of readable transactions, successful or not, and batches of state values. *)
Inductive chain_step : Blockchain -> Blockchain -> Prop :=
| cs_add bc b rs bc' r :
    AddBlock bc b rs = Some (bc', r) -> readable b -> BlockHash b <> zero_hash ->
    (forall n, Number (BHeader b) = Some n -> big_uint64 n <> head_alias) -> chain_step bc bc'
| cs_commit bc s : chain_step bc (set_db bc (db_write (chain_db bc) (commit_batch s))).

(** The part of [AddBlock] after the receipts fails only in the transaction index, and
    then only lookup keys were written. *)
Lemma AddBlock_tail bc b (n : Z) bc' (err : chain_error) (Q : DB -> Prop) (db2 : DB) :
  (forall db', (forall k, head k <> Some (wd 108) -> db' !! k = db2 !! k) -> Q db') ->
  (let '(db3, r3) := WriteTxLookupEntries db2 b in
   match r3 with
   | Err err => Some (set_db bc db3, Err (ErrDB err))
   | Ok _ =>
       newer ← match currentBlock bc with
               | None => Some true
               | Some cur => curNumber ← Number (BHeader cur); Some (curNumber <? n)
               end;
       let '(db4, cur) := if newer : bool then (WriteHeadBlockHash db3 (BlockHash b), Some b)
                          else (db3, currentBlock bc) in
       Some (mkChain (WriteCanonicalHash db4 (big_uint64 n) (BlockHash b)) (chain_config bc) cur, Ok tt)
   end) = Some (bc', Err err) ->
  currentBlock bc' = currentBlock bc /\ Q (chain_db bc').
Proof.
  intros HQ. destruct (WriteTxLookupEntries db2 b) as [db3 [u3|]] eqn:E3.
  - destruct (currentBlock bc) as [cur|]; [|done]. destruct (Number (BHeader cur)) as [m|]; [|done].
    cbn [mbind option_bind]. by destruct (m <? n).
  - intros [= <- _]. split; [done|]. apply HQ. intros k Hk.
    pose proof (write_lookups_frame db2 (BlockHash b) (number64 (BHeader b)) 0 (Transactions b) k Hk) as E.
    unfold WriteTxLookupEntries in E3. by rewrite E3 in E.
Qed.

(** A refused block changes neither the head nor any stored block. *)
Lemma AddBlock_err bc b rs bc' err :
  AddBlock bc b rs = Some (bc', Err err) ->
  currentBlock bc' = currentBlock bc /\
  ReadHeadBlockHash (chain_db bc') = ReadHeadBlockHash (chain_db bc) /\
  forall h x, ReadBlock (chain_db bc) h = Some x -> ReadBlock (chain_db bc') h = Some x.
Proof.
  set (Q := fun db : DB => ReadHeadBlockHash db = ReadHeadBlockHash (chain_db bc) /\
              forall h x, ReadBlock (chain_db bc) h = Some x -> ReadBlock db h = Some x).
  unfold AddBlock. destruct (ReadBlock (chain_db bc) (BlockHash b)) eqn:Er; [by intros [= <- _]|].
  assert (forall d k, head k <> Some (wd 98) -> <[blockKey (BlockHash b) := d]> (chain_db bc) !! k = chain_db bc !! k) as Hb.
  { intros d k Hk. rewrite lookup_insert_ne; [done|]. intros <-. by rewrite head_blockKey in Hk. }
  assert (forall (d : bytes) db', (forall k, head k <> Some (wd 114) -> head k <> Some (wd 108) ->
            db' !! k = <[blockKey (BlockHash b) := d]> (chain_db bc) !! k) ->
            ReadHeadBlockHash db' = ReadHeadBlockHash (chain_db bc) /\
            forall h x, ReadBlock (chain_db bc) h = Some x -> ReadBlock db' h = Some x) as Hkey.
  { intros d db' H. split.
    - unfold ReadHeadBlockHash. rewrite H, Hb by (by rewrite head_headBlockKey; vm_compute). done.
    - intros h x Hx. assert (h <> BlockHash b) as Hne by congruence. unfold ReadBlock in *.
      rewrite H by (by rewrite head_blockKey; vm_compute).
      rewrite lookup_insert_ne; [done|]. by intros E%blockKey_inj. }
  unfold WriteBlock. destruct (Marshal b) as [data|]; [|by intros [= <- _]].
  destruct rs as [rs|]; [unfold WriteReceipts; destruct (Marshal rs) as [d|]|].
  2:{ intros [= <- _]. split; [done|]. by apply (Hkey data). }
  all: destruct (Number _) as [n|]; [|done]; cbn [mbind option_bind].
  - apply (AddBlock_tail bc b n bc' err Q (<[receiptsKey (BlockHash b) := d]> (<[blockKey (BlockHash b) := data]> (chain_db bc)))).
    intros db' H. apply (Hkey data). intros k Hk Hl. rewrite H by done.
    rewrite lookup_insert_ne; [done|]. intros <-. by rewrite head_receiptsKey in Hk.
  - apply (AddBlock_tail bc b n bc' err Q (<[blockKey (BlockHash b) := data]> (chain_db bc))).
    intros db' H. apply (Hkey data). intros k Hk Hl. by apply H.
Qed.

Lemma commit_lookup db s k :
  head k <> Some (wd 118) -> head k <> Some (wd 99) -> db_write db (commit_batch s) !! k = db !! k.
Proof.
  intros Hv Hc. apply db_write_lookup_ne. unfold commit_batch, Commit. cbn [fst snd].
  rewrite app_nil_l, fmap_app, elem_of_app, <- !list_fmap_compose.
  intros [Hin|Hin]; apply list_elem_of_fmap in Hin as ([k' v] & -> & _); cbn in *.
  - by rewrite head_vprefix in Hv.
  - by rewrite head_cprefix in Hc.
Qed.

(** ** What later blocks leave alone *)

(** [AddBlock], successful or not, writes nothing else. *)
Lemma AddBlock_untouched bc b rs bc' r k :
  AddBlock bc b rs = Some (bc', r) -> head k <> Some (wd 72) -> k <> blockKey (BlockHash b) ->
  k <> receiptsKey (BlockHash b) -> (forall tx, tx ∈ Transactions b -> k <> txLookupKey (tx_hash tx)) ->
  chain_db bc' !! k = chain_db bc !! k.
Proof.
  intros H Hh Hkb Hkr Hkl. unfold AddBlock, WriteBlock in H. destruct (ReadBlock _ _); [by injection H as <- <-|].
  destruct (Marshal b) as [data|]; [|by injection H as <- <-].
  set (db1 := <[blockKey (BlockHash b) := data]> (chain_db bc)) in *.
  assert (db1 !! k = chain_db bc !! k) as E1 by (by apply lookup_insert_ne, not_eq_sym).
  destruct (match rs with Some rs => WriteReceipts db1 b rs | None => (db1, Ok tt) end) as [db2 r2] eqn:E2.
  assert (db2 !! k = db1 !! k) as Ek2.
  { destruct rs as [rs|]; [|by injection E2 as <- <-]. unfold WriteReceipts in E2.
    destruct (Marshal rs); injection E2 as <- <-; [|done]. by apply lookup_insert_ne, not_eq_sym. }
  destruct r2 as [u2|err]; [|injection H as <- <-; cbn [chain_db set_db]; by rewrite Ek2].
  destruct (Number (BHeader b)) as [n|]; [|done]. cbn [mbind option_bind] in H.
  pose proof (write_lookups_others db2 (BlockHash b) (number64 (BHeader b)) 0 (Transactions b) k Hkl) as E3.
  change (write_lookups _ _ _ _ _) with (WriteTxLookupEntries db2 b) in E3.
  destruct (WriteTxLookupEntries db2 b) as [db3 r3]. cbn [fst] in E3.
  destruct r3 as [u3|err]; [|injection H as <- <-; cbn [chain_db set_db]; by rewrite E3, Ek2].
  assert (k <> headBlockKey) by (intros ->; by rewrite head_headBlockKey in Hh).
  assert (k <> canonicalKey (big_uint64 n)) by (intros ->; by rewrite head_canonicalKey in Hh).
  destruct (match currentBlock bc with Some _ => _ | None => _ end) as [[]|]; [..|done]; cbn [mbind option_bind] in H;
    injection H as <- <-; cbn [chain_db]; by rewrite lookup_canonical, ?lookup_head, E3, Ek2 by done.
Qed.

(** Further calls of [AddBlock] with blocks that do not contain the transaction [hash] again, and commits. *)
Inductive later_step (hash : Hash) : Blockchain -> Blockchain -> Prop :=
| later_add bc b rs bc' r :
    AddBlock bc b rs = Some (bc', r) -> hash ∉ tx_hash <$> Transactions b -> later_step hash bc bc'
| later_commit bc s : later_step hash bc (set_db bc (db_write (chain_db bc) (commit_batch s))).

(** They leave a stored block, its receipts and the entry of the transaction as they are. *)
Lemma later_keeps hash bc bc' h b :
  rtc (later_step hash) bc bc' -> ReadBlock (chain_db bc) h = Some b ->
  ReadBlock (chain_db bc') h = Some b /\ ReadReceipts (chain_db bc') h = ReadReceipts (chain_db bc) h /\
  ReadTxLookupEntry (chain_db bc') hash = ReadTxLookupEntry (chain_db bc) hash.
Proof.
  induction 1 as [|bc bc1 bc' Hs _ IH]; intros Hb; [done|].
  assert (forall k, k = blockKey h \/ k = receiptsKey h \/ k = txLookupKey hash -> chain_db bc1 !! k = chain_db bc !! k) as Hk.
  { destruct Hs as [bc b1 rs bc1 r Ha Hnin|bc s]; intros k Hk.
    - destruct (decide (BlockHash b1 = h)) as [<-|Hne].
      { unfold AddBlock in Ha. rewrite Hb in Ha. by injection Ha as <- <-. }
      destruct Hk as [-> | [-> | ->]]; apply (AddBlock_untouched _ _ _ _ _ _ Ha).
      + by rewrite head_blockKey; vm_compute.
      + by intros E%blockKey_inj.
      + dbkey_ne.
      + intros tx Htx. dbkey_ne.
      + by rewrite head_receiptsKey; vm_compute.
      + dbkey_ne.
      + by intros E%receiptsKey_inj.
      + intros tx Htx. dbkey_ne.
      + by rewrite head_txLookupKey; vm_compute.
      + dbkey_ne.
      + dbkey_ne.
      + intros tx Htx E%txLookupKey_inj. apply Hnin. rewrite E. by apply list_elem_of_fmap_2.
    - cbn [chain_db set_db]. destruct Hk as [-> | [-> | ->]]; apply commit_lookup.
      + by rewrite head_blockKey; vm_compute.
      + by rewrite head_blockKey; vm_compute.
      + by rewrite head_receiptsKey; vm_compute.
      + by rewrite head_receiptsKey; vm_compute.
      + by rewrite head_txLookupKey; vm_compute.
      + by rewrite head_txLookupKey; vm_compute. }
  destruct IH as (E1 & E2 & E3); [unfold ReadBlock in *; by rewrite Hk by auto|]. rewrite E1, E2, E3.
  unfold ReadReceipts, ReadTxLookupEntry. by rewrite !Hk by auto.
Qed.

(** The head number never decreases. *)
Definition chain_grows bc bc' : Prop :=
  forall cur cur', currentBlock bc = Some cur -> currentBlock bc' = Some cur' ->
    default 0 (Number (BHeader cur)) <= default 0 (Number (BHeader cur')).

Lemma chain_grows_same bc bc' : currentBlock bc' = currentBlock bc -> chain_grows bc bc'.
Proof. intros E c1 c2 E1 E2. rewrite E in E2. simplify_eq. lia. Qed.

Lemma AddBlock_grows bc b rs bc' r : chain_ok bc -> AddBlock bc b rs = Some (bc', r) -> chain_grows bc bc'.
Proof.
  intros (cur & n & Hc & Hn & _) H. destruct r as [[]|err].
  - apply AddBlock_ok_inv in H as (n' & data & db2 & db3 & _ & Hn' & _ & _ & _ & _ & [(Hb & _ & Hlt)|(E & _)]).
    + intros c1 c2 E1 E2. rewrite Hb in E2. rewrite E1 in Hc. simplify_eq. rewrite Hn, Hn'. cbn.
      specialize (Hlt _ _ E1 Hn). lia.
    + by apply chain_grows_same.
  - apply chain_grows_same. by apply (AddBlock_err _ _ _ _ _ H).
Qed.

(** [AddBlock] keeps the head of the database in step with the one in memory. *)
Lemma AddBlock_keeps bc b rs bc' r :
  chain_ok bc -> AddBlock bc b rs = Some (bc', r) -> readable b -> (currentBlock bc' = Some b -> BlockHash b <> zero_hash) ->
  (forall n, r = Ok tt -> Number (BHeader b) = Some n -> big_uint64 n <> head_alias) -> chain_ok bc'.
Proof.
  intros (cur & n & Hc & Hn & Hh & Hr & Hnz) H Hb Hz Ha. destruct r as [[]|err].
  - pose proof (AddBlock_ok_inv _ _ _ _ H) as (n' & data & db2 & db3 & Hnone & Hn' & _).
    pose proof (AddBlock_ReadBlock _ _ _ _ (BlockHash cur) H) as Hrc.
    rewrite decide_False in Hrc by (intros E; rewrite E in Hr; congruence).
    destruct (AddBlock_head _ _ _ _ _ H Hn' (Ha _ eq_refl Hn')) as [[Hcb Hhb]|[Hcb Hhb]].
    + exists b, n'. split_and!; [done..|by apply (AddBlock_reads _ _ _ _ H)|by apply Hz].
    + exists cur, n. split_and!; [by rewrite Hcb|done|by rewrite Hhb|by rewrite Hrc|done].
  - destruct (AddBlock_err _ _ _ _ _ H) as (Hcb & Hhb & Hrb).
    exists cur, n. split_and!; [by rewrite Hcb|done|by rewrite Hhb|by apply Hrb|done].
Qed.

Lemma commit_keeps bc s : chain_ok bc -> chain_ok (set_db bc (db_write (chain_db bc) (commit_batch s))).
Proof.
  intros (cur & n & Hc & Hn & Hh & Hr & Hnz). exists cur, n. split_and!; [done|done| | |done].
  - unfold ReadHeadBlockHash. cbn [chain_db set_db].
    by rewrite commit_lookup by (by rewrite head_headBlockKey; vm_compute).
  - unfold ReadBlock. cbn [chain_db set_db].
    by rewrite commit_lookup by (by rewrite head_blockKey; vm_compute).
Qed.

Lemma chain_step_ok bc bc' : chain_step bc bc' -> chain_ok bc -> chain_ok bc' /\ chain_grows bc bc'.
Proof.
  destruct 1 as [bc b rs bc' r H Hb Hz Ha|bc s]; intros Hok.
  - split; [|by eapply AddBlock_grows]. by apply (AddBlock_keeps _ _ _ _ _ Hok H Hb); auto.
  - split; [by apply commit_keeps|by apply chain_grows_same].
Qed.

Lemma chain_ok_reopen bc cfg :
  chain_ok bc -> NewBlockchain (chain_db bc) cfg = Some (mkChain (chain_db bc) cfg (currentBlock bc)).
Proof.
  intros (cur & n & Hc & Hn & Hh & Hrd & Hnz).
  unfold NewBlockchain. rewrite Hh, bool_decide_eq_false_2 by done. rewrite Hrd. cbn. by rewrite Hc.
Qed.

(** C12: A restarted node resumes at its head. From a chain whose head in memory is the readable head of its
    database, after any sequence of insertions of blocks of readable transactions
    (successful or refused) and state commits, opening the chain on the database
    recovers the same current block, and the number of the current block never went
    down on the way. *)
Theorem chain_restart bc bc' cfg :
  chain_ok bc -> rtc chain_step bc bc' ->
  NewBlockchain (chain_db bc') cfg = Some (mkChain (chain_db bc') cfg (currentBlock bc')) /\
  exists cur cur', currentBlock bc = Some cur /\ currentBlock bc' = Some cur' /\
    default 0 (Number (BHeader cur)) <= default 0 (Number (BHeader cur')).
Proof.
  intros H0 Hr. revert H0. induction Hr as [bc|bc1 bc2 bc3 H12 _ IH]; intros H0.
  - split; [by apply chain_ok_reopen|]. destruct H0 as (cur & n & Hc & _). by exists cur, cur.
  - destruct (chain_step_ok _ _ H12 H0) as [H2 Hle]. destruct (IH H2) as [Hnew (c2 & c3 & E2 & E3 & Hle2)].
    split; [done|]. destruct H0 as (cur & n & Hc & _). exists cur, c3. split_and!; [done..|].
    specialize (Hle cur c2 Hc E2). lia.
Qed.

(** A stale block hijacks its number. A block whose number is not above the head is
    accepted without becoming the head, but the canonical mapping of its number is
    overwritten: afterwards the number resolves to the stale block even when
    the head block itself has that number. *)
Theorem canonical_overwritten bc b rs bc' cur n m :
  chain_ok bc -> currentBlock bc = Some cur -> Number (BHeader cur) = Some m ->
  Number (BHeader b) = Some n -> n <= m -> big_uint64 n <> head_alias -> BlockHash b <> zero_hash -> readable b ->
  AddBlock bc b rs = Some (bc', Ok tt) ->
  CurrentBlock bc' = Some cur /\ GetBlockByNumber bc' (big_uint64 n) = Some b /\ b <> cur.
Proof.
  intros (cur' & m' & Hc' & _ & _ & Hr & _) Hc Hm Hn Hle Ha Hz Hb H.
  assert (cur' = cur) as -> by congruence.
  pose proof (AddBlock_ok_inv _ _ _ _ H) as (n' & data & db2 & db3 & Hnone & Hn' & _ & _ & _ & _ & Hcase).
  assert (n' = n) as -> by congruence. split_and!.
  - destruct Hcase as [(_ & _ & Hlt)|(E & _)]; [specialize (Hlt _ _ Hc Hm); lia|].
    unfold CurrentBlock. by rewrite E.
  - unfold GetBlockByNumber. rewrite (AddBlock_canonical _ _ _ _ _ _ H Hn Ha), decide_True by done.
    rewrite bool_decide_eq_false_2 by done. by apply (AddBlock_reads _ _ _ _ H).
  - intros ->. congruence.
Qed.

(** A block that cannot be read back stops the node at its next start. [AddBlock] accepts a block
    above the head with a legacy transaction whose signature fails the sanity check of
    [UnmarshalJSON] or whose numbers exceed 256 bits (its seal does not cover the transactions), and makes it
    the head. No lookup finds it, the chain does not know it when it is added again, and opening the
    database panics. *)
Theorem unreadable_head {CRF : CodecRefuses CB} bc b rs bc' n tx cfg :
  AddBlock bc b rs = Some (bc', Ok tt) -> Number (BHeader b) = Some n ->
  (forall cur m, currentBlock bc = Some cur -> Number (BHeader cur) = Some m -> m < n) ->
  tx ∈ Transactions b -> tx_type tx = 0 -> readable_tx tx = false ->
  big_uint64 n <> head_alias -> BlockHash b <> zero_hash ->
  CurrentBlock bc' = Some b /\ GetBlockByHash bc' (BlockHash b) = None /\ GetBlockByNumber bc' (big_uint64 n) = None /\
  (exists bc'', AddBlock bc' b rs = Some (bc'', Ok tt)) /\ NewBlockchain (chain_db bc') cfg = None.
Proof.
  intros H Hn Habove Hin Ht Hbad Ha Hz.
  pose proof (AddBlock_ok_inv _ _ _ _ H) as (n' & data & db2 & db3 & _ & Hn' & Hd & H2 & H3 & _ & Hcase).
  assert (n' = n) as -> by congruence.
  assert (currentBlock bc' = Some b) as Hcur.
  { destruct Hcase as [(E & _)|(_ & _ & cur & m & Hc & Hm & Hle)]; [done|]. specialize (Habove _ _ Hc Hm). lia. }
  assert (ReadBlock (chain_db bc') (BlockHash b) = None) as Hr.
  { rewrite (AddBlock_ReadBlock _ _ _ _ _ H), decide_True, Hd by done. cbn. by apply (unmarshal_refuses b data tx). }
  split_and!; [done|done| | |].
  - unfold GetBlockByNumber. rewrite (AddBlock_canonical _ _ _ _ _ _ H Hn Ha), decide_True by done. by destruct (bool_decide _).
  - assert (forall db0, exists db', WriteTxLookupEntries db0 b = (db', Ok tt)) as Hl.
    { intros db0. unfold WriteTxLookupEntries in *. pose proof (write_lookups_any db0 db2 (BlockHash b) (number64 (BHeader b)) 0 (Transactions b)) as E.
      rewrite H3 in E. destruct (write_lookups db0 _ _ _ _) as [db' r]. cbn in E. subst r. by exists db'. }
    unfold AddBlock, WriteBlock. rewrite Hr, Hd.
    destruct rs as [rs|]; [unfold WriteReceipts; destruct H2 as (d & Hdr & _); rewrite Hdr|]; rewrite Hn; cbn [mbind option_bind];
      match goal with |- context [WriteTxLookupEntries ?x b] => destruct (Hl x) as [db' ->] end;
      rewrite Hcur, Hn; cbn [mbind option_bind]; rewrite Z.ltb_irrefl; by eexists.
  - unfold NewBlockchain. destruct (AddBlock_head _ _ _ _ _ H Hn Ha) as [[_ Hh]|[Hc _]].
    + rewrite Hh, bool_decide_eq_false_2 by done. by rewrite Hr.
    + exfalso. rewrite Hcur in Hc. symmetry in Hc. specialize (Habove _ _ Hc Hn). lia.
Qed.
End ChainTheorems.

(** ** The base fee *)

Section BaseFeeTheorems.
Definition gas_target (h : Header) : Z := uval (GasLimit h) / ElasticityMultiplier.

Lemma div_le_eighth fee x t : 0 <= fee -> 0 <= x <= t -> 0 < t -> 0 <= fee * x / (t * 8) <= fee / 8.
Proof.
  intros Hf Hx Ht. split; [apply Z.div_pos; nia|].
  apply Z.div_le_lower_bound; [lia|].
  assert (fee * x / (t * 8) * (t * 8) <= fee * x) as H.
  { rewrite Z.mul_comm. apply Z.mul_div_le. lia. }
  assert (0 <= fee * x / (t * 8)) by (apply Z.div_pos; nia). nia.
Qed.

(** C30: The base fee follows EIP-1559 with a floor. For a London block whose gas target is positive, whatever
    gas it used, the computation never panics. At the target the fee stays. Above it the fee grows by at least 1,
    namely by the share fee * (used - target) / (8 * target): at most an eighth (or 1) as long as the
    gas used is within twice the target, and beyond an eighth exactly by that share for a block that
    exceeds the limit, which nothing in the executor prevents. Below the target it falls by at most an eighth,
    never below the floor of 1 Gwei (to which a smaller fee is raised). *)
Theorem base_fee_bounds config parent n fee :
  LondonBlock config = Some 0 -> Number parent = Some n -> BaseFee parent = Some fee -> 0 <= fee ->
  0 < gas_target parent ->
  exists fee', CalcBaseFee config parent = Some fee' /\
    (uval (GasUsed parent) = gas_target parent -> fee' = fee) /\
    (gas_target parent < uval (GasUsed parent) ->
       fee' = fee + Z.max 1 (fee * (uval (GasUsed parent) - gas_target parent) / (gas_target parent * 8)) /\
       (uval (GasUsed parent) <= 2 * gas_target parent -> fee' <= fee + Z.max 1 (fee / 8)) /\
       (2 * gas_target parent <= uval (GasUsed parent) -> fee + fee / 8 <= fee')) /\
    (uval (GasUsed parent) < gas_target parent ->
       fee' = Z.max 1000000000 (fee - fee * (gas_target parent - uval (GasUsed parent)) / (gas_target parent * 8)) /\
       Z.max 1000000000 (fee - fee / 8) <= fee' <= Z.max 1000000000 fee).
Proof.
  intros Hlon Hn Hfee H0 Ht. unfold CalcBaseFee. rewrite Hn, Hlon. cbn [mbind option_bind].
  change (uval (big_uint64 0)) with 0.
  pose proof (uval_range (big_uint64 n)). pose proof (uval_range (GasUsed parent)).
  rewrite (proj2 (Z.ltb_ge _ _)) by lia. rewrite Hfee. fold (gas_target parent).
  set (t := gas_target parent) in *. set (u := uval (GasUsed parent)) in *.
  destruct (Z.eqb_spec u t) as [E|E]; [exists fee; split_and!; [done|done|lia|lia]|].
  destruct (Z.ltb_spec t u) as [Hlt|Hlt].
  - rewrite (proj2 (Z.eqb_neq _ _)) by lia. set (d := fee * (u - t) / (t * 8)).
    exists (fee + Z.max 1 d). split_and!; [|lia| |lia].
    + destruct (Z.ltb_spec d 1); do 2 f_equal; lia.
    + intros _. split; [done|]. split; intros Hu.
      * pose proof (div_le_eighth fee (u - t) t H0 ltac:(lia) Ht) as Hd. fold d in Hd. lia.
      * assert (fee / 8 <= d); [|lia]. unfold d. apply Z.div_le_lower_bound; [lia|].
        pose proof (Z.mul_div_le fee 8 ltac:(lia)). nia.
  - pose proof (div_le_eighth fee (t - u) t H0 ltac:(lia) Ht).
    set (d := fee * (t - u) / (t * 8)) in *.
    exists (Z.max 1000000000 (fee - d)). split_and!; [|lia|lia|].
    + destruct (Z.ltb_spec (fee - d) 1000000000); f_equal; lia.
    + intros _. split; [done|]. lia.
Qed.
End BaseFeeTheorems.
