(* ===== verification/Stream.v ===== *)
(** * Stream: go-ethereum's streaming RLP decoder (rlp/decode.go).

    A [reader] runs on a [Stream]: the input, the stack of the sizes left in the
    enclosing lists (innermost first), and whether the input length is known
    ([DecodeBytes]) or not (a connection). [None] is a Go panic, which [make] raises
    for a slice above the allocation limit. The second half proves that each decoder
    inverts the encoder of Rlp.v, whatever follows in the input. *)

From S2P Require Import Prelude Words Interfaces Rlp.

Inductive stream_error := EOL | ErrStream.

Record Stream := mkStream {
  s_r : bytes;
  s_stack : list Z;
  s_limited : bool
}.

Definition reader (A : Type) : Type := Stream -> option (result stream_error (A * Stream)).

#[export] Instance reader_ret : MRet reader := fun A a st => Some (Ok (a, st)).
#[export] Instance reader_bind : MBind reader := fun A B k m st =>
  match m st with
  | None => None
  | Some (Err err) => Some (Err err)
  | Some (Ok (a, st)) => k a st
  end.

Definition fail {A} (err : stream_error) : reader A := fun _ => Some (Err err).

(** ** Reading *)

(** [willRead]: the enclosing list and the input must have [n] bytes left. *)
Definition willRead (n : Z) : reader unit := fun st =>
  match s_stack st with
  | limit :: _ => if limit <? n then Some (Err ErrStream)
                  else if s_limited st && (zlen (s_r st) <? n) then Some (Err ErrStream)
                  else Some (Ok (tt, mkStream (s_r st) ((limit - n) :: tail (s_stack st)) (s_limited st)))
  | [] => if s_limited st && (zlen (s_r st) <? n) then Some (Err ErrStream) else Some (Ok (tt, st))
  end.

(** The next [n] bytes of the underlying reader; [ErrUnexpectedEOF] when it ends. *)
Definition take_input (n : Z) : reader bytes := fun st =>
  if zlen (s_r st) <? n then Some (Err ErrStream)
  else Some (Ok (take (Z.to_nat n) (s_r st), mkStream (drop (Z.to_nat n) (s_r st)) (s_stack st) (s_limited st))).

Definition readFull (n : Z) : reader bytes := _ ← willRead n; take_input n.
Definition readByte : reader byte := b ← readFull 1; mret (default (wd 0) (head b)).

Definition readUint (size : Z) : reader Z :=
  if size =? 0 then mret 0
  else if size =? 1 then b ← readByte; mret (uval b)
  else b ← readFull size;
       if uval (default (wd 0) (head b)) =? 0 then fail ErrStream else mret (be_val b).

(** [Stream.readKind]: kind, size and, for a single byte, its value. *)
Definition stream_readKind : reader (Kind * Z * byte) :=
  b0 ← readByte;
  let b := uval b0 in
  if b <? 128 then mret (KByte, 0, b0)
  else if b <? 184 then mret (KString, b - 128, wd 0)
  else if b <? 192 then
    size ← readUint (b - 183);
    if size <? 56 then fail ErrStream else mret (KString, size, wd 0)
  else if b <? 248 then mret (KList, b - 192, wd 0)
  else
    size ← readUint (b - 247);
    if size <? 56 then fail ErrStream else mret (KList, size, wd 0).

(** The declared size against the list limit and the rest of the input. *)
Definition checkSize (limit : option Z) (size : Z) : reader unit := fun st =>
  if match limit with Some l => l <? size | None => false end || (s_limited st && (zlen (s_r st) <? size))
  then Some (Err ErrStream) else Some (Ok (tt, st)).

(** [Stream.Kind]: the size is compared with the list limit from before the tag. *)
Definition stream_Kind : reader (Kind * Z * byte) := fun st =>
  if bool_decide (head (s_stack st) = Some 0) then Some (Err EOL)
  else (kind ← stream_readKind; _ ← checkSize (head (s_stack st)) kind.1.2; mret kind) st.

(** ** Values *)

Section Values.
Context (max_alloc : Z).

(** [make([]byte, n)] *)
Definition alloc (n : Z) : reader unit := fun st => if max_alloc <? n then None else Some (Ok (tt, st)).

Definition stream_Bytes : reader bytes :=
  '(k, size, v) ← stream_Kind;
  match k with
  | KByte => mret [v]
  | KString =>
      _ ← alloc size;
      b ← readFull size;
      if (size =? 1) && (uval (default (wd 0) (head b)) <? 128) then fail ErrStream else mret b
  | KList => fail ErrStream
  end.

Definition stream_uint (maxbits : Z) : reader Z :=
  '(k, size, v) ← stream_Kind;
  match k with
  | KByte => if uval v =? 0 then fail ErrStream else mret (uval v)
  | KString =>
      if maxbits / 8 <? size then fail ErrStream
      else x ← readUint size;
           if (0 <? size) && (x <? 128) then fail ErrStream else mret x
  | KList => fail ErrStream
  end.

(** [decodeByteArray] into an array of [n] bytes, [n] above 1. *)
Definition decodeByteArray (n : Z) : reader bytes :=
  '(k, size, v) ← stream_Kind;
  match k with
  | KByte => fail ErrStream
  | KString => if negb (size =? n) then fail ErrStream else readFull size
  | KList => fail ErrStream
  end.

Definition decodeBigInt : reader Z :=
  '(k, size, v) ← stream_Kind;
  match k with
  | KList => fail ErrStream
  | KByte => if uval v =? 0 then fail ErrStream else mret (uval v)
  | KString =>
      if size =? 0 then mret 0
      else
        _ ← (if size <=? 32 then mret tt else alloc size);
        b ← readFull size;
        if (size =? 1) && (uval (default (wd 0) (head b)) <? 128) then fail ErrStream
        else if uval (default (wd 0) (head b)) =? 0 then fail ErrStream
        else mret (be_val b)
  end.

(** [List]: the size of the inner list leaves the outer one, in 64-bit arithmetic. *)
Definition stream_List : reader Z :=
  '(k, size, _) ← stream_Kind;
  match k with
  | KList => fun st =>
      let outer := match s_stack st with limit :: rest => ((limit - size) mod 2 ^ 64) :: rest | [] => [] end in
      Some (Ok (size, mkStream (s_r st) (size :: outer) (s_limited st)))
  | _ => fail ErrStream
  end.

Definition ListEnd : reader unit := fun st =>
  match s_stack st with
  | limit :: rest => if 0 <? limit then Some (Err ErrStream) else Some (Ok (tt, mkStream (s_r st) rest (s_limited st)))
  | [] => Some (Err ErrStream)
  end.

(** A field of a struct: the end of the list is an error ("too few elements"). *)
Definition field {A} (d : reader A) : reader A := fun st =>
  match d st with Some (Err EOL) => Some (Err ErrStream) | r => r end.

(** [makeStructDecoder] around the decoders of the fields. *)
Definition decodeStruct {A} (fields : reader A) : reader A :=
  _ ← stream_List; a ← field fields; _ ← ListEnd; mret a.

(** [decodeSliceElems]: elements until the end of the list. The fuel bounds the number of
    elements, each of which reads at least one byte. *)
Fixpoint decodeSliceElems {A} (d : reader A) (fuel : nat) : reader (list A) := fun st =>
  match fuel with
  | O => Some (Err ErrStream)
  | S fuel => match d st with
              | Some (Err EOL) => Some (Ok ([], st))
              | Some (Ok (a, st)) => (l ← decodeSliceElems d fuel; mret (a :: l)) st
              | Some (Err err) => Some (Err err)
              | None => None
              end
  end.

Definition decodeListSlice {A} (d : reader A) : reader (list A) :=
  size ← stream_List;
  if size =? 0 then _ ← ListEnd; mret []
  else l ← (fun st => decodeSliceElems d (S (length (s_r st))) st); _ ← ListEnd; mret l.

(** [DecodeBytes]: one value and nothing after it. [None] is a panic. *)
Definition DecodeBytes {A} (d : reader A) (b : bytes) : option (option A) :=
  match d (mkStream b [] (0 <? zlen b)) with
  | None => None
  | Some (Ok (a, st)) => Some (match s_r st with [] => Some a | _ => None end)
  | Some (Err _) => Some None
  end.
End Values.

(** ** Decoding what was encoded *)

Section Decodes.
Definition advance (st : Stream) (n : Z) (rest : bytes) : Stream :=
  mkStream rest (match s_stack st with limit :: l => (limit - n) :: l | [] => [] end) (s_limited st).

(** The enclosing list has [n] bytes left. *)
Definition room (st : Stream) (n : Z) : Prop :=
  match s_stack st with limit :: _ => n <= limit < 2 ^ 64 | [] => True end.

(** [d] reads [enc], and nothing else, as [a]. *)
Definition decodes {A} (d : reader A) (enc : bytes) (a : A) : Prop :=
  forall st rest, s_r st = enc ++ rest -> room st (zlen enc) ->
    d st = Some (Ok (a, advance st (zlen enc) rest)).

Lemma advance_advance st n m r r' : advance (advance st n r) m r' = advance st (n + m) r'.
Proof. unfold advance. destruct st as [? [|l s] ?]; cbn; [done|]. f_equal. f_equal. lia. Qed.

Lemma room_advance st n m r : room st (n + m) -> 0 <= n -> 0 <= m -> room (advance st n r) m.
Proof. unfold room, advance. destruct st as [? [|l s] ?]; cbn; [done|]. lia. Qed.

Lemma room_le st n m : room st m -> n <= m -> room st n.
Proof. unfold room. destruct (s_stack st); [done|]. lia. Qed.

Lemma advance_0 st : advance st 0 (s_r st) = st.
Proof. destruct st as [r [|l s] lim]; unfold advance; cbn; [done|]. by rewrite Z.sub_0_r. Qed.

Lemma decodes_ret {A} (a : A) : decodes (mret a) [] a.
Proof. intros st rest Hr _. cbn in *. change (zlen []) with 0. by rewrite <- Hr, advance_0. Qed.

Lemma decodes_bind {A B} (d : reader A) (k : A -> reader B) e1 e2 a b :
  decodes d e1 a -> decodes (k a) e2 b -> decodes (d ≫= k) (e1 ++ e2) b.
Proof.
  intros H1 H2 st rest Hr Hroom. rewrite zlen_app in *. rewrite <- app_assoc in Hr.
  pose proof (zlen_nonneg e1). pose proof (zlen_nonneg e2).
  change ((d ≫= k) st) with (match d st with None => None | Some (Err err) => Some (Err err) | Some (Ok (a, st)) => k a st end).
  rewrite (H1 st (e2 ++ rest)); [|done|apply (room_le _ _ _ Hroom); lia].
  rewrite (H2 _ rest); [|done|by apply room_advance]. by rewrite advance_advance.
Qed.

Lemma decodes_map {A B} (d : reader A) (f : A -> B) e a : decodes d e a -> decodes (x ← d; mret (f x)) e (f a).
Proof. intros H. rewrite <- (app_nil_r e). eapply decodes_bind; [done|apply decodes_ret]. Qed.

Lemma readFull_decodes b : decodes (readFull (zlen b)) b b.
Proof.
  intros [r stack lim] rest Hr Hroom. cbn in Hr. subst r. unfold room in Hroom. cbn in Hroom.
  unfold readFull, mbind, reader_bind, willRead. cbn [s_r s_stack s_limited].
  assert (lim && (zlen (b ++ rest) <? zlen b) = false) as ->.
  { apply andb_false_iff. right. apply Z.ltb_ge. rewrite zlen_app. pose proof (zlen_nonneg rest). lia. }
  assert (forall stack', take_input (zlen b) (mkStream (b ++ rest) stack' lim) = Some (Ok (b, mkStream rest stack' lim))) as Ht.
  { intros stack'. unfold take_input. cbn [s_r s_stack s_limited]. rewrite zlen_app.
    pose proof (zlen_nonneg rest). rewrite (proj2 (Z.ltb_ge _ _)) by lia.
    replace (Z.to_nat (zlen b)) with (length b) by (unfold zlen; lia).
    by rewrite take_app_length, drop_app_length. }
  destruct stack as [|limit stack]; cbn [tail].
  - apply Ht.
  - rewrite (proj2 (Z.ltb_ge _ _)) by lia. apply Ht.
Qed.

Lemma readByte_decodes x : decodes readByte [x] x.
Proof. apply (decodes_map (readFull 1) (fun b => default (wd 0) (head b)) [x] [x]). apply (readFull_decodes [x]). Qed.

Lemma readUint_decodes z : 0 < z -> decodes (readUint (Z.of_nat (byte_len z))) (be_bytes z) z.
Proof.
  intros Hz. pose proof (byte_len_pos z ltac:(lia)) as Hl. unfold readUint. zcase.
  destruct (be_bytes_head z ltac:(lia)) as (x & l & E & Hx). pose proof (zlen_be_bytes z) as Hz'.
  destruct (Z.eqb_spec (Z.of_nat (byte_len z)) 1) as [H1|H1].
  - assert (be_bytes z = [x]) as Eb.
    { rewrite E in Hz' |- *. unfold zlen in Hz'. cbn in Hz'. destruct l; [done|]. cbn in Hz'. lia. }
    assert (uval x = z) as Hv.
    { pose proof (be_val_bytes z) as Hv. rewrite Eb, be_val_singleton in Hv. lia. }
    rewrite Eb. rewrite <- Hv. apply decodes_map, readByte_decodes.
  - rewrite <- (app_nil_r (be_bytes z)). eapply decodes_bind; [rewrite <- Hz'; apply readFull_decodes|].
    assert ((uval (default (wd 0) (head (be_bytes z))) =? 0) = false) as ->.
    { rewrite E. cbn. by apply Z.eqb_neq. }
    rewrite be_val_bytes, Z.abs_eq by lia. apply decodes_ret.
Qed.

Lemma byte_len_64 n : 56 <= n < 2 ^ 64 -> (1 <= byte_len n <= 8)%nat.
Proof. intros Hn. split; [apply byte_len_pos; lia|]. apply byte_len_le. change (256 ^ Z.of_nat 8) with (2 ^ 64). lia. Qed.

Transparent puthead.
Lemma readKind_decodes_string n :
  0 <= n < 2 ^ 64 -> decodes stream_readKind (puthead 128 183 n) (KString, n, wd 0).
Proof.
  intros Hn. unfold puthead, stream_readKind. destruct (Z.ltb_spec n 56) as [Hl|Hl].
  - rewrite <- (app_nil_r [_]). eapply decodes_bind; [apply readByte_decodes|].
    rewrite uval_wd_small by (cbn; lia). zcase. replace (128 + n - 128) with n by lia. apply decodes_ret.
  - pose proof (byte_len_64 n ltac:(lia)).
    change (wd (183 + ?m) :: ?l) with ([wd (183 + m)] ++ l). eapply decodes_bind; [apply readByte_decodes|].
    rewrite uval_wd_small by (cbn; lia). zcase. rewrite Z.add_simpl_l.
    rewrite <- (app_nil_r (be_bytes _)). eapply decodes_bind; [apply readUint_decodes; lia|]. zcase. apply decodes_ret.
Qed.

Lemma readKind_decodes_list n :
  0 <= n < 2 ^ 64 -> decodes stream_readKind (puthead 192 247 n) (KList, n, wd 0).
Proof.
  intros Hn. unfold puthead, stream_readKind. destruct (Z.ltb_spec n 56) as [Hl|Hl].
  - rewrite <- (app_nil_r [_]). eapply decodes_bind; [apply readByte_decodes|].
    rewrite uval_wd_small by (cbn; lia). zcase. replace (192 + n - 192) with n by lia. apply decodes_ret.
  - pose proof (byte_len_64 n ltac:(lia)).
    change (wd (247 + ?m) :: ?l) with ([wd (247 + m)] ++ l). eapply decodes_bind; [apply readByte_decodes|].
    rewrite uval_wd_small by (cbn; lia). zcase. rewrite Z.add_simpl_l.
    rewrite <- (app_nil_r (be_bytes _)). eapply decodes_bind; [apply readUint_decodes; lia|]. zcase. apply decodes_ret.
Qed.
Opaque puthead.

Lemma zlen_puthead_pos a b n : 0 < zlen (puthead a b n).
Proof. Transparent puthead. unfold puthead. destruct (n <? 56); unfold zlen; cbn; lia. Opaque puthead. Qed.

(** A tag whose size fits the limits. *)
Lemma Kind_step tag kind st rest :
  decodes stream_readKind tag kind -> 0 < zlen tag -> s_r st = tag ++ rest -> room st (zlen tag) ->
  (forall l, head (s_stack st) = Some l -> kind.1.2 <= l) -> (s_limited st = true -> kind.1.2 <= zlen rest) ->
  stream_Kind st = Some (Ok (kind, advance st (zlen tag) rest)).
Proof.
  intros Hd Ht Hr Hroom Hl Hlim. unfold stream_Kind. rewrite bool_decide_eq_false_2.
  2:{ intros E. unfold room in Hroom. destruct (s_stack st); [done|]. cbn in E. simplify_eq. lia. }
  unfold mbind, reader_bind. rewrite (Hd st rest Hr) by done.
  unfold checkSize. cbn [s_r s_limited advance].
  assert (s_limited st && (zlen rest <? kind.1.2) = false) as ->.
  { destruct (s_limited st); [|done]. apply Z.ltb_ge, Hlim. done. }
  rewrite orb_false_r. destruct (s_stack st) as [|l s]; cbn [head]; [done|].
  rewrite (proj2 (Z.ltb_ge l _)) by by apply Hl. done.
Qed.

(** The tag of a value whose content follows. *)
Lemma Kind_tag tag kind c st rest :
  decodes stream_readKind tag kind -> 0 < zlen tag -> kind.1.2 = zlen c ->
  s_r st = tag ++ c ++ rest -> room st (zlen tag + zlen c) ->
  stream_Kind st = Some (Ok (kind, advance st (zlen tag) (c ++ rest))).
Proof.
  intros Hd Ht Hk Hr Hroom. pose proof (zlen_nonneg c). pose proof (zlen_nonneg rest). apply Kind_step; try done.
  - apply (room_le _ _ _ Hroom). lia.
  - intros l Hl. unfold room in Hroom. destruct (s_stack st); [done|]. cbn in Hl. simplify_eq. lia.
  - intros _. rewrite Hk, zlen_app. lia.
Qed.

(** A decoder that looks at the kind first, on the content [c]. *)
Lemma decodes_kind {A} (k : Kind * Z * byte -> reader A) tag kind c a :
  decodes stream_readKind tag kind -> 0 < zlen tag -> kind.1.2 = zlen c ->
  decodes (k kind) c a -> decodes (stream_Kind ≫= k) (tag ++ c) a.
Proof.
  intros Hd Ht Hk Hc st rest Hr Hroom. rewrite zlen_app in Hroom |- *. rewrite <- app_assoc in Hr.
  pose proof (zlen_nonneg c). unfold mbind at 1, reader_bind at 1.
  rewrite (Kind_tag tag kind c st rest) by done.
  rewrite (Hc _ rest); [by rewrite advance_advance|done|by apply room_advance; try lia].
Qed.

Lemma readKind_decodes_byte x : uval x < 128 -> decodes stream_readKind [x] (KByte, 0, x).
Proof.
  intros Hx. unfold stream_readKind. rewrite <- (app_nil_r [x]). eapply decodes_bind; [apply readByte_decodes|].
  zcase. apply decodes_ret.
Qed.

Lemma decodes_kind_byte {A} (k : Kind * Z * byte -> reader A) x a :
  uval x < 128 -> decodes (k (KByte, 0, x)) [] a -> decodes (stream_Kind ≫= k) [x] a.
Proof.
  intros Hx Hk. rewrite <- (app_nil_r [x]). apply (decodes_kind k [x] (KByte, 0, x)); try done.
  by apply readKind_decodes_byte.
Qed.

Lemma decodes_kind_string {A} (k : Kind * Z * byte -> reader A) b a :
  fits b -> decodes (k (KString, zlen b, wd 0)) b a -> decodes (stream_Kind ≫= k) (puthead 128 183 (zlen b) ++ b) a.
Proof.
  intros Hf Hk. apply (decodes_kind k _ (KString, zlen b, wd 0)); [|apply zlen_puthead_pos|done|done].
  apply readKind_decodes_string. unfold fits in Hf. pose proof (zlen_nonneg b). lia.
Qed.
End Decodes.

Section ValueDecodes.
Context (max_alloc : Z).

Lemma alloc_decodes n : n <= max_alloc -> decodes (alloc max_alloc n) [] tt.
Proof.
  intros Hn st rest Hr _. unfold alloc. rewrite (proj2 (Z.ltb_ge _ _)) by done.
  change (zlen []) with 0. cbn in Hr. by rewrite <- Hr, advance_0.
Qed.

Transparent writeBytes writeUint64 writeList.

Lemma Bytes_decodes b : zlen b <= max_alloc -> fits b -> decodes (stream_Bytes max_alloc) (writeBytes b) b.
Proof.
  intros Hb Hf. unfold writeBytes, stream_Bytes. destruct (fits_single b) eqn:Hs.
  - destruct b as [|x [|]]; try done. apply decodes_kind_byte; [apply Z.leb_le in Hs; lia|apply decodes_ret].
  - apply decodes_kind_string; [done|]. apply (decodes_bind _ _ [] b tt); [by apply alloc_decodes|].
    rewrite <- (app_nil_r b) at 2. eapply decodes_bind; [apply readFull_decodes|].
    assert ((zlen b =? 1) && (uval (default (wd 0) (head b)) <? 128) = false) as ->; [|apply decodes_ret].
    pose proof (canonical_check b [] Hs) as H. rewrite app_nil_r in H. by destruct b.
Qed.

Lemma fits_short b n : zlen b <= n -> n < 2 ^ 64 -> fits b.
Proof. unfold fits. lia. Qed.

Lemma uint_decodes bits z :
  0 <= z < 2 ^ bits -> 0 <= bits <= 64 -> bits mod 8 = 0 -> decodes (stream_uint bits) (writeUint64 z) z.
Proof.
  intros Hz Hb0 Hb. unfold writeUint64, stream_uint. destruct (Z.eqb_spec z 0) as [->|Hz0].
  { apply (decodes_kind_string _ [] 0); [done|]. change (zlen []) with 0.
    rewrite (proj2 (Z.ltb_ge _ _)) by (apply Z.div_pos; lia). apply decodes_ret. }
  destruct (Z.ltb_spec z 128) as [Hl|Hl].
  { apply decodes_kind_byte; rewrite uval_wd_small by (cbn; lia); [done|]. zcase. apply decodes_ret. }
  assert (Z.of_nat (byte_len z) <= bits / 8) as Hbits.
  { assert (byte_len z <= Z.to_nat (bits / 8))%nat; [|pose proof (Z.div_pos bits 8); lia]. apply byte_len_le.
    rewrite Z2Nat.id by (apply Z.div_pos; lia). change 256 with (2 ^ 8).
    rewrite <- Z.pow_mul_r by (try apply Z.div_pos; lia). replace (8 * (bits / 8)) with bits by zmod. lia. }
  assert (Z.of_nat (byte_len z) <= 8) as H8 by zmod. pose proof (zlen_be_bytes z) as Hlen.
  pose proof (byte_len_pos z Hz0).
  replace (wd (128 + Z.of_nat (byte_len z)) :: be_bytes z) with (puthead 128 183 (zlen (be_bytes z)) ++ be_bytes z).
  2:{ Transparent puthead. unfold puthead. rewrite Hlen. zcase. done. Opaque puthead. }
  apply decodes_kind_string; [apply (fits_short _ 8); lia|]. rewrite (proj2 (Z.ltb_ge _ _)) by lia.
  rewrite <- (app_nil_r (be_bytes z)) at 2. rewrite Hlen.
  eapply decodes_bind; [apply readUint_decodes; lia|]. zcase. rewrite andb_false_r. apply decodes_ret.
Qed.

Lemma byteArray_decodes b n :
  zlen b = n -> 1 < n < 2 ^ 64 -> decodes (decodeByteArray n) (puthead 128 183 (zlen b) ++ b) b.
Proof.
  intros Hb Hn. unfold decodeByteArray. apply decodes_kind_string; [unfold fits; lia|].
  rewrite Hb, Z.eqb_refl. cbn [negb]. rewrite <- Hb. apply readFull_decodes.
Qed.

Lemma bigInt_decodes_any z :
  0 <= z -> zlen (be_bytes z) <= 32 \/ zlen (be_bytes z) <= max_alloc -> fits (be_bytes z) ->
  decodes (decodeBigInt max_alloc) (writeBytes (be_bytes z)) z.
Proof.
  intros Hz Hl Hf. unfold writeBytes, decodeBigInt. pose proof (be_val_bytes z) as Hv. rewrite Z.abs_eq in Hv by lia.
  destruct (fits_single (be_bytes z)) eqn:Hs.
  - destruct (be_bytes z) as [|x [|]] eqn:E; try done. rewrite be_val_singleton in Hv. apply Z.leb_le in Hs.
    apply decodes_kind_byte; [lia|]. rewrite Hv. destruct (Z.eqb_spec z 0) as [->|]; [done|]. apply decodes_ret.
  - apply decodes_kind_string; [done|].
    destruct (Z.eqb_spec (zlen (be_bytes z)) 0) as [H0|H0].
    + assert (be_bytes z = []) as E by (destruct (be_bytes z); [done|unfold zlen in H0; cbn in H0; lia]).
      rewrite E. apply be_bytes_nil in E as ->. apply decodes_ret.
    + apply (decodes_bind _ _ [] _ tt).
      { destruct (Z.leb_spec (zlen (be_bytes z)) 32); [apply decodes_ret|apply alloc_decodes; lia]. }
      rewrite <- (app_nil_r (be_bytes z)) at 2. eapply decodes_bind; [apply readFull_decodes|].
      pose proof (canonical_check (be_bytes z) [] Hs) as Hc. rewrite app_nil_r in Hc.
      destruct (be_bytes_head z) as (x & l & E & Hx).
      { intros ->. by apply H0. }
      rewrite E in Hc |- *. change (default (wd 0) (head (x :: l))) with x. cbn [app] in Hc. rewrite Hc, (proj2 (Z.eqb_neq _ _)) by done.
      rewrite <- E, Hv. apply decodes_ret.
Qed.

Lemma bigInt_decodes z :
  0 <= z < 256 ^ 32 -> decodes (decodeBigInt max_alloc) (writeBytes (be_bytes z)) z.
Proof.
  intros Hz. pose proof (length_be_bytes_le z 32 ltac:(lia)) as Hlen.
  assert (zlen (be_bytes z) <= 32) as Hl by (unfold zlen; lia).
  apply bigInt_decodes_any; [lia|by left|by apply (fits_short _ 32)].
Qed.

(** *** Lists *)

Lemma List_step payload st rest :
  fits payload -> s_r st = writeList payload ++ rest -> room st (zlen (writeList payload)) ->
  stream_List st = Some (Ok (zlen payload,
    mkStream (payload ++ rest) (zlen payload :: s_stack (advance st (zlen (writeList payload)) rest)) (s_limited st))).
Proof.
  intros Hf Hr Hroom. unfold writeList in *. rewrite <- app_assoc in Hr. rewrite zlen_app in *.
  unfold stream_List, mbind, reader_bind.
  rewrite (Kind_tag (puthead 192 247 (zlen payload)) (KList, zlen payload, wd 0) payload st rest);
    [|apply readKind_decodes_list; unfold fits in Hf; pose proof (zlen_nonneg payload); lia|apply zlen_puthead_pos|done..].
  cbn [s_r s_stack s_limited advance]. unfold room in Hroom. destruct (s_stack st) as [|l s]; [done|].
  pose proof (zlen_puthead_pos 192 247 (zlen payload)). pose proof (zlen_nonneg payload).
  rewrite Z.mod_small by lia. by rewrite Z.sub_add_distr.
Qed.

Lemma decodes_field {A} (d : reader A) e a : decodes d e a -> decodes (field d) e a.
Proof. intros H st rest Hr Hroom. unfold field. by rewrite (H st rest Hr Hroom). Qed.

Lemma ListEnd_step r stack lim : ListEnd (mkStream r (0 :: stack) lim) = Some (Ok (tt, mkStream r stack lim)).
Proof. done. Qed.

Lemma decodes_struct {A} (d : reader A) payload a :
  fits payload -> decodes d payload a -> decodes (decodeStruct d) (writeList payload) a.
Proof.
  intros Hf Hd st rest Hr Hroom. unfold decodeStruct. unfold mbind at 1, reader_bind at 1.
  rewrite (List_step payload st rest) by done. unfold mbind at 1, reader_bind at 1.
  rewrite (decodes_field d payload a Hd _ rest); [|done|cbn; unfold fits in Hf; lia].
  unfold mbind, reader_bind. unfold advance at 1. cbn [s_stack s_limited]. rewrite Z.sub_diag, ListEnd_step. done.
Qed.

(** At the end of a list a decoder reports [EOL]. *)
Definition ends {A} (d : reader A) : Prop := forall st, head (s_stack st) = Some 0 -> d st = Some (Err EOL).

Lemma ends_struct {A} (d : reader A) : ends (decodeStruct d).
Proof.
  intros st Hst. unfold decodeStruct, stream_List, mbind, reader_bind. unfold stream_Kind.
  by rewrite bool_decide_eq_true_2.
Qed.

(** A struct is never a single byte. *)
Lemma struct_byte {A} (d : reader A) st x rest :
  s_r st = x :: rest -> s_stack st = [] -> uval x < 128 -> decodeStruct d st = Some (Err ErrStream).
Proof.
  intros Hr Hst Hx. unfold decodeStruct, stream_List, mbind, reader_bind.
  rewrite (Kind_step [x] (KByte, 0, x) st rest); try done.
  - by apply readKind_decodes_byte.
  - unfold room. by rewrite Hst.
  - intros l. by rewrite Hst.
  - intros _. apply zlen_nonneg.
Qed.

Lemma sliceElems_step {A} (d : reader A) encs l fuel r stack lim rest :
  ends d -> Forall2 (decodes d) encs l -> Forall (fun e => 0 < zlen e) encs -> (length l < fuel)%nat ->
  r = concat encs ++ rest -> zlen (concat encs) < 2 ^ 64 ->
  decodeSliceElems d fuel (mkStream r (zlen (concat encs) :: stack) lim)
  = Some (Ok (l, mkStream rest (0 :: stack) lim)).
Proof.
  intros Hend HF. revert fuel r. induction HF as [|e a encs l He HF IH]; intros fuel r Hp Hfuel -> Hlt;
    (destruct fuel as [|fuel]; [cbn in Hfuel; lia|]); cbn [decodeSliceElems concat length] in *.
  - rewrite Hend by done. done.
  - rewrite zlen_app in *. apply Forall_cons in Hp as [Hpos Hp]. pose proof (zlen_nonneg (concat encs)).
    rewrite (He _ (concat encs ++ rest)); [|by rewrite <- app_assoc|cbn; lia].
    unfold mbind, reader_bind, advance. cbn [s_r s_stack s_limited].
    replace (zlen e + zlen (concat encs) - zlen e) with (zlen (concat encs)) by lia.
    rewrite IH; [done|done|lia|done|lia].
Qed.

Lemma length_encs (encs : list bytes) : Forall (fun e => 0 < zlen e) encs -> (length encs <= length (concat encs))%nat.
Proof.
  induction 1 as [|e encs He _ IH]; [done|]. cbn. rewrite length_app. unfold zlen in He. lia.
Qed.

Lemma decodes_slice {A} (d : reader A) encs l :
  ends d -> Forall2 (decodes d) encs l -> Forall (fun e => 0 < zlen e) encs -> fits (concat encs) ->
  decodes (decodeListSlice d) (writeList (concat encs)) l.
Proof.
  intros Hend HF Hp Hf st rest Hr Hroom. unfold decodeListSlice. unfold mbind at 1, reader_bind at 1.
  rewrite (List_step (concat encs) st rest) by done.
  pose proof (length_encs encs Hp) as Hle. pose proof (Forall2_length _ _ _ HF) as Hlen.
  destruct (Z.eqb_spec (zlen (concat encs)) 0) as [H0|H0].
  - assert (encs = []) as ->.
    { destruct encs; [done|]. unfold zlen in H0. cbn [length] in Hle. lia. }
    inversion HF; subst. done.
  - unfold mbind, reader_bind. cbn [s_r]. erewrite sliceElems_step; [done|done|done|done| |done|done].
    rewrite length_app. lia.
Qed.

(** A value alone in a byte slice. *)
Lemma DecodeBytes_encoded {A} (d : reader A) e a : decodes d e a -> DecodeBytes d e = Some (Some a).
Proof.
  intros H. unfold DecodeBytes. rewrite (H _ []); [done|by rewrite app_nil_r|done].
Qed.
End ValueDecodes.

#[global] Opaque puthead writeBytes writeUint64 writeList.
