(* ===== verification/P2P.v ===== *)
(** * P2P: p2p/message.go, p2p/peer.go and p2p/server.go.

    The wire format (an RLP envelope around an RLP message), the connection as
    the read loop sees it, the peer set and the message handlers. [None] is a
    call that never returns: a Go panic or a lock that is never released. *)

From stdpp Require Import pretty.
From S2P Require Import Prelude Words Interfaces Rlp Types Hex StateDB Consensus Genesis RawDB Blockchain Stream.

(** ** Messages (p2p/message.go) *)

Record StatusMsg := mkStatus {
  ProtocolVersion : word 32;
  NetworkID : u64;
  st_GenesisHash : Hash;
  st_HeadHash : Hash;
  st_HeadNumber : u64;
  st_Challenge : bytes
}.

Record GetBlocksMsg := mkGetBlocks { StartHash : Hash; Limit : u64 }.

Record AuthMsg := mkAuth { Signature : bytes; auth_PublicKey : bytes }.

Inductive Msg :=
| Status (m : StatusMsg)
| NewBlockMsg (b : Block)
| GetBlocks (m : GetBlocksMsg)
| Blocks (l : list Block)
| Auth (m : AuthMsg).

Definition MsgStatus : Z := 0.
Definition MsgNewBlock : Z := 1.
Definition MsgGetBlocks : Z := 2.
Definition MsgBlocks : Z := 3.
Definition MsgAuth : Z := 4.

(** The largest slice the runtime allocates. *)
Class Runtime := { max_alloc : Z }.

(** What the decoder needs of an encoding: it fits an allocation and a 64-bit size. *)
Definition small {RT : Runtime} (b : bytes) : Prop := zlen b <= max_alloc /\ fits b.

(** go-ethereum's [EncodeRLP] and [DecodeRLP] of a transaction. *)
Class TxRlp := {
  tx_encode : Transaction -> option bytes;
  tx_decode : reader Transaction
}.

(** A canonical transaction, one whose cached values are those of its fields, is decoded again
    from its encoding, and decoding stops at the end of a list. *)
Class TxRlpLaws {RT : Runtime} (TR : TxRlp) := {
  tx_canonical : Transaction -> Prop;
  tx_encode_pos : forall tx e, tx_encode tx = Some e -> 0 < zlen e;
  tx_decode_encode : forall tx e, tx_canonical tx -> tx_encode tx = Some e -> small e -> decodes tx_decode e tx;
  tx_decode_ends : ends tx_decode
}.

Section Wire.
Context {RT : Runtime} {TR : TxRlp}.

(** *** Encoding: [rlp.EncodeToBytes] of the structs *)

Definition encode_status (m : StatusMsg) : bytes :=
  writeList (writeUint64 (uval (ProtocolVersion m)) ++ writeUint64 (uval (NetworkID m)) ++
             writeByteArray (hash_bytes (st_GenesisHash m)) ++ writeByteArray (hash_bytes (st_HeadHash m)) ++
             writeUint64 (uval (st_HeadNumber m)) ++ writeBytes (st_Challenge m)).

Definition encode_block (b : Block) : option bytes :=
  h ← header_rlp (BHeader b);
  txs ← mapM tx_encode (Transactions b);
  Some (writeList (h ++ writeList (concat txs))).

Definition encode_getblocks (m : GetBlocksMsg) : bytes :=
  writeList (writeByteArray (hash_bytes (StartHash m)) ++ writeUint64 (uval (Limit m))).

Definition encode_auth (m : AuthMsg) : bytes :=
  writeList (writeBytes (Signature m) ++ writeBytes (auth_PublicKey m)).

Definition encode_msg (msg : Msg) : option bytes :=
  match msg with
  | Status m => Some (encode_status m)
  | NewBlockMsg b => e ← encode_block b; Some (writeList e)
  | GetBlocks m => Some (encode_getblocks m)
  | Blocks l => es ← mapM encode_block l; Some (writeList (writeList (concat es)))
  | Auth m => Some (encode_auth m)
  end.

Definition encode_envelope (code : Z) (payload : bytes) : bytes :=
  writeList (writeUint64 code ++ writeBytes payload).

(** What [writeLoop] puts on the wire for a message; it knows no code for [AuthMsg]. *)
Definition msg_code (msg : Msg) : option Z :=
  match msg with
  | Status _ => Some MsgStatus
  | NewBlockMsg _ => Some MsgNewBlock
  | GetBlocks _ => Some MsgGetBlocks
  | Blocks _ => Some MsgBlocks
  | Auth _ => None
  end.

Definition write_msg (msg : Msg) : option bytes :=
  code ← msg_code msg; payload ← encode_msg msg; Some (encode_envelope code payload).

(** *** Decoding: the struct decoders of the same types *)

Definition decode_status : reader StatusMsg :=
  decodeStruct (v ← stream_uint 32; n ← stream_uint 64; g ← decodeByteArray 32; h ← decodeByteArray 32;
                k ← stream_uint 64; c ← stream_Bytes max_alloc;
                mret (mkStatus (wd v) (wd n) (BytesToHash g) (BytesToHash h) (wd k) c)).

Definition decode_header : reader Header :=
  decodeStruct (p ← decodeByteArray 32; n ← decodeBigInt max_alloc; t ← stream_uint 64; v ← decodeByteArray 32;
                x ← decodeByteArray 32; c ← decodeByteArray 20; e ← stream_Bytes max_alloc;
                d ← decodeBigInt max_alloc; l ← stream_uint 64; u ← stream_uint 64; f ← decodeBigInt max_alloc;
                mret (mkHeader (BytesToHash p) (Some n) (wd t) (BytesToHash v) (BytesToHash x) (BytesToAddress c) e
                        (Some d) (wd l) (wd u) (Some f))).

Definition decode_block : reader Block :=
  decodeStruct (h ← decode_header; txs ← decodeListSlice tx_decode; mret (NewBlock h txs)).

Definition decode_getblocks : reader GetBlocksMsg :=
  decodeStruct (h ← decodeByteArray 32; n ← stream_uint 64; mret (mkGetBlocks (BytesToHash h) (wd n))).

Definition decode_auth : reader AuthMsg :=
  decodeStruct (s ← stream_Bytes max_alloc; k ← stream_Bytes max_alloc; mret (mkAuth s k)).

(** The payload of a message by its code; other codes are ignored. *)
Definition decode_payload (code : Z) (payload : bytes) : option (option Msg) :=
  if code =? MsgStatus then DecodeBytes (m ← decode_status; mret (Status m)) payload
  else if code =? MsgNewBlock then DecodeBytes (b ← decodeStruct decode_block; mret (NewBlockMsg b)) payload
  else if code =? MsgGetBlocks then DecodeBytes (m ← decode_getblocks; mret (GetBlocks m)) payload
  else if code =? MsgBlocks then DecodeBytes (l ← decodeStruct (decodeListSlice decode_block); mret (Blocks l)) payload
  else if code =? MsgAuth then DecodeBytes (m ← decode_auth; mret (Auth m)) payload
  else Some None.

Definition decode_envelope : reader (Z * bytes) :=
  decodeStruct (c ← stream_uint 64; p ← stream_Bytes max_alloc; mret (c, p)).

(** *** The connection

    [chunks] are the results of the successive reads of the connection. [rlp.Decode]
    wraps the connection in a new [bufio.Reader] each time: what that buffer holds
    beyond the decoded value is gone when the call returns. *)
Fixpoint skip_chunks (n : Z) (chunks : list bytes) : list bytes :=
  match chunks with
  | [] => []
  | c :: rest => if n <=? 0 then chunks else skip_chunks (n - zlen c) rest
  end.

(** One [rlp.Decode(p.conn, &envelope)]: the envelope and the chunks left; [Err] when the
    peer is to be removed. *)
Definition read_envelope (chunks : list bytes) : option (result stream_error (Z * bytes * list bytes)) :=
  let input := concat chunks in
  match decode_envelope (mkStream input [] false) with
  | None => None
  | Some (Err err) => Some (Err err)
  | Some (Ok (env, st)) => Some (Ok (env, skip_chunks (zlen input - zlen (s_r st)) chunks))
  end.
End Wire.

(** ** Round trips *)

Section WireLemmas.
Context {RT : Runtime} {TR : TxRlp} {TL : TxRlpLaws TR}.

Lemma decodes_bind_ret {A B} (d : reader A) (k : A -> reader B) e a b :
  decodes d e a -> k a = mret b -> decodes (d ≫= k) e b.
Proof. intros Hd Hk. rewrite <- (app_nil_r e). eapply decodes_bind; [done|]. rewrite Hk. apply decodes_ret. Qed.

Lemma zlen_hash_bytes h : zlen (hash_bytes h) = 32.
Proof. unfold zlen. by rewrite length_hash_bytes. Qed.

Lemma zlen_addr_bytes a : zlen (addr_bytes a) = 20.
Proof. unfold zlen. by rewrite length_addr_bytes. Qed.

Lemma hash_decodes h : decodes (decodeByteArray 32) (writeByteArray (hash_bytes h)) (hash_bytes h).
Proof. apply byteArray_decodes; [apply zlen_hash_bytes|lia]. Qed.

Lemma addr_decodes a : decodes (decodeByteArray 20) (writeByteArray (addr_bytes a)) (addr_bytes a).
Proof. apply byteArray_decodes; [apply zlen_addr_bytes|lia]. Qed.

Lemma u64_decodes (x : u64) : decodes (stream_uint 64) (writeUint64 (uval x)) (uval x).
Proof. apply uint_decodes; [apply (uval_range x)|lia|done]. Qed.

Lemma u32_decodes (x : word 32) : decodes (stream_uint 32) (writeUint64 (uval x)) (uval x).
Proof. apply uint_decodes; [apply (uval_range x)|lia|done]. Qed.

(** The parts of a small value are small. *)
Lemma small_le a b : zlen a <= zlen b -> small b -> small a.
Proof. unfold small, fits. lia. Qed.

Lemma small_app_l a b : small (a ++ b) -> small a.
Proof. apply small_le. rewrite zlen_app. pose proof (zlen_nonneg b). lia. Qed.

Lemma small_app_r a b : small (a ++ b) -> small b.
Proof. apply small_le. rewrite zlen_app. pose proof (zlen_nonneg a). lia. Qed.

Lemma small_writeList p : small (writeList p) -> small p.
Proof. Transparent writeList. unfold writeList. apply small_app_r. Opaque writeList. Qed.

Lemma small_writeBytes b : small (writeBytes b) -> small b.
Proof.
  Transparent writeBytes. unfold writeBytes. destruct (fits_single b); [done|]. apply small_app_r. Opaque writeBytes.
Qed.

Lemma small_concat e es : e ∈ es -> small (concat es) -> small e.
Proof.
  induction es as [|x es IH]; [by intros ?%elem_of_nil|]. cbn. intros [->|Hin]%elem_of_cons H.
  - by apply small_app_l in H.
  - apply IH; [done|]. by apply small_app_r in H.
Qed.

End WireLemmas.

(** [decode_fields] runs the field decoders of a struct on the encodings of its fields. *)
Ltac decode_atom :=
  match goal with
  | |- decodes (decodeByteArray 32) _ _ => apply hash_decodes
  | |- decodes (decodeByteArray 20) _ _ => apply addr_decodes
  | |- decodes (stream_uint 64) _ _ => apply u64_decodes
  | |- decodes (stream_uint 32) _ _ => apply u32_decodes
  | |- decodes (stream_Bytes _) _ _ => apply Bytes_decodes
  | |- decodes (decodeBigInt _) _ _ => apply bigInt_decodes
  end.
Ltac decode_side :=
  first [ done | match goal with H : small ?b |- zlen ?b <= max_alloc => apply H | H : small ?b |- fits ?b => apply H end
        | change (256 ^ 32) with (2 ^ 256); lia ].
Ltac decode_fields :=
  repeat (eapply decodes_bind; [decode_atom; decode_side|]); eapply decodes_bind_ret; [decode_atom; decode_side|].

Section Payloads.
Context {RT : Runtime} {TR : TxRlp} {TL : TxRlpLaws TR}.

Lemma status_decodes m : small (encode_status m) -> decodes decode_status (encode_status m) m.
Proof.
  intros Hs%small_writeList. apply decodes_struct; [apply Hs|].
  assert (small (st_Challenge m)) as Hc.
  { do 5 apply small_app_r in Hs. by apply small_writeBytes. }
  decode_fields. destruct m. cbn. by rewrite !wd_uval, !BytesToHash_hash_bytes.
Qed.

Lemma getblocks_decodes m : small (encode_getblocks m) -> decodes decode_getblocks (encode_getblocks m) m.
Proof.
  intros Hs%small_writeList. apply decodes_struct; [apply Hs|].
  decode_fields. destruct m. cbn. by rewrite wd_uval, BytesToHash_hash_bytes.
Qed.

Lemma auth_decodes m : small (encode_auth m) -> decodes decode_auth (encode_auth m) m.
Proof.
  intros Hs%small_writeList. apply decodes_struct; [apply Hs|].
  pose proof (small_writeBytes _ (small_app_l _ _ Hs)). pose proof (small_writeBytes _ (small_app_r _ _ Hs)).
  decode_fields. by destruct m.
Qed.

Lemma header_decodes h e :
  header_ok h -> header_rlp h = Some e -> small e -> decodes decode_header e (norm_header h).
Proof.
  intros Hok He Hs. pose proof (header_rlp_fields h e Hok He) as Hf. rewrite Hf in *. apply small_writeList in Hs.
  apply decodes_struct; [apply Hs|]. destruct Hok as (Hn & Hd & Hb & _).
  assert (small (ExtraData h)) as Hx.
  { apply small_writeBytes. apply (small_concat _ _) with (2 := Hs).
    apply list_elem_of_fmap. exists (ExtraData h). split; [done|]. unfold header_fields. set_solver. }
  unfold header_fields. cbn [fmap list_fmap concat]. rewrite app_nil_r.
  rewrite <- !uint64_field, <- !writeByteArray_bytes by (rewrite ?length_hash_bytes, ?length_addr_bytes; lia).
  decode_fields.
  unfold norm_header. by rewrite !wd_uval, !BytesToHash_hash_bytes, BytesToAddress_addr_bytes.
Qed.

(** *** Blocks and messages *)

Definition norm_block (b : Block) : Block := NewBlock (norm_header (BHeader b)) (Transactions b).

Lemma zlen_writeList_pos p : 0 < zlen (writeList p).
Proof.
  Transparent writeList. unfold writeList. rewrite zlen_app.
  pose proof (zlen_puthead_pos 192 247 (zlen p)). pose proof (zlen_nonneg p). lia. Opaque writeList.
Qed.

Definition block_ok (b : Block) : Prop := header_ok (BHeader b) /\ Forall tx_canonical (Transactions b).

Lemma txs_decode txs es :
  Forall2 (fun tx e => tx_encode tx = Some e) txs es -> Forall tx_canonical txs -> small (concat es) ->
  Forall2 (decodes tx_decode) es txs.
Proof.
  intros Het Hcan Hs. assert (forall e, e ∈ es -> small e) as Hsm by (intros e He; by apply (small_concat e es)). clear Hs.
  induction Het as [|tx e txs es He _ IH]; [constructor|]. apply Forall_cons in Hcan as [Hc Hcan]. constructor.
  - apply tx_decode_encode; [done..|]. apply Hsm. set_solver.
  - apply IH; [done|]. intros e' He'. apply Hsm. set_solver.
Qed.

Lemma block_decodes b e :
  block_ok b -> encode_block b = Some e -> small e ->
  0 < zlen e /\ decodes decode_block e (norm_block b).
Proof.
  intros [Hok Hcan] He Hs. unfold encode_block in He. destruct (header_rlp (BHeader b)) as [h|] eqn:Eh; [|done].
  cbn [mbind option_bind] in He. destruct (mapM tx_encode (Transactions b)) as [txs|] eqn:Et; [|done].
  injection He as <-. split; [apply zlen_writeList_pos|]. apply small_writeList in Hs. apply decodes_struct; [apply Hs|].
  eapply decodes_bind; [apply (header_decodes _ _ Hok Eh); by apply small_app_l in Hs|].
  eapply decodes_bind_ret; [|reflexivity]. apply small_app_r, small_writeList in Hs.
  apply mapM_Some in Et. apply decodes_slice; [apply tx_decode_ends|by apply txs_decode| |apply Hs].
  clear Hs Hcan. induction Et as [|tx e txs es He _ IH]; constructor; [by apply (tx_encode_pos tx)|done].
Qed.

Definition msg_ok (msg : Msg) : Prop :=
  match msg with
  | NewBlockMsg b => block_ok b
  | Blocks l => Forall block_ok l
  | _ => True
  end.

(** Messages up to nil and zero integers in headers. *)
Definition norm_msg (msg : Msg) : Msg :=
  match msg with
  | NewBlockMsg b => NewBlockMsg (norm_block b)
  | Blocks l => Blocks (norm_block <$> l)
  | _ => msg
  end.

Lemma blocks_decode l es :
  Forall block_ok l -> mapM encode_block l = Some es -> small (concat es) ->
  decodes (decodeListSlice decode_block) (writeList (concat es)) (norm_block <$> l).
Proof.
  intros Hok Hes Hs. apply mapM_Some in Hes.
  assert (Forall2 (fun e b => 0 < zlen e /\ decodes decode_block e b) es (norm_block <$> l)) as HF.
  { assert (forall e, e ∈ es -> small e) as Hsm by (intros e He; by apply (small_concat e es)).
    clear Hs. induction Hes as [|b e l es He _ IH]; [constructor|]. apply Forall_cons in Hok as [Hb Hok]. constructor.
    - apply block_decodes; [done..|]. apply Hsm. set_solver.
    - apply IH; [done|]. intros e' He'. apply Hsm. set_solver. }
  apply decodes_slice; [apply ends_struct| | |apply Hs].
  - eapply Forall2_impl; [exact HF|]. by intros ? ? [_ ?].
  - eapply Forall2_Forall_l; [exact HF|]. apply Forall_true. by intros ? ? [? _].
Qed.

Lemma payload_decodes msg code payload :
  msg_ok msg -> msg_code msg = Some code -> encode_msg msg = Some payload -> small payload ->
  decode_payload code payload = Some (Some (norm_msg msg)).
Proof.
  intros Hok Hc He Hs. unfold decode_payload. destruct msg as [m|b|m|l|m]; cbn in Hc; simplify_eq; cbn [encode_msg] in He.
  - injection He as <-. apply DecodeBytes_encoded. eapply decodes_bind_ret; [by apply status_decodes|done].
  - destruct (encode_block b) as [e|] eqn:Eb; [|done]. injection He as <-. apply small_writeList in Hs.
    apply DecodeBytes_encoded. eapply decodes_bind_ret; [|reflexivity].
    apply decodes_struct; [apply Hs|]. by apply block_decodes.
  - injection He as <-. apply DecodeBytes_encoded. eapply decodes_bind_ret; [by apply getblocks_decodes|done].
  - destruct (mapM encode_block l) as [es|] eqn:Eb; [|done]. injection He as <-. apply small_writeList in Hs.
    apply DecodeBytes_encoded. eapply decodes_bind_ret; [|reflexivity].
    apply decodes_struct; [apply Hs|]. apply blocks_decode; [done..|]. by apply small_writeList.
Qed.

Lemma envelope_decodes code payload :
  0 <= code < 2 ^ 64 -> small (encode_envelope code payload) ->
  decodes decode_envelope (encode_envelope code payload) (code, payload).
Proof.
  intros Hc Hs%small_writeList. apply decodes_struct; [apply Hs|].
  eapply decodes_bind; [apply uint_decodes; [exact Hc|lia|done]|].
  apply small_app_r, small_writeBytes in Hs. eapply decodes_bind_ret; [|done]. apply Bytes_decodes; apply Hs.
Qed.

Lemma write_msg_inv msg w :
  write_msg msg = Some w ->
  exists code payload, msg_code msg = Some code /\ 0 <= code < 2 ^ 64 /\
    encode_msg msg = Some payload /\ w = encode_envelope code payload.
Proof.
  unfold write_msg. destruct (msg_code msg) as [code|] eqn:Ec; [|done]. cbn [mbind option_bind].
  destruct (encode_msg msg) as [payload|] eqn:Em; [|done]. cbn [mbind option_bind]. intros [= <-].
  exists code, payload. split_and!; [done| | |done|done]; destruct msg; cbn in Ec; simplify_eq; done.
Qed.
End Payloads.

(** ** Peers and the server (p2p/peer.go, p2p/server.go) *)

(** [p_HeadHash] is empty before the first status; the last two fields are the
    rate limiter's variables in [readLoop]. *)
Record Peer := mkPeer {
  p_outbound : bool;
  p_sendCh : list Msg;
  p_quit : bool;
  p_HeadHash : option Hash;
  p_HeadNumber : u64;
  p_Challenge : bytes;
  p_IsTrusted : bool;
  p_lastMsgTime : Z;
  p_msgsThisSec : Z
}.

Definition NewPeer (outbound : bool) (now : Z) : Peer :=
  mkPeer outbound [] false None (wd 0) [] false now 0.

Definition set_queue (p : Peer) (q : list Msg) : Peer :=
  mkPeer (p_outbound p) q (p_quit p) (p_HeadHash p) (p_HeadNumber p) (p_Challenge p) (p_IsTrusted p)
    (p_lastMsgTime p) (p_msgsThisSec p).
Definition set_quit (p : Peer) : Peer :=
  mkPeer (p_outbound p) (p_sendCh p) true (p_HeadHash p) (p_HeadNumber p) (p_Challenge p) (p_IsTrusted p)
    (p_lastMsgTime p) (p_msgsThisSec p).
Definition set_head (p : Peer) (h : Hash) (n : u64) : Peer :=
  mkPeer (p_outbound p) (p_sendCh p) (p_quit p) (Some h) n (p_Challenge p) (p_IsTrusted p)
    (p_lastMsgTime p) (p_msgsThisSec p).
Definition set_challenge (p : Peer) (c : bytes) : Peer :=
  mkPeer (p_outbound p) (p_sendCh p) (p_quit p) (p_HeadHash p) (p_HeadNumber p) c (p_IsTrusted p)
    (p_lastMsgTime p) (p_msgsThisSec p).
Definition set_trusted (p : Peer) (t : bool) : Peer :=
  mkPeer (p_outbound p) (p_sendCh p) (p_quit p) (p_HeadHash p) (p_HeadNumber p) (p_Challenge p) t
    (p_lastMsgTime p) (p_msgsThisSec p).
Definition set_rate (p : Peer) (last n : Z) : Peer :=
  mkPeer (p_outbound p) (p_sendCh p) (p_quit p) (p_HeadHash p) (p_HeadNumber p) (p_Challenge p) (p_IsTrusted p) last n.

(** The [select] of [Send]: a full buffer drops the message; when the peer is stopping and
    there is room either case may be chosen, which is [pick]. *)
Definition Send (pick : bool) (p : Peer) (msg : Msg) : Peer :=
  if p_quit p && pick then p
  else if (length (p_sendCh p) <? 100)%nat then set_queue p (p_sendCh p ++ [msg]) else p.

(** The guards of one iteration of [readLoop] after an envelope was decoded at time [now]
    (nanoseconds): the updated peer, and whether the message is handled or the
    peer removed. *)
Definition accept_msg (p : Peer) (now : Z) (payload : bytes) : Peer * bool :=
  let reset := 1000000000 <? now - p_lastMsgTime p in
  let last := if reset then now else p_lastMsgTime p in
  let n := (if reset then 0 else p_msgsThisSec p) + 1 in
  let p := set_rate p last n in
  let limit := if p_IsTrusted p then 10000 else 100 in
  (p, negb (limit <? n) && negb (10 * 1024 * 1024 <? zlen payload)).

Section Server.
Context {C : Crypto} {V : Verkle} {RT : Runtime} {TR : TxRlp}.
Context {CB : Codec Block} {CR : Codec (list Receipt)} {CT : Codec TxLookupEntry}.

(** [peers] is the map of the source; the peer objects are kept by number, also after
    they left the map. [peerLock] is true when it is held forever. *)
Record Server := mkServer {
  sv_bc : Blockchain;
  sv_objs : gmap nat Peer;
  sv_peers : gset nat;
  sv_peerLock : bool
}.

Definition with_peer (s : Server) (i : nat) (f : Peer -> Peer) : Server :=
  mkServer (sv_bc s) (alter f i (sv_objs s)) (sv_peers s) (sv_peerLock s).

Definition sv_Config (s : Server) : NetworkConfig := chain_config (sv_bc s).

(** [setupPeer] up to [p.Start()], after which the read loop of the peer runs. *)
Definition setup_start (s : Server) (outbound : bool) (now : Z) : option (Server * nat) :=
  if sv_peerLock s then None
  else let i := fresh (dom (sv_objs s)) in
       Some (mkServer (sv_bc s) (<[i := NewPeer outbound now]> (sv_objs s)) ({[i]} ∪ sv_peers s) false, i).

Definition challenge_of (nanos : Z) : bytes := bytes_of_string ("CHALLENGE_" +:+ pretty nanos).

(** The rest of [setupPeer]: the challenge is set and the status is sent. *)
Definition setup_status (s : Server) (i : nat) (nanos : Z) (pick : bool) : option Server :=
  let cfg := sv_Config s in
  current ← CurrentBlock (sv_bc s);
  number ← Number (BHeader current);
  let challenge := challenge_of nanos in
  let status := mkStatus (wd 1) (big_uint64 (ChainID cfg)) (GenesisHash cfg) (BlockHash current)
                  (big_uint64 number) challenge in
  Some (with_peer s i (fun p => Send pick (set_challenge p challenge) (Status status))).

(** [setupPeer] when nothing happens between its two halves. *)
Definition setupPeer (s : Server) (outbound : bool) (now : Z) (pick : bool) : option Server :=
  '(s, i) ← setup_start s outbound now;
  setup_status s i now pick.

Definition NewServer (bc : Blockchain) : Server := mkServer bc ∅ ∅ false.

(** [Dial]; [connected] is whether [net.Dial] succeeded. *)
Definition Dial (s : Server) (connected : bool) (now : Z) (pick : bool) : option Server :=
  if connected then setupPeer s true now pick else Some s.

(** The bootnodes [Start] dials, each in a goroutine of its own; the list has the dials in the order
    they come through. *)
Fixpoint dial_all (s : Server) (dials : list (bool * Z * bool)) : option Server :=
  match dials with
  | [] => Some s
  | (connected, now, pick) :: rest => s ← Dial s connected now pick; dial_all s rest
  end.

(** One iteration of [acceptLoop]: a failed [Accept] is only reported. *)
Definition accept_conn (s : Server) (accepted : bool) (now : Z) (pick : bool) : option Server :=
  if accepted then setupPeer s false now pick else Some s.

(** [RemovePeer], which only the two loops of the peer call: [p.Stop] waits for both loops
    to end while the lock is held. *)
Definition RemovePeer (s : Server) (i : nat) : option Server :=
  if sv_peerLock s then None
  else if bool_decide (i ∈ sv_peers s) then
    Some (mkServer (sv_bc s) (alter set_quit i (sv_objs s)) (sv_peers s ∖ {[i]}) true)
  else Some s.

(** [Server.Stop], when the waits for the loops of the peers end: each peer in the map is told to quit and
    stays there. Shutdown.v shows when they do not end. *)
Definition server_Stop (s : Server) : option Server :=
  if sv_peerLock s then None
  else Some (mkServer (sv_bc s)
               (map_imap (fun i p => Some (if bool_decide (i ∈ sv_peers s) then set_quit p else p)) (sv_objs s))
               (sv_peers s) false).

Definition BroadcastBlock (s : Server) (block : Block) (pick : nat -> bool) : option Server :=
  if sv_peerLock s then None
  else Some (mkServer (sv_bc s)
               (map_imap (fun i p => Some (if bool_decide (i ∈ sv_peers s) then Send (pick i) p (NewBlockMsg block) else p))
                  (sv_objs s))
               (sv_peers s) false).

Definition PeerCount (s : Server) : option nat := if sv_peerLock s then None else Some (size (sv_peers s)).

(** *** Handlers

    A handler returns the server and the blocks it hands to [OnBlockRecv]. *)

Definition handleStatus (s : Server) (i : nat) (msg : StatusMsg) (pick : bool) : option (Server * list Block) :=
  let cfg := sv_Config s in
  if negb (bool_decide (st_GenesisHash msg = GenesisHash cfg))
     || negb (bool_decide (NetworkID msg = big_uint64 (ChainID cfg)))
  then s ← RemovePeer s i; Some (s, [])
  else
    let s := with_peer s i (fun p => set_head p (st_HeadHash msg) (st_HeadNumber msg)) in
    current ← CurrentBlock (sv_bc s);
    number ← Number (BHeader current);
    if uval (big_uint64 number) <? uval (st_HeadNumber msg) then
      let req := mkGetBlocks (BlockHash current) (wd 100) in
      Some (with_peer s i (fun p => Send pick p (GetBlocks req)), [])
    else Some (s, []).

Definition handleNewBlock (s : Server) (block : Block) : Server * list Block :=
  match GetBlockByHash (sv_bc s) (BlockHash block) with
  | Some _ => (s, [])
  | None => (s, [block])
  end.

(** The loop of [handleGetBlocks]: canonical blocks from [num] on, at most [limit]. *)
Fixpoint get_blocks (fuel : nat) (bc : Blockchain) (num limit : Z) : option (list Block) :=
  match fuel with
  | O => None
  | S fuel =>
      if limit <=? 0 then Some []
      else match GetBlockByNumber bc (wd num) with
           | None => Some []
           | Some b => l ← get_blocks fuel bc (num + 1) (limit - 1); Some (b :: l)
           end
  end.

Definition handleGetBlocks (s : Server) (i : nat) (msg : GetBlocksMsg) (pick : bool) : option Server :=
  blocks ← match GetBlockByHash (sv_bc s) (StartHash msg) with
           | None => Some []
           | Some start =>
               number ← Number (BHeader start);
               get_blocks (S (size (chain_db (sv_bc s)))) (sv_bc s) (uval (big_uint64 number) + 1) (uval (Limit msg))
           end;
  Some (with_peer s i (fun p => Send pick p (Blocks blocks))).

Definition handleBlocks (s : Server) (l : list Block) : Server * list Block := (s, l).

Definition handleAuth (s : Server) (i : nat) (msg : AuthMsg) : option Server :=
  p ← sv_objs s !! i;
  match SigToPub (hash_bytes (keccak256 (p_Challenge p))) (Signature msg) with
  | None => RemovePeer s i
  | Some pub =>
      let addr := PubkeyToAddress pub in
      let isValidator := existsb (fun v => bool_decide (v_address v = addr)) (cfg_Validators (sv_Config s)) in
      Some (with_peer s i (fun p => set_trusted p isValidator))
  end.

Definition handleMsg (s : Server) (i : nat) (msg : Msg) (pick : bool) : option (Server * list Block) :=
  match msg with
  | Status m => handleStatus s i m pick
  | NewBlockMsg b => Some (handleNewBlock s b)
  | GetBlocks m => s ← handleGetBlocks s i m pick; Some (s, [])
  | Blocks l => Some (handleBlocks s l)
  | Auth m => s ← handleAuth s i m; Some (s, [])
  end.

(** [handleMessage]: a payload that does not decode is ignored. *)
Definition handleMessage (s : Server) (i : nat) (code : Z) (payload : bytes) (pick : bool)
  : option (Server * list Block) :=
  msg ← decode_payload code payload;
  match msg with
  | None => Some (s, [])
  | Some msg => handleMsg s i msg pick
  end.

(** One iteration of [readLoop] with the envelope it decoded, or with a read error. *)
Definition read_step (s : Server) (i : nat) (now : Z) (env : result stream_error (Z * bytes)) (pick : bool)
  : option (Server * list Block) :=
  match env with
  | Err _ => s ← RemovePeer s i; Some (s, [])
  | Ok (code, payload) =>
      p ← sv_objs s !! i;
      let '(p, accepted) := accept_msg p now payload in
      let s := with_peer s i (fun _ => p) in
      if (accepted : bool) then handleMessage s i code payload pick
      else s ← RemovePeer s i; Some (s, [])
  end.
End Server.

(** ** Theorems: the wire *)

Section WireTheorems.
Context {RT : Runtime} {TR : TxRlp} {TL : TxRlpLaws TR}.

Lemma envelope_read msg w rest :
  write_msg msg = Some w -> msg_ok msg -> small w ->
  exists code payload,
    decode_envelope (mkStream (w ++ rest) [] false) = Some (Ok ((code, payload), mkStream rest [] false)) /\
    decode_payload code payload = Some (Some (norm_msg msg)).
Proof.
  intros Hw Hok Hs. destruct (write_msg_inv msg w Hw) as (code & payload & Hc & Hcr & Hp & ->).
  exists code, payload. split.
  - by rewrite (envelope_decodes code payload Hcr Hs _ rest).
  - apply payload_decodes; [done..|]. apply small_writeBytes. by apply small_writeList, small_app_r in Hs.
Qed.

(** C26: What a peer writes is what the other reads. A message the write loop encodes (whole
    header fields within 256 bits, total size within the allocation limit) is read back
    from the stream as one envelope, leaving exactly what follows it, and its payload
    decodes to the same message, up to nil and zero integers in headers. *)
Theorem wire_roundtrip msg w rest :
  write_msg msg = Some w -> msg_ok msg -> small w ->
  exists code payload,
    decode_envelope (mkStream (w ++ rest) [] false) = Some (Ok ((code, payload), mkStream rest [] false)) /\
    decode_payload code payload = Some (Some (norm_msg msg)).
Proof. apply envelope_read. Qed.

Lemma skip_chunks_0 chunks : skip_chunks 0 chunks = chunks.
Proof. by destruct chunks. Qed.

Lemma write_msg_pos msg w : write_msg msg = Some w -> 0 < zlen w.
Proof. intros H. apply write_msg_inv in H as (code & payload & _ & _ & _ & ->). apply zlen_writeList_pos. Qed.

Lemma read_envelope_chunk msg w tail chunks :
  write_msg msg = Some w -> msg_ok msg -> small w ->
  exists env, read_envelope ((w ++ tail) :: chunks) = Some (Ok (env, chunks)) /\
    decode_payload env.1 env.2 = Some (Some (norm_msg msg)).
Proof.
  intros Hw Hok Hs. pose proof (write_msg_pos msg w Hw) as Hpos.
  destruct (envelope_read msg w (tail ++ concat chunks) Hw Hok Hs) as (code & payload & Hd & Hp).
  exists (code, payload). split; [|done]. unfold read_envelope. cbn [concat]. rewrite <- app_assoc, Hd. cbn [s_r].
  rewrite !zlen_app. pose proof (zlen_nonneg tail). cbn [skip_chunks]. zcase. rewrite zlen_app.
  replace (zlen w + (zlen tail + zlen (concat chunks)) - (zlen tail + zlen (concat chunks)) - (zlen w + zlen tail))
    with (- zlen tail) by lia.
  destruct chunks as [|c chunks]; cbn [skip_chunks]; [done|]. by zcase.
Qed.

(** Pipelined messages are lost. When two messages arrive in one read of the connection
    the second one is discarded with the decoder's buffer, because each [rlp.Decode]
    wraps the connection in a new buffered reader; arriving in two reads, both
    are received. *)
Theorem pipelined_message_lost msg1 msg2 w1 w2 chunks :
  write_msg msg1 = Some w1 -> write_msg msg2 = Some w2 -> msg_ok msg1 -> msg_ok msg2 -> small w1 -> small w2 ->
  exists env1 env2,
    read_envelope ((w1 ++ w2) :: chunks) = Some (Ok (env1, chunks)) /\
    read_envelope (w1 :: w2 :: chunks) = Some (Ok (env1, w2 :: chunks)) /\
    read_envelope (w2 :: chunks) = Some (Ok (env2, chunks)) /\
    decode_payload env1.1 env1.2 = Some (Some (norm_msg msg1)) /\
    decode_payload env2.1 env2.2 = Some (Some (norm_msg msg2)).
Proof.
  intros H1 H2 Ho1 Ho2 Hs1 Hs2.
  destruct (read_envelope_chunk msg1 w1 w2 chunks H1 Ho1 Hs1) as (env1 & E1 & D1).
  destruct (read_envelope_chunk msg1 w1 [] (w2 :: chunks) H1 Ho1 Hs1) as (env1' & E1' & D1').
  destruct (read_envelope_chunk msg2 w2 [] chunks H2 Ho2 Hs2) as (env2 & E2 & D2).
  rewrite app_nil_r in E1', E2. exists env1, env2. split_and!; try done.
  assert (env1' = env1) as ->; [|done]. unfold read_envelope in E1, E1'. cbn [concat] in E1, E1'.
  rewrite <- app_assoc in E1. destruct (decode_envelope _) as [[[env st]|err]|]; [|done..].
  cbn in E1, E1'. congruence.
Qed.

(** The 19 bytes of an envelope that announces a payload of 2^62 - 1 bytes. *)
Definition oversized : bytes := puthead 192 247 (2 ^ 63 - 1) ++ writeUint64 0 ++ puthead 128 183 (2 ^ 62 - 1).

(** A 19-byte message stops the node. The announced payload size is allocated before
    the 10 MB limit is checked, so an envelope header that announces 2^62 - 1 bytes makes
    the read loop panic, whatever follows on the connection. *)
Theorem oversized_envelope_panics tail chunks :
  max_alloc < 2 ^ 62 - 1 -> length oversized = 19%nat /\ read_envelope ((oversized ++ tail) :: chunks) = None.
Proof.
  intros Hmax. split; [reflexivity|]. unfold read_envelope. cbn [concat]. rewrite <- app_assoc.
  set (rest := tail ++ concat chunks). unfold oversized. rewrite <- !app_assoc.
  unfold decode_envelope, decodeStruct, stream_List. unfold mbind at 1, reader_bind at 1. unfold mbind at 1, reader_bind at 1.
  rewrite (Kind_step (puthead 192 247 (2 ^ 63 - 1)) (KList, 2 ^ 63 - 1, wd 0) _ (writeUint64 0 ++ puthead 128 183 (2 ^ 62 - 1) ++ rest));
    [|apply readKind_decodes_list; lia|apply zlen_puthead_pos|done|done|done|done].
  cbn [advance s_stack s_r s_limited]. unfold mbind at 1, reader_bind at 1. unfold field. unfold mbind at 1, reader_bind at 1.
  rewrite (uint_decodes 64 0 ltac:(lia) ltac:(lia) eq_refl _ (puthead 128 183 (2 ^ 62 - 1) ++ rest)); [|done|done].
  unfold mbind at 1, reader_bind at 1. unfold stream_Bytes. unfold mbind at 1, reader_bind at 1.
  rewrite (Kind_step (puthead 128 183 (2 ^ 62 - 1)) (KString, 2 ^ 62 - 1, wd 0) _ rest);
    [|apply readKind_decodes_string; lia|apply zlen_puthead_pos|done|done| |done].
  2:{ intros l Hl. vm_compute in Hl. by simplify_eq. }
  unfold mbind at 1, reader_bind at 1. unfold alloc. rewrite (proj2 (Z.ltb_lt _ _)) by done. done.
Qed.
End WireTheorems.

(** ** Theorems: the server *)

Section ServerTheorems.
Context {C : Crypto} {CL : CryptoLaws C} {V : Verkle} {RT : Runtime} {TR : TxRlp} {TL : TxRlpLaws TR}.
Context {CB : Codec Block} {CR : Codec (list Receipt)} {CT : Codec TxLookupEntry}.
Implicit Types (s : Server) (bc : Blockchain).

Lemma GetBlockByNumber_key bc n b :
  GetBlockByNumber bc n = Some b -> is_Some (chain_db bc !! canonicalKey n).
Proof.
  unfold GetBlockByNumber, ReadCanonicalHash. destruct (chain_db bc !! canonicalKey n); [eauto|].
  by rewrite bool_decide_eq_true_2.
Qed.

(** When the fuel runs out, every number the loop asked for was found. *)
Lemma get_blocks_None fuel bc num limit :
  get_blocks fuel bc num limit = None ->
  Z.of_nat fuel <= Z.max limit 0 /\
  forall i, (i < fuel)%nat -> is_Some (GetBlockByNumber bc (wd (num + Z.of_nat i))).
Proof.
  revert num limit. induction fuel as [|fuel IH]; intros num limit H; [split; [lia|]; intros i Hi; lia|].
  cbn in H. destruct (Z.leb_spec limit 0); [done|].
  destruct (GetBlockByNumber bc (wd num)) as [b|] eqn:Eb; [|done].
  destruct (get_blocks fuel bc (num + 1) (limit - 1)) eqn:Eg; [done|]. destruct (IH _ _ Eg) as [Hf Hall].
  split; [lia|]. intros [|i] Hi; [rewrite Z.add_0_r; eauto|].
  replace (num + Z.of_nat (S i)) with (num + 1 + Z.of_nat i) by lia. apply Hall. lia.
Qed.

(** The database has as many keys as canonical blocks, so the loop ends. *)
Lemma get_blocks_total bc num limit :
  limit < 2 ^ 64 -> is_Some (get_blocks (S (size (chain_db bc))) bc num limit).
Proof.
  intros Hlim. destruct (get_blocks _ _ _ _) eqn:E; [eauto|]. exfalso.
  apply get_blocks_None in E as [Hf Hall]. set (fuel := S (size (chain_db bc))) in *.
  set (keys := (fun i : nat => canonicalKey (wd (num + Z.of_nat i))) <$> seq 0 fuel).
  assert (NoDup keys) as Hnd.
  { apply NoDup_fmap_2_strong; [|apply NoDup_seq]. intros i j Hi Hj Hij.
    apply elem_of_seq in Hi, Hj. apply canonicalKey_inj, (f_equal uval) in Hij. rewrite !uval_wd in Hij.
    change (Z.of_N 64) with 64 in Hij.
    assert ((Z.of_nat i - Z.of_nat j) mod 2 ^ 64 = 0) as Hm.
    { replace (Z.of_nat i - Z.of_nat j) with ((num + Z.of_nat i) - (num + Z.of_nat j)) by lia.
      rewrite Zminus_mod, Hij, Z.sub_diag. done. }
    apply Z.mod_divide in Hm; [|done]. destruct Hm as [q Hq].
    assert (- (2 ^ 64) < q * 2 ^ 64 < 2 ^ 64) as Hq' by lia. change (2 ^ 64) with 18446744073709551616 in *. lia. }
  assert (list_to_set (C := gset bytes) keys ⊆ dom (chain_db bc)) as Hsub.
  { intros k Hk. apply elem_of_list_to_set, list_elem_of_fmap in Hk as (i & -> & Hi). apply elem_of_seq in Hi.
    destruct (Hall i ltac:(lia)) as [b Hb]. apply GetBlockByNumber_key in Hb. by apply elem_of_dom. }
  apply subseteq_size in Hsub. rewrite size_list_to_set, size_dom in Hsub by done.
  unfold keys in Hsub. rewrite length_fmap, length_seq in Hsub. lia.
Qed.

Lemma get_blocks_spec fuel bc num limit l :
  0 <= limit -> get_blocks fuel bc num limit = Some l ->
  Z.of_nat (length l) <= limit /\
  (forall i b, l !! i = Some b -> GetBlockByNumber bc (wd (num + Z.of_nat i)) = Some b) /\
  (Z.of_nat (length l) = limit \/ GetBlockByNumber bc (wd (num + Z.of_nat (length l))) = None).
Proof.
  revert num limit l. induction fuel as [|fuel IH]; intros num limit l Hlim H; [done|]. cbn in H.
  destruct (Z.leb_spec limit 0). { injection H as <-. cbn. split_and!; [lia|done|left; lia]. }
  destruct (GetBlockByNumber bc (wd num)) as [b|] eqn:Eb.
  2:{ injection H as <-. cbn. rewrite Z.add_0_r. split_and!; [lia|done|by right]. }
  destruct (get_blocks fuel bc (num + 1) (limit - 1)) as [l'|] eqn:Eg; [|done]. injection H as <-.
  destruct (IH (num + 1) (limit - 1) l' ltac:(lia) Eg) as (Hl & Hi & Hend). cbn [length]. split_and!; [lia| |].
  - intros [|i] b' Hb'; cbn in Hb'; [rewrite Z.add_0_r; congruence|].
    replace (num + Z.of_nat (S i)) with (num + 1 + Z.of_nat i) by lia. by apply Hi.
  - replace (num + Z.of_nat (S (length l'))) with (num + 1 + Z.of_nat (length l')) by lia.
    destruct Hend as [Hend|Hend]; [left; lia|by right].
Qed.

(** C27: Serving blocks. A request for blocks after a known block always ends, and queues the
    canonical blocks that follow its number, in order and without gaps, at most as many
    as requested; fewer only when the next number has no block. *)
Theorem get_blocks_served s i msg pick start number :
  GetBlockByHash (sv_bc s) (StartHash msg) = Some start -> Number (BHeader start) = Some number ->
  exists l, handleGetBlocks s i msg pick = Some (with_peer s i (fun p => Send pick p (Blocks l))) /\
    Z.of_nat (length l) <= uval (Limit msg) /\
    (forall j b, l !! j = Some b ->
       GetBlockByNumber (sv_bc s) (wd (uval (big_uint64 number) + 1 + Z.of_nat j)) = Some b) /\
    (Z.of_nat (length l) = uval (Limit msg) \/
     GetBlockByNumber (sv_bc s) (wd (uval (big_uint64 number) + 1 + Z.of_nat (length l))) = None).
Proof.
  intros Hs Hn. pose proof (uval_range (Limit msg)) as Hl.
  destruct (get_blocks_total (sv_bc s) (uval (big_uint64 number) + 1) (uval (Limit msg))) as [l El]; [apply Hl|].
  exists l. split.
  - unfold handleGetBlocks. rewrite Hs. cbn [mbind option_bind]. rewrite Hn. cbn [mbind option_bind]. by rewrite El.
  - apply (get_blocks_spec (S (size (chain_db (sv_bc s)))) _ _ (uval (Limit msg)) _); [lia|done].
Qed.

(** Dropping a peer stops the server. A connected peer that announces another genesis or
    network is removed from the peer set, but the removal waits for the loop that
    called it while holding the peer lock: afterwards no block can be broadcast, no peer
    added, counted or removed. *)
Theorem rejected_peer_blocks_server s i msg pick :
  sv_peerLock s = false -> i ∈ sv_peers s ->
  st_GenesisHash msg <> GenesisHash (sv_Config s) \/ NetworkID msg <> big_uint64 (ChainID (sv_Config s)) ->
  exists s', handleStatus s i msg pick = Some (s', []) /\ sv_peers s' = sv_peers s ∖ {[i]} /\
    (forall b f, BroadcastBlock s' b f = None) /\ PeerCount s' = None /\
    (forall o now, setup_start s' o now = None) /\ (forall j, RemovePeer s' j = None).
Proof.
  intros Hl Hi Hm. unfold handleStatus, RemovePeer.
  assert (negb (bool_decide (st_GenesisHash msg = GenesisHash (sv_Config s)))
          || negb (bool_decide (NetworkID msg = big_uint64 (ChainID (sv_Config s)))) = true) as ->.
  { apply orb_true_iff. destruct Hm as [Hm|Hm]; [left|right]; by rewrite bool_decide_eq_false_2. }
  rewrite Hl, bool_decide_eq_true_2 by done. cbn [mbind option_bind]. eexists. split_and!; done.
Qed.

Lemma existsb_validator (vs : list Validator) a :
  existsb (fun v => bool_decide (v_address v = a)) vs = true <-> a ∈ v_address <$> vs.
Proof.
  rewrite existsb_exists, list_elem_of_fmap. split.
  - intros (v & Hin & Hv). apply bool_decide_eq_true in Hv. exists v. split; [done|]. by apply list_elem_of_In.
  - intros (v & -> & Hin). exists v. split; [by apply list_elem_of_In|]. by apply bool_decide_eq_true.
Qed.

(** Trust follows the validator set. An authentication message whose signature recovers
    to a key makes the peer trusted exactly when the address of that key is one of the
    configured validators; in particular a validator that signs the challenge of the
    connection becomes trusted. *)
Theorem auth_trusts_validators s i p msg pub :
  sv_objs s !! i = Some p ->
  SigToPub (hash_bytes (keccak256 (p_Challenge p))) (Signature msg) = Some pub ->
  exists s' p', handleAuth s i msg = Some s' /\ sv_objs s' !! i = Some p' /\
    (p_IsTrusted p' = true <-> PubkeyToAddress pub ∈ v_address <$> cfg_Validators (sv_Config s)) /\
    sv_peers s' = sv_peers s.
Proof.
  intros Hp Hs. unfold handleAuth. rewrite Hp. cbn [mbind option_bind]. rewrite Hs.
  eexists _, _. split_and!; [done| | |done].
  - cbn. rewrite lookup_alter_eq, Hp. done.
  - cbn [p_IsTrusted set_trusted]. apply existsb_validator.
Qed.

(** The challenge can be bypassed. Between the start of a peer's read loop and the
    assignment of its challenge, authentication is checked against the empty challenge: a
    signature a validator once made of it makes any new connection trusted. *)
Theorem early_auth_replay s o now s1 i key sig pk :
  setup_start s o now = Some (s1, i) ->
  PubkeyToAddress (pub_of key) ∈ v_address <$> cfg_Validators (sv_Config s) ->
  Sign (hash_bytes (keccak256 [])) key = Some sig ->
  exists s2 p, handleAuth s1 i (mkAuth sig pk) = Some s2 /\ sv_objs s2 !! i = Some p /\ p_IsTrusted p = true.
Proof.
  intros Hst Hv Hsig. unfold setup_start in Hst. destruct (sv_peerLock s); [done|]. injection Hst as <- <-.
  unfold handleAuth. cbn [sv_objs]. rewrite lookup_insert_eq. cbn [mbind option_bind p_Challenge NewPeer Signature].
  rewrite (sign_recover _ _ _ Hsig). eexists _, _. split_and!; [done| |].
  - cbn. rewrite lookup_alter_eq, lookup_insert_eq. done.
  - cbn [p_IsTrusted set_trusted]. by apply existsb_validator.
Qed.

(** The messages of a peer that are handled, until one gets it removed. *)
Fixpoint handled (p : Peer) (msgs : list (Z * bytes)) : list (Z * bytes) :=
  match msgs with
  | [] => []
  | (now, payload) :: rest =>
      let '(p', ok) := accept_msg p now payload in
      if (ok : bool) then (now, payload) :: handled p' rest else []
  end.

(** The rate limit holds. Of the messages a peer sends within one second of the last
    reset of its counter, at most 100 per window (10000 when the peer is trusted) are
    handled before it is removed, none of them above 10 MB; and a peer that stays
    within both limits has all its messages handled. *)
Theorem rate_limited p msgs :
  let limit := if p_IsTrusted p then 10000 else 100 in
  0 <= p_msgsThisSec p <= limit -> Forall (fun m => m.1 - p_lastMsgTime p <= 1000000000) msgs ->
  p_msgsThisSec p + Z.of_nat (length (handled p msgs)) <= limit /\
  Forall (fun m => zlen m.2 <= 10485760) (handled p msgs) /\
  (p_msgsThisSec p + Z.of_nat (length msgs) <= limit -> Forall (fun m => zlen m.2 <= 10485760) msgs ->
   handled p msgs = msgs).
Proof.
  cbn zeta. revert p. induction msgs as [|[now payload] msgs IH]; intros p Hp HF; cbn [handled length].
  { split_and!; [lia|constructor|done]. }
  apply Forall_cons in HF as [Hnow HF]. cbn [fst] in Hnow. unfold accept_msg.
  rewrite (proj2 (Z.ltb_ge 1000000000 (now - p_lastMsgTime p))) by lia.
  set (p' := set_rate p (p_lastMsgTime p) (p_msgsThisSec p + 1)). change (p_IsTrusted p') with (p_IsTrusted p).
  set (limit := if p_IsTrusted p then 10000 else 100) in *.
  change (10 * 1024 * 1024) with 10485760.
  destruct (Z.ltb_spec limit (p_msgsThisSec p + 1)) as [Hlim|Hlim]; cbn [negb andb].
  { cbn [length]. split_and!; [lia|constructor|lia]. }
  destruct (Z.ltb_spec 10485760 (zlen payload)) as [Hsz|Hsz]; cbn [negb].
  { cbn [length]. split_and!; [lia|constructor|]. intros _ Hs. apply Forall_cons in Hs as [Hs _]. cbn in Hs. lia. }
  destruct (IH p') as (H1 & H2 & H3); change (p_IsTrusted p') with (p_IsTrusted p) in *.
  { fold limit. change (p_msgsThisSec p') with (p_msgsThisSec p + 1). lia. }
  { done. }
  fold limit in H1, H3. change (p_msgsThisSec p') with (p_msgsThisSec p + 1) in *. cbn [length]. split_and!.
  - lia.
  - by constructor.
  - intros Hle Hs. apply Forall_cons in Hs as [_ Hs]. f_equal. apply H3; [lia|done].
Qed.

(** Dialling adds one peer per connection that comes about. *)
Theorem bootnodes_connected s dials cur n :
  sv_peerLock s = false -> sv_peers s ⊆ dom (sv_objs s) -> CurrentBlock (sv_bc s) = Some cur -> Number (BHeader cur) = Some n ->
  exists s', dial_all s dials = Some s' /\ sv_bc s' = sv_bc s /\ sv_peers s ⊆ sv_peers s' /\
    PeerCount s' = Some (size (sv_peers s) + length (filter (fun d => d.1.1 = true) dials))%nat.
Proof.
  revert s. induction dials as [|[[connected now] pick] dials IH]; intros s Hl Hsub Hc Hn.
  - exists s. unfold PeerCount. rewrite Hl. cbn. rewrite Nat.add_0_r. done.
  - cbn [dial_all]. unfold Dial. rewrite filter_cons. destruct connected; cbn [fst].
    2: { cbn [mbind option_bind]. by apply IH. }
    unfold setupPeer, setup_start. rewrite Hl. cbn [mbind option_bind]. unfold setup_status. cbn [sv_bc]. rewrite Hc. cbn [mbind option_bind].
    rewrite Hn. cbn [mbind option_bind]. set (i := fresh (dom (sv_objs s))).
    assert (i ∉ sv_peers s) as Hi by (intros Hin; apply (is_fresh (dom (sv_objs s))), Hsub, Hin).
    match goal with |- context [dial_all ?x dials] => destruct (IH x) as (s' & H1 & H2 & H3 & H4) end; cbn in *; [done| |done|done|].
    + rewrite dom_alter_L, dom_insert_L. set_solver.
    + exists s'. split; [done|]. split; [done|]. split; [set_solver|]. rewrite H4. f_equal.
      rewrite size_union, size_singleton by set_solver. rewrite decide_True by done. cbn. lia.
Qed.
End ServerTheorems.
