(* ===== verification/Shutdown.v ===== *)
(** * Shutdown: the goroutines of the p2p server (p2p/peer.go, p2p/server.go).

    The control flow of the two loops of every peer, of [RemovePeer] and of [Server.Stop],
    with the peer lock, the quit channels, the connections and the wait groups. Messages are
    left out: a loop may get a message or an error whenever the code allows one. P2P
    models the same server at the level of whole handlers; there a
    removed peer leaves the lock held for good, which [peer_lock_forever] justifies. *)

From S2P Require Import Prelude.

(** Where a loop is. [Removing] is before the lock in [RemovePeer], [Closing] is in [p.Stop]
    with the lock held, waiting for both loops of the peer. *)
Inductive loop := Selecting | Working | Handling | Removing | Closing | Ended.

#[export] Instance loop_eq_dec : EqDecision loop.
Proof. solve_decision. Defined.

(** A peer object: whether it is in the map, its quit channel and connection are closed, and
    its two loops. The read loop is [Working] while it reads, the write loop while it writes. *)
Record conn := mkConn {
  c_in_map : bool;
  c_quit : bool;
  c_closed : bool;
  c_reader : loop;
  c_writer : loop
}.

Inductive holder := HStop | HPeer (i : nat).

(** [Server.Stop]: not called, waiting for the lock, stopping the remaining peers, waiting for
    the loops of one, finished. *)
Inductive stopper := NotCalled | Locking | Stopping (todo : list nat) | Waiting (i : nat) (todo : list nat) | Stopped.

Record net := mkNet {
  n_lock : option holder;
  n_conns : gmap nat conn;
  n_stop : stopper
}.

Definition set_reader (c : conn) (l : loop) : conn := mkConn (c_in_map c) (c_quit c) (c_closed c) l (c_writer c).
Definition set_writer (c : conn) (l : loop) : conn := mkConn (c_in_map c) (c_quit c) (c_closed c) (c_reader c) l.
(** [close(p.quitCh)] and [p.conn.Close()] *)
Definition close_conn (c : conn) : conn := mkConn (c_in_map c) true true (c_reader c) (c_writer c).
Definition unmap (c : conn) : conn := mkConn false (c_quit c) (c_closed c) (c_reader c) (c_writer c).
Definition new_conn : conn := mkConn true false false Selecting Selecting.

(** The steps of [readLoop] that do not involve the lock: a closed connection gives no message. *)
Inductive rd_step (c : conn) : loop -> loop -> Prop :=
| rd_quit : c_quit c = true -> rd_step c Selecting Ended
| rd_begin : c_quit c = false -> rd_step c Selecting Working
| rd_message : c_closed c = false -> rd_step c Working Handling
| rd_error : rd_step c Working Removing
| rd_handled : rd_step c Handling Selecting
| rd_rejected : rd_step c Handling Removing.

(** Those of [writeLoop]; when the peer is stopping and a message is queued either case of the
    [select] may be taken. *)
Inductive wr_step (c : conn) : loop -> loop -> Prop :=
| wr_quit : c_quit c = true -> wr_step c Selecting Ended
| wr_message : wr_step c Selecting Working
| wr_written : wr_step c Working Selecting
| wr_error : wr_step c Working Removing.

(** A loop that asked for the removal: of a peer in the map, it starts [p.Stop] with the lock
    held; otherwise it goes on, or ends after a connection error. *)
Inductive remove_step (i : nat) (c : conn) : option holder -> conn -> loop -> Prop :=
| rs_remove : c_in_map c = true -> remove_step i c (Some (HPeer i)) (close_conn (unmap c)) Closing
| rs_gone l : c_in_map c = false -> l = Ended \/ l = Selecting -> remove_step i c None c l.

(** [wg.Wait()] returns. *)
Definition both_ended (c : conn) : Prop := c_reader c = Ended /\ c_writer c = Ended.

Inductive net_step : net -> net -> Prop :=
| net_connect lock conns stop i :
    lock = None -> conns !! i = None -> net_step (mkNet lock conns stop) (mkNet lock (<[i := new_conn]> conns) stop)
| net_read lock conns stop i c l :
    conns !! i = Some c -> rd_step c (c_reader c) l ->
    net_step (mkNet lock conns stop) (mkNet lock (<[i := set_reader c l]> conns) stop)
| net_write lock conns stop i c l :
    conns !! i = Some c -> wr_step c (c_writer c) l ->
    net_step (mkNet lock conns stop) (mkNet lock (<[i := set_writer c l]> conns) stop)
| net_remove_r conns stop i c lock c' l :
    conns !! i = Some c -> c_reader c = Removing -> remove_step i c lock c' l ->
    net_step (mkNet None conns stop) (mkNet lock (<[i := set_reader c' l]> conns) stop)
| net_remove_w conns stop i c lock c' l :
    conns !! i = Some c -> c_writer c = Removing -> remove_step i c lock c' l ->
    net_step (mkNet None conns stop) (mkNet lock (<[i := set_writer c' l]> conns) stop)
| net_closed_r lock conns stop i c :
    conns !! i = Some c -> c_reader c = Closing -> both_ended c ->
    net_step (mkNet lock conns stop) (mkNet None (<[i := set_reader c Ended]> conns) stop)
| net_closed_w lock conns stop i c :
    conns !! i = Some c -> c_writer c = Closing -> both_ended c ->
    net_step (mkNet lock conns stop) (mkNet None (<[i := set_writer c Ended]> conns) stop)
| net_stop lock conns : net_step (mkNet lock conns NotCalled) (mkNet lock conns Locking)
| net_lock conns todo :
    (forall i, i ∈ todo <-> exists c, conns !! i = Some c /\ c_in_map c = true) -> NoDup todo ->
    net_step (mkNet None conns Locking) (mkNet (Some HStop) conns (Stopping todo))
| net_stop_peer lock conns i todo c :
    conns !! i = Some c ->
    net_step (mkNet lock conns (Stopping (i :: todo))) (mkNet lock (<[i := close_conn c]> conns) (Waiting i todo))
| net_wait lock conns i todo c :
    conns !! i = Some c -> both_ended c ->
    net_step (mkNet lock conns (Waiting i todo)) (mkNet lock conns (Stopping todo))
| net_stopped lock conns : net_step (mkNet lock conns (Stopping [])) (mkNet None conns Stopped).

(** ** Theorems *)

(** Only [Stop] holds the lock while it works, and no loop is past its own wait. *)
Definition lock_ok (n : net) : Prop :=
  match n_stop n with Stopping _ | Waiting _ _ => n_lock n = Some HStop | _ => n_lock n <> Some HStop end.

(** A loop cannot wait for itself: the wait of a removing loop never returns. *)
Lemma closing_waits c : both_ended c -> c_reader c = Closing \/ c_writer c = Closing -> False.
Proof. intros [Hr Hw] [H|H]; congruence. Qed.

Ltac by_closing :=
  match goal with Hb : both_ended _ |- _ => exfalso; apply (closing_waits _ Hb); solve [auto] end.

Lemma lock_ok_step n n' : net_step n n' -> lock_ok n -> lock_ok n'.
Proof.
  unfold lock_ok. destruct 1; cbn; intros Hok; try done; try by_closing.
  all: match goal with H : remove_step _ _ _ _ _ |- _ => destruct H end; destruct stop; congruence.
Qed.

(** The lock of a removing loop is never released. *)
Lemma peer_lock_step i n n' :
  net_step n n' -> lock_ok n -> n_lock n = Some (HPeer i) ->
  n_lock n' = Some (HPeer i) /\ (n_stop n' = Stopped -> n_stop n = Stopped).
Proof.
  unfold lock_ok. destruct 1; cbn; intros Hok Hl; try done; try by_closing; congruence.
Qed.

Lemma peer_lock_forever i n n' :
  rtc net_step n n' -> lock_ok n -> n_lock n = Some (HPeer i) ->
  n_lock n' = Some (HPeer i) /\ (n_stop n' = Stopped -> n_stop n = Stopped).
Proof.
  induction 1 as [n|n1 n2 n3 H12 _ IH]; intros Hok Hl; [done|].
  destruct (peer_lock_step i n1 n2 H12 Hok Hl) as [Hl2 Hs2].
  destruct (IH (lock_ok_step _ _ H12 Hok) Hl2) as [Hl3 Hs3]. auto.
Qed.

(** The reader of a closed connection that has not seen the quit channel ends up waiting for
    the lock of [Stop]. *)
Definition stuck (i : nat) (todo : list nat) (n : net) : Prop :=
  n_lock n = Some HStop /\ n_stop n = Waiting i todo /\
  exists c, n_conns n !! i = Some c /\ c_closed c = true /\ (c_reader c = Working \/ c_reader c = Removing).

Lemma stuck_step i todo n n' : net_step n n' -> stuck i todo n -> stuck i todo n'.
Proof.
  intros Hs (Hl & Hst & c & Hc & Hcl & Hr). unfold stuck.
  destruct Hs as [lock conns stop j E Hj|lock conns stop j c1 l Hj Hstep|lock conns stop j c1 l Hj Hstep|conns stop j c1 lock c' l Hj Hre Hm
                 |conns stop j c1 lock c' l Hj Hre Hm|lock conns stop j c1 Hj Hre Hb|lock conns stop j c1 Hj Hre Hb|lock conns
                 |conns todo' Ht Hn|lock conns j todo' c1 Hj|lock conns j todo' c1 Hj Hb|lock conns]; cbn in *; try done; try by_closing.
  - split_and!; [done..|]. exists c. rewrite lookup_insert_ne by congruence. done.
  - split_and!; [done..|]. destruct (decide (j = i)) as [->|Hne].
    + assert (c1 = c) as -> by congruence. exists (set_reader c l). rewrite lookup_insert_eq. split_and!; [done..|].
      destruct Hr as [Hr|Hr]; rewrite Hr in Hstep; inversion Hstep; subst; try congruence. by right.
    + exists c. by rewrite lookup_insert_ne.
  - split_and!; [done..|]. destruct (decide (j = i)) as [->|Hne].
    + assert (c1 = c) as -> by congruence. exists (set_writer c l). by rewrite lookup_insert_eq.
    + exists c. by rewrite lookup_insert_ne.
  - injection Hst as -> ->. assert (c1 = c) as -> by congruence. destruct Hb as [Hb _]. destruct Hr; congruence.
Qed.

Lemma stuck_forever i todo n n' : rtc net_step n n' -> stuck i todo n -> stuck i todo n'.
Proof. induction 1; eauto using stuck_step. Qed.

(** The peers of the map, in any order. *)
Lemma mapped_peers (conns : gmap nat conn) i c :
  conns !! i = Some c -> c_in_map c = true ->
  exists todo, (forall j, j ∈ i :: todo <-> exists c, conns !! j = Some c /\ c_in_map c = true) /\ NoDup (i :: todo).
Proof.
  intros Hi Hm. set (all := dom (filter (fun kv => c_in_map kv.2 = true) conns)).
  assert (forall j, j ∈ all <-> exists c, conns !! j = Some c /\ c_in_map c = true) as Hall.
  { intros j. unfold all. rewrite elem_of_dom. unfold is_Some. by setoid_rewrite map_lookup_filter_Some. }
  exists (elements (all ∖ {[i]})). split.
  - intros j. rewrite <- Hall, elem_of_cons, elem_of_elements, elem_of_difference, elem_of_singleton.
    assert (i ∈ all) by (apply Hall; eauto). destruct (decide (j = i)) as [->|]; naive_solver.
  - constructor; [|apply NoDup_elements]. rewrite elem_of_elements. set_solver.
Qed.

(** C38: Stopping the server can hang. [Stop] holds the peer lock while it waits for the loops of each
    peer, and a read loop that was reading when its connection was closed needs that lock to end:
    with such a peer connected there is a run in which [Stop] waits for it, and from
    there no step of any goroutine lets [Stop] return or the lock go. *)
Theorem stop_deadlocks n i c :
  n_lock n = None -> n_stop n = NotCalled -> n_conns n !! i = Some c -> c_in_map c = true -> c_reader c = Working ->
  exists n', rtc net_step n n' /\
    forall n'', rtc net_step n' n'' -> n_stop n'' <> Stopped /\ n_lock n'' = Some HStop.
Proof.
  destruct n as [lock conns stop]. cbn. intros -> -> Hi Hm Hr.
  destruct (mapped_peers conns i c Hi Hm) as (todo & Hall & Hnd).
  exists (mkNet (Some HStop) (<[i := close_conn c]> conns) (Waiting i todo)). split.
  - eapply rtc_l; [apply net_stop|]. eapply rtc_l; [by apply net_lock|]. by apply rtc_once, net_stop_peer.
  - intros n'' H. assert (stuck i todo n'') as (Hl & Hs & _); [|by rewrite Hs].
    apply (stuck_forever i todo _ _ H). split_and!; [done..|]. exists (close_conn c). cbn. rewrite lookup_insert_eq. auto.
Qed.

(** Idle loops end by themselves. *)
Definition idle (c : conn) : Prop := c_reader c = Selecting /\ c_writer c = Selecting.

Lemma stop_todo todo conns :
  NoDup todo -> (forall i, i ∈ todo -> exists c, conns !! i = Some c /\ idle c) ->
  exists conns', rtc net_step (mkNet (Some HStop) conns (Stopping todo)) (mkNet None conns' Stopped).
Proof.
  revert conns. induction todo as [|i todo IH]; intros conns Hnd Hall; [exists conns; apply rtc_once, net_stopped|].
  apply NoDup_cons in Hnd as [Hni Hnd]. destruct (Hall i) as (c & Hi & Hr & Hw); [set_solver|].
  set (c1 := close_conn c). set (c2 := set_reader c1 Ended). set (c3 := set_writer c2 Ended).
  destruct (IH (<[i := c3]> conns) Hnd) as [conns' Hrun].
  { intros j Hj. destruct (Hall j) as (cj & Hcj & Hid); [set_solver|]. exists cj. rewrite lookup_insert_ne by set_solver. done. }
  exists conns'. eapply rtc_l; [by apply net_stop_peer|]. fold c1.
  eapply rtc_l; [apply (net_read _ _ _ i c1 Ended); [by rewrite lookup_insert_eq|]; cbn; rewrite Hr; by constructor|].
  rewrite insert_insert_eq. fold c2.
  eapply rtc_l; [apply (net_write _ _ _ i c2 Ended); [by rewrite lookup_insert_eq|]; cbn; rewrite Hw; by constructor|].
  rewrite insert_insert_eq. fold c3.
  eapply rtc_l; [apply (net_wait _ _ i todo c3); [by rewrite lookup_insert_eq|done]|]. done.
Qed.

Lemma stop_idle n :
  n_lock n = None -> n_stop n = NotCalled -> map_Forall (fun _ c => c_in_map c = true -> idle c) (n_conns n) ->
  exists n', rtc net_step n n' /\ n_stop n' = Stopped /\ n_lock n' = None.
Proof.
  destruct n as [lock conns stop]. cbn. intros -> -> Hid.
  set (all := dom (filter (fun kv => c_in_map kv.2 = true) conns)).
  assert (forall j, j ∈ elements all <-> exists c, conns !! j = Some c /\ c_in_map c = true) as Hall.
  { intros j. unfold all. rewrite elem_of_elements, elem_of_dom. unfold is_Some. by setoid_rewrite map_lookup_filter_Some. }
  destruct (stop_todo (elements all) conns) as [conns' Hrun]; [apply NoDup_elements| |].
  { intros i Hi. apply Hall in Hi as (c & Hc & Hm). exists c. split; [done|]. by apply (Hid i c). }
  exists (mkNet None conns' Stopped). split; [|done].
  eapply rtc_l; [apply net_stop|]. eapply rtc_l; [apply net_lock; [done|apply NoDup_elements]|]. done.
Qed.
