(* ===== verification/Node.v ===== *)
(** * Node: node/node.go, block production and block import.

    The node owns the chain, the state, the engine and the transaction pool.
    [import_block] is the handler registered for blocks from peers,
    [processBatch] builds, executes, seals and stores a block. Both take the
    result of [ApplyBlock] as an argument, which [import_step] and [mine_step]
    range over the executions the executor allows. [None] is a Go panic. *)

From S2P Require Import Prelude Words Interfaces Rlp Types Sanity Hex StateDB StateOps Scheduler Consensus Genesis SystemContracts Executor RawDB Blockchain.

(** node/config.go *)
Section Config.
Context {C : Crypto}.

Record Config := mkConfig {
  Network : string;
  DataDir : string;
  HTTPPort : Z;
  ValidatorKey : option PrivateKey;
  P2PPort : Z;
  WSPort : Z;
  IPCPath : string;
  Bootnodes : list string
}.

Definition DefaultConfig : Config :=
  mkConfig "devnet" "zephyria-chaindata" 8545 None 30303 0 "" [].
End Config.

Inductive start_error := ErrGenesisMismatch (expected got : Hash).

(** go-ethereum's [NewTransaction] followed by [SignTx]; [None] is the error. *)
Class TxSigner {C : Crypto} := {
  sign_legacy : ChainConfig -> u64 -> Address -> Z -> u64 -> Z -> bytes -> PrivateKey -> option Transaction
}.

Inductive send_error := ErrUnknownAccount | ErrSignTx.

Section Node.
Context {C : Crypto} {V : Verkle} {EV : EVM} {TS : TxSigner}.
Context {CB : Codec Block} {CR : Codec (list Receipt)} {CT : Codec TxLookupEntry}.

(** [n_sent] collects the blocks handed to [p2p.BroadcastBlock]. *)
Record Node := mkNode {
  n_bc : Blockchain;
  n_state : StateDB;
  n_engine : ZeliusEngine;
  n_netCfg : NetworkConfig;
  n_keystore : gmap Address PrivateKey;
  n_txCh : list Transaction;
  n_stateLock : bool;
  n_sent : list Block
}.

Definition with_bc (n : Node) (x : Blockchain) : Node :=
  mkNode x (n_state n) (n_engine n) (n_netCfg n) (n_keystore n) (n_txCh n) (n_stateLock n) (n_sent n).
Definition with_state (n : Node) (x : StateDB) : Node :=
  mkNode (n_bc n) x (n_engine n) (n_netCfg n) (n_keystore n) (n_txCh n) (n_stateLock n) (n_sent n).
Definition with_engine (n : Node) (x : ZeliusEngine) : Node :=
  mkNode (n_bc n) (n_state n) x (n_netCfg n) (n_keystore n) (n_txCh n) (n_stateLock n) (n_sent n).
Definition with_keystore (n : Node) (x : gmap Address PrivateKey) : Node :=
  mkNode (n_bc n) (n_state n) (n_engine n) (n_netCfg n) x (n_txCh n) (n_stateLock n) (n_sent n).
Definition with_txCh (n : Node) (x : list Transaction) : Node :=
  mkNode (n_bc n) (n_state n) (n_engine n) (n_netCfg n) (n_keystore n) x (n_stateLock n) (n_sent n).
Definition with_lock (n : Node) (x : bool) : Node :=
  mkNode (n_bc n) (n_state n) (n_engine n) (n_netCfg n) (n_keystore n) (n_txCh n) x (n_sent n).
Definition with_sent (n : Node) (x : list Block) : Node :=
  mkNode (n_bc n) (n_state n) (n_engine n) (n_netCfg n) (n_keystore n) (n_txCh n) (n_stateLock n) x.

(** ** Keystore *)

Definition AddKey (n : Node) (key : PrivateKey) : Node :=
  with_keystore n (<[PubkeyToAddress (pub_of key) := key]> (n_keystore n)).

Definition GetKey (n : Node) (addr : Address) : option PrivateKey := n_keystore n !! addr.

(** ** Start-up: the part of [Start] that sets up the chain, the state and the engine. *)

(** [n.state.Commit] and [db.Write]: chain and state share the database. *)
Definition commit_state (n : Node) : Node :=
  let '(s, batch, _) := Commit (n_state n) [] in
  with_bc (with_state n s) (set_db (n_bc n) (db_write (chain_db (n_bc n)) batch)).

(** [Start] returns the database with its outcome: the genesis block is written before the
    genesis check can fail. *)
Definition Start (cfg : Config) (devKey : PrivateKey) (db : DB) : option (DB * result start_error Node) :=
  let netCfg := GetNetworkConfig (Network cfg) in
  bc ← NewBlockchain db netCfg;
  let head := CurrentBlock bc in
  let stateRoot := match head with Some h => VerkleRoot (BHeader h) | None => zero_hash end in
  let s := New stateRoot (Some (chain_db bc)) in
  let mismatch := match GetBlockByNumber bc (wd 0) with
                  | Some genesis => if bool_decide (BlockHash genesis = GenesisHash netCfg) then None
                                    else Some (BlockHash genesis)
                  | None => None
                  end in
  match mismatch with
  | Some got => Some (chain_db bc, Err (ErrGenesisMismatch (GenesisHash netCfg) got))
  | None =>
      let valKey := default devKey (ValidatorKey cfg) in
      let engine := NewZelius (cfg_Validators netCfg) (Some valKey) in
      let n := AddKey (mkNode bc s engine netCfg ∅ [] false []) valKey in
      currentHeight ← match head with
                      | Some h => number ← Number (BHeader h); Some (uval (big_uint64 number))
                      | None => Some 0
                      end;
      let n := if currentHeight =? 0 then
                 let s := foldr (fun ab s => SetBalance s ab.1 ab.2) (n_state n) (map_to_list (Alloc netCfg)) in
                 commit_state (with_state n s)
               else n in
      Some (chain_db (n_bc n), Ok n)
  end.

(** The executor of the node: BLOCKHASH reads the node's own chain. *)
Definition executor_of (n : Node) : Executor :=
  NewExecutor (network_ChainConfig (n_netCfg n)) (n_netCfg n) (Some (GetBlockByNumber (n_bc n))).

(** ** Submitting transactions *)

(** [n.txCh <- tx] on the buffered channel: [None] blocks until the loop receives. *)
Definition SubmitTx (n : Node) (tx : Transaction) : option Node :=
  if (length (n_txCh n) <? 2000)%nat then Some (with_txCh n (n_txCh n ++ [tx])) else None.

Definition send_signed (n : Node) (from : Address) (amount : Z) (data : bytes)
  : option (Node * result send_error unit) :=
  match GetKey n from with
  | None => Some (n, Err ErrUnknownAccount)
  | Some key =>
      let P := Params (n_netCfg n) in
      match sign_legacy (network_ChainConfig (n_netCfg n)) (GetNonce (n_state n) from) (StakingAddr P) amount
              (wd 100000) (DefaultBaseFee P) data key with
      | None => Some (n, Err ErrSignTx)
      | Some tx => n ← SubmitTx n tx; Some (n, Ok tt)
      end
  end.

Definition SendStakeTx (n : Node) (amount : Z) (from : Address) := send_signed n from amount [].
Definition SendUnstakeTx (n : Node) (from : Address) := send_signed n from 0 (bytes_of_string "UNSTAKE").

(** The loop's receive: one transaction, then the rest of the channel while the pool
    [batch] is below 5000. *)
Definition receive (n : Node) (batch : list Transaction) : option (Node * list Transaction) :=
  match n_txCh n with
  | [] => None
  | tx :: rest =>
      let batch := batch ++ [tx] in
      let k := (5000 - length batch)%nat in
      Some (with_txCh n (drop k rest), batch ++ take k rest)
  end.

Definition node_GetBalance (n : Node) (addr : Address) : Z := uval (GetBalance (n_state n) addr).

(** ** Importing a block from a peer *)

(** What [ApplyBlock] returned. *)
Abbreviation exec_result := (option (list Receipt * Hash * StateDB)).

Definition import_block (n : Node) (b : Block) (out : exec_result) : option Node :=
  '(engine, verdict) ← Verify (n_engine n) b;
  let n := with_engine n engine in
  match verdict with
  | Err _ => Some n
  | Ok _ =>
      '(rs, root, s) ← out;
      let b := NewBlock (set_root (BHeader b) root) (Transactions b) in
      let n := commit_state (with_state n s) in
      '(bc, _) ← AddBlock (n_bc n) b (Some rs);
      Some (with_bc n bc)
  end.

Inductive import_step (n : Node) (b : Block) (n' : Node) : Prop :=
| import_intro out :
    n_stateLock n = false ->
    ApplyBlock (executor_of n) (Some (chain_db (n_bc n))) (n_state n) (BHeader b) (Transactions b) out ->
    import_block n b out = Some n' -> import_step n b n'.

(** ** Producing a block *)

(** The nonce and balance checks against the state before the block. *)
Definition affordable (s : StateDB) (tx : Transaction) : bool :=
  let sender := default zero_addr (tx_sender tx) in
  let cost := tx_gasPrice tx * uval (tx_gas tx) in
  let cost256 := (FromBig cost).1 in
  bool_decide (tx_nonce tx = GetNonce s sender) && (uval cost256 <=? uval (GetBalance s sender)).

(** "Intercept Staking Transactions": unstaking senders leave the engine at once. *)
Definition intercept (P : SystemParams) (e : ZeliusEngine) (txs : list Transaction) : ZeliusEngine :=
  fold_left (fun e tx =>
    if bool_decide (tx_to tx = Some (StakingAddr P)) && bool_decide (tx_data tx = bytes_of_string "UNSTAKE")
    then RemoveValidator e (default zero_addr (tx_sender tx)) else e) txs e.

Definition getGasUsed (rs : list Receipt) : u64 :=
  match last rs with Some r => CumulativeGasUsed r | None => wd 0 end.

(** The header of a block on [parent]; [now] is [time.Now().Unix()]. *)
Definition header_on (n : Node) (parent : Block) (now : u64) : option Header :=
  number ← Number (BHeader parent);
  fee ← CalcBaseFee (network_ChainConfig (n_netCfg n)) (BHeader parent);
  Some (mkHeader (BlockHash parent) (Some (number + 1)) now zero_hash zero_hash (cfg_Coinbase (n_netCfg n)) []
          (Some (cfg_Difficulty (n_netCfg n))) (DefaultGasLimit (Params (n_netCfg n))) (wd 0) (Some fee)).

Definition mining_header (n : Node) (now : u64) : option Header :=
  parent ← CurrentBlock (n_bc n); header_on n parent now.

(** [processBatch] after the signature check takes the state lock twice. Under the first one the nonces and
    balances are checked. *)
Definition select_txs (n : Node) (validTxs : list Transaction) : list Transaction :=
  filter (fun tx => affordable (n_state n) tx = true) validTxs.

(** Then, without it, the engine is updated and the parent is read ([CurrentBlock]). *)
Definition intercept_node (n : Node) (txs : list Transaction) : Node :=
  with_engine n (intercept (Params (n_netCfg n)) (n_engine n) txs).

(** Under the second one the block is built on that parent, executed, sealed and stored. This lock is
    released by the persistence goroutine only: a failed [Seal] leaves it held. *)
Definition execute_batch (n : Node) (parent : Block) (txs : list Transaction) (now : u64) (out : exec_result) : option Node :=
  header ← header_on n parent now;
  let n := with_lock n true in
  '(rs, root, s) ← out;
  let n := with_state n s in
  let header := set_gas_used (set_root header root) (getGasUsed rs) in
  let '(block, sealed) := Seal (n_engine n) (NewBlock header txs) in
  match sealed with
  | Err _ => Some n
  | Ok _ =>
      let n := commit_state (with_sent n (n_sent n ++ [block])) in
      '(bc, _) ← AddBlock (n_bc n) block (Some rs);
      Some (with_lock (with_bc n bc) false)
  end.

(** The three parts when nothing comes between them. *)
Definition processBatch (n : Node) (validTxs : list Transaction) (now : u64) (out : exec_result) : option Node :=
  let txs := select_txs n validTxs in
  let n := intercept_node n txs in
  parent ← CurrentBlock (n_bc n);
  execute_batch n parent txs now out.

(** A mining round whose parts see the node at different times: the checks at [n1], the parent at [n2], the
    execution at [n3]. The workers keep the transactions with a valid signature, in any order. *)
Inductive mine_gap (n1 n2 n3 : Node) (batch txs : list Transaction) (now : u64) (n' : Node) : Prop :=
| gap_intro validTxs parent header out :
    n_stateLock n1 = false ->
    validTxs ≡ₚ filter (fun tx => is_Some (tx_sender tx)) batch -> txs = select_txs n1 validTxs ->
    CurrentBlock (n_bc n2) = Some parent ->
    n_stateLock n3 = false -> header_on n3 parent now = Some header ->
    ApplyBlock (executor_of n3) (Some (chain_db (n_bc n3))) (n_state n3) header txs out ->
    execute_batch n3 parent txs now out = Some n' -> mine_gap n1 n2 n3 batch txs now n'.

(** The same without interruption. *)
Inductive mine_step (n : Node) (batch : list Transaction) (now : u64) (n' : Node) : Prop :=
| mine_intro validTxs header out :
    n_stateLock n = false ->
    validTxs ≡ₚ filter (fun tx => is_Some (tx_sender tx)) batch ->
    mining_header n now = Some header ->
    ApplyBlock (executor_of n) (Some (chain_db (n_bc n))) (n_state n) header
      (select_txs n validTxs) out ->
    processBatch n validTxs now out = Some n' -> mine_step n batch now n'.

(** ** The timer of the mining loop *)

(** "Dynamic Smoothing": the next period of the ticker after a round with transactions that
    took [execTime] ([time.Duration]s in nanoseconds). *)
Definition next_timeout (blockTimeout execTime : Z) : Z :=
  if Z.quot blockTimeout 2 <? execTime then
    let newTimeout := execTime * 2 in
    if 5000000000 <? newTimeout then 5000000000 else newTimeout
  else blockTimeout.

(** How a tick ended: the local node proposed (and the ticker got a new period, when there
    were transactions), the leader's block arrived in time, or it did not. *)
Inductive round :=
| Proposed (period : option Z)
| BlockArrived
| TimedOut.

(** The start of a tick: reload the validators from the state, then the leader of the next
    block and the local address. *)
Definition elect (n : Node) : option (ZeliusEngine * Address * Address) :=
  e ← SyncValidators (n_engine n) (n_state n);
  parent ← CurrentBlock (n_bc n);
  number ← Number (BHeader parent);
  '(e, proposer) ← GetLeader e (big_uint64 (number + 1));
  key ← privKey e;
  Some (e, proposer, PubkeyToAddress (pub_of key)).

(** One tick: mine when the local key leads the next block (at most 2800 transactions of the
    pool), otherwise wait for the leader's block and record a failure when it does not come.
    [batch] is the pool of the loop. *)
Inductive tick (n : Node) (batch : list Transaction) : round -> Node -> list Transaction -> Prop :=
| tick_mine e myAddr now execTime n' :
    n_stateLock n = false -> Some (e, myAddr, myAddr) = elect n ->
    mine_step (with_engine n e) (take 2800 batch) now n' ->
    tick n batch
      (Proposed (if bool_decide (batch = []) then None
                 else Some (next_timeout (BlockTimeout (ConsensusCfg (n_netCfg n))) execTime)))
      n' (drop 2800 batch)
| tick_wait e proposer myAddr :
    n_stateLock n = false -> Some (e, proposer, myAddr) = elect n -> proposer <> myAddr ->
    tick n batch BlockArrived (with_engine n e) batch
| tick_timeout e proposer myAddr :
    n_stateLock n = false -> Some (e, proposer, myAddr) = elect n -> proposer <> myAddr ->
    tick n batch TimedOut (with_engine n (RecordNonCompliance e proposer)) batch.

End Node.

(** ** Invariants of the engine under the node *)

Section NodeLemmas.
Context {C : Crypto} {CL : CryptoLaws C} {V : Verkle} {EV : EVM}.
Context {CB : Codec Block} {CR : Codec (list Receipt)} {CT : Codec TxLookupEntry}.
Implicit Types (n : Node) (b : Block).

Lemma RemoveValidator_key e addr : privKey (RemoveValidator e addr) = privKey e.
Proof. by destruct (RemoveValidator_cases e addr) as [->|(vs & _ & _ & ->)]. Qed.

Lemma intercept_key P e txs : privKey (intercept P e txs) = privKey e.
Proof.
  revert e. induction txs as [|tx txs IH]; intros e; [done|].
  unfold intercept in *. cbn [fold_left]. rewrite IH. destruct (_ && _); [apply RemoveValidator_key|done].
Qed.

(** What the second critical section did. *)
Lemma execute_batch_inv n parent txs now out n' :
  execute_batch n parent txs now out = Some n' ->
  exists h rs root s,
    let b0 := NewBlock (set_gas_used (set_root h root) (getGasUsed rs)) txs in
    header_on n parent now = Some h /\ out = Some (rs, root, s) /\ ExtraData h = [] /\
    n_engine n' = n_engine n /\ n_txCh n' = n_txCh n /\
    ((n_sent n' = n_sent n /\ n_stateLock n' = true /\ n_bc n' = n_bc n /\ n_state n' = s /\
      exists err, (Seal (n_engine n) b0).2 = Err err) \/
     (exists key sig bc r,
        privKey (n_engine n) = Some key /\ Sign (hash_bytes (BlockHash b0)) key = Some sig /\
        let b := NewBlock (set_extra (BHeader b0) sig) txs in
        n_sent n' = n_sent n ++ [b] /\ n_stateLock n' = false /\
        AddBlock (n_bc (commit_state (with_state n s))) b (Some rs) = Some (bc, r) /\
        n_bc n' = bc /\ n_state n' = n_state (commit_state (with_state n s)))).
Proof.
  unfold execute_batch. destruct (header_on n parent now) as [h|] eqn:Eh; [|done]. cbn [mbind option_bind].
  destruct out as [[[rs root] s]|]; [|done]. cbn [mbind option_bind].
  assert (ExtraData h = []) as Hx.
  { unfold header_on in Eh. destruct (Number _); [|done]. cbn in Eh. destruct (CalcBaseFee _ _); [|done]. cbn in Eh.
    by injection Eh as <-. }
  set (b0 := NewBlock _ txs). intros H. exists h, rs, root, s. cbn zeta. fold b0.
  cbn [n_engine with_state with_lock] in H. rewrite Seal_empty in H |- * by done.
  destruct (privKey (n_engine n)) as [key|].
  2:{ injection H as <-. split_and!; [done..|]. left. split_and!; [done..|by eexists]. }
  destruct (Sign _ key) as [sig|] eqn:Es.
  2:{ injection H as <-. split_and!; [done..|]. left. split_and!; [done..|by eexists]. }
  unfold commit_state in *. cbn [n_bc n_state with_state with_bc with_sent with_lock] in *.
  destruct (Commit s []) as [[s' batch] r0]. cbn [n_bc n_state with_state with_bc] in *.
  destruct (AddBlock _ _ _) as [[bc r]|] eqn:Ea; [|done]. cbn [mbind option_bind] in H.
  injection H as <-. split_and!; [done..|]. right. exists key, sig, bc, r. done.
Qed.

(** What a mining round that broadcast a block did. *)
Lemma processBatch_inv n txs now out n' :
  processBatch n txs now out = Some n' ->
  exists h rs root s,
    let final := select_txs n txs in
    let b0 := NewBlock (set_gas_used (set_root h root) (getGasUsed rs)) final in
    let e := intercept (Params (n_netCfg n)) (n_engine n) final in
    mining_header n now = Some h /\ out = Some (rs, root, s) /\ ExtraData h = [] /\ n_engine n' = e /\
    ((n_sent n' = n_sent n /\ n_stateLock n' = true /\ n_bc n' = n_bc n /\ n_state n' = s /\
      exists err, (Seal e b0).2 = Err err) \/
     (exists key sig bc r,
        privKey (n_engine n) = Some key /\ Sign (hash_bytes (BlockHash b0)) key = Some sig /\
        let b := NewBlock (set_extra (BHeader b0) sig) final in
        n_sent n' = n_sent n ++ [b] /\ n_stateLock n' = false /\
        AddBlock (n_bc (commit_state (with_state n s))) b (Some rs) = Some (bc, r) /\
        n_bc n' = bc /\ n_state n' = n_state (commit_state (with_state n s)))).
Proof.
  unfold processBatch, mining_header. set (final := select_txs n txs). change (n_bc (intercept_node n final)) with (n_bc n).
  destruct (CurrentBlock (n_bc n)) as [parent|]; [|done]. cbn [mbind option_bind]. intros H.
  destruct (execute_batch_inv _ _ _ _ _ _ H) as (h & rs & root & s & Hh & Ho & Hx & He & _ & Hcase).
  exists h, rs, root, s. cbn zeta in *. split_and!; try done. cbn [n_engine intercept_node with_engine] in Hcase.
  by rewrite intercept_key in Hcase.
Qed.

(** A round without interruption is one whose parts see the same chain and state. *)
Lemma mine_step_gap n batch now n' :
  mine_step n batch now n' ->
  exists txs, mine_gap n (intercept_node n txs) (intercept_node n txs) batch txs now n'.
Proof.
  intros [validTxs h out Hl Hv Hh Hex Hp]. exists (select_txs n validTxs). unfold mining_header, processBatch in *.
  change (n_bc (intercept_node n _)) with (n_bc n) in Hp. destruct (CurrentBlock (n_bc n)) as [parent|] eqn:Ep; [|done].
  cbn [mbind option_bind] in *. by apply (gap_intro _ _ _ _ _ _ _ validTxs parent h out).
Qed.
End NodeLemmas.

(** ** Importing *)

Section Importing.
Context {C : Crypto} {CL : CryptoLaws C} {V : Verkle} {VL : VerkleLaws V} {EV : EVM}.
Context {CB : Codec Block} {CR : Codec (list Receipt)} {CT : Codec TxLookupEntry}.
Implicit Types (n : Node) (b : Block).

Lemma commit_state_eq n :
  commit_state n = with_bc (with_state n (committed (n_state n)))
    (set_db (n_bc n) (db_write (chain_db (n_bc n)) (commit_batch (n_state n)))).
Proof. reflexivity. Qed.

Definition head_numbered (bc : Blockchain) : Prop :=
  match currentBlock bc with Some cur => is_Some (Number (BHeader cur)) | None => True end.

Lemma AddBlock_total bc b rs :
  is_Some (Number (BHeader b)) -> head_numbered bc ->
  exists bc' r, AddBlock bc b rs = Some (bc', r) /\ head_numbered bc'.
Proof.
  intros [m Hm] Hh. unfold head_numbered, AddBlock in *.
  destruct (ReadBlock _ _); [eauto|]. destruct (WriteBlock _ b) as [db1 [u1|]]; [|eauto].
  destruct (match rs with Some rs => WriteReceipts db1 b rs | None => (db1, Ok tt) end) as [db2 [u2|]]; [|eauto].
  rewrite Hm. cbn [mbind option_bind]. destruct (WriteTxLookupEntries db2 b) as [db3 [u3|]]; [|eauto].
  destruct (currentBlock bc) as [cur|] eqn:Ec.
  - destruct Hh as [c Hc]. rewrite Hc. cbn [mbind option_bind].
    destruct (c <? m); do 2 eexists; (split; [done|]); cbn; eauto.
  - cbn [mbind option_bind]. do 2 eexists. split; [done|]. cbn. eauto.
Qed.

Lemma GetLeader_again e view e' a : GetLeader e view = Some (e', a) -> GetLeader e' view = Some (e', a).
Proof.
  unfold GetLeader. destruct (LeaderSchedule e !! view) as [l|] eqn:El; [intros [= <- <-]; by rewrite El|].
  destruct (sumZ v_stake (Validators e) =? 0) eqn:Et.
  - destruct (Validators e) as [|v vs] eqn:Ev; [done|].
    destruct ((v :: vs) !! _) as [x|] eqn:Ex; [|done]. cbn [mbind option_bind]. intros [= <- <-].
    rewrite El, Ev, Et. cbn [mbind option_bind]. by rewrite Ex.
  - destruct (pick_leader _ _ _).
    + intros [= <- <-]. cbn. by rewrite lookup_insert_eq.
    + destruct (Validators e !! 0%nat); [|done]. cbn [mbind option_bind]. intros [= <- <-]. cbn.
      by rewrite lookup_insert_eq.
Qed.

Lemma Verify_again e b e' :
  Verify e b = Some (e', Ok tt) -> Verify e' b = Some (e', Ok tt) /\ is_Some (Number (BHeader b)).
Proof.
  unfold Verify. destruct (_ <? 65)%nat; [done|]. destruct (SigToPub _ _) as [pk|]; [|done].
  destruct (Number _) as [m|]; [|done]. cbn [mbind option_bind].
  destruct (GetLeader e _) as [[e1 l]|] eqn:Eg; [|done]. cbn [mbind option_bind].
  case_bool_decide as Hl; [|done]. intros [= <-]. rewrite (GetLeader_again _ _ _ _ Eg).
  cbn [mbind option_bind]. rewrite bool_decide_eq_true_2 by done. eauto.
Qed.

(** A credit that does not wrap survives the commit. *)
Lemma reward_committed f t a x :
  state_wf (Base f t) -> 0 < uval x -> uval (GetBalance (Base f t) a) + uval x < 2 ^ 256 ->
  exists f' t', committed (AddBalanceReward (Base f t) a x) = Base f' t' /\ state_wf (Base f' t') /\
    uval (GetBalance (Base f' t') a) = uval (GetBalance (Base f t) a) + uval x.
Proof.
  intros Hwf Hx Hlt. unfold AddBalanceReward, AddBalance, addBalance. cbn [fst].
  set (bal := wadd _ x). assert (uval bal = uval (GetBalance (Base f t) a) + uval x) as Hb by by apply uval_wadd.
  pose proof (slot_key_is_key (SBalance a)) as Hk. cbn [slot_key] in Hk.
  assert (state_wf (SetBalance (Base f t) a bal)) as Hw
    by (apply state_wf_set; [done|apply length_u256_bytes|done]).
  pose proof (GetBalance_set_eq (Base f t) a bal) as Hg. unfold SetBalance in *. cbn [setVerkleValue] in *.
  set (f1 := set_dirty f _) in *. set (t1 := vinsert t _ _) in *.
  eexists _, _. split_and!; [done|split; apply map_Forall_empty|].
  rewrite <- Hb. f_equal. etransitivity; [|exact Hg]. apply GetBalance_ext.
  change (getVerkleValue (committed (Base f1 t1)) (balanceKey a) = getVerkleValue (Base f1 t1) (balanceKey a)).
  rewrite get_committed by done. unfold f1 at 1. cbn [dirty set_dirty]. rewrite lookup_insert_eq.
  destruct (u256_bytes bal) as [|c l] eqn:E; [|done]. exfalso. apply be_bytes_nil in E.
  pose proof (uval_range (GetBalance (Base f t) a)). lia.
Qed.

(** A node that can import [b], which has no transactions, paying its coinbase. *)
Definition can_import n b (bal : Z) : Prop :=
  n_stateLock n = false /\ head_numbered (n_bc n) /\ Transactions b = [] /\
  (exists e, Verify (n_engine n) b = Some (e, Ok tt)) /\
  (exists f t, n_state n = Base f t /\ state_wf (Base f t)) /\
  uval (GetBalance (n_state n) (Coinbase (BHeader b))) = bal.

Lemma ApplyBlock_empty e db s h out :
  ApplyBlock e db s h [] out <->
  out = Some ([], IntermediateRoot (AddBalanceReward s (Coinbase h) (wd block_reward)),
              AddBalanceReward s (Coinbase h) (wd block_reward)).
Proof.
  split.
  - intros (waves & sh & Hs & Hex & ->). vm_compute in Hs. injection Hs as <-. by inversion Hex; subst.
  - intros ->. exists [], (initial_shared s []). split_and!; [done|constructor|done].
Qed.

Lemma import_again n b bal :
  can_import n b bal -> bal + block_reward < 2 ^ 256 ->
  (exists n', import_step n b n') /\ forall n', import_step n b n' -> can_import n' b (bal + block_reward).
Proof.
  intros (Hlock & Hh & Htx & [e He] & (f & t & Hs & Hwf) & Hb) Hlt.
  destruct (Verify_again _ _ _ He) as [He' Hnum].
  rewrite Hs in Hb.
  destruct (reward_committed f t (Coinbase (BHeader b)) (wd block_reward)) as (f' & t' & Ec & Hwf' & Hb').
  { done. } { done. } { rewrite Hb. exact Hlt. }
  set (s1 := AddBalanceReward (Base f t) (Coinbase (BHeader b)) (wd block_reward)) in *.
  set (b' := NewBlock (set_root (BHeader b) (IntermediateRoot s1)) (Transactions b)).
  set (n1 := commit_state (with_state (with_engine n e) s1)).
  destruct (AddBlock_total (n_bc n1) b' (Some [])) as (bc' & r & Ha & Hh'); [done|done|].
  assert (import_block n b (Some ([], IntermediateRoot s1, s1)) = Some (with_bc n1 bc')) as Himp.
  { unfold import_block. rewrite He. cbn [mbind option_bind]. fold b'. fold n1. rewrite Ha. done. }
  split.
  - exists (with_bc n1 bc'). apply (import_intro _ _ _ (Some ([], IntermediateRoot s1, s1))); [done| |done].
    rewrite Htx, ApplyBlock_empty, Hs. done.
  - intros n' [out _ Hout Hn']. rewrite Htx, Hs in Hout. apply ApplyBlock_empty in Hout as ->.
    fold s1 in Hn'. rewrite Himp in Hn'. injection Hn' as <-.
    split_and!; [done|done|done|by exists e| |].
    + exists f', t'. cbn. by rewrite <- Ec.
    + cbn [n_state with_bc n1]. change (n_state n1) with (committed s1). rewrite Ec, Hb'. by rewrite Hb.
Qed.

(** C35: Importing a block again pays its reward again. The import handler executes and
    commits a block before the chain is asked whether it knows it, and never compares the
    block with its parent or its root: a verified block without transactions can
    be imported any number of times, and each time the coinbase gets another 10 tokens. *)
Theorem reimport_pays_again n b k bal :
  can_import n b bal -> bal + Z.of_nat k * block_reward < 2 ^ 256 ->
  (exists n', nsteps (fun n n' => import_step n b n') k n n') /\
  forall n', nsteps (fun n n' => import_step n b n') k n n' ->
    node_GetBalance n' (Coinbase (BHeader b)) = bal + Z.of_nat k * block_reward.
Proof.
  revert n bal. induction k as [|k IH]; intros n bal Hc Hlt.
  - split; [exists n; constructor|]. intros n' Hn. inversion Hn; subst. destruct Hc as (_ & _ & _ & _ & _ & Hb).
    unfold node_GetBalance. lia.
  - destruct (import_again n b bal Hc) as [[n1 H1] Hall]; [unfold block_reward in *; lia|].
    assert (bal + block_reward + Z.of_nat k * block_reward < 2 ^ 256) as Hlt' by (unfold block_reward in *; lia).
    split.
    + destruct (proj1 (IH n1 _ (Hall n1 H1) Hlt')) as [n' Hn']. exists n'. by econstructor.
    + intros n' Hn. inversion Hn as [|? ? n2 ? H2 Hr]; subst.
      rewrite (proj2 (IH n2 _ (Hall n2 H2) Hlt') n' Hr). unfold block_reward. lia.
Qed.

(** A broadcast block replicates. When a node mines and broadcasts a block, any node with
    the same chain, state and network configuration whose engine elects the miner's key for
    that number can import it: the signature verifies, the execution can take the miner's
    result, the recomputed root leaves the block as it is, and the importer ends with
    the miner's chain and state. *)
Theorem import_replicates m batch now m' b i key number ei :
  mine_step m batch now m' -> n_sent m' = n_sent m ++ [b] ->
  privKey (n_engine m) = Some key -> Number (BHeader b) = Some number ->
  n_stateLock i = false -> n_bc i = n_bc m -> n_state i = n_state m -> n_netCfg i = n_netCfg m ->
  GetLeader (n_engine i) (big_uint64 number) = Some (ei, PubkeyToAddress (pub_of key)) ->
  exists i', import_step i b i' /\ n_bc i' = n_bc m' /\ n_state i' = n_state m'.
Proof.
  intros [txs h out _ _ Hh Hex Hp] Hsent Hkey Hnum Hlock Hbc Hst Hcfg Hlead.
  apply processBatch_inv in Hp as (h' & rs & root & s & Hh' & -> & Hx & _ & [Hs|Hs]).
  { destruct Hs as (Hs & _). rewrite Hs in Hsent. apply (f_equal length) in Hsent.
    rewrite length_app in Hsent. cbn in Hsent. lia. }
  rewrite Hh in Hh'. injection Hh' as <-.
  destruct Hs as (key' & sig & bc & r & Hkey' & Hsig & Hsent' & _ & Ha & Hmbc & Hms).
  assert (key' = key) as -> by congruence. rewrite Hsent in Hsent'. apply app_inv_head in Hsent' as [= ->].
  set (final := select_txs m txs) in *. set (h1 := set_gas_used (set_root h root) (getGasUsed rs)) in *.
  exists (with_bc (commit_state (with_state (with_engine i ei) s)) bc). split_and!; [|done|].
  2:{ rewrite Hms. done. }
  apply (import_intro _ _ _ (Some (rs, root, s))); [done| |].
  - unfold executor_of. rewrite Hbc, Hst, Hcfg. by apply (ApplyBlock_context _ _ _ h).
  - unfold import_block.
    pose proof (signed_verifies (n_engine i) (NewBlock h1 final) key sig number ei (PubkeyToAddress (pub_of key))
                  Hx Hnum Hsig Hlead) as Hv. cbn zeta in Hv. rewrite decide_True in Hv by done.
    cbn [BHeader Transactions] in Hv |- *. rewrite Hv. cbn [mbind option_bind].
    rewrite commit_state_eq. cbn [n_bc n_state with_state with_bc with_engine].
    rewrite commit_state_eq in Ha. cbn [n_bc n_state with_state with_bc with_engine] in Ha. rewrite <- Hbc in Ha.
    change (set_root (set_extra h1 sig) root) with (set_extra h1 sig). cbn [BHeader] in Ha. by rewrite Ha.
Qed.
End Importing.

(** ** Mining *)

Section Mining.
Context {C : Crypto} {CL : CryptoLaws C} {V : Verkle} {EV : EVM}.
Context {CB : Codec Block} {CR : Codec (list Receipt)} {CT : Codec TxLookupEntry}.
Implicit Types (n m : Node) (b : Block).

Lemma affordable_spec s tx a :
  tx_sender tx = Some a ->
  affordable s tx = true <->
  tx_nonce tx = GetNonce s a /\ (tx_gasPrice tx * uval (tx_gas tx)) mod 2 ^ 256 <= uval (GetBalance s a).
Proof.
  intros Ha. unfold affordable. rewrite Ha, FromBig_wd. cbn [default].
  rewrite andb_true_iff, bool_decide_eq_true, Z.leb_le. done.
Qed.

(** The header's gas is the total of the receipts, modulo 2^64. *)
Lemma getGasUsed_total e db s h txs rs root s' :
  ApplyBlock e db s h txs (Some (rs, root, s')) ->
  length rs = length txs /\ getGasUsed rs = wd (sumZ (fun r => uval (RGasUsed r)) rs).
Proof.
  intros H. destruct (decide (txs = [])) as [->|Hne].
  - apply ApplyBlock_empty in H as [= -> _ _]. done.
  - destruct (txs !! (length txs - 1)%nat) as [tx|] eqn:Et.
    2:{ apply lookup_ge_None in Et. destruct txs; [done|]. cbn in Et. lia. }
    destruct (block_receipts e h db txs s rs root s' _ tx H Et) as (Hl & r & Hr & _ & Hc).
    split; [done|]. unfold getGasUsed. rewrite last_lookup, Hl. rewrite <- (Nat.sub_1_r (length txs)), Hr, Hc.
    rewrite take_ge; [done|]. rewrite Hl. lia.
Qed.

(** C14: A mined block is well formed, even when blocks are imported while it is built. The checks of the
    transactions, the read of the parent and the execution of a mining round may see the node at three different
    times. When the round broadcasts a block, it extends by one the head at the time of the read, carries the
    EIP-1559 base fee for it and a 65-byte seal; it is the result of executing its transactions on the state at
    the time of the execution, with one receipt per transaction and the gas of the header the total of the
    receipts (modulo 2^64); and each transaction comes from the batch, is signed, and had at the time of the checks exactly
    the nonce of its sender's account and a gas cost, modulo 2^256, within the sender's
    balance: so a block never has two different nonces of one sender. *)
Theorem mined_block_valid n1 n2 n3 batch txs now n' b parent number :
  mine_gap n1 n2 n3 batch txs now n' -> n_sent n' = n_sent n3 ++ [b] ->
  CurrentBlock (n_bc n2) = Some parent -> Number (BHeader parent) = Some number ->
  ParentHash (BHeader b) = BlockHash parent /\ Number (BHeader b) = Some (number + 1) /\
  BaseFee (BHeader b) = CalcBaseFee (network_ChainConfig (n_netCfg n3)) (BHeader parent) /\
  length (ExtraData (BHeader b)) = 65%nat /\
  (exists rs root s, ApplyBlock (executor_of n3) (Some (chain_db (n_bc n3))) (n_state n3) (BHeader b) (Transactions b)
                       (Some (rs, root, s)) /\
     VerkleRoot (BHeader b) = root /\ length rs = length (Transactions b) /\
     GasUsed (BHeader b) = wd (sumZ (fun r => uval (RGasUsed r)) rs)) /\
  (forall tx, tx ∈ Transactions b -> tx ∈ batch /\ exists a, tx_sender tx = Some a /\
     tx_nonce tx = GetNonce (n_state n1) a /\
     (tx_gasPrice tx * uval (tx_gas tx)) mod 2 ^ 256 <= uval (GetBalance (n_state n1) a)).
Proof.
  intros [validTxs parent' h out _ Htxs -> Hpar' _ Hh Hex Hp] Hsent Hpar Hnum.
  assert (parent' = parent) as -> by congruence.
  apply execute_batch_inv in Hp as (h' & rs & root & s & Hh' & -> & Hx & _ & _ & [(Hs & _)|Hs]).
  { rewrite Hs in Hsent. apply (f_equal length) in Hsent. rewrite length_app in Hsent. cbn in Hsent. lia. }
  rewrite Hh in Hh'. injection Hh' as <-.
  destruct Hs as (key' & sig & bc & r & _ & Hsig & Hsent' & _).
  rewrite Hsent in Hsent'. apply app_inv_head in Hsent' as [= ->].
  unfold header_on in Hh. rewrite Hnum in Hh.
  cbn [mbind option_bind] in Hh. destruct (CalcBaseFee _ _) as [fee|]; [|done]. injection Hh as <-.
  destruct (getGasUsed_total _ _ _ _ _ _ _ _ Hex) as [Hl Hg].
  split_and!; [done..|by apply (sign_length _ _ _ Hsig)| |].
  - exists rs, root, s. split_and!; [|done..]. eapply ApplyBlock_context, Hex. done.
  - intros tx Hin. cbn [Transactions] in Hin. apply list_elem_of_filter in Hin as [Haf Hin].
    rewrite Htxs in Hin. apply list_elem_of_filter in Hin as [[a Ha] Hin]. split; [done|].
    exists a. split; [done|]. by apply affordable_spec.
Qed.

(** A failed seal stops the node. If a round ends without a block to broadcast (no key,
    or signing failed), the chain is unchanged but the state already holds the executed
    transactions and the reward, and the state lock is never released: no block can be
    mined or imported any more. *)
Theorem failed_seal_locks m batch now m' :
  mine_step m batch now m' -> n_sent m' = n_sent m ->
  n_bc m' = n_bc m /\ n_stateLock m' = true /\
  (exists h txs rs root, ApplyBlock (executor_of m) (Some (chain_db (n_bc m))) (n_state m) h txs
                           (Some (rs, root, n_state m'))) /\
  (forall batch' now' m'', ~ mine_step m' batch' now' m'') /\ (forall b m'', ~ import_step m' b m'').
Proof.
  intros [txs h out _ Htxs Hh Hex Hp] Hsent.
  apply processBatch_inv in Hp as (h' & rs & root & s & Hh' & -> & Hx & _ & [Hs|Hs]).
  - destruct Hs as (_ & Hlock & Hbc & Hst & _). split_and!; [done..| | |].
    + rewrite Hst. by exists h, (select_txs m txs), rs, root.
    + intros batch' now' m'' [? ? ? Hl]. congruence.
    + intros b m'' [? Hl]. congruence.
  - destruct Hs as (key' & sig & bc & r & _ & _ & Hsent' & _).
    rewrite Hsent in Hsent'. apply (f_equal length) in Hsent'. rewrite length_app in Hsent'. cbn in Hsent'. lia.
Qed.
End Mining.
