(* ===== verification/Running.v ===== *)
(** * Running: the node over time.

    [node_step] is everything that changes a running node: transactions arriving from
    the RPC services and the console, the loop's receive, blocks from
    peers and the mining loop, in any order. The loop goes through [phase]s, between which it does not hold the
    state lock, so that imports come between the parts of a tick; [tick] of Node.v is a tick without
    interruption ([tick_loop]). The theorems are about all the
    sequences of such steps: the invariant of the node, what a restart finds, and that a node whose
    peers stay silent ends up producing a block itself. *)

From S2P Require Import Prelude Words Interfaces Rlp Types Sanity Hex StateDB StateOps Scheduler Consensus Genesis SystemContracts Executor RawDB Blockchain Node.

(** ** Steps *)

Section Steps.
Context {C : Crypto} {V : Verkle} {EV : EVM} {TS : TxSigner}.
Context {CB : Codec Block} {CR : Codec (list Receipt)} {CT : Codec TxLookupEntry}.

(** What arrives from the RPC services and the console, and the loop's receive. The second
    component is the pool of the mining loop. *)
Inductive intake_step : Node * list Transaction -> Node * list Transaction -> Prop :=
| is_submit n pool tx n' : SubmitTx n tx = Some n' -> intake_step (n, pool) (n', pool)
| is_stake n pool amount from n' r : SendStakeTx n amount from = Some (n', r) -> intake_step (n, pool) (n', pool)
| is_unstake n pool from n' r : SendUnstakeTx n from = Some (n', r) -> intake_step (n, pool) (n', pool)
| is_addkey n pool key : intake_step (n, pool) (AddKey n key, pool)
| is_receive n pool n' pool' : receive n pool = Some (n', pool') -> intake_step (n, pool) (n', pool').

(** Where the mining loop is between two of its critical sections. *)
Inductive phase :=
| PIdle                                              (* in [select] *)
| PSynced                                            (* validators reloaded *)
| PChecking (batch : list Transaction)               (* our turn; signatures being checked *)
| PSelected (txs : list Transaction)                 (* nonces and balances checked *)
| PIntercepted (txs : list Transaction)              (* staking transactions intercepted *)
| PBuilding (parent : Block) (txs : list Transaction)(* parent read, waiting for the lock *)
| PWaiting (proposer : Address) (number : Z).        (* another node's turn, after this head *)

(** One step of the mining loop: the timer case of [select] from one use of the state lock or of the chain to the
    next. *)
Inductive loop_step : Node * list Transaction * phase -> Node * list Transaction * phase -> Prop :=
| ls_sync n pool e :
    n_stateLock n = false -> SyncValidators (n_engine n) (n_state n) = Some e ->
    loop_step (n, pool, PIdle) (with_engine n e, pool, PSynced)
| ls_turn n pool parent number e key :
    CurrentBlock (n_bc n) = Some parent -> Number (BHeader parent) = Some number ->
    GetLeader (n_engine n) (big_uint64 (number + 1)) = Some (e, PubkeyToAddress (pub_of key)) -> privKey e = Some key ->
    loop_step (n, pool, PSynced) (with_engine n e, drop 2800 pool, PChecking (take 2800 pool))
| ls_other n pool parent number e proposer key :
    CurrentBlock (n_bc n) = Some parent -> Number (BHeader parent) = Some number ->
    GetLeader (n_engine n) (big_uint64 (number + 1)) = Some (e, proposer) -> privKey e = Some key ->
    proposer <> PubkeyToAddress (pub_of key) ->
    loop_step (n, pool, PSynced) (with_engine n e, pool, PWaiting proposer number)
| ls_check n pool batch validTxs :
    n_stateLock n = false -> validTxs ≡ₚ filter (fun tx => is_Some (tx_sender tx)) batch ->
    loop_step (n, pool, PChecking batch) (n, pool, PSelected (select_txs n validTxs))
| ls_intercept n pool txs : loop_step (n, pool, PSelected txs) (intercept_node n txs, pool, PIntercepted txs)
| ls_parent n pool txs parent :
    CurrentBlock (n_bc n) = Some parent -> loop_step (n, pool, PIntercepted txs) (n, pool, PBuilding parent txs)
| ls_execute n pool parent txs now header out n' :
    n_stateLock n = false -> header_on n parent now = Some header ->
    ApplyBlock (executor_of n) (Some (chain_db (n_bc n))) (n_state n) header txs out ->
    execute_batch n parent txs now out = Some n' ->
    loop_step (n, pool, PBuilding parent txs) (n', pool, PIdle)
| ls_arrived n pool proposer number cur k :
    CurrentBlock (n_bc n) = Some cur -> Number (BHeader cur) = Some k -> number < k ->
    loop_step (n, pool, PWaiting proposer number) (n, pool, PIdle)
| ls_timeout n pool proposer number :
    loop_step (n, pool, PWaiting proposer number) (with_engine n (RecordNonCompliance (n_engine n) proposer), pool, PIdle).

(** The numbers of decoded blocks are not negative (RLP has no negative integers). Blocks are imported, and
    transactions arrive, whatever the loop is doing. *)
Inductive node_step : Node * list Transaction * phase -> Node * list Transaction * phase -> Prop :=
| ns_intake n pool n' pool' ph : intake_step (n, pool) (n', pool') -> node_step (n, pool, ph) (n', pool', ph)
| ns_import n pool b n' ph :
    import_step n b n' -> (forall k, Number (BHeader b) = Some k -> 0 <= k) -> readable b ->
    node_step (n, pool, ph) (n', pool, ph)
| ns_loop c c' : loop_step c c' -> node_step c c'.

(** A tick of Node.v in which the node proposes or waits in vain is a run of the loop with nothing between its
    steps. *)
Lemma tick_loop n pool r n' pool' :
  tick n pool r n' pool' -> r <> BlockArrived -> rtc loop_step (n, pool, PIdle) (n', pool', PIdle).
Proof.
  assert (forall e proposer my, Some (e, proposer, my) = elect n -> n_stateLock n = false ->
    exists e1 parent number key, loop_step (n, pool, PIdle) (with_engine n e1, pool, PSynced) /\
      CurrentBlock (n_bc n) = Some parent /\ Number (BHeader parent) = Some number /\
      GetLeader e1 (big_uint64 (number + 1)) = Some (e, proposer) /\ privKey e = Some key /\ my = PubkeyToAddress (pub_of key)) as Hel.
  { intros e proposer my He Hl. unfold elect in He. destruct (SyncValidators _ _) as [e1|] eqn:Es; [|done]. cbn [mbind option_bind] in He.
    destruct (CurrentBlock _) as [parent|]; [|done]. cbn [mbind option_bind] in He. destruct (Number (BHeader parent)) as [number|] eqn:En; [|done].
    cbn [mbind option_bind] in He. destruct (GetLeader e1 _) as [[e2 l]|] eqn:Eg; [|done]. cbn [mbind option_bind] in He.
    destruct (privKey e2) as [key|] eqn:Ek; [|done]. injection He as <- <- ->. exists e1, parent, number, key. split_and!; try done. by apply ls_sync. }
  destruct 1 as [e my now ex n' Hl He Hm|e p my Hl He Hne|e p my Hl He Hne]; intros Hr; [|done|].
  - destruct (Hel _ _ _ He Hl) as (e1 & parent & number & key & H1 & Hp & Hn & Hg & Hk & Hmy). rewrite Hmy in *.
    eapply rtc_l; [exact H1|]. eapply rtc_l; [by apply (ls_turn (with_engine n e1) pool parent number e key)|]. change (with_engine (with_engine n e1) e) with (with_engine n e).
    destruct Hm as [validTxs h out Hl' Hv Hh Hex Hb]. eapply rtc_l; [by apply (ls_check (with_engine n e) _ _ validTxs)|].
    eapply rtc_l; [apply ls_intercept|]. unfold processBatch in Hb. unfold mining_header in Hh. change (n_bc (intercept_node _ _)) with (n_bc n) in Hb.
    change (CurrentBlock (n_bc (with_engine n e))) with (CurrentBlock (n_bc n)) in Hh. rewrite Hp in Hb, Hh. cbn [mbind option_bind] in Hb, Hh.
    eapply rtc_l; [by apply (ls_parent (intercept_node _ _))|]. apply rtc_once. by apply (ls_execute _ _ _ _ now h out).
  - destruct (Hel _ _ _ He Hl) as (e1 & parent & number & key & H1 & Hp & Hn & Hg & Hk & Hmy). rewrite Hmy in *.
    eapply rtc_l; [exact H1|]. eapply rtc_l; [by apply (ls_other (with_engine n e1) pool parent number e p key)|]. apply rtc_once. apply ls_timeout.
Qed.

(** The parts of a node that transactions on their way to the pool leave alone. *)
Definition same_core (n n' : Node) : Prop :=
  n_bc n' = n_bc n /\ n_state n' = n_state n /\ n_engine n' = n_engine n /\ n_netCfg n' = n_netCfg n /\
  n_stateLock n' = n_stateLock n /\ n_sent n' = n_sent n.

Lemma SubmitTx_core n tx n' :
  SubmitTx n tx = Some n' -> same_core n n' /\ (length (n_txCh n') <= 2000)%nat.
Proof.
  unfold SubmitTx. destruct (Nat.ltb_spec (length (n_txCh n)) 2000); [|done]. intros [= <-].
  split; [done|]. cbn. rewrite length_app. cbn. lia.
Qed.

Lemma send_signed_core n from amount data n' r :
  send_signed n from amount data = Some (n', r) ->
  same_core n n' /\ ((length (n_txCh n) <= 2000)%nat -> (length (n_txCh n') <= 2000)%nat).
Proof.
  unfold send_signed. destruct (GetKey n from); [|by intros [= <- _]].
  destruct (sign_legacy _ _ _ _ _ _ _ _) as [tx|]; [|by intros [= <- _]].
  destruct (SubmitTx n tx) as [n1|] eqn:E; [|done]. cbn [mbind option_bind]. intros [= <- _].
  apply SubmitTx_core in E as [Hc Hl]. done.
Qed.

Lemma intake_core c c' :
  intake_step c c' -> same_core c.1 c'.1 /\ ((length (n_txCh c.1) <= 2000)%nat -> (length (n_txCh c'.1) <= 2000)%nat).
Proof.
  destruct 1 as [n pool tx n' H|n pool amt from n' r H|n pool from n' r H|n pool key|n pool n' pool' H]; cbn [fst].
  - apply SubmitTx_core in H as [Hc Hl]. done.
  - by apply send_signed_core in H.
  - by apply send_signed_core in H.
  - done.
  - unfold receive in H. destruct (n_txCh n) as [|tx rest] eqn:Et; [done|]. injection H as <- _.
    split; [done|]. cbn. rewrite length_drop. lia.
Qed.
End Steps.

(** ** The state stays a well-formed base state *)

Section BaseStates.
Context {C : Crypto} {V : Verkle} {VL : VerkleLaws V} {EV : EVM}.

Definition is_base (s : StateDB) : Prop := match s with Base _ _ => True | Overlay _ _ => False end.

Lemma is_base_set s k v : is_base s -> is_base (setVerkleValue s k v).
Proof. by destruct s. Qed.

Lemma is_base_fold p (l : list (bytes * bytes)) :
  is_base p -> is_base (foldr (fun kv p => setVerkleValue p kv.1 kv.2) p l).
Proof. intros Hp. induction l as [|kv l IH]; [done|]. cbn [foldr]. by apply is_base_set. Qed.

Lemma is_base_with_own p f : is_base (with_own p f) <-> is_base p.
Proof. by destruct p. Qed.

Lemma is_base_merge f p p' : is_base p -> Merge (Overlay f p) = Some p' -> is_base p'.
Proof. intros Hp [= <-]. by apply is_base_with_own, is_base_fold. Qed.

Definition state_ok (s : StateDB) : Prop := is_base s /\ state_wf s.

Lemma thread_step_base e header txs db th sh th' sh' :
  thread_step e header txs db th sh th' sh' -> is_base (statedb sh) -> is_base (statedb sh').
Proof.
  destruct 1 as [| | | |tx msg f res sh]; intros Hb; try done. unfold finish. cbn [statedb].
  destruct (Merge _) as [p|] eqn:E; [|done]. by apply (is_base_merge f (statedb sh)).
Qed.

Lemma wave_exec_base e header txs db w sh sh' :
  wave_exec e header txs db w sh sh' -> is_base (statedb sh) -> is_base (statedb sh').
Proof.
  unfold wave_exec. set (c := (Ready <$> w, sh)). set (c' := (Done <$> w, sh')).
  change sh with c.2. change sh' with c'.2. generalize c c'. clear.
  induction 1 as [c|c1 c2 c3 H12 _ IH]; [done|]. intros Hb. apply IH. destruct H12. by eapply thread_step_base.
Qed.

Lemma waves_exec_ok e header txs db waves sh sh' :
  waves_exec e header txs db waves sh sh' -> state_ok (statedb sh) -> state_ok (statedb sh').
Proof.
  induction 1 as [| |w ws sh1 sh2 sh3 _ Hw _ IH]; [done..|]. intros [Hb Hwf]. apply IH.
  split; [by eapply wave_exec_base|by eapply wave_exec_wf].
Qed.

Lemma ApplyBlock_state e db s h txs rs root s' :
  ApplyBlock e db s h txs (Some (rs, root, s')) -> state_ok s -> state_ok s'.
Proof.
  intros (waves & sh & _ & Hex & Hout) Hs. unfold finalize in Hout.
  destruct (FromBig _) as [x []]; [done|]. injection Hout as _ _ ->.
  destruct (waves_exec_ok _ _ _ _ _ _ _ Hex Hs) as [Hb Hw]. unfold AddBalanceReward, AddBalance, addBalance. cbn [fst].
  split; [by apply is_base_set|]. apply state_wf_set; [apply (slot_key_is_key (SBalance _))|apply length_u256_bytes|done].
Qed.

(** *** Executions only write *)

Lemma thread_step_lived e header txs db th sh th' sh' d last :
  thread_step e header txs db th sh th' sh' -> thread_wf th -> lived (statedb sh) d last -> exists last', lived (statedb sh') d last'.
Proof.
  destruct 1 as [| | | |tx msg f res sh]; intros Hw Hl; [by exists last..|]. unfold finish. cbn [statedb].
  destruct (Merge _) as [p|] eqn:E; [|by exists last]. by apply (lived_merge f (statedb sh) p d last).
Qed.

Lemma wave_exec_lived e header txs db w sh sh' d last :
  wave_exec e header txs db w sh sh' -> lived (statedb sh) d last -> exists last', lived (statedb sh') d last'.
Proof.
  unfold wave_exec. set (c := (Ready <$> w, sh)). set (c' := (Done <$> w, sh')).
  assert (Forall thread_wf c.1) as HF by (apply Forall_fmap, Forall_true; done).
  change sh with c.2. change sh' with c'.2. revert HF. generalize c c'. clear -VL. intros c c' HF Hr. revert last HF.
  induction Hr as [c|c1 c2 c3 H12 _ IH]; intros last HF Hl; [by exists last|].
  destruct H12 as [ths i th th' s1 s2 Hi Hst]. cbn [fst snd] in *.
  assert (thread_wf th) as Hth by (rewrite Forall_lookup in HF; eauto).
  destruct (thread_step_wf _ _ _ _ _ _ _ _ Hst Hth) as [Hth' _]; [apply (lived_ok _ _ _ Hl)|].
  destruct (thread_step_lived _ _ _ _ _ _ _ _ _ _ Hst Hth Hl) as [last' Hl']. apply (IH last'); [by apply Forall_insert|done].
Qed.

Lemma ApplyBlock_lived e db s h txs rs root s' d last :
  ApplyBlock e db s h txs (Some (rs, root, s')) -> lived s d last -> exists last', lived s' d last'.
Proof.
  intros (waves & sh & _ & Hex & Hout) Hl. unfold finalize in Hout.
  destruct (FromBig _) as [x []]; [done|]. injection Hout as _ _ ->.
  assert (exists last', lived (statedb sh) d last') as [last' Hl'].
  { change s with (statedb (initial_shared s txs)) in Hl. revert last Hl. generalize dependent (initial_shared s txs). intros sh0 Hex.
    induction Hex as [sh1|w ws sh1 _|w ws sh1 sh2 sh3 _ Hw _ IH]; intros last Hl; [by exists last..|].
    destruct (wave_exec_lived _ _ _ _ _ _ _ _ _ Hw Hl) as [last' Hl']. by apply (IH last'). }
  eexists. apply lv_write; [exact Hl'|apply (slot_key_is_key (SBalance _))|apply length_u256_bytes].
Qed.

Lemma committed_ok s : state_ok s -> state_ok (committed s).
Proof. intros [Hb Hw]. destruct s as [f t|]; [|done]. split; [done|]. split; apply map_Forall_empty. Qed.

(** C23: Whatever a transaction does, the state stays well typed. Any client of the state
    interface (the EVM with any contract, the system contracts), run on an overlay of
    a well-formed base state, leaves an overlay that merges into a well-formed base state:
    every key has 32 bytes and every value fits a leaf; committing it keeps the
    leaves of the database well formed and gives a well-formed state with nothing
    pending, and so does a state opened on the database. *)
Theorem run_well_typed {R : Type} (pr : prog R) (s : StateDB) (db : DB) (root : Hash) :
  state_ok s -> db_ok db ->
  exists f s', (run (Some db) pr (NewOverlay s)).1 = Overlay f s /\ Merge (Overlay f s) = Some s' /\ state_ok s' /\
    db_ok (db_write db (commit_batch s')) /\
    state_ok (committed s') /\ dirty (own (committed s')) = ∅ /\
    state_ok (New root (Some (db_write db (commit_batch s')))).
Proof.
  intros [Hb Hw] Hdb. destruct (run_overlay (Some db) pr empty_fields s) as [[f x] Hf].
  pose proof (run_wf (Some db) pr _ (state_wf_overlay s Hw)) as Hov.
  unfold NewOverlay in *. rewrite Hf in Hov |- *. cbn [lift_parent fst snd] in *. destruct (Merge (Overlay f s)) as [s'|] eqn:Em; [|done].
  assert (state_ok s') as Hs' by (split; [by eapply is_base_merge|by eapply state_wf_merge]).
  exists f, s'. split_and!; [done|done|done|by apply db_ok_commit; [|apply Hs']|by apply committed_ok| |].
  - by destruct s'.
  - split; [done|apply state_wf_new].
Qed.
End BaseStates.

(** ** The invariant *)

Section Invariant.
Context {C : Crypto} {V : Verkle} {VL : VerkleLaws V} {EV : EVM} {TS : TxSigner}.
Context {CB : Codec Block} {CBL : CodecLaws Block CB readable} {CR : Codec (list Receipt)}
  {CRL : CodecLaws (list Receipt) CR always} {CT : Codec TxLookupEntry} {CTL : CodecLaws TxLookupEntry CT always}.
Implicit Types (n : Node) (b : Block) (c : Node * list Transaction * phase).

(** The chain part: the head in memory is the one of the database, its number is not
    negative, and the leaves of the database are well formed. *)
Definition store_ok (bc : Blockchain) : Prop :=
  chain_ok bc /\ db_ok (chain_db bc) /\
  forall cur k, currentBlock bc = Some cur -> Number (BHeader cur) = Some k -> 0 <= k.

(** The state and the database have lived together, and unless the lock is held for good nothing is pending. *)
Definition synced n : Prop :=
  (exists last, lived (n_state n) (chain_db (n_bc n)) last) /\ (n_stateLock n = false -> dirty (own (n_state n)) = ∅).

Definition node_ok n : Prop :=
  store_ok (n_bc n) /\ synced n /\ engine_ok (n_engine n) /\ (length (n_txCh n) <= 2000)%nat.

Lemma synced_state n : synced n -> state_ok (n_state n).
Proof. intros [[last Hl] _]. destruct (lived_ok _ _ _ Hl) as (Hb & Hw & _). by destruct (n_state n). Qed.

(** What the loop carries between its steps: a parent with a number that is not negative, readable
    transactions. *)
Definition phase_ok (ph : phase) : Prop :=
  match ph with
  | PChecking txs | PSelected txs | PIntercepted txs => Forall (fun tx => readable_tx tx = true) txs
  | PBuilding parent txs => Forall (fun tx => readable_tx tx = true) txs /\ forall k, Number (BHeader parent) = Some k -> 0 <= k
  | _ => True
  end.

(** Heads that occur in practice: the hash is not zero and the number is below 2^62. *)
Definition plausible (bc : Blockchain) : Prop :=
  forall cur, currentBlock bc = Some cur ->
    BlockHash cur <> zero_hash /\ forall k, Number (BHeader cur) = Some k -> k < 2 ^ 62.

(** [AddBlock], successful or not, leaves the state's leaves alone. *)
Lemma AddBlock_frame bc b rs bc' r k :
  AddBlock bc b rs = Some (bc', r) -> head k = Some (wd 118) -> chain_db bc' !! k = chain_db bc !! k.
Proof.
  intros H Hk. destruct r as [[]|err].
  - rewrite (AddBlock_lookup _ _ _ _ _ H) by (rewrite Hk; by vm_compute).
    rewrite decide_False; [|intros ->; by rewrite head_blockKey in Hk].
    destruct rs; [|done]. rewrite decide_False; [done|]. intros ->. by rewrite head_receiptsKey in Hk.
  - assert (forall (db : DB) h d, <[blockKey h := d]> db !! k = db !! k) as Hb
      by (intros; apply lookup_insert_ne; intros <-; by rewrite head_blockKey in Hk).
    assert (forall (db : DB) h d, <[receiptsKey h := d]> db !! k = db !! k) as Hr
      by (intros; apply lookup_insert_ne; intros <-; by rewrite head_receiptsKey in Hk).
    revert H. unfold AddBlock, WriteBlock. destruct (ReadBlock _ _); [by intros [= <- _]|].
    destruct (Marshal b) as [d|]; [|by intros [= <- _]].
    destruct rs as [rs|]; [unfold WriteReceipts; destruct (Marshal rs) as [d'|]; [|intros [= <- _]; apply Hb]|].
    all: destruct (Number _); [|done]; cbn [mbind option_bind].
    all: apply (AddBlock_tail bc b _ _ _ (fun db => db !! k = chain_db bc !! k)); intros db' Hdb';
      rewrite Hdb' by (rewrite Hk; by vm_compute); by rewrite ?Hr, ?Hb.
Qed.

Lemma db_ok_frame (db db' : DB) :
  (forall k, head k = Some (wd 118) -> db' !! k = db !! k) -> db_ok db -> db_ok db'.
Proof.
  intros Hf Hok [|p k] v Hl; [done|]. intros ->. rewrite Hf in Hl by done. by apply (Hok _ _ Hl).
Qed.

(** A stored block is not above the head. *)
Lemma AddBlock_below bc b rs bc' k :
  AddBlock bc b rs = Some (bc', Ok tt) -> Number (BHeader b) = Some k ->
  exists cur m, currentBlock bc' = Some cur /\ Number (BHeader cur) = Some m /\ k <= m.
Proof.
  intros H Hk. apply AddBlock_ok_inv in H as (k' & ? & ? & ? & _ & Hk' & _ & _ & _ & _ & [(Hb & _)|(Hb & _ & cur & m & Hc & Hm & Hle)]).
  - exists b, k. split_and!; [done..|lia].
  - exists cur, m. rewrite Hb. split_and!; [done..|]. assert (k' = k) by congruence. lia.
Qed.

(** Committing a state and adding a block keep the store. *)
Lemma store_keeps bc s b rs bc' r :
  store_ok bc -> state_ok s -> (forall k, Number (BHeader b) = Some k -> 0 <= k) -> readable b ->
  AddBlock (set_db bc (db_write (chain_db bc) (commit_batch s))) b rs = Some (bc', r) -> plausible bc' ->
  store_ok bc' /\ chain_grows bc bc'.
Proof.
  intros (Hok & Hdb & Hpos) [_ Hwf] Hb Hrd H Hp. set (bc1 := set_db bc _) in *.
  assert (chain_ok bc1) as Hok1 by by apply commit_keeps.
  unfold store_ok. split_and!.
  - apply (AddBlock_keeps _ _ _ _ _ Hok1 H Hrd).
    + intros E. by apply (Hp b E).
    + intros k -> Hk E. destruct (AddBlock_below _ _ _ _ _ H Hk) as (cur & m & Hc & Hm & Hle).
      destruct (Hp cur Hc) as [_ Hlt]. specialize (Hlt m Hm). specialize (Hb k Hk).
      apply (f_equal uval) in E. unfold big_uint64, head_alias in E. rewrite Z.abs_eq in E by lia.
      rewrite uval_wd_small in E by (change (2 ^ Z.of_N 64) with (2 ^ 64); lia). vm_compute in E. lia.
  - apply (db_ok_frame (chain_db bc1)); [intros k Hk; by eapply AddBlock_frame|]. by apply db_ok_commit.
  - intros cur k Hc Hk. destruct Hok as (cur0 & k0 & Hc0 & Hk0 & _).
    assert (chain_grows bc1 bc') as Hg by by eapply AddBlock_grows.
    specialize (Hg cur0 cur Hc0 Hc). specialize (Hpos cur0 k0 Hc0 Hk0). rewrite Hk0, Hk in Hg. cbn in Hg. lia.
  - by apply (AddBlock_grows _ _ _ _ _ Hok1 H).
Qed.

Lemma intercept_ok P e txs : engine_ok e -> engine_ok (intercept P e txs).
Proof.
  revert e. induction txs as [|tx txs IH]; intros e He; [done|]. unfold intercept in *. cbn [fold_left].
  apply IH. destruct (_ && _); [by apply RemoveValidator_ok'|done].
Qed.

Lemma elect_ok n e proposer myAddr :
  engine_ok (n_engine n) -> elect n = Some (e, proposer, myAddr) -> engine_ok e.
Proof.
  unfold elect. intros He. destruct (SyncValidators _ _) as [e1|] eqn:Es; [|done]. cbn [mbind option_bind].
  destruct (CurrentBlock _) as [p|]; [|done]. cbn [mbind option_bind].
  destruct (Number _) as [k|]; [|done]. cbn [mbind option_bind].
  destruct (GetLeader e1 _) as [[e2 l]|] eqn:Eg; [|done]. cbn [mbind option_bind].
  destruct (privKey e2); [|done]. cbn [mbind option_bind]. intros [= <- _ _].
  assert (engine_ok e1) as H1 by (eapply engine_step_ok; [apply (es_sync (fun _ => True) _ (n_state n)); done|done]).
  by eapply engine_step_ok; [apply (es_leader (fun _ => True) _ _ _ _ Eg)|].
Qed.

(** Committing a state and adding a block keep state and database together. *)
Lemma commit_synced bc s b rs bc' r last :
  lived s (chain_db bc) last -> db_ok (chain_db bc') ->
  AddBlock (set_db bc (db_write (chain_db bc) (commit_batch s))) b rs = Some (bc', r) ->
  (exists last', lived (committed s) (chain_db bc') last') /\ dirty (own (committed s)) = ∅.
Proof.
  intros Hl Hok Ha. split; [|by destruct s]. exists last. eapply lv_store; [by apply lv_commit|done|].
  intros k. by rewrite (AddBlock_frame _ _ _ _ _ (vprefix k) Ha) by apply head_vprefix.
Qed.

(** Importing keeps the invariant. *)
Lemma import_keeps n b n' :
  node_ok n -> import_step n b n' -> (forall k, Number (BHeader b) = Some k -> 0 <= k) -> readable b -> plausible (n_bc n') ->
  node_ok n' /\ chain_grows (n_bc n) (n_bc n').
Proof.
  intros (Hst & Hs & He & Htx) [out Hlock Hex Hi] Hb Hrd Hp. unfold import_block in Hi.
  destruct (Verify (n_engine n) b) as [[e v]|] eqn:Ev; [|done]. cbn [mbind option_bind] in Hi.
  assert (engine_ok e) as He' by (eapply engine_step_ok; [apply (es_verify (fun _ => True) _ _ _ _ Ev)|done]).
  destruct v as [u|err].
  2:{ injection Hi as <-. split; [done|]. by apply chain_grows_same. }
  destruct out as [[[rs root] s]|]; [|done]. cbn [mbind option_bind] in Hi.
  rewrite commit_state_eq in Hi. cbn [n_bc n_state with_state with_engine with_bc] in Hi.
  destruct (AddBlock _ _ _) as [[bc r]|] eqn:Ea; [|done]. cbn [mbind option_bind] in Hi. injection Hi as <-.
  pose proof (ApplyBlock_state _ _ _ _ _ _ _ _ Hex (synced_state _ Hs)) as Hs'. destruct Hs as [[last Hl] _].
  destruct (ApplyBlock_lived _ _ _ _ _ _ _ _ _ _ Hex Hl) as [last' Hl'].
  destruct (store_keeps (n_bc n) s (NewBlock (set_root (BHeader b) root) (Transactions b)) _ _ _ Hst Hs' Hb Hrd Ea Hp)
    as [Hst' Hg].
  destruct (commit_synced _ _ _ _ _ _ _ Hl' (proj1 (proj2 Hst')) Ea) as [Hl2 Hd].
  split; [|done]. split; [done|]. split; [by split|]. done.
Qed.

(** So does the second critical section of a mining round. *)
Lemma execute_keeps n parent txs now header out n' :
  node_ok n -> phase_ok (PBuilding parent txs) -> n_stateLock n = false -> header_on n parent now = Some header ->
  ApplyBlock (executor_of n) (Some (chain_db (n_bc n))) (n_state n) header txs out ->
  execute_batch n parent txs now out = Some n' -> plausible (n_bc n') -> node_ok n' /\ chain_grows (n_bc n) (n_bc n').
Proof.
  intros (Hst & Hs & He & Htx) [Hrd Hpos] Hlock Hh Hex Hp Hpl.
  apply execute_batch_inv in Hp as (h' & rs & root & s & Hh' & -> & Hx & Heng & Etx & Hcase).
  rewrite Hh in Hh'. injection Hh' as <-. pose proof (ApplyBlock_state _ _ _ _ _ _ _ _ Hex (synced_state _ Hs)) as Hs'.
  destruct Hs as [[last Hl] _]. destruct (ApplyBlock_lived _ _ _ _ _ _ _ _ _ _ Hex Hl) as [last' Hl'].
  assert (engine_ok (n_engine n')) as He' by by rewrite Heng.
  destruct Hcase as [(_ & Hlk & Hbc & Hst' & _)|(key & sig & bc & r & _ & _ & _ & Hlk & Ha & Hbc & Hst')].
  - split; [|apply chain_grows_same; by rewrite Hbc]. unfold node_ok, synced. rewrite Hbc, Hst', Etx, Hlk. split_and!; try done. by exists last'.
  - rewrite commit_state_eq in Ha, Hst'. cbn [n_bc n_state with_state with_bc] in Ha, Hst'. rewrite Hbc in Hpl.
    assert (forall k, Number header = Some k -> 0 <= k) as Hk.
    { intros k Hk. unfold header_on in Hh. destruct (Number (BHeader parent)) as [m|] eqn:Em; [|done]. cbn [mbind option_bind] in Hh.
      destruct (CalcBaseFee _ _); [|done]. injection Hh as <-. cbn in Hk. injection Hk as <-. specialize (Hpos m eq_refl). lia. }
    destruct (store_keeps _ _ (NewBlock (set_extra (set_gas_used (set_root header root) (getGasUsed rs)) sig) txs) _ _ _ Hst Hs' Hk Hrd Ha Hpl) as [Hst2 Hg].
    destruct (commit_synced _ _ _ _ _ _ _ Hl' (proj1 (proj2 Hst2)) Ha) as [Hl2 Hd].
    split; [|by rewrite Hbc]. unfold node_ok, synced. rewrite Hbc, Hst', Etx. by split_and!.
Qed.

(** Only the engine changes. *)
Lemma engine_keeps n e : node_ok n -> engine_ok e -> node_ok (with_engine n e) /\ chain_grows (n_bc n) (n_bc (with_engine n e)).
Proof. intros (H1 & H2 & H3 & H4) He. split; [done|]. by apply chain_grows_same. Qed.

Lemma leader_engine_ok e view e' l : engine_ok e -> GetLeader e view = Some (e', l) -> engine_ok e'.
Proof. intros He Hg. by eapply engine_step_ok; [apply (es_leader (fun _ => True) _ _ _ _ Hg)|]. Qed.

Lemma readable_filter (P : Transaction -> Prop) `{!forall x, Decision (P x)} l :
  Forall (fun tx => readable_tx tx = true) l -> Forall (fun tx => readable_tx tx = true) (filter P l).
Proof. rewrite !Forall_forall. intros Hf x Hx. apply list_elem_of_filter in Hx as [_ Hx]. auto. Qed.

Lemma loop_step_keeps c c' :
  loop_step c c' -> node_ok c.1.1 -> phase_ok c.2 -> plausible (n_bc c'.1.1) -> (forall batch, c'.2 = PChecking batch -> phase_ok c'.2) ->
  node_ok c'.1.1 /\ phase_ok c'.2 /\ chain_grows (n_bc c.1.1) (n_bc c'.1.1).
Proof.
  intros Hstep Hok Hph Hp Hnew. pose proof Hok as (Hst & _ & He & _).
  destruct Hstep as [n pool e Hl Hs|n pool parent number e key Hc Hn Hg Hk|n pool parent number e proposer key Hc Hn Hg Hk Hne|n pool batch vs Hl Hv|n pool txs|n pool txs parent Hc|n pool parent txs now h out n' Hl Hh Hex Hb|n pool proposer number cur k Hc Hk Hlt|n pool proposer number]; cbn [fst snd] in *.
  - destruct (engine_keeps n e Hok) as [H1 H2]; [|done]. eapply engine_step_ok; [apply (es_sync (fun _ => True) _ (n_state n)); done|done].
  - destruct (engine_keeps n e Hok) as [H1 H2]; [by eapply leader_engine_ok|]. split_and!; [done| |done]. by eapply Hnew.
  - destruct (engine_keeps n e Hok) as [H1 H2]; [by eapply leader_engine_ok|]. done.
  - split_and!; [done| |by apply chain_grows_same]. apply readable_filter. rewrite Hv. by apply readable_filter.
  - destruct (engine_keeps n (intercept (Params (n_netCfg n)) (n_engine n) txs) Hok) as [H1 H2]; [by apply intercept_ok|]. done.
  - split_and!; [done|split; [done|]|by apply chain_grows_same]. intros k Hk. destruct Hst as (_ & _ & Hpos). by apply (Hpos parent).
  - destruct (execute_keeps n parent txs now h out n' Hok Hph Hl Hh Hex Hb Hp) as [H1 H2]. done.
  - split_and!; [done|done|by apply chain_grows_same].
  - destruct (engine_keeps n (RecordNonCompliance (n_engine n) proposer) Hok) as [H1 H2]; [|done].
    by eapply engine_step_ok; [apply (es_noncompliance (fun _ => True))|].
Qed.

(** The runs considered: the heads have a hash that is not zero and a number below 2^62, and the batches the loop takes
    from the pool consist of readable transactions. *)
Definition admissible (c : Node * list Transaction * phase) : Prop :=
  plausible (n_bc c.1.1) /\ forall batch, c.2 = PChecking batch -> phase_ok c.2.

Lemma node_step_keeps c c' :
  node_step c c' -> node_ok c.1.1 -> phase_ok c.2 -> admissible c' ->
  node_ok c'.1.1 /\ phase_ok c'.2 /\ chain_grows (n_bc c.1.1) (n_bc c'.1.1).
Proof.
  intros Hstep Hok Hph [Hp Hnew].
  destruct Hstep as [n pool n' pool' ph H|n pool b n' ph H Hb Hrd|c c' H]; cbn [fst snd] in *.
  - apply intake_core in H as [(E1 & E2 & E3 & _ & E5 & _) Hl]. cbn [fst] in *. destruct Hok as (H1 & H2 & H3 & H4).
    unfold node_ok, synced in *. rewrite E1, E2, E3, E5. split; [|split; [done|by apply chain_grows_same]]. split; [done|]. split; [done|]. split; [done|]. by apply Hl.
  - destruct (import_keeps n b n' Hok H Hb Hrd Hp). done.
  - by apply loop_step_keeps.
Qed.

(** *** Start-up *)

(** A chain opened on an empty database. *)
Lemma fresh_store cfg bc :
  (forall b, readable b -> is_Some (Marshal b)) -> NewBlockchain ∅ cfg = Some bc -> plausible bc -> store_ok bc.
Proof.
  intros HM. unfold NewBlockchain. change (ReadHeadBlockHash ∅) with zero_hash.
  rewrite bool_decide_eq_true_2 by done. set (g0 := GenerateGenesisBlock cfg).
  set (s := genesis_state ∅ _). set (root := (Commit s []).2).
  change (Commit s []) with (committed s, commit_batch s, root). cbv beta iota zeta.
  set (g := NewBlock (set_root (BHeader g0) root) []). set (bc0 := mkChain _ cfg None).
  assert (state_ok s) as Hs.
  { unfold s, genesis_state. induction (map_to_list _) as [|ab l IH]; [split; [done|apply state_wf_new]|].
    cbn [foldr]. destruct IH as [Hb Hw]. unfold AddBalance, addBalance. cbn [fst].
    split; [by apply is_base_set|]. apply state_wf_set; [apply (slot_key_is_key (SBalance _))|apply length_u256_bytes|done]. }
  destruct (AddBlock bc0 g None) as [[bc1 r]|] eqn:Ea; [|done]. cbn [mbind option_bind].
  assert (ReadBlock (chain_db bc0) (BlockHash g) = None) as Hnone.
  { unfold ReadBlock. cbn [chain_db bc0]. by rewrite commit_lookup by (by rewrite head_blockKey; vm_compute). }
  assert (r = Ok tt) as ->.
  { revert Ea. unfold AddBlock, WriteBlock. rewrite Hnone. destruct (HM g (readable_empty _)) as [d ->]. cbn. by intros [= _ <-]. }
  intros [= <-] Hp. destruct (Hp g eq_refl) as [Hz _].
  assert (Number (BHeader g) = Some 0) as Hn by done.
  assert (big_uint64 0 <> head_alias) as Ha by by vm_compute.
  destruct (AddBlock_head _ _ _ _ _ Ea Hn Ha) as [[Hcb Hhb]|[Hcb Hhb]].
  2:{ apply AddBlock_ok_inv in Ea as (? & ? & ? & ? & _ & _ & _ & _ & _ & _ & [(E & _)|(_ & _ & ? & ? & E & _)]); [by rewrite E in Hcb|done]. }
  unfold store_ok. split_and!.
  - exists g, 0. cbn [chain_db currentBlock set_db]. split_and!; [done..| | |done].
    + unfold ReadHeadBlockHash, WriteHeadBlockHash. rewrite lookup_insert_eq. apply BytesToHash_hash_bytes.
    + unfold ReadBlock. rewrite lookup_head by dbkey_ne. pose proof (AddBlock_reads _ _ _ _ Ea (readable_empty _)) as E.
      unfold ReadBlock in E. by rewrite E.
  - cbn [chain_db set_db]. apply (db_ok_frame (chain_db bc0)).
    + intros k Hk. rewrite lookup_head by (intros ->; by rewrite head_headBlockKey in Hk). by eapply AddBlock_frame.
    + apply db_ok_commit; [apply map_Forall_empty|apply Hs].
  - cbn [currentBlock]. intros cur k [= <-] Hk. rewrite Hn in Hk. injection Hk as <-. done.
Qed.

Lemma commit_state_keeps n : node_ok n -> node_ok (commit_state n).
Proof.
  intros ((H1 & H2 & H3) & [[last Hl] Hd] & He & Htx). rewrite commit_state_eq.
  unfold node_ok, store_ok, synced. cbn [n_bc with_bc n_state with_state n_engine n_txCh chain_db set_db currentBlock].
  destruct (lived_ok _ _ _ Hl) as (_ & Hw & _).
  split_and!; [by apply commit_keeps|by apply db_ok_commit|done|exists last; by apply lv_commit|by destruct (n_state n)|done|done].
Qed.

Lemma Start_ok cfg devKey db' n :
  (forall b, readable b -> is_Some (Marshal b)) -> Start cfg devKey ∅ = Some (db', Ok n) -> plausible (n_bc n) -> node_ok n.
Proof.
  intros HM. unfold Start. set (net := GetNetworkConfig _).
  destruct (NewBlockchain ∅ net) as [bc|] eqn:Eb; [|done]. cbn [mbind option_bind].
  set (mm := match GetBlockByNumber bc (wd 0) with Some _ => _ | None => None end). destruct mm; [done|].
  set (key := default devKey _). set (s0 := New _ _). set (n0 := AddKey _ key).
  destruct (match CurrentBlock bc with Some h => Number (BHeader h) ≫= _ | None => Some 0 end) as [height|]; [|done]. cbn [mbind option_bind].
  intros [= _ <-] Hp.
  assert (plausible bc) as Hpb by (destruct (height =? 0); exact Hp).
  pose proof (fresh_store net bc HM Eb Hpb) as Hst.
  assert (engine_ok (n_engine n0)) as He by (split; [by apply cache_ok_cleared|done]).
  assert (lived s0 (chain_db bc) (db_leaf (chain_db bc))) as Hl0 by (apply lv_open, Hst).
  destruct (height =? 0).
  2:{ unfold node_ok, synced. split_and!; [apply Hst..|by exists (db_leaf (chain_db bc))|done|done|cbn; lia]. }
  clear Hp. rewrite commit_state_eq. cbn [n_state with_state n_bc].
  set (s1 := foldr _ _ _). assert (exists last, lived s1 (chain_db bc) last) as [last Hl1].
  { unfold s1. change (n_state n0) with s0. induction (map_to_list _) as [|ab l [last IH]]; [eauto|]. cbn [foldr]. eexists. unfold SetBalance.
    apply lv_write; [exact IH|apply (slot_key_is_key (SBalance _))|apply length_u256_bytes]. }
  destruct (lived_ok _ _ _ Hl1) as (_ & Hw1 & _). destruct Hst as (H1 & H2 & H3).
  unfold node_ok, store_ok, synced. cbn [n_bc with_bc n_state with_state n_engine n_txCh chain_db set_db currentBlock].
  split_and!; [by apply commit_keeps|by apply db_ok_commit|done|exists last; by apply (lv_commit s1)|by destruct s1|done|cbn; lia].
Qed.

Lemma chain_grows_trans bc1 bc2 bc3 :
  chain_ok bc2 -> chain_grows bc1 bc2 -> chain_grows bc2 bc3 -> chain_grows bc1 bc3.
Proof.
  intros (cur & k & Hc & _) H12 H23 c1 c3 E1 E3. specialize (H12 _ _ E1 Hc). specialize (H23 _ _ Hc E3). lia.
Qed.

Lemma node_steps_keep c c' :
  rtc (fun c c' => node_step c c' /\ admissible c') c c' -> node_ok c.1.1 -> phase_ok c.2 ->
  node_ok c'.1.1 /\ chain_grows (n_bc c.1.1) (n_bc c'.1.1).
Proof.
  induction 1 as [c|c1 c2 c3 [H12 Ha2] _ IH]; intros Hok Hph.
  - split; [done|]. by apply chain_grows_same.
  - destruct (node_step_keeps _ _ H12 Hok Hph Ha2) as (Hok2 & Hph2 & Hg). destruct (IH Hok2 Hph2) as [Hok3 Hg3].
    split; [done|]. eapply chain_grows_trans; [apply Hok2|done|done].
Qed.

(** C15: The node's invariant. From a start on an empty database, through any interleaving of
    submissions, staking commands, receives, block imports (valid, invalid or repeated) and the parts of the
    ticks of the mining loop between which it does not hold the state lock, as long as the imported blocks and the
    batches taken from the pool consist of readable transactions, head hashes are not zero, head numbers are below 2^62 and
    encoding a readable block never fails: the
    state in memory is a base state with 32-byte keys and values that fit a leaf, the leaves of
    the database are well formed and hold the last committed value of every key, nothing is uncommitted unless
    the lock is stuck, the leader cache of the engine agrees with its validator list
    and its fault threshold is up to date, the channel never holds more than 2000
    transactions, the head number never decreases, and opening the chain on the
    database gives the current block. *)
Theorem node_invariant cfg devKey db' n0 n pool ph cfg' :
  (forall b, readable b -> is_Some (Marshal b)) -> Start cfg devKey ∅ = Some (db', Ok n0) -> plausible (n_bc n0) ->
  rtc (fun c c' => node_step c c' /\ admissible c') (n0, [], PIdle) (n, pool, ph) ->
  node_ok n /\ state_ok (n_state n) /\ chain_grows (n_bc n0) (n_bc n) /\
  NewBlockchain (chain_db (n_bc n)) cfg' = Some (mkChain (chain_db (n_bc n)) cfg' (currentBlock (n_bc n))).
Proof.
  intros HM Hst Hp Hr. pose proof (Start_ok _ _ _ _ HM Hst Hp) as Hok.
  destruct (node_steps_keep _ _ Hr Hok I) as [Hn Hg]. split_and!; [done|apply synced_state, Hn|done|]. apply chain_ok_reopen. apply Hn.
Qed.

(** C20: A restarted node resumes where it stopped. Take a node reached from a start on an empty database as in
    the invariant, not stuck with its lock held, whose head is above height 0. Starting on its
    database, when block 0 is absent or has the configured genesis hash, gives a node with the same current block, the same
    database and the signing key in its keystore, whose state reads under every key the last value written to it;
    the stopped node read the same wherever that value is not empty (see
    [commit_revives_zeroed_balance] for what it may have read for an empty one, a balance of zero). *)
Theorem restart_resumes cfg devKey db' n0 n pool ph cfg' devKey' cur number :
  (forall b, readable b -> is_Some (Marshal b)) -> Start cfg devKey ∅ = Some (db', Ok n0) -> plausible (n_bc n0) ->
  rtc (fun c c' => node_step c c' /\ admissible c') (n0, [], PIdle) (n, pool, ph) -> n_stateLock n = false ->
  (forall g, GetBlockByNumber (mkChain (chain_db (n_bc n)) (GetNetworkConfig (Network cfg')) (currentBlock (n_bc n))) (wd 0) = Some g ->
     BlockHash g = GenesisHash (GetNetworkConfig (Network cfg'))) ->
  CurrentBlock (n_bc n) = Some cur -> Number (BHeader cur) = Some number -> big_uint64 number <> wd 0 ->
  exists n', Start cfg' devKey' (chain_db (n_bc n)) = Some (chain_db (n_bc n), Ok n') /\
    CurrentBlock (n_bc n') = Some cur /\ GetKey n' (PubkeyToAddress (pub_of (default devKey' (ValidatorKey cfg'))))
                                         = Some (default devKey' (ValidatorKey cfg')) /\
    exists last, lived (n_state n) (chain_db (n_bc n)) last /\
      forall k, is_key k -> getVerkleValue (n_state n') k = last k /\ (last k <> [] -> getVerkleValue (n_state n) k = last k).
Proof.
  intros HM Hst Hp Hr Hlock Hgen Hcur Hnum Hnz. pose proof (Start_ok _ _ _ _ HM Hst Hp) as Hok0.
  destruct (node_steps_keep _ _ Hr Hok0 I) as [((Hok & Hdb & _) & [[last Hl] Hd] & _) _]. specialize (Hd Hlock). cbn [fst] in *.
  unfold Start. rewrite (chain_ok_reopen _ _ Hok). cbn [mbind option_bind chain_db].
  set (mismatch := match GetBlockByNumber _ _ with Some _ => _ | None => None end).
  assert (mismatch = None) as ->.
  { unfold mismatch. destruct (GetBlockByNumber _ _) as [g|]; [|done].
    by rewrite (Hgen g eq_refl), bool_decide_eq_true_2. }
  unfold CurrentBlock in *. cbn [currentBlock]. rewrite Hcur, Hnum. cbn [mbind option_bind].
  rewrite (proj2 (Z.eqb_neq _ _)) by (intros E; apply Hnz, uval_inj; by rewrite E).
  eexists. split_and!; [done|done|apply lookup_insert_eq|]. exists last. split; [done|]. intros k Hk. cbn [n_state with_keystore AddKey].
  rewrite get_New by done. destruct (lived_ok _ _ _ Hl) as (_ & _ & _ & Hkeys).
  destruct (n_state n) as [f t|]; [|done]. specialize (Hkeys k Hk). unfold key_ok in Hkeys. cbn [own] in Hd. cbn [getVerkleValue].
  rewrite Hd, lookup_empty in *. destruct Hkeys as [-> Hg]. split; [done|]. intros Hne. by rewrite Hg.
Qed.
End Invariant.

(** ** Silent peers *)

(** [R]-steps lead to [P] in at most [k] steps, whichever are taken, and never get stuck before. *)
Fixpoint within {A : Type} (R : A -> A -> Prop) (P : A -> Prop) (k : nat) (x : A) : Prop :=
  P x \/ match k with
         | O => False
         | S k => (exists y, R x y) /\ forall y, R x y -> within R P k y
         end.

Section Patience.
Context {C : Crypto}.
Implicit Types (e : ZeliusEngine) (vs : list Validator).

(** How many more timeouts a validator other than [my] survives. *)
Definition patience (my : Address) (counts : gmap Address Z) (v : Validator) : Z :=
  if decide (v_address v = my) then 0 else Z.max 1 (1000 - default 0 (counts !! v_address v)).

Definition total_patience my e : Z := sumZ (patience my (NonCompliantValidators e)) (Validators e).

Lemma patience_nonneg my counts v : 0 <= patience my counts v.
Proof. unfold patience. destruct (decide _); lia. Qed.

Lemma sumZ_le {A} (f g : A -> Z) l : (forall x, x ∈ l -> f x <= g x) -> sumZ f l <= sumZ g l.
Proof.
  induction l as [|x l IH]; intros H; [done|]. rewrite !sumZ_cons.
  pose proof (H x ltac:(set_solver)). assert (sumZ f l <= sumZ g l) by (apply IH; set_solver). lia.
Qed.

Lemma sumZ_lt {A} (f g : A -> Z) l y :
  (forall x, x ∈ l -> f x <= g x) -> y ∈ l -> f y < g y -> sumZ f l < sumZ g l.
Proof.
  intros H Hy Hlt. apply list_elem_of_split in Hy as (l1 & l2 & ->).
  rewrite !sumZ_app, !sumZ_cons.
  assert (sumZ f l1 <= sumZ g l1) by (apply sumZ_le; set_solver).
  assert (sumZ f l2 <= sumZ g l2) by (apply sumZ_le; set_solver). lia.
Qed.

Lemma remove_first_spec vs a :
  a ∈ v_address <$> vs ->
  exists l1 v l2, vs = l1 ++ v :: l2 /\ v_address v = a /\ remove_first vs a = Some (l1 ++ l2).
Proof.
  induction vs as [|w vs IH]; intros Hin; [by apply not_elem_of_nil in Hin|]. cbn [remove_first].
  case_bool_decide as Hw; [by exists [], w, vs|].
  rewrite fmap_cons in Hin. apply elem_of_cons in Hin as [E|Hin]; [by rewrite E in Hw|].
  destruct (IH Hin) as (l1 & v & l2 & -> & Hv & ->). by exists (w :: l1), v, l2.
Qed.

(** One more timeout of the leader shortens the total patience and keeps the local validator. *)
Lemma timeout_progress my e leader :
  engine_ok e -> my ∈ v_address <$> Validators e -> leader ∈ v_address <$> Validators e -> leader <> my ->
  let e' := RecordNonCompliance e leader in
  total_patience my e' < total_patience my e /\ my ∈ v_address <$> Validators e' /\ privKey e' = privKey e.
Proof.
  intros _ Hmy Hl Hne. cbn zeta. unfold RecordNonCompliance. set (c := default 0 _).
  set (m' := <[leader := c + 1]> (NonCompliantValidators e)).
  assert (forall v, patience my m' v <= patience my (NonCompliantValidators e) v) as Hle.
  { intros v. unfold patience, m'. destruct (decide (v_address v = my)); [lia|].
    destruct (decide (leader = v_address v)) as [<-|Hv].
    - rewrite lookup_insert_eq. fold c. change (default 0 (Some (c + 1))) with (c + 1). lia.
    - rewrite lookup_insert_ne by done. lia. }
  destruct (remove_first_spec _ _ Hl) as (l1 & v & l2 & Hvs & Hv & Hrem).
  destruct (Z.leb_spec 1000 (c + 1)) as [Hc|Hc].
  - unfold Slash, RemoveValidator. cbn [Validators set_noncompliant]. rewrite (proj2 (Nat.leb_gt _ _)).
    2:{ rewrite Hvs, length_app. cbn. destruct l1, l2; cbn; try lia. exfalso. rewrite Hvs in Hmy. cbn in Hmy. set_solver. }
    rewrite Hrem. split_and!; [|cbn; rewrite Hvs in Hmy; set_solver|done].
    unfold total_patience. cbn. fold m'. rewrite Hvs, !sumZ_app, sumZ_cons.
    assert (0 < patience my (NonCompliantValidators e) v).
    { unfold patience. rewrite decide_False by congruence. lia. }
    assert (sumZ (patience my m') l1 <= sumZ (patience my (NonCompliantValidators e)) l1) by by apply sumZ_le.
    assert (sumZ (patience my m') l2 <= sumZ (patience my (NonCompliantValidators e)) l2) by by apply sumZ_le. lia.
  - split_and!; [|done|done]. unfold total_patience. cbn [Validators NonCompliantValidators set_noncompliant].
    apply (sumZ_lt _ _ _ v); [auto|rewrite Hvs; set_solver|].
    unfold patience, m'. rewrite !decide_False by congruence. rewrite Hv, lookup_insert_eq. fold c.
    change (default 0 (Some (c + 1))) with (c + 1). lia.
Qed.

Lemma total_patience_bound my e :
  map_Forall (fun _ c => 0 <= c) (NonCompliantValidators e) ->
  0 <= total_patience my e <= 1000 * Z.of_nat (length (Validators e)).
Proof.
  intros Hc. unfold total_patience. split; [apply sumZ_nonneg; intros; apply patience_nonneg|].
  induction (Validators e) as [|v vs IH]; [done|]. rewrite sumZ_cons. cbn [length].
  assert (patience my (NonCompliantValidators e) v <= 1000); [|lia].
  unfold patience. destruct (decide _); [lia|]. destruct (NonCompliantValidators e !! _) eqn:E; cbn; [|lia].
  specialize (Hc _ _ E). cbn in Hc. lia.
Qed.
End Patience.

Section Liveness.
Context {C : Crypto} {CL : CryptoLaws C} {V : Verkle} {VL : VerkleLaws V} {EV : EVM}.
Context {CB : Codec Block} {CR : Codec (list Receipt)} {CT : Codec TxLookupEntry}.
Implicit Types (n : Node).

(** A tick, with nothing in the pool, in which no block arrives from a peer. *)
Definition silent_tick n n' : Prop := exists r, tick n [] r n' [] /\ r <> BlockArrived.

(** The next tick can mine and broadcast the next block. *)
Definition can_produce n : Prop :=
  exists n' b parent number, tick n [] (Proposed None) n' [] /\ n_sent n' = n_sent n ++ [b] /\
    CurrentBlock (n_bc n) = Some parent /\ Number (BHeader parent) = Some number /\
    ParentHash (BHeader b) = BlockHash parent /\ Number (BHeader b) = Some (number + 1) /\ Transactions b = [].

(** A validator waiting for its peers: unlocked, with a usable head, a signing key whose address
    is in the validator list, and no registry in the state. *)
Record waiting n (key : PrivateKey) : Prop := {
  w_lock : n_stateLock n = false;
  w_registry : hash_big (GetState (n_state n) sync_validatorAddr zero_hash) = 0;
  w_engine : engine_ok (n_engine n);
  w_key : privKey (n_engine n) = Some key;
  w_member : PubkeyToAddress (pub_of key) ∈ v_address <$> Validators (n_engine n);
  w_header : forall now, is_Some (mining_header n now);
  w_sign : forall d, is_Some (Sign (hash_bytes d) key)
}.

Lemma waiting_elect n key :
  waiting n key -> exists m leader,
    elect n = Some (set_leaders (n_engine n) m, leader, PubkeyToAddress (pub_of key)) /\
    leader ∈ v_address <$> Validators (n_engine n) /\ engine_ok (set_leaders (n_engine n) m).
Proof.
  intros [Hlock Hreg He Hkey Hmem Hhead _]. unfold elect, SyncValidators. rewrite Hreg. cbn [Z.eqb mbind option_bind].
  destruct (Hhead (wd 0)) as [h Hh]. unfold mining_header, header_on in Hh.
  destruct (CurrentBlock _) as [p|]; [|done]. cbn [mbind option_bind] in Hh |- *.
  destruct (Number _) as [k|]; [|done]. cbn [mbind option_bind].
  pose proof (GetLeader_spec (n_engine n) (big_uint64 (k + 1)) (proj1 He)) as Hg.
  destruct (GetLeader _ _) as [[e2 l]|] eqn:Eg.
  - destruct Hg as (Hl & _ & m & ->). exists m, l. cbn [mbind option_bind privKey set_leaders]. rewrite Hkey.
    split_and!; [done|by eapply leader_of_elem|]. by eapply engine_ok_leaders.
  - exfalso. destruct (leader_of_total (Validators (n_engine n)) (big_uint64 (k + 1))) as [a Ha]; [|congruence].
    intros E. rewrite E in Hmem. by apply not_elem_of_nil in Hmem.
Qed.

(** Its own turn: the tick mines an empty block. *)
Lemma own_turn n key e :
  n_stateLock n = false -> (forall now, is_Some (mining_header n now)) -> (forall d, is_Some (Sign (hash_bytes d) key)) ->
  elect n = Some (e, PubkeyToAddress (pub_of key), PubkeyToAddress (pub_of key)) ->
  privKey e = Some key -> can_produce n.
Proof.
  intros Hlock Hhead Hsign Hel Hkey. destruct (Hhead (wd 0)) as [h Hh].
  set (s1 := AddBalanceReward (n_state n) (Coinbase h) (wd block_reward)).
  set (out := Some ([] : list Receipt, IntermediateRoot s1, s1)).
  set (h1 := set_gas_used (set_root h (IntermediateRoot s1)) (wd 0)).
  assert (exists parent number, CurrentBlock (n_bc n) = Some parent /\ Number (BHeader parent) = Some number /\
            ParentHash h = BlockHash parent /\ Number h = Some (number + 1) /\ ExtraData h = []) as (parent & number & Hp & Hn & Hph & Hnum & Hx).
  { unfold mining_header, header_on in Hh. destruct (CurrentBlock _) as [p|]; [|done]. cbn [mbind option_bind] in Hh.
    destruct (Number (BHeader p)) as [k|] eqn:Ek; [|done]. cbn [mbind option_bind] in Hh.
    destruct (CalcBaseFee _ _); [|done]. injection Hh as <-. by exists p, k. }
  destruct (Hsign (BlockHash (NewBlock h1 []))) as [sig Hsig].
  set (b := NewBlock (set_extra h1 sig) []).
  destruct (AddBlock_total (n_bc (commit_state (with_state n s1))) b (Some [])) as (bc' & r & Ha & _).
  { cbn. rewrite Hnum. by eexists. } { unfold head_numbered. cbn. unfold CurrentBlock in Hp. rewrite Hp, Hn. by eexists. }
  set (n' := with_lock (with_bc (commit_state (with_sent (with_state (with_lock (with_engine n e) true) s1) (n_sent n ++ [b]))) bc') false).
  exists n', b, parent, number. split_and!; try done.
  apply (tick_mine n [] e (PubkeyToAddress (pub_of key)) (wd 0) 0 n'); [done|done|].
  apply (mine_intro _ _ _ _ [] h out); [done|done|done| |].
  - cbn [filter list_filter]. apply ApplyBlock_empty. done.
  - unfold processBatch. change (select_txs _ []) with (@nil Transaction).
    change (n_bc (intercept_node _ _)) with (n_bc n). unfold mining_header in Hh. rewrite Hp in Hh |- *. cbn [mbind option_bind] in Hh |- *.
    unfold execute_batch. change (header_on _ parent (wd 0)) with (header_on n parent (wd 0)). rewrite Hh. cbn [mbind option_bind out].
    change (getGasUsed []) with (wd (w:=64) 0). fold h1.
    change (n_engine _) with e. rewrite Seal_empty by done. rewrite Hkey, Hsig.
    rewrite commit_state_eq. cbn [n_bc n_state with_state with_bc with_sent with_lock with_engine intercept_node].
    rewrite commit_state_eq in Ha. cbn [n_bc n_state with_state with_bc with_engine] in Ha. cbn [BHeader Transactions].
    fold b. rewrite Ha. done.
Qed.

Lemma within_mono {A : Type} (R : A -> A -> Prop) (P Q : A -> Prop) k x :
  (forall y, P y -> Q y) -> within R P k x -> within R Q k x.
Proof.
  intros HPQ. revert x. induction k as [|k IH]; intros x [H|H]; cbn [within]; auto.
  destruct H as [Hex Hall]. right. split; [done|]. intros y Hy. apply IH. by apply Hall.
Qed.

(** Timeouts only change the engine; when the patience is used up it is the node's turn. *)
Lemma silent_within n key k bc sent :
  n_bc n = bc -> n_sent n = sent -> waiting n key -> total_patience (PubkeyToAddress (pub_of key)) (n_engine n) <= Z.of_nat k ->
  within silent_tick (fun n1 => can_produce n1 /\ waiting n1 key /\ n_bc n1 = bc /\ n_sent n1 = sent) k n.
Proof.
  set (my := PubkeyToAddress (pub_of key)). revert n. induction k as [|k IH]; intros n Hbc Hsent Hw Hk; (destruct (waiting_elect n key Hw) as (m & leader & Hel & Hl & He');
    destruct (decide (leader = my)) as [->|Hne]; [left; split; [apply (own_turn n key _ (w_lock _ _ Hw) (w_header _ _ Hw) (w_sign _ _ Hw) Hel); by apply w_key|done]|right]);
    pose proof (timeout_progress my (set_leaders (n_engine n) m) leader He' (w_member n key Hw) Hl Hne) as (Hlt & Hmem & Hkey).
  - assert (0 <= total_patience my (RecordNonCompliance (set_leaders (n_engine n) m) leader))
      by (apply sumZ_nonneg; intros; apply patience_nonneg).
    change (total_patience my (set_leaders (n_engine n) m)) with (total_patience my (n_engine n)) in Hlt. cbn in Hk. lia.
  - split.
    + eexists. exists TimedOut. split; [|done]. by eapply tick_timeout; [apply (w_lock _ _ Hw)|symmetry; exact Hel|].
    + intros n' (r & Ht & Hr).
      assert (n' = with_engine n (RecordNonCompliance (set_leaders (n_engine n) m) leader)) as ->.
      { inversion Ht as [e' my' now' ex' n1 _ Hel' _|e' p' my' _ Hel' _|e' p' my' _ Hel' Hne']; subst; [|done|];
          rewrite Hel in Hel'; simplify_eq; done. }
      apply IH; [done|done| |].
      * destruct Hw. split; try done; [|by rewrite <- w_key0].
        cbn. by eapply engine_step_ok; [apply (es_noncompliance (fun _ => True))|].
      * change (total_patience my (set_leaders (n_engine n) m)) with (total_patience my (n_engine n)) in Hlt.
        cbn [n_engine with_engine]. lia.
Qed.

(** C16: Liveness with silent peers and no registry. Take a node with an empty pool and a free state lock, whose
    signing key is that of one of its engine's validators and signs everything, whose head allows a next header, whose state has no
    validator registry (with one the opposite holds, [registry_stalls]) and whose engine has counted no negative number of
    timeouts. When no block arrives from its peers, it can produce the next, empty block itself after at most 1000 timeouts
    per validator, whatever leaders are elected on the way: every timeout is counted against the
    current leader, a leader that reaches its thousandth is removed, and the election
    goes on among the rest until the local key leads. No tick on the way is stuck. *)
Theorem silent_peers_replaced n key :
  waiting n key -> map_Forall (fun _ c => 0 <= c) (NonCompliantValidators (n_engine n)) ->
  within silent_tick can_produce (1000 * length (Validators (n_engine n))) n.
Proof.
  intros Hw Hc. pose proof (total_patience_bound (PubkeyToAddress (pub_of key)) (n_engine n) Hc) as [_ Hb].
  eapply within_mono; [|apply (silent_within n key _ (n_bc n) (n_sent n)); [done|done|done|lia]]. by intros y [Hy _].
Qed.

(** The validators [SyncValidators] loads from the state. *)
Definition registered (s : StateDB) : list Validator :=
  (fun j => sync_entry s (wd j)) <$> seqZ 1 (hash_big (GetState s sync_validatorAddr zero_hash)).

Lemma RecordNonCompliance_key e a : privKey (RecordNonCompliance e a) = privKey e.
Proof. unfold RecordNonCompliance, Slash. destruct (1000 <=? _); [by rewrite RemoveValidator_key|done]. Qed.

Lemma SyncValidators_registry e s :
  0 < hash_big (GetState s sync_validatorAddr zero_hash) < 2 ^ 64 - 1 ->
  SyncValidators e s = Some (RecalculateSchedule (set_fault (set_validators e (registered s)) (tolerance (registered s)))).
Proof. exact (SyncValidators_spec e s). Qed.

Lemma elect_spec n e1 parent number e2 leader key :
  SyncValidators (n_engine n) (n_state n) = Some e1 ->
  CurrentBlock (n_bc n) = Some parent -> Number (BHeader parent) = Some number ->
  GetLeader e1 (big_uint64 (number + 1)) = Some (e2, leader) -> privKey e2 = Some key ->
  elect n = Some (e2, leader, PubkeyToAddress (pub_of key)).
Proof.
  intros Hs Hp Hn Hg Hk. unfold elect. rewrite Hs. cbn [mbind option_bind]. rewrite Hp. cbn [mbind option_bind].
  rewrite Hn. cbn [mbind option_bind]. rewrite Hg. cbn [mbind option_bind]. rewrite Hk. done.
Qed.

Lemma registry_elect n parent number key :
  0 < hash_big (GetState (n_state n) sync_validatorAddr zero_hash) < 2 ^ 64 - 1 ->
  CurrentBlock (n_bc n) = Some parent -> Number (BHeader parent) = Some number -> privKey (n_engine n) = Some key ->
  exists e leader, elect n = Some (e, leader, PubkeyToAddress (pub_of key)) /\ privKey e = Some key /\
    leader_of (registered (n_state n)) (big_uint64 (number + 1)) = Some leader.
Proof.
  intros Hc Hp Hn Hk. pose proof (SyncValidators_registry (n_engine n) _ Hc) as Hs.
  assert (registered (n_state n) <> []) as Hne.
  { intros E. apply (f_equal length) in E. unfold registered in E. rewrite length_fmap, length_seqZ in E. cbn in E. lia. }
  revert Hs Hne. generalize (registered (n_state n)) as vs. intros vs Hs Hne.
  set (e1 := RecalculateSchedule _) in Hs.
  pose proof (GetLeader_spec e1 (big_uint64 (number + 1)) ltac:(by apply cache_ok_cleared)) as Hg.
  destruct (GetLeader e1 _) as [[e2 l]|] eqn:Eg.
  - destruct Hg as (Hl & _ & m & ->). exists (set_leaders e1 m), l. split_and!; [|done|done].
    by apply (elect_spec n e1 parent number).
  - exfalso. destruct (leader_of_total vs (big_uint64 (number + 1)) Hne) as [a Ha]. cbn in Hg. congruence.
Qed.

(** C36: A registered leader that stays silent stops the chain. Once the state has a validator
    registry, every tick reloads the validators from it, so a validator removed for its timeouts is back
    at the next tick: if the leader the registry gives for the next block is silent, a waiting
    node never proposes, however many timeouts pass. *)
Theorem registry_stalls n parent number key leader n' :
  0 < hash_big (GetState (n_state n) sync_validatorAddr zero_hash) < 2 ^ 64 - 1 ->
  CurrentBlock (n_bc n) = Some parent -> Number (BHeader parent) = Some number ->
  privKey (n_engine n) = Some key -> leader_of (registered (n_state n)) (big_uint64 (number + 1)) = Some leader ->
  leader <> PubkeyToAddress (pub_of key) -> n_stateLock n = false ->
  rtc silent_tick n n' -> ~ can_produce n' /\ exists n'', silent_tick n' n''.
Proof.
  intros Hc Hp Hn Hk Hl Hne Hlock Hr.
  assert (forall n1, n_bc n1 = n_bc n -> n_state n1 = n_state n -> n_stateLock n1 = false ->
            privKey (n_engine n1) = Some key ->
            exists e, elect n1 = Some (e, leader, PubkeyToAddress (pub_of key)) /\ privKey e = Some key) as Hel.
  { intros n1 Hb Hs _ Hk1. destruct (registry_elect n1 parent number key) as (e & l & He & Hke & Hle);
      [by rewrite Hs|by rewrite Hb|done|done|]. exists e. rewrite Hs, Hl in Hle. by injection Hle as <-. }
  set (Q := fun n1 => n_bc n1 = n_bc n /\ n_state n1 = n_state n /\ n_stateLock n1 = false /\ privKey (n_engine n1) = Some key).
  assert (forall n1 n2, silent_tick n1 n2 -> Q n1 -> Q n2) as Hstep.
  { intros n1 n2 (r & Ht & Hr1) (Hb1 & Hs1 & Hl1 & Hk1). destruct (Hel n1 Hb1 Hs1 Hl1 Hk1) as (e & He & Hke).
    inversion Ht as [e' my' now' ex' n3 _ Hel' _|e' p' my' _ Hel' _|e' p' my' _ Hel' Hne']; subst; [|done|];
      rewrite He in Hel'; simplify_eq. unfold Q. split_and!; try done. cbn. by rewrite RecordNonCompliance_key. }
  assert (Q n') as (Hb' & Hs' & Hlock' & Hk').
  { assert (Q n) as H0 by done. clearbody Q. clear -Hr Hstep H0. induction Hr; eauto. }
  destruct (Hel n' Hb' Hs' Hlock' Hk') as (e & He & _). split.
  - intros (n2 & b & p & k & Ht & _). inversion Ht as [e' my' now' ex' n3 _ Hel' _| |]; subst.
    rewrite He in Hel'. by simplify_eq.
  - eexists. exists TimedOut. split; [|done]. by eapply tick_timeout; [|symmetry; exact He|].
Qed.
End Liveness.
