(* ===== verification/Rpc.v ===== *)
(** * Rpc: the JSON-RPC services (rpc/eth_api.go, rpc/eth_tx.go, rpc/eth_filters.go,
    rpc/types.go, rpc/net_api.go, rpc/zelius_api.go).

    Each method is a function of the service's view of the node, [PublicEthAPI]. The
    outer [None] is a Go panic, [Err] an error response, and a null response is the
    inner [None]. Responses are maps from field names to values. *)

From stdpp Require Import pretty.
From S2P Require Import Prelude Words Interfaces Rlp Types Sanity Hex StateDB StateOps Scheduler Consensus Genesis SystemContracts Executor RawDB Blockchain Stream P2P Node.

(** ** Requests and responses *)

(** [rpc.BlockNumber], an [int64], and its tags. *)
Abbreviation BlockNumber := Z (only parsing).
Definition EarliestBlockNumber : BlockNumber := -5.
Definition SafeBlockNumber : BlockNumber := -4.
Definition FinalizedBlockNumber : BlockNumber := -3.
Definition LatestBlockNumber : BlockNumber := -2.
Definition PendingBlockNumber : BlockNumber := -1.

Record BlockNumberOrHash := mkBlockRef {
  ref_BlockNumber : option Z;
  ref_BlockHash : option Hash
}.

Inductive rpc_error :=
| ErrBlockNotFound
| ErrDecodeTx
| ErrInvalidChainId (have want : Z)
| ErrInvalidSignature
| ErrOversizedTx (size : Z)
| ErrNotReady
| ErrNonceTooLow (have want : u64)
| ErrInsufficientFunds (have want : Z)
| ErrExecution
| ErrSimulationFailed
| ErrTooManyResults
| ErrFeeHistory
| ErrBackend (err : send_error).

(** The values of a response field: hexutil's [Uint64], [Big] (possibly nil) and [Bytes],
    the fixed-size identifiers, and the lists the node returns. *)
Inductive field_value :=
| FUint64 (x : u64)
| FBig (x : option Z)
| FBytes (b : bytes)
| FHash (h : Hash)
| FAddress (a : option Address)
| FHashes (l : list Hash)
| FTxs (l : list Transaction)
| FLogs (l : list Log)
| FNull.

Abbreviation response := (gmap string field_value) (only parsing).

(** What the services take from go-ethereum's trie package. *)
Class TxTools := {
  (** [types.DeriveSha(txs, trie.NewStackTrie(nil))] *)
  DeriveSha : list Transaction -> Hash
}.

Definition EmptyRootHash : Hash :=
  HexToHash (bytes_of_string "56e81f171bcc55a6ff8345e692c0f86e5b48e01b996cadc001622fb5e363b421").

(** ** Call arguments (rpc/types.go)

    The access list is handed to the EVM as it is, like in [Message], and left out. *)

Record CallArgs := mkCallArgs {
  ca_From : option Address;
  ca_To : option Address;
  ca_Gas : option u64;
  ca_GasPrice : option Z;
  ca_MaxFeePerGas : option Z;
  ca_MaxPriorityFeePerGas : option Z;
  ca_Value : option Z;
  ca_Data : option bytes;
  ca_Input : option bytes;
  ca_Nonce : option u64
}.

(** The gas price, the fee cap and the tip cap of [ToMessage]; [None] is nil. *)
Definition call_prices (args : CallArgs) (baseFee : option Z) : Z * option Z * option Z :=
  match ca_GasPrice args, baseFee with
  | Some gasPrice, _ => (gasPrice, Some gasPrice, Some gasPrice)
  | None, Some baseFee =>
      let gasFeeCap := default (baseFee + 1000000000) (ca_MaxFeePerGas args) in
      let gasTipCap := default 1000000000 (ca_MaxPriorityFeePerGas args) in
      (gasFeeCap, Some gasFeeCap, Some gasTipCap)
  | None, None => (0, None, None)
  end.

Definition ToMessage (args : CallArgs) (globalGasCap : u64) (baseFee : option Z) : Message :=
  let from := default zero_addr (ca_From args) in
  let gas := default (wd 0) (ca_Gas args) in
  let gas := if uval gas =? 0 then globalGasCap else gas in
  let '(gasPrice, gasFeeCap, gasTipCap) := call_prices args baseFee in
  let value := default 0 (ca_Value args) in
  let data := match ca_Data args with Some d => d | None => default [] (ca_Input args) end in
  let nonce := default (wd 0) (ca_Nonce args) in
  mkMessage (ca_To args) from nonce value gas gasPrice gasFeeCap gasTipCap data.

Definition set_msg_nonce (m : Message) (n : u64) : Message :=
  mkMessage (msg_to m) (msg_from m) n (msg_value m) (msg_gasLimit m) (msg_gasPrice m) (msg_gasFeeCap m)
    (msg_gasTipCap m) (msg_data m).

Section Rpc.
Context {C : Crypto} {V : Verkle} {EV : EVM} {TT : TxTools} {RT : Runtime} {TR : TxRlp}.
Context {CB : Codec Block} {CR : Codec (list Receipt)} {CT : Codec TxLookupEntry}.

(** The chain, the live state and the executor the service was created with. *)
Record PublicEthAPI := NewPublicEthAPI {
  api_bc : Blockchain;
  api_statedb : StateDB;
  api_executor : Executor
}.

(** ** Plain queries *)

Definition api_head (api : PublicEthAPI) : option Header := BHeader <$> CurrentBlock (api_bc api).

Definition eth_BlockNumber (api : PublicEthAPI) : option (option Z) := Number <$> api_head api.
Definition eth_GetBalance (api : PublicEthAPI) (address : Address) (ref : BlockNumberOrHash) : Z :=
  uval (GetBalance (api_statedb api) address).
Definition eth_ChainId (api : PublicEthAPI) : Z := ChainID (chain_config (api_bc api)).
Definition eth_NetVersion (api : PublicEthAPI) : string := pretty (ChainID (chain_config (api_bc api))).
Definition eth_Syncing : bool := false.
Definition eth_Coinbase (api : PublicEthAPI) : option Address := Coinbase <$> api_head api.
Definition eth_Mining : bool := true.
Definition eth_Hashrate : u64 := wd 0.

Definition eth_GasPrice (api : PublicEthAPI) : option Z :=
  head ← api_head api;
  match BaseFee head with
  | Some baseFee => Some (baseFee + 2000000000)
  | None => Some 20000000000
  end.
Definition eth_MaxPriorityFeePerGas : Z := 2000000000.
Definition eth_FeeHistory : result rpc_error unit := Err ErrFeeHistory.

(** ** Resolving a block reference *)

Definition found (b : option Block) : result rpc_error Header :=
  match b with Some b => Ok (BHeader b) | None => Err ErrBlockNotFound end.

Definition headerByRpcBlock (api : PublicEthAPI) (ref : BlockNumberOrHash) : option (result rpc_error Header) :=
  match ref_BlockHash ref, ref_BlockNumber ref with
  | Some hash, _ => Some (found (GetBlockByHash (api_bc api) hash))
  | None, Some number =>
      if number =? LatestBlockNumber then Ok <$> api_head api
      else if number =? PendingBlockNumber then Ok <$> api_head api
      else if number =? EarliestBlockNumber then Ok ∘ BHeader <$> GenesisBlock (api_bc api)
      else Some (found (GetBlockByNumber (api_bc api) (wd number)))
  | None, None => Ok <$> api_head api
  end.

(** The header and the state of a reference, as the state queries get them. *)
Definition with_state_at {A : Type} (api : PublicEthAPI) (ref : BlockNumberOrHash)
    (f : Header -> StateDB -> result rpc_error A) : option (result rpc_error A) :=
  header ← headerByRpcBlock api ref;
  match header with
  | Err err => Some (Err err)
  | Ok header => Some (f header (StateAt (api_bc api) (VerkleRoot header)))
  end.

Definition eth_GetTransactionCount (api : PublicEthAPI) (address : Address) (ref : BlockNumberOrHash)
  : option (result rpc_error u64) := with_state_at api ref (fun _ s => Ok (GetNonce s address)).

Definition eth_GetCode (api : PublicEthAPI) (address : Address) (ref : BlockNumberOrHash)
  : option (result rpc_error bytes) :=
  with_state_at api ref (fun _ s => Ok (GetCode (Some (chain_db (api_bc api))) s address).2).

Definition eth_GetStorageAt (api : PublicEthAPI) (address : Address) (slot : bytes) (ref : BlockNumberOrHash)
  : option (result rpc_error bytes) :=
  with_state_at api ref (fun _ s => Ok (hash_bytes (GetState s address (HexToHash slot)))).

(** ** Simulation *)

(** The message of a call: a missing nonce is the state's. *)
Definition call_message (args : CallArgs) (header : Header) (s : StateDB) : Message :=
  let msg := ToMessage args (GasLimit header) (BaseFee header) in
  match ca_Nonce args with None => set_msg_nonce msg (GetNonce s (msg_from msg)) | Some _ => msg end.

Definition simulate (api : PublicEthAPI) (args : CallArgs) (header : Header) (s : StateDB)
  : result rpc_error ExecutionResult :=
  match (Call (api_executor api) (Some (chain_db (api_bc api))) s header (call_message args header s)).2 with
  | None => Err ErrExecution
  | Some res => if res_failed res then Err ErrSimulationFailed else Ok res
  end.

Definition eth_Call (api : PublicEthAPI) (args : CallArgs) (ref : BlockNumberOrHash)
  : option (result rpc_error bytes) :=
  with_state_at api ref (fun header s =>
    match simulate api args header s with Err err => Err err | Ok res => Ok (ReturnData res) end).

(** Used gas plus a fifth, in 64-bit arithmetic, capped by the block's gas limit. *)
Definition add_buffer (used limit : u64) : u64 :=
  let estimated := wadd used (wd (uval used / 5)) in
  if uval limit <? uval estimated then limit else estimated.

Definition eth_EstimateGas (api : PublicEthAPI) (args : CallArgs) : option (result rpc_error u64) :=
  header ← api_head api;
  let s := StateAt (api_bc api) (VerkleRoot header) in
  match simulate api args header s with
  | Err err => Some (Err err)
  | Ok res => Some (Ok (add_buffer (UsedGas res) (GasLimit header)))
  end.

(** ** Submitting a transaction *)

(** [SendRawTransaction]: on success the hash, and the transaction a new goroutine sends to
    the pool. *)
Definition eth_SendRawTransaction (api : PublicEthAPI) (data : bytes)
  : option (result rpc_error (Hash * Transaction)) :=
  decoded ← DecodeBytes tx_decode data;
  match decoded with
  | None => Some (Err ErrDecodeTx)
  | Some tx =>
      let chainID := ChainID (chain_config (api_bc api)) in
      if (0 <? tx_chainId tx) && negb (tx_chainId tx =? chainID)
      then Some (Err (ErrInvalidChainId (tx_chainId tx) chainID))
      else match tx_sender tx with
      | None => Some (Err ErrInvalidSignature)
      | Some from =>
          if 512 * 1024 <? tx_size tx then Some (Err (ErrOversizedTx (tx_size tx)))
          else match CurrentBlock (api_bc api) with
          | None => Some (Err ErrNotReady)
          | Some currentBlock =>
              let s := StateAt (api_bc api) (VerkleRoot (BHeader currentBlock)) in
              let confirmedNonce := GetNonce s from in
              if uval (tx_nonce tx) <? uval confirmedNonce
              then Some (Err (ErrNonceTooLow (tx_nonce tx) confirmedNonce))
              else
                let balance := uval (GetBalance s from) in
                let cost := uval (tx_gas tx) * tx_gasPrice tx + tx_value tx in
                if balance <? cost then Some (Err (ErrInsufficientFunds balance cost))
                else Some (Ok (tx_hash tx, tx))
          end
      end
  end.

(** ** Blocks *)

(** The fields both block queries return. *)
Definition block_fields (block : Block) (number : Z) (fullTx : bool) : response :=
  let h := BHeader block in
  list_to_map [
    ("number", FUint64 (big_uint64 number));
    ("hash", FHash (BlockHash block));
    ("parentHash", FHash (ParentHash h));
    ("nonce", FBytes (replicate 8 (wd 0)));
    ("sha3Uncles", FHash (keccak256 (writeList [])));
    ("logsBloom", FBytes zero_bloom);
    ("transactionsRoot", FHash (DeriveSha (Transactions block)));
    ("stateRoot", FHash (VerkleRoot h));
    ("receiptsRoot", FHash EmptyRootHash);
    ("miner", FAddress (Some (Coinbase h)));
    ("difficulty", FBig (Difficulty h));
    ("totalDifficulty", FBig (Difficulty h));
    ("extraData", FBytes (ExtraData h));
    ("size", FUint64 (wd 1000));
    ("gasLimit", FUint64 (GasLimit h));
    ("gasUsed", FUint64 (GasUsed h));
    ("timestamp", FUint64 (Time h));
    ("uncles", FHashes []);
    ("transactions", if fullTx then FTxs (Transactions block) else FHashes (tx_hash <$> Transactions block))]%string.

Definition rpc_block_by_number (api : PublicEthAPI) (blockNr : BlockNumber) : option Block :=
  if blockNr =? LatestBlockNumber then CurrentBlock (api_bc api)
  else if blockNr =? PendingBlockNumber then None
  else
    let hash := ReadCanonicalHash (chain_db (api_bc api)) (wd blockNr) in
    if bool_decide (hash = zero_hash) then None else ReadBlock (chain_db (api_bc api)) hash.

Definition eth_GetBlockByNumber (api : PublicEthAPI) (blockNr : BlockNumber) (fullTx : bool) : option (option response) :=
  match rpc_block_by_number api blockNr with
  | None => Some None
  | Some block =>
      number ← Number (BHeader block);
      Some (Some (<["mixHash" := FHash zero_hash]> (block_fields block number fullTx)))
  end.

Definition eth_GetBlockByHash (api : PublicEthAPI) (hash : Hash) (fullTx : bool) : option (option response) :=
  match ReadBlock (chain_db (api_bc api)) hash with
  | None => Some None
  | Some block => number ← Number (BHeader block); Some (Some (block_fields block number fullTx))
  end.

(** ** Transactions and receipts (rpc/eth_tx.go) *)

Definition tx_fields (entry : TxLookupEntry) (tx : Transaction) : response :=
  let '(v, r, s) := tx_sig tx in
  list_to_map [
    ("hash", FHash (tx_hash tx));
    ("nonce", FUint64 (tx_nonce tx));
    ("blockHash", FHash (le_BlockHash entry));
    ("blockNumber", FUint64 (le_BlockIndex entry));
    ("transactionIndex", FUint64 (le_TxIndex entry));
    ("from", FAddress (Some (default zero_addr (tx_sender tx))));
    ("to", FAddress (tx_to tx));
    ("value", FBig (Some (tx_value tx)));
    ("gas", FUint64 (tx_gas tx));
    ("gasPrice", FBig (Some (tx_gasPrice tx)));
    ("input", FBytes (tx_data tx));
    ("type", FUint64 (wd (tx_type tx)));
    ("chainId", FBig (Some (tx_chainId tx)));
    ("v", FBig (Some v)); ("r", FBig (Some r)); ("s", FBig (Some s))]%string.

Definition eth_GetTransactionByHash (api : PublicEthAPI) (hash : Hash) : option response :=
  entry ← ReadTxLookupEntry (chain_db (api_bc api)) hash;
  block ← ReadBlock (chain_db (api_bc api)) (le_BlockHash entry);
  tx ← Transactions block !! Z.to_nat (uval (le_TxIndex entry));
  Some (tx_fields entry tx).

(** The metadata a log of the [i]-th position gets in a receipt. *)
Definition hydrate (entry : TxLookupEntry) (hash : Hash) (i : nat) (l : Log) : Log :=
  mkLog (log_address l) (log_topics l) (log_data l) (le_BlockIndex entry) hash (le_TxIndex entry) (le_BlockHash entry)
    (wd (Z.of_nat i)) false.

Definition receipt_fields (entry : TxLookupEntry) (hash : Hash) (block : Block) (tx : Transaction) (r : Receipt) : response :=
  list_to_map [
    ("transactionHash", FHash hash);
    ("transactionIndex", FUint64 (le_TxIndex entry));
    ("blockHash", FHash (le_BlockHash entry));
    ("blockNumber", FUint64 (le_BlockIndex entry));
    ("from", FAddress (Some (default zero_addr (tx_sender tx))));
    ("to", FAddress (tx_to tx));
    ("cumulativeGasUsed", FUint64 (CumulativeGasUsed r));
    ("gasUsed", FUint64 (RGasUsed r));
    ("effectiveGasPrice", FBig (Some (fee_price (BHeader block) tx)));
    ("contractAddress", if bool_decide (ContractAddress r = zero_addr) then FNull else FAddress (Some (ContractAddress r)));
    ("logs", FLogs (imap (hydrate entry hash) (Logs r)));
    ("logsBloom", FBytes (Bloom r));
    ("status", FUint64 (Types.Status r));
    ("type", FUint64 (wd (tx_type tx)))]%string.

(** The index is checked against the receipts only: a block with fewer transactions panics. *)
Definition eth_GetTransactionReceipt (api : PublicEthAPI) (hash : Hash) : option (option response) :=
  let db := chain_db (api_bc api) in
  match ReadTxLookupEntry db hash with
  | None => Some None
  | Some entry =>
      match ReadBlock db (le_BlockHash entry), ReadReceipts db (le_BlockHash entry) with
      | Some block, Some receipts =>
          match receipts !! Z.to_nat (uval (le_TxIndex entry)) with
          | None => Some None
          | Some receipt =>
              tx ← Transactions block !! Z.to_nat (uval (le_TxIndex entry));
              Some (Some (receipt_fields entry hash block tx receipt))
          end
      | _, _ => Some None
      end
  end.
End Rpc.

(** ** Lookups through the service *)

(** The service as [Start] registers it: it shares the node's chain, state and pool. *)
Definition eth_api {C : Crypto} {V : Verkle} {EV : EVM} {CB : Codec Block} (n : Node) : PublicEthAPI :=
  NewPublicEthAPI (n_bc n) (n_state n) (executor_of n).

Section Lookup.
Context {C : Crypto} {V : Verkle} {EV : EVM} {TT : TxTools}.
Context {CB : Codec Block} {CBL : CodecLaws Block CB readable} {CR : Codec (list Receipt)}
  {CRL : CodecLaws (list Receipt) CR always} {CT : Codec TxLookupEntry} {CTL : CodecLaws TxLookupEntry CT always}.
Implicit Types (api : PublicEthAPI) (b : Block).

Lemma block_fields_mixHash b n full : block_fields b n full !! "mixHash" = None.
Proof. apply not_elem_of_list_to_map_1. cbn. set_solver. Qed.

(** The transaction and the receipt of a stored transaction. *)
Lemma stored_tx_found api bc b rs n i tx r :
  AddBlock bc b (Some rs) = Some (api_bc api, Ok tt) -> readable b -> Number (BHeader b) = Some n ->
  NoDup (tx_hash <$> Transactions b) -> Z.of_nat (length (Transactions b)) <= 2 ^ 64 ->
  Transactions b !! i = Some tx -> rs !! i = Some r ->
  let entry := mkLookup (BlockHash b) (big_uint64 n) (wd (Z.of_nat i)) in
  eth_GetTransactionByHash api (tx_hash tx) = Some (tx_fields entry tx) /\
  eth_GetTransactionReceipt api (tx_hash tx) = Some (Some (receipt_fields entry (tx_hash tx) b tx r)).
Proof.
  intros H Hrd Hn HN Hlen Hi Hr. cbn zeta.
  assert (Z.to_nat (uval (wd (w:=64) (Z.of_nat i))) = i) as Ei.
  { rewrite uval_wd_small; [by rewrite Nat2Z.id|]. apply lookup_lt_Some in Hi. change (2 ^ Z.of_N 64) with (2 ^ 64). lia. }
  unfold eth_GetTransactionByHash, eth_GetTransactionReceipt.
  rewrite (AddBlock_tx_entry _ _ _ _ _ _ _ H Hn HN Hi). cbn [mbind option_bind le_BlockHash le_TxIndex].
  rewrite (AddBlock_reads _ _ _ _ H Hrd). cbn [mbind option_bind].
  rewrite (AddBlock_ReadReceipts _ _ _ _ H), Ei, Hi, Hr. done.
Qed.

(** C22: What was stored is served. After a block that reads back (every transaction passes the checks of
    [UnmarshalJSON]), whose transactions have distinct hashes, was added with its receipts, the two block
    queries return the same fields (only the query by number adds an empty [mixHash]), with
    the block's hash, parent and number, and every transaction of
    the block is found by its hash, at its block and position, together with the
    receipt of that position: no query panics and none is null. *)
Theorem rpc_serves_block api bc b rs n full :
  AddBlock bc b (Some rs) = Some (api_bc api, Ok tt) -> readable b -> Number (BHeader b) = Some n -> 0 <= n < 2 ^ 63 ->
  big_uint64 n <> head_alias -> BlockHash b <> zero_hash ->
  NoDup (tx_hash <$> Transactions b) -> length rs = length (Transactions b) ->
  Z.of_nat (length (Transactions b)) <= 2 ^ 64 ->
  (exists res, eth_GetBlockByHash api (BlockHash b) full = Some (Some res) /\
     eth_GetBlockByNumber api n full = Some (Some (<["mixHash" := FHash zero_hash]> res)) /\
     res !! "mixHash" = None /\ res !! "hash" = Some (FHash (BlockHash b)) /\
     res !! "parentHash" = Some (FHash (ParentHash (BHeader b))) /\ res !! "number" = Some (FUint64 (wd n))) /\
  (forall i tx, Transactions b !! i = Some tx -> exists r tres rres, rs !! i = Some r /\
     eth_GetTransactionByHash api (tx_hash tx) = Some tres /\
     eth_GetTransactionReceipt api (tx_hash tx) = Some (Some rres) /\
     tres !! "hash" = Some (FHash (tx_hash tx)) /\ tres !! "nonce" = Some (FUint64 (tx_nonce tx)) /\
     Forall (fun res => res !! "blockHash" = Some (FHash (BlockHash b)) /\
                        res !! "blockNumber" = Some (FUint64 (wd n)) /\
                        res !! "transactionIndex" = Some (FUint64 (wd (Z.of_nat i)))) [tres; rres] /\
     rres !! "status" = Some (FUint64 (Types.Status r)) /\ rres !! "gasUsed" = Some (FUint64 (RGasUsed r))).
Proof.
  intros H Hrb Hn Hpos Ha Hz HN Hl Hlen.
  assert (big_uint64 n = wd n) as En by (unfold big_uint64; by rewrite Z.abs_eq by lia).
  pose proof (AddBlock_reads _ _ _ _ H Hrb) as Hrd.
  split.
  - exists (block_fields b n full). split_and!.
    + unfold eth_GetBlockByHash. rewrite Hrd, Hn. done.
    + unfold eth_GetBlockByNumber, rpc_block_by_number, LatestBlockNumber, PendingBlockNumber.
      rewrite !(proj2 (Z.eqb_neq _ _)) by lia. rewrite <- En.
      rewrite (AddBlock_canonical _ _ _ _ _ _ H Hn Ha), decide_True by done.
      rewrite bool_decide_eq_false_2 by done. rewrite Hrd, Hn. done.
    + apply block_fields_mixHash.
    + done.
    + done.
    + by rewrite <- En.
  - intros i tx Hi. destruct (lookup_lt_is_Some_2 rs i) as [r Hr]; [rewrite Hl; by eapply lookup_lt_Some|].
    destruct (stored_tx_found api bc b rs n i tx r H Hrb Hn HN Hlen Hi Hr) as [H1 H2].
    rewrite En in H1, H2. exists r. eexists _, _. split_and!; [exact Hr|exact H1|exact H2|..]; unfold tx_fields;
      destruct (tx_sig tx) as [[v r'] s]; repeat constructor.
Qed.
End Lookup.

(** ** The state the queries see *)

Section States.
Context {C : Crypto} {V : Verkle} {VL : VerkleLaws V} {EV : EVM} {TT : TxTools}.
Context {CB : Codec Block} {CR : Codec (list Receipt)} {CT : Codec TxLookupEntry}.
Implicit Types (n : Node).

(** Nothing uncommitted, and the tree in memory holds what the database holds: the node after
    start-up, and after a commit that erased no value. *)
Definition settled n : Prop :=
  exists f t, n_state n = Base f t /\ dirty f = ∅ /\ in_sync (Base f t) (chain_db (n_bc n)) /\ db_ok (chain_db (n_bc n)).

Lemma StateAt_settled n root k :
  settled n -> is_key k -> getVerkleValue (StateAt (n_bc n) root) k = getVerkleValue (n_state n) k.
Proof.
  intros (f & t & Hs & Hd & Hsync & Hok) Hk. unfold StateAt. rewrite get_New by done. rewrite Hs.
  cbn [getVerkleValue]. rewrite Hd, lookup_empty. symmetry. apply Hsync; [done|]. by rewrite Hd, lookup_empty.
Qed.

Lemma GetNonce_settled n root a : settled n -> GetNonce (StateAt (n_bc n) root) a = GetNonce (n_state n) a.
Proof. intros H. apply GetNonce_ext, StateAt_settled; [done|]. apply (slot_key_is_key (SNonce a)). Qed.

Lemma GetBalance_settled n root a : settled n -> GetBalance (StateAt (n_bc n) root) a = GetBalance (n_state n) a.
Proof. intros H. apply GetBalance_ext, StateAt_settled; [done|]. apply (slot_key_is_key (SBalance a)). Qed.

Lemma GetState_settled n root a k : settled n -> GetState (StateAt (n_bc n) root) a k = GetState (n_state n) a k.
Proof. intros H. apply GetState_ext, StateAt_settled; [done|]. apply (slot_key_is_key (SStorage a k)). Qed.

(** State queries answer for the head, whatever block they name. On a settled node,
    the nonce, balance and storage queries with any block reference that resolves, an old
    block included, return the node's current values; a reference that does not
    resolve is an error, except for the balance query, which never looks at it. *)
Theorem queries_answer_head n ref a slot res :
  settled n -> headerByRpcBlock (eth_api n) ref = Some res ->
  eth_GetBalance (eth_api n) a ref = uval (GetBalance (n_state n) a) /\
  match res with
  | Ok _ =>
      eth_GetTransactionCount (eth_api n) a ref = Some (Ok (GetNonce (n_state n) a)) /\
      eth_GetStorageAt (eth_api n) a slot ref = Some (Ok (hash_bytes (GetState (n_state n) a (HexToHash slot))))
  | Err err => err = ErrBlockNotFound /\
      eth_GetTransactionCount (eth_api n) a ref = Some (Err ErrBlockNotFound) /\
      eth_GetStorageAt (eth_api n) a slot ref = Some (Err ErrBlockNotFound)
  end.
Proof.
  intros Hs Hr. split; [done|]. unfold eth_GetTransactionCount, eth_GetStorageAt, with_state_at. rewrite Hr.
  cbn [mbind option_bind]. destruct res as [h|err].
  - change (api_bc (eth_api n)) with (n_bc n). by rewrite GetNonce_settled, GetState_settled.
  - assert (err = ErrBlockNotFound) as ->; [|done]. unfold headerByRpcBlock, found in Hr.
    destruct (ref_BlockHash ref); [destruct (GetBlockByHash _ _); naive_solver|].
    destruct (ref_BlockNumber ref) as [z|]; [|by destruct (api_head _)].
    destruct (_ =? _); [by destruct (api_head _)|]. destruct (_ =? _); [by destruct (api_head _)|].
    destruct (_ =? _); [by destruct (GenesisBlock _)|]. destruct (GetBlockByNumber _ _); naive_solver.
Qed.
End States.

(** ** From submission to inclusion *)

Section Lifecycle.
Context {C : Crypto} {CL : CryptoLaws C} {V : Verkle} {VL : VerkleLaws V} {EV : EVM} {TT : TxTools} {RT : Runtime} {TR : TxRlp}.
Context {CB : Codec Block} {CBL : CodecLaws Block CB readable} {CR : Codec (list Receipt)}
  {CRL : CodecLaws (list Receipt) CR always} {CT : Codec TxLookupEntry} {CTL : CodecLaws TxLookupEntry CT always}.
Implicit Types (n m : Node) (b : Block).

(** What an accepted transaction satisfies. *)
Lemma SendRawTransaction_accepted api data hash tx :
  eth_SendRawTransaction api data = Some (Ok (hash, tx)) ->
  exists from cur, tx_sender tx = Some from /\ CurrentBlock (api_bc api) = Some cur /\ hash = tx_hash tx /\
    tx_size tx <= 512 * 1024 /\
    (0 < tx_chainId tx -> tx_chainId tx = ChainID (chain_config (api_bc api))) /\
    let s := StateAt (api_bc api) (VerkleRoot (BHeader cur)) in
    uval (GetNonce s from) <= uval (tx_nonce tx) /\
    uval (tx_gas tx) * tx_gasPrice tx + tx_value tx <= uval (GetBalance s from).
Proof.
  unfold eth_SendRawTransaction. destruct (DecodeBytes _ _) as [[tx'|]|]; [|done..]. cbn [mbind option_bind].
  destruct (_ && _) eqn:Ec; [done|]. destruct (tx_sender tx') as [from|] eqn:Ef; [|done].
  destruct (Z.ltb_spec (512 * 1024) (tx_size tx')); [done|]. destruct (CurrentBlock _) as [cur|]; [|done].
  set (s := StateAt _ _). destruct (Z.ltb_spec (uval (tx_nonce tx')) (uval (GetNonce s from))); [done|].
  cbn zeta. destruct (Z.ltb_spec (uval (GetBalance s from)) (uval (tx_gas tx') * tx_gasPrice tx' + tx_value tx')); [done|].
  intros [= <- <-]. exists from, cur. split_and!; try done. intros Hpos.
  apply andb_false_iff in Ec as [Ec%Z.ltb_ge|Ec%negb_false_iff]; [lia|]. by apply Z.eqb_eq in Ec.
Qed.

(** A round that moved the head stored its block. *)
Lemma mined_stored n1 n2 n3 batch txs now n' b :
  mine_gap n1 n2 n3 batch txs now n' -> n_sent n' = n_sent n3 ++ [b] ->
  CurrentBlock (n_bc n3) <> Some b -> CurrentBlock (n_bc n') = Some b ->
  exists bc rs, AddBlock bc b (Some rs) = Some (n_bc n', Ok tt) /\ length rs = length (Transactions b) /\
    exists validTxs, validTxs ≡ₚ filter (fun tx => is_Some (tx_sender tx)) batch /\
      Transactions b = select_txs n1 validTxs.
Proof.
  intros [validTxs parent h out _ Htxs -> _ _ Hh Hex Hp] Hsent Hnew Hcur.
  apply execute_batch_inv in Hp as (h' & rs & root & s & Hh' & -> & Hx & _ & _ & [(Hs & _)|Hs]).
  { rewrite Hs in Hsent. apply (f_equal length) in Hsent. rewrite length_app in Hsent. cbn in Hsent. lia. }
  destruct Hs as (key' & sig & bc & r & _ & Hsig & Hsent' & _ & Ha & Hbc & _).
  rewrite Hsent in Hsent'. apply app_inv_head in Hsent' as [= ->].
  destruct (getGasUsed_total _ _ _ _ _ _ _ _ Hex) as [Hl _].
  eexists _, rs. rewrite Hbc. split_and!; [|done|by exists validTxs].
  destruct r as [[]|err]; [exact Ha|]. exfalso. destruct (AddBlock_err _ _ _ _ _ Ha) as (Hsame & _).
  apply Hnew. rewrite <- Hcur, Hbc. symmetry. exact Hsame.
Qed.

Lemma NoDup_batch {A B} (f : A -> B) (P Q : A -> Prop) `{!forall x, Decision (P x), !forall x, Decision (Q x)} l l' :
  NoDup (f <$> l) -> l' ≡ₚ filter P l -> NoDup (f <$> filter Q l').
Proof.
  intros HN Hp. assert (NoDup (f <$> l')) as HN'.
  { rewrite Hp. eapply sublist_NoDup; [exact HN|]. apply fmap_sublist, sublist_filter. }
  eapply sublist_NoDup; [exact HN'|]. apply fmap_sublist, sublist_filter.
Qed.

(** The transactions of the block are as readable, distinct and few as those of the batch. *)
Lemma selected_batch n1 validTxs batch :
  validTxs ≡ₚ filter (fun tx => is_Some (tx_sender tx)) batch ->
  (NoDup (tx_hash <$> batch) -> NoDup (tx_hash <$> select_txs n1 validTxs)) /\
  (Forall (fun tx => readable_tx tx = true) batch -> Forall (fun tx => readable_tx tx = true) (select_txs n1 validTxs)) /\
  (length (select_txs n1 validTxs) <= length batch)%nat.
Proof.
  intros Hv. split_and!.
  - intros HN. by eapply NoDup_batch; [exact HN|exact Hv].
  - rewrite !Forall_forall. intros Hr tx Htx. apply Hr. unfold select_txs in Htx.
    apply list_elem_of_filter in Htx as [_ Htx]. rewrite Hv in Htx. by apply list_elem_of_filter in Htx as [_ Htx].
  - unfold select_txs. etransitivity; [apply length_filter|]. rewrite Hv. apply length_filter.
Qed.

(** A transaction of the batch of a round that extended the chain. *)
Lemma signed_in_batch n1 n2 n3 batch txs now n' b number tx a :
  tx_sender tx = Some a -> tx ∈ batch -> NoDup (tx_hash <$> batch) -> (length batch <= 2800)%nat ->
  Forall (fun tx => readable_tx tx = true) batch ->
  mine_gap n1 n2 n3 batch txs now n' -> n_sent n' = n_sent n3 ++ [b] ->
  CurrentBlock (n_bc n3) <> Some b -> CurrentBlock (n_bc n') = Some b -> Number (BHeader b) = Some number ->
  (tx ∈ Transactions b <-> tx_nonce tx = GetNonce (n_state n1) a /\
     (tx_gasPrice tx * uval (tx_gas tx)) mod 2 ^ 256 <= uval (GetBalance (n_state n1) a)) /\
  (tx ∈ Transactions b -> exists i r,
     let entry := mkLookup (BlockHash b) (big_uint64 number) (wd (Z.of_nat i)) in
     Transactions b !! i = Some tx /\ eth_GetTransactionByHash (eth_api n') (tx_hash tx) = Some (tx_fields entry tx) /\
     eth_GetTransactionReceipt (eth_api n') (tx_hash tx) = Some (Some (receipt_fields entry (tx_hash tx) b tx r))).
Proof.
  intros Ha Hin HN Hlen Hrd Hmine Hsent Hnew Hcur Hnum.
  destruct (mined_stored _ _ _ _ _ _ _ _ Hmine Hsent Hnew Hcur) as (bc & rs & Hadd & Hl & validTxs & Hv & Hb).
  destruct (selected_batch n1 validTxs batch Hv) as (HN' & Hrd' & Hlen').
  split.
  - rewrite Hb. unfold select_txs. rewrite list_elem_of_filter, (affordable_spec _ _ a) by done.
    assert (tx ∈ validTxs) by (rewrite Hv; apply list_elem_of_filter; by split; [eexists|]). naive_solver.
  - intros Htx. apply list_elem_of_lookup in Htx as [i Hi].
    destruct (lookup_lt_is_Some_2 rs i) as [r Hr]; [rewrite Hl; by eapply lookup_lt_Some|].
    exists i, r. cbn zeta. split; [done|]. rewrite <- Hb in *.
    apply (stored_tx_found _ bc b rs); try done; [by apply Hrd'|by apply HN'|lia].
Qed.

(** A cost the submission let through is within the balance, also modulo 2^256. *)
Lemma accepted_affordable m0 data hash tx a :
  settled m0 -> eth_SendRawTransaction (eth_api m0) data = Some (Ok (hash, tx)) -> tx_sender tx = Some a ->
  0 <= tx_gasPrice tx -> 0 <= tx_value tx ->
  (tx_gasPrice tx * uval (tx_gas tx)) mod 2 ^ 256 <= uval (GetBalance (n_state m0) a).
Proof.
  intros Hs Hsend Ha Hp Hv.
  destruct (SendRawTransaction_accepted _ _ _ _ Hsend) as (a' & cur & Ha' & _ & -> & _ & _ & _ & Hbal).
  rewrite Ha in Ha'. injection Ha' as <-. change (api_bc (eth_api m0)) with (n_bc m0) in Hbal.
  rewrite GetBalance_settled in Hbal by done. pose proof (uval_range (tx_gas tx)).
  etransitivity; [apply Z.mod_le; nia|]. nia.
Qed.

(** C18: From submission to receipt. A transaction that [eth_sendRawTransaction] accepted earlier, at any node,
    comes up in the batch (at most 2800 transactions with distinct hashes, all readable back) of a mining round
    which extends the chain of a possibly different node, other steps of which may come between the parts of the round.
    It is in the mined block exactly when, at the time of the checks, its nonce is the account's and its gas cost,
    modulo 2^256, is within the account's balance: one with a later nonce, or whose sender has spent the
    money in the meantime, is dropped. If it was accepted on a settled node and the sender's balance did not
    drop since, the nonce alone decides. Once mined, the hash the submission returned gives its block and a receipt. *)
Theorem accepted_tx_mined m0 n1 n2 n3 data hash tx batch txs now n' b number a :
  eth_SendRawTransaction (eth_api m0) data = Some (Ok (hash, tx)) -> tx_sender tx = Some a ->
  tx ∈ batch -> NoDup (tx_hash <$> batch) -> (length batch <= 2800)%nat ->
  Forall (fun tx => readable_tx tx = true) batch ->
  mine_gap n1 n2 n3 batch txs now n' -> n_sent n' = n_sent n3 ++ [b] ->
  CurrentBlock (n_bc n3) <> Some b -> CurrentBlock (n_bc n') = Some b -> Number (BHeader b) = Some number ->
  (tx ∈ Transactions b <-> tx_nonce tx = GetNonce (n_state n1) a /\
     (tx_gasPrice tx * uval (tx_gas tx)) mod 2 ^ 256 <= uval (GetBalance (n_state n1) a)) /\
  (settled m0 -> uval (GetBalance (n_state m0) a) <= uval (GetBalance (n_state n1) a) ->
     0 <= tx_gasPrice tx -> 0 <= tx_value tx ->
     (tx ∈ Transactions b <-> tx_nonce tx = GetNonce (n_state n1) a)) /\
  (tx ∈ Transactions b -> exists i r,
     let entry := mkLookup (BlockHash b) (big_uint64 number) (wd (Z.of_nat i)) in
     Transactions b !! i = Some tx /\ eth_GetTransactionByHash (eth_api n') hash = Some (tx_fields entry tx) /\
     eth_GetTransactionReceipt (eth_api n') hash = Some (Some (receipt_fields entry hash b tx r))).
Proof.
  intros Hsend Ha Hin HN Hlen Hrd Hmine Hsent Hnew Hcur Hnum.
  destruct (SendRawTransaction_accepted _ _ _ _ Hsend) as (_ & _ & _ & _ & -> & _).
  destruct (signed_in_batch _ _ _ _ _ _ _ _ _ _ _ Ha Hin HN Hlen Hrd Hmine Hsent Hnew Hcur Hnum) as [Hiff Hfound].
  split_and!; [done| |done]. intros Hs Hle Hp Hv. rewrite Hiff.
  pose proof (accepted_affordable _ _ _ _ _ Hs Hsend Ha Hp Hv). split; [naive_solver|]. intros ->. split; [done|lia].
Qed.
End Lifecycle.
