(* ===== verification/Filters.v ===== *)
(** * Filters: rpc/eth_filters.go, the log queries.

    [eth_GetLogs] walks the canonical blocks of a range in 64-bit signed arithmetic,
    reads their receipts and returns the logs that match. The outer [None] is a Go
    panic or a loop that did not finish within its fuel; a nil slice is the inner
    [None]. [getlogs_exact] shows that the fuel is enough and says which
    logs are returned. *)

From S2P Require Import Prelude Words Interfaces Rlp Types Hex StateDB StateOps Scheduler Consensus Genesis SystemContracts Executor RawDB Blockchain Stream P2P Node Rpc.

Record FilterCriteria := mkCriteria {
  fc_BlockHash : option Hash;
  fc_FromBlock : option Z;
  fc_ToBlock : option Z;
  fc_Addresses : list Address;
  fc_Topics : list (list Hash)
}.

(** The topic loop of [filterLog] from position [i]. *)
Fixpoint match_topics (have : list Hash) (i : nat) (topics : list (list Hash)) : bool :=
  match topics with
  | [] => true
  | sub :: rest =>
      match have !! i with
      | None => false
      | Some topic =>
          if bool_decide (sub = []) then match_topics have (S i) rest
          else if existsb (fun t => bool_decide (topic = t)) sub then match_topics have (S i) rest
          else false
      end
  end.

Definition filterLog (log : Log) (addresses : list Address) (topics : list (list Hash)) : bool :=
  if negb (bool_decide (addresses = [])) && negb (existsb (fun addr => bool_decide (log_address log = addr)) addresses)
  then false
  else match_topics (log_topics log) 0 topics.

Section Filters.
Context {C : Crypto} {V : Verkle} {EV : EVM}.
Context {CB : Codec Block} {CR : Codec (list Receipt)} {CT : Codec TxLookupEntry}.

(** [int64(bc.CurrentBlock().Header.Number.Uint64())] *)
Definition head_int64 (api : PublicEthAPI) : option Z :=
  block ← CurrentBlock (api_bc api);
  number ← Number (BHeader block);
  Some (to_int64 (big_uint64 number)).

(** One end of the range; a missing end is the latest block. *)
Definition resolve_end (api : PublicEthAPI) (end_ : option Z) : option Z :=
  let number := default LatestBlockNumber end_ in
  if (number =? LatestBlockNumber) || (number =? PendingBlockNumber) then head_int64 api
  else if number =? EarliestBlockNumber then Some 0
  else Some number.

(** What a matching log of a block gets before it is returned: the block it was found in,
    and the transaction when the stored block has one at that index. *)
Definition annotate (db : DB) (i : Z) (hash : Hash) (txIndex logIndex : nat) (log : Log) : Log :=
  let log := mkLog (log_address log) (log_topics log) (log_data log) (wd i) (log_txHash log) (log_txIndex log)
               hash (log_index log) (log_removed log) in
  match block ← ReadBlock db hash; Transactions block !! txIndex with
  | Some tx =>
      mkLog (log_address log) (log_topics log) (log_data log) (log_blockNumber log) (tx_hash tx)
        (wd (Z.of_nat txIndex)) (log_blockHash log) (wd (Z.of_nat logIndex)) (log_removed log)
  | None => log
  end.

(** The two inner loops: the receipts of a block and the logs of a receipt. *)
Definition receipt_logs (db : DB) (criteria : FilterCriteria) (i : Z) (hash : Hash) (txIndex : nat) (receipt : Receipt)
  : list Log :=
  concat (imap (fun logIndex log =>
    if filterLog log (fc_Addresses criteria) (fc_Topics criteria)
    then [annotate db i hash txIndex logIndex log] else []) (Logs receipt)).

Definition block_logs (db : DB) (criteria : FilterCriteria) (i : Z) : list Log :=
  let hash := ReadCanonicalHash db (wd i) in
  if bool_decide (hash = zero_hash) then []
  else match ReadReceipts db hash with
       | None => []
       | Some receipts => concat (imap (receipt_logs db criteria i hash) receipts)
       end.

(** [for i := begin; i <= end; i++], with [i] an int64. *)
Fixpoint collect_logs (fuel : nat) (db : DB) (criteria : FilterCriteria) (i end_ : Z) (logs : list Log)
  : option (list Log) :=
  match fuel with
  | O => None
  | S fuel =>
      if i <=? end_
      then collect_logs fuel db criteria (to_int64 (wd (i + 1))) end_ (logs ++ block_logs db criteria i)
      else Some logs
  end.

(** [Some None] is the nil result for an unknown block hash. *)
Definition log_range (api : PublicEthAPI) (criteria : FilterCriteria) : option (option (Z * Z)) :=
  match fc_BlockHash criteria with
  | Some hash =>
      match ReadBlock (chain_db (api_bc api)) hash with
      | None => Some None
      | Some block =>
          number ← Number (BHeader block);
          let number := to_int64 (big_uint64 number) in Some (Some (number, number))
      end
  | None =>
      begin ← resolve_end api (fc_FromBlock criteria);
      end_ ← resolve_end api (fc_ToBlock criteria);
      Some (Some (begin, end_))
  end.

Definition eth_GetLogs (api : PublicEthAPI) (criteria : FilterCriteria)
  : option (result rpc_error (option (list Log))) :=
  range ← log_range api criteria;
  match range with
  | None => Some (Ok None)
  | Some (begin, end_) =>
      headNum ← head_int64 api;
      if headNum <? begin then Some (Ok (Some []))
      else
        let end_ := if headNum <? end_ then headNum else end_ in
        if end_ <? begin then Some (Ok (Some []))
        else if 2000 <? to_int64 (wd (end_ - begin)) then Some (Err ErrTooManyResults)
        else
          logs ← collect_logs 2002 (chain_db (api_bc api)) criteria begin end_ [];
          Some (Ok (Some logs))
  end.
End Filters.

(** ** The filter *)

(** What a filter means: the address is one of the listed ones, if any, and every position
    of the topics exists in the log and is either a wildcard or lists the log's topic. *)
Definition log_matches (criteria : FilterCriteria) (log : Log) : Prop :=
  (fc_Addresses criteria = [] \/ log_address log ∈ fc_Addresses criteria) /\
  forall i sub, fc_Topics criteria !! i = Some sub ->
    exists topic, log_topics log !! i = Some topic /\ (sub = [] \/ topic ∈ sub).

Lemma existsb_elem {A} `{EqDecision A} (x : A) l : existsb (fun y => bool_decide (x = y)) l = true <-> x ∈ l.
Proof.
  rewrite existsb_exists. setoid_rewrite bool_decide_eq_true. setoid_rewrite list_elem_of_In. naive_solver.
Qed.

Lemma match_topics_spec have i topics :
  match_topics have i topics = true <->
  forall j sub, topics !! j = Some sub -> exists topic, have !! (i + j)%nat = Some topic /\ (sub = [] \/ topic ∈ sub).
Proof.
  revert i. induction topics as [|sub rest IH]; intros i; [done|]. cbn [match_topics].
  assert ((forall j s, (sub :: rest) !! j = Some s -> exists t, have !! (i + j)%nat = Some t /\ (s = [] \/ t ∈ s)) <->
          (exists t, have !! i = Some t /\ (sub = [] \/ t ∈ sub)) /\
          forall j s, rest !! j = Some s -> exists t, have !! (S i + j)%nat = Some t /\ (s = [] \/ t ∈ s)) as ->.
  { split.
    - intros H. split; [by destruct (H 0%nat sub eq_refl) as (t & Ht); rewrite Nat.add_0_r in Ht; eauto|].
      intros j s Hj. destruct (H (S j) s Hj) as (t & Ht). rewrite Nat.add_succ_r in Ht. eauto.
    - intros [(t & Ht) H] [|j] s Hj; cbn in Hj; [simplify_eq; rewrite Nat.add_0_r; eauto|].
      destruct (H j s Hj) as (t' & Ht'). rewrite Nat.add_succ_r. eauto. }
  destruct (have !! i) as [t|]; [|naive_solver].
  case_bool_decide as Hs; [rewrite IH; naive_solver|].
  destruct (existsb _ sub) eqn:E; [apply existsb_elem in E; rewrite IH; naive_solver|].
  split; [done|]. intros [(t' & [= <-] & [?|Hin]) _]; [done|]. apply existsb_elem in Hin. congruence.
Qed.

Lemma filterLog_spec criteria log :
  filterLog log (fc_Addresses criteria) (fc_Topics criteria) = true <-> log_matches criteria log.
Proof.
  unfold filterLog, log_matches. destruct (existsb _ (fc_Addresses criteria)) eqn:E.
  - apply existsb_elem in E. rewrite andb_false_r, match_topics_spec. naive_solver.
  - rewrite andb_true_r. case_bool_decide as Ha; cbn [negb].
    + rewrite match_topics_spec. naive_solver.
    + split; [done|]. intros [[?|Hin] _]; [done|]. apply existsb_elem in Hin. congruence.
Qed.

(** ** The result of a query *)

Section FilterTheorems.
Context {C : Crypto} {V : Verkle} {EV : EVM}.
Context {CB : Codec Block} {CR : Codec (list Receipt)} {CT : Codec TxLookupEntry}.
Implicit Types (api : PublicEthAPI) (criteria : FilterCriteria).

Lemma elem_of_concat_imap {A B} (f : nat -> A -> list B) l x :
  x ∈ concat (imap f l) <-> exists i y, l !! i = Some y /\ x ∈ f i y.
Proof.
  rewrite list_elem_of_In, in_concat. setoid_rewrite <- list_elem_of_In.
  setoid_rewrite elem_of_lookup_imap. naive_solver.
Qed.

(** [l] is log number [logIndex] of transaction number [txIndex] in the canonical block [i],
    as the receipts of that block have it, and it matches. *)
Definition stored_log (db : DB) criteria (i : Z) (l : Log) : Prop :=
  exists receipts txIndex receipt logIndex log,
    let hash := ReadCanonicalHash db (wd i) in
    hash <> zero_hash /\ ReadReceipts db hash = Some receipts /\ receipts !! txIndex = Some receipt /\
    Logs receipt !! logIndex = Some log /\ log_matches criteria log /\
    l = annotate db i hash txIndex logIndex log.

Lemma elem_of_block_logs db criteria i l : l ∈ block_logs db criteria i <-> stored_log db criteria i l.
Proof.
  unfold block_logs, stored_log. cbn zeta. case_bool_decide as Hz.
  { split; [by intros ?%not_elem_of_nil|]. naive_solver. }
  destruct (ReadReceipts db _) as [rs|].
  2:{ split; [by intros ?%not_elem_of_nil|]. naive_solver. }
  rewrite elem_of_concat_imap. unfold receipt_logs. setoid_rewrite elem_of_concat_imap.
  split.
  - intros (ti & r & Hr & li & log & Hl & Hin). destruct (filterLog _ _ _) eqn:E; [|by apply not_elem_of_nil in Hin].
    apply filterLog_spec in E. apply list_elem_of_singleton in Hin. exists rs, ti, r, li, log. done.
  - intros (rs' & ti & r & li & log & _ & [= <-] & Hr & Hl & Hm & ->). exists ti, r. split; [done|].
    exists li, log. split; [done|]. apply filterLog_spec in Hm. rewrite Hm. set_solver.
Qed.

Lemma to_int64_wd z : - 2 ^ 63 <= z < 2 ^ 63 -> to_int64 (wd z) = z.
Proof.
  intros Hz. unfold to_int64. rewrite uval_wd. change (2 ^ Z.of_N 64) with (2 ^ 64).
  destruct (Z.ltb_spec z 0).
  - rewrite <- (Z_mod_plus_full z 1), Z.mod_small by lia. destruct (Z.ltb_spec (z + 1 * 2 ^ 64) (2 ^ 63)); lia.
  - rewrite Z.mod_small by lia. destruct (Z.ltb_spec z (2 ^ 63)); lia.
Qed.

Lemma collect_logs_spec fuel db criteria i e logs :
  - 2 ^ 63 <= i <= e + 1 -> e < 2 ^ 63 - 1 -> e - i + 1 < Z.of_nat fuel ->
  collect_logs fuel db criteria i e logs = Some (logs ++ concat (block_logs db criteria <$> seqZ i (e - i + 1))).
Proof.
  revert i logs. induction fuel as [|fuel IH]; intros i logs Hi He Hf; [lia|]. cbn [collect_logs].
  destruct (Z.leb_spec i e) as [Hle|Hgt].
  - rewrite to_int64_wd, IH by lia. rewrite (seqZ_cons i) by lia. cbn [fmap list_fmap concat].
    replace (Z.pred (e - i + 1)) with (e - (i + 1) + 1) by lia. by rewrite <- app_assoc.
  - rewrite seqZ_nil by lia. cbn. by rewrite app_nil_r.
Qed.

(** C21: A log query returns exactly the matching logs of its range. With the range's ends
    resolved to [b] and [e] (no end below the tags, a head below 2^62), the query always
    returns: more than 2001 blocks up to the head is an error, and otherwise the result
    lists, block by block, the logs of the canonical blocks from [b] to
    [min e head] that satisfy the filter, and nothing else, an empty range giving none. *)
Theorem getlogs_exact api criteria b e headNum :
  log_range api criteria = Some (Some (b, e)) -> head_int64 api = Some headNum ->
  EarliestBlockNumber <= b -> headNum < 2 ^ 62 ->
  let e := Z.min e headNum in
  (2000 < e - b -> eth_GetLogs api criteria = Some (Err ErrTooManyResults)) /\
  (e - b <= 2000 -> exists logs, eth_GetLogs api criteria = Some (Ok (Some logs)) /\
     logs = concat (block_logs (chain_db (api_bc api)) criteria <$> seqZ b (e - b + 1)) /\
     forall l, l ∈ logs <-> exists i, b <= i <= e /\ stored_log (chain_db (api_bc api)) criteria i l).
Proof.
  intros Hr Hh Hb Hlt. cbn zeta. unfold eth_GetLogs. rewrite Hr, Hh. cbn [mbind option_bind].
  unfold EarliestBlockNumber in Hb.
  set (db := chain_db (api_bc api)). set (m := Z.min e headNum).
  assert (m <= headNum) as Hm by (unfold m; lia).
  assert ((if headNum <? e then headNum else e) = m) as -> by (unfold m; destruct (Z.ltb_spec headNum e); lia).
  assert (forall l, l ∈ concat (block_logs db criteria <$> seqZ b (m - b + 1)) <->
            exists i, b <= i <= m /\ stored_log db criteria i l) as Hspec.
  { intros l. rewrite list_elem_of_In, in_concat. setoid_rewrite <- list_elem_of_In.
    setoid_rewrite list_elem_of_fmap. split.
    - intros (? & (i & -> & Hi) & Hl). apply elem_of_seqZ in Hi. exists i. rewrite elem_of_block_logs in Hl. split; [lia|done].
    - intros (i & Hi & Hl). exists (block_logs db criteria i). rewrite elem_of_block_logs. split; [|done].
      exists i. split; [done|]. apply elem_of_seqZ. lia. }
  assert (m < b -> concat (block_logs db criteria <$> seqZ b (m - b + 1)) = []) as Hnil
    by (intros; rewrite seqZ_nil by lia; done).
  destruct (Z.ltb_spec headNum b) as [H1|H1].
  { split; [lia|]. intros _. exists []. rewrite Hnil in Hspec by lia. rewrite Hnil by lia. done. }
  destruct (Z.ltb_spec m b) as [H2|H2].
  { split; [lia|]. intros _. exists []. rewrite Hnil in Hspec by lia. rewrite Hnil by lia. done. }
  rewrite to_int64_wd by lia. destruct (Z.ltb_spec 2000 (m - b)) as [H3|H3]; (split; [try done; lia|try lia; intros _]).
  rewrite collect_logs_spec by lia. cbn [mbind option_bind app]. eauto.
Qed.

(** Asking for the logs of a block that lost its number returns another block's logs.
    [GetLogs] with a block hash keeps only the block's number: when the canonical hash of the
    number is not the requested one, every log returned belongs to the canonical block,
    so no log of the requested block is ever returned. *)
Theorem getlogs_by_hash_other api criteria hash block n headNum :
  fc_BlockHash criteria = Some hash -> ReadBlock (chain_db (api_bc api)) hash = Some block ->
  Number (BHeader block) = Some n -> 0 <= n <= headNum -> head_int64 api = Some headNum -> headNum < 2 ^ 62 ->
  ReadCanonicalHash (chain_db (api_bc api)) (wd n) <> hash ->
  exists logs, eth_GetLogs api criteria = Some (Ok (Some logs)) /\
    forall l, l ∈ logs -> log_blockHash l = ReadCanonicalHash (chain_db (api_bc api)) (wd n) /\ log_blockHash l <> hash.
Proof.
  intros Hc Hb Hn Hle Hh Hlt Hne.
  assert (log_range api criteria = Some (Some (n, n))) as Hr.
  { unfold log_range. rewrite Hc, Hb, Hn. cbn [mbind option_bind]. unfold big_uint64.
    by rewrite Z.abs_eq, to_int64_wd by lia. }
  assert (forall l, l ∈ block_logs (chain_db (api_bc api)) criteria n ->
     log_blockHash l = ReadCanonicalHash (chain_db (api_bc api)) (wd n)) as Hl.
  { intros l Hl. apply elem_of_block_logs in Hl as (rs & ti & r & li & log & _ & _ & _ & _ & _ & ->).
    unfold annotate. by destruct (_ ≫= _). }
  unfold eth_GetLogs. rewrite Hr, Hh. cbn [mbind option_bind].
  rewrite !(proj2 (Z.ltb_ge _ _)) by lia. rewrite Z.sub_diag, to_int64_wd by lia.
  cbn [Z.ltb]. change (2000 <? 0) with false. cbn iota. rewrite collect_logs_spec by lia.
  cbn [mbind option_bind app]. eexists. split; [done|]. intros l Hin.
  replace (n - n + 1) with 1 in Hin by lia. rewrite seqZ_cons, seqZ_nil in Hin by lia.
  cbn [fmap list_fmap concat] in Hin. rewrite app_nil_r in Hin. rewrite (Hl l Hin). done.
Qed.
End FilterTheorems.
