(* ===== verification/Services.v ===== *)
(** * Services: the smaller JSON-RPC services (rpc/net_api.go, rpc/zelius_api.go) and the
    console of the node (cmd/zephyria/main.go).

    The services reach the rest of the node through interfaces of the source: [PeerManager],
    which the p2p server implements, and [StakingBackend], which the node implements. *)

From stdpp Require Import pretty.
From S2P Require Import Prelude Words Interfaces Rlp Types Hex StateDB StateOps Scheduler Consensus Genesis SystemContracts Executor RawDB Blockchain Stream P2P Node.

(** ** rpc/net_api.go *)

(** [None] is a call that never returns. *)
Class PeerManager (A : Type) := { peer_count : A -> option nat }.

#[export] Instance server_peers {V : Verkle} : PeerManager Server := {
  peer_count := PeerCount
}.

Section Net.
Context {C : Crypto} {V : Verkle} {A : Type} {PM : PeerManager A}.

Record PublicNetAPI := NewPublicNetAPI { net_bc : Blockchain; net_p2p : option A }.

Definition net_Listening (api : PublicNetAPI) : bool := true.

Definition net_PeerCount (api : PublicNetAPI) : option u64 :=
  match net_p2p api with
  | None => Some (wd 0)
  | Some p2p => (fun n => wd (Z.of_nat n)) <$> peer_count p2p
  end.

Definition net_Version (api : PublicNetAPI) : string := pretty (ChainID (chain_config (net_bc api))).

Definition web3_ClientVersion : string := "Zephyria/v1.0.0/go-zephyria".
Definition web3_Sha3 (input : bytes) : bytes := hash_bytes (keccak256 input).
End Net.

(** ** rpc/zelius_api.go *)

(** [None] blocks on a full channel. *)
Class StakingBackend (B : Type) := {
  backend_stake : B -> Z -> Address -> option (B * result send_error unit);
  backend_unstake : B -> Address -> option (B * result send_error unit)
}.

#[export] Instance node_backend {C : Crypto} {V : Verkle} {TS : TxSigner} : StakingBackend Node := {
  backend_stake := SendStakeTx;
  backend_unstake := SendUnstakeTx
}.

Section Zelius.
Context {B : Type} {SB : StakingBackend B}.

(** A result of [false] comes with the error. *)
Definition as_reply (r : result send_error unit) : result send_error bool :=
  match r with Ok _ => Ok true | Err err => Err err end.

(** A missing amount is a nil [big.Int], which [NewTransaction] takes for zero. *)
Definition zelius_Stake (backend : B) (author : Address) (amount : option Z) : option (B * result send_error bool) :=
  '(backend, r) ← backend_stake backend (default 0 amount) author;
  Some (backend, as_reply r).

Definition zelius_Unstake (backend : B) (author : Address) : option (B * result send_error bool) :=
  '(backend, r) ← backend_unstake backend author;
  Some (backend, as_reply r).
End Zelius.

(** ** cmd/zephyria/main.go: the configuration *)

Record Flags := mkFlags {
  f_datadir : string;
  f_port : Z;
  f_network : string;
  f_mine : bool;
  f_key : string;
  f_ipcpath : string
}.

(** The loop of [findAvailablePort]; [free] is whether [net.Listen] succeeds on the port. *)
Fixpoint first_free (free : Z -> bool) (tries : nat) (port : Z) : option Z :=
  match tries with
  | O => None
  | S tries => if free port then Some port else first_free free tries (port + 1)
  end.

Definition findAvailablePort (free : Z -> bool) (start : Z) : Z :=
  default start (first_free free 100 start).

(** [strings.TrimPrefix(s, "0x")] *)
Definition trim0x (s : string) : string :=
  if String.prefix "0x" s then String.substring 2 (String.length s - 2) s else s.

(** [common.IsHexAddress] *)
Definition isHexCharacter (c : byte) : bool := bool_decide (is_Some (hex_digit c)).
Definition IsHexAddress (s : bytes) : bool :=
  let s := strip0x s in
  bool_decide (length s = 40%nat) && forallb isHexCharacter s.

(** [strings.Fields] on ASCII text: the non-empty pieces between white space. *)
Definition is_space (c : Ascii.ascii) : bool := existsb (N.eqb (Ascii.N_of_ascii c)) [9; 10; 11; 12; 13; 32]%N.

Fixpoint fields_from (word : string) (s : string) : list string :=
  let flush := if bool_decide (word = EmptyString) then [] else [word] in
  match s with
  | EmptyString => flush
  | String c rest => if is_space c then flush ++ fields_from EmptyString rest
                     else fields_from (word +:+ String c EmptyString) rest
  end.
Definition Fields (s : string) : list string := fields_from EmptyString s.

Section Console.
Context {C : Crypto} {V : Verkle} {EV : EVM} {TS : TxSigner}.
Context {CB : Codec Block} {CR : Codec (list Receipt)} {CT : Codec TxLookupEntry}.
(** go-ethereum's [crypto.HexToECDSA]; [None] is the error result. *)
Variable HexToECDSA : string -> option PrivateKey.

Definition DefaultDevKey : string := "ac0974bec39a17e36ba4a6b4d238ff944bacb478cbed5efcae784d7bf4f2ff80".

(** The first half of [main]; the outer [None] is a panic, the inner one [os.Exit(1)]. *)
Definition configure (f : Flags) (free : Z -> bool) : option (option Config) :=
  privKey ← (if bool_decide (f_key f = EmptyString) then Some <$> HexToECDSA DefaultDevKey
             else Some (HexToECDSA (trim0x (f_key f))));
  match privKey with
  | None => Some None
  | Some privKey =>
      let '(baseP2P, httpPort, wsPort) :=
        if 0 <? f_port f then (findAvailablePort free 30303, f_port f, f_port f + 1)
        else (30303, 8545, 8546) in
      let dataDir := if bool_decide (f_datadir f = EmptyString) then "zephyria-chaindata"%string else f_datadir f in
      let ipcPath := if bool_decide (f_ipcpath f = EmptyString) then (dataDir +:+ "/zephyria.ipc")%string else f_ipcpath f in
      Some (Some (mkConfig (f_network f) dataDir httpPort (Some privKey) baseP2P wsPort ipcPath []))
  end.

(** ** The interactive loop *)

Inductive reply :=
| RBye
| RInfo (height : u64) (hash root : Hash)
| RUsage
| RInvalidAddress
| RBalance (addr : Address) (balance : Z)
| RPeers (count : nat)
| RDialing
| RInvalidKey
| RAdded (addr : Address)
| RInvalidAmount
| RError (err : send_error)
| RSubmitted
| RUnknown.

#[global] Instance send_error_eq_dec : EqDecision send_error.
Proof. solve_decision. Defined.
#[global] Instance reply_eq_dec : EqDecision reply.
Proof. solve_decision. Defined.

(** What the network does while the command runs: whether a dial succeeds, the clock, the
    [select] of the send, and whether the loops of the peers end when they are told to quit. *)
Record Env := mkEnv { env_dial : bool; env_now : Z; env_pick : bool; env_quits : bool }.

Definition submitted (r : result send_error unit) : reply :=
  match r with Ok _ => RSubmitted | Err err => RError err end.

(** One line of input, already split. [None] is a panic or a command that never returns. [n.Stop()] stops the
    server; the listeners and the database it closes besides are those of [node_Stop] in Lifecycle.v. *)
Definition command (env : Env) (n : Node) (s : Server) (parts : list string) : option (Node * Server * reply) :=
  match parts with
  | [] => None
  | cmd :: args =>
      let address (a : string) (k : Address -> option (Node * Server * reply)) :=
        if IsHexAddress (bytes_of_string a) then k (HexToAddress (bytes_of_string a)) else Some (n, s, RInvalidAddress) in
      if bool_decide (cmd = "exit"%string) || bool_decide (cmd = "quit"%string) then
        if env_quits env then s ← server_Stop s; Some (n, s, RBye) else None
      else if bool_decide (cmd = "info"%string) then
        head ← CurrentBlock (n_bc n);
        number ← Number (BHeader head);
        Some (n, s, RInfo (big_uint64 number) (HeaderHash (BHeader head)) (VerkleRoot (BHeader head)))
      else if bool_decide (cmd = "balance"%string) then
        match args with
        | a :: _ => address a (fun addr =>
            if n_stateLock n then None else Some (n, s, RBalance addr (node_GetBalance n addr)))
        | [] => Some (n, s, RUsage)
        end
      else if bool_decide (cmd = "peers"%string) then count ← PeerCount s; Some (n, s, RPeers count)
      else if bool_decide (cmd = "addpeer"%string) then
        match args with
        | _ :: _ => s ← Dial s (env_dial env) (env_now env) (env_pick env); Some (n, s, RDialing)
        | [] => Some (n, s, RUsage)
        end
      else if bool_decide (cmd = "addkey"%string) then
        match args with
        | k :: _ =>
            match HexToECDSA (trim0x k) with
            | None => Some (n, s, RInvalidKey)
            | Some key => Some (AddKey n key, s, RAdded (PubkeyToAddress (pub_of key)))
            end
        | [] => Some (n, s, RUsage)
        end
      else if bool_decide (cmd = "stake"%string) then
        match args with
        | amt :: a :: _ =>
            match SetString 10 (bytes_of_string amt) with
            | None => Some (n, s, RInvalidAmount)
            | Some amt => address a (fun addr => '(n, r) ← SendStakeTx n amt addr; Some (n, s, submitted r))
            end
        | _ => Some (n, s, RUsage)
        end
      else if bool_decide (cmd = "unstake"%string) then
        match args with
        | a :: _ => address a (fun addr => '(n, r) ← SendUnstakeTx n addr; Some (n, s, submitted r))
        | [] => Some (n, s, RUsage)
        end
      else Some (n, s, RUnknown)
  end.

(** The loop over the lines of the standard input, until it ends or a command says so. Other
    goroutines may change the node between two lines; this is the run without them. *)
Fixpoint console (env : Env) (n : Node) (s : Server) (lines : list string) : option (Node * Server * list reply) :=
  match lines with
  | [] => Some (n, s, [])
  | line :: rest =>
      match Fields line with
      | [] => console env n s rest
      | parts =>
          '(n, s, r) ← command env n s parts;
          match r with
          | RBye => Some (n, s, [r])
          | _ => '(n, s, rs) ← console env n s rest; Some (n, s, r :: rs)
          end
      end
  end.
End Console.

(** ** The listeners of [Start] (node/node.go) *)

(** Which of the three TCP listeners are open. *)
Record Listeners := mkListeners { l_p2p : bool; l_http : bool; l_ws : bool }.

Inductive listen_error := ErrListenHTTP.

(** The listeners in the order [Start] opens them: a failure of the P2P or the WebSocket listener
    is reported and ignored, a failure of the HTTP listener ends [Start]. [free] is whether a
    port can be bound before [Start]; a port bound on the way is taken. *)
Definition open_listeners {C : Crypto} (free : Z -> bool) (cfg : Config) : result listen_error Listeners :=
  let p2p := free (P2PPort cfg) in
  let free := fun p => free p && negb (p2p && (p =? P2PPort cfg)) in
  if free (HTTPPort cfg) then
    let free := fun p => free p && negb (p =? HTTPPort cfg) in
    Ok (mkListeners p2p true ((0 <? WSPort cfg) && free (WSPort cfg)))
  else Err ErrListenHTTP.

Lemma first_free_spec free tries port :
  match first_free free tries port with
  | Some p => port <= p < port + Z.of_nat tries /\ free p = true /\ forall q, port <= q < p -> free q = false
  | None => forall q, port <= q < port + Z.of_nat tries -> free q = false
  end.
Proof.
  revert port. induction tries as [|tries IH]; intros port; cbn [first_free]; [lia|].
  destruct (free port) eqn:E; [split_and!; [lia..|done|lia]|]. specialize (IH (port + 1)).
  destruct (first_free free tries (port + 1)) as [p|].
  - destruct IH as (Hr & Hf & Hb). split_and!; [lia..|done|]. intros q Hq.
    destruct (decide (q = port)) as [->|]; [done|]. apply Hb. lia.
  - intros q Hq. destruct (decide (q = port)) as [->|]; [done|]. apply IH. lia.
Qed.

Section ConsoleTheorems.
Context {C : Crypto} {V : Verkle} {EV : EVM} {TS : TxSigner}.
Context {CB : Codec Block} {CR : Codec (list Receipt)} {CT : Codec TxLookupEntry}.
Variable HexToECDSA : string -> option PrivateKey.
Implicit Types (n : Node) (s : Server).

(** The ports of a configured node. With [--port p] the node serves HTTP on [p] and
    WebSockets on [p + 1], and the P2P port is the first free one from 30303 on (30303 when
    none of 100 is free). If [p] and [p + 1] are free and neither is that port, all
    listeners open; if [p] is itself the P2P port, which is the case for [--port 30303] on
    a machine where it is free, the P2P listener takes it and [Start] fails. *)
Theorem configured_ports f free cfg :
  configure HexToECDSA f free = Some (Some cfg) -> 0 < f_port f ->
  HTTPPort cfg = f_port f /\ WSPort cfg = f_port f + 1 /\
  (free (P2PPort cfg) = true /\ 30303 <= P2PPort cfg < 30403 /\ (forall q, 30303 <= q < P2PPort cfg -> free q = false) \/
   P2PPort cfg = 30303 /\ forall q, 30303 <= q < 30403 -> free q = false) /\
  (free (f_port f) = true -> free (f_port f + 1) = true -> P2PPort cfg <> f_port f -> P2PPort cfg <> f_port f + 1 ->
   open_listeners free cfg = Ok (mkListeners (free (P2PPort cfg)) true true)) /\
  (P2PPort cfg = f_port f -> open_listeners free cfg = Err ErrListenHTTP) /\
  (f_port f = 30303 -> free 30303 = true -> P2PPort cfg = f_port f).
Proof.
  unfold configure. intros Hc Hp.
  destruct (if bool_decide (f_key f = EmptyString) then _ else _) as [[key|]|]; [|done..].
  cbn [mbind option_bind] in Hc. rewrite (proj2 (Z.ltb_lt _ _) Hp) in Hc. injection Hc as <-. cbn [HTTPPort WSPort P2PPort].
  pose proof (first_free_spec free 100 30303) as Hff. unfold findAvailablePort in *.
  set (q := default 30303 (first_free free 100 30303)).
  assert (free q = true /\ 30303 <= q < 30403 /\ (forall q', 30303 <= q' < q -> free q' = false) \/
          q = 30303 /\ forall q', 30303 <= q' < 30403 -> free q' = false) as Hq.
  { unfold q. destruct (first_free free 100 30303) as [p|]; cbn; [left|right]; [|by split].
    destruct Hff as (H1 & H2 & H3). split_and!; [done|lia..|done]. }
  split_and!; [done|done|exact Hq| | |].
  - intros H1 H2 Hne Hne'. unfold open_listeners. cbn [HTTPPort WSPort P2PPort]. fold q. rewrite H1, H2.
    rewrite !(proj2 (Z.eqb_neq _ _)) by lia. rewrite andb_false_r. cbn. by rewrite (proj2 (Z.ltb_lt 0 _)) by lia.
  - intros E. unfold open_listeners. cbn [HTTPPort WSPort P2PPort]. fold q. fold q in E. rewrite <- E, Z.eqb_refl, andb_true_r.
    by destruct (free q).
  - intros Ep H3. rewrite Ep. destruct Hq as [(_ & Hr & Hb)|[Hq _]]; [|done]. fold q.
    destruct (decide (q = 30303)) as [|Hne]; [done|]. rewrite Hb in H3 by lia. done.
Qed.

(** What a command may do to a node: add keys, and queue staking transactions signed with
    keys of the keystore, one for each submission reported. *)
Definition console_effect n n' (rs : list reply) : Prop :=
  n_bc n' = n_bc n /\ n_state n' = n_state n /\ n_engine n' = n_engine n /\ n_netCfg n' = n_netCfg n /\
  n_stateLock n' = n_stateLock n /\ n_sent n' = n_sent n /\
  dom (n_keystore n) ⊆ dom (n_keystore n') /\
  exists txs, n_txCh n' = n_txCh n ++ txs /\ length txs = length (filter (fun r => r = RSubmitted) rs) /\
    Forall (fun tx => exists nonce value data key,
      sign_legacy (network_ChainConfig (n_netCfg n)) nonce (StakingAddr (Params (n_netCfg n))) value (wd 100000)
        (DefaultBaseFee (Params (n_netCfg n))) data key = Some tx) txs.

Lemma console_effect_refl n r : r <> RSubmitted -> console_effect n n [r].
Proof.
  intros Hr. unfold console_effect. split_and!; [done..|]. exists []. rewrite app_nil_r.
  rewrite filter_cons_False by done. done.
Qed.

Lemma console_effect_trans n1 n2 n3 rs1 rs2 :
  console_effect n1 n2 rs1 -> console_effect n2 n3 rs2 -> console_effect n1 n3 (rs1 ++ rs2).
Proof.
  intros (H1 & H2 & H3 & H4 & H5 & H6 & H7 & txs & H8 & H9 & H10) (I1 & I2 & I3 & I4 & I5 & I6 & I7 & txs' & I8 & I9 & I10).
  unfold console_effect. split_and!; [congruence..|set_solver|]. exists (txs ++ txs').
  rewrite I8, H8, filter_app, !length_app, H9, I9. split_and!; [by rewrite app_assoc|done|].
  apply Forall_app. split; [done|]. by rewrite H4 in I10.
Qed.

Lemma send_signed_effect n from amount data n' r :
  send_signed n from amount data = Some (n', r) -> console_effect n n' [submitted r].
Proof.
  unfold send_signed. destruct (GetKey n from) as [key|]; [|intros [= <- <-]; by apply console_effect_refl].
  destruct (sign_legacy _ _ _ _ _ _ _ key) as [tx|] eqn:Es; [|intros [= <- <-]; by apply console_effect_refl].
  unfold SubmitTx. destruct (_ <? _)%nat; [|done]. cbn [mbind option_bind]. intros [= <- <-].
  unfold console_effect. split_and!; [done..|]. exists [tx]. split_and!; [done|done|]. constructor; [by eauto|constructor].
Qed.

(** A command that only replies. *)
Ltac quiet := intros [= <- <- <-]; by apply console_effect_refl.

Lemma command_effect env n s parts n' s' r :
  command HexToECDSA env n s parts = Some (n', s', r) -> console_effect n n' [r].
Proof.
  unfold command. destruct parts as [|cmd args]; [done|].
  destruct (_ || _); [destruct (env_quits env); [destruct (server_Stop s); [quiet|done]|done]|].
  case_bool_decide.
  { destruct (CurrentBlock _) as [b|]; [|done]. cbn [mbind option_bind]. destruct (Number _); [|done].
    quiet. }
  case_bool_decide.
  { destruct args as [|a ?]; [quiet|]. destruct (IsHexAddress _); [|quiet].
    destruct (n_stateLock n); [done|]. intros [= <- <- <-]. by apply console_effect_refl. }
  case_bool_decide.
  { destruct (PeerCount s); [|done]. quiet. }
  case_bool_decide.
  { destruct args as [|a ?]; [quiet|].
    destruct (Dial _ _ _ _); [|done]. quiet. }
  case_bool_decide.
  { destruct args as [|k ?]; [quiet|].
    destruct (HexToECDSA _) as [key|]; [intros [= <- <- <-]|quiet].
    unfold console_effect. split_and!; [done..| |].
    - cbn. rewrite dom_insert_L. set_solver.
    - exists []. rewrite app_nil_r. done. }
  case_bool_decide.
  { destruct args as [|amt [|a ?]]; [quiet..|].
    destruct (SetString _ _) as [z|]; [|quiet]. destruct (IsHexAddress _); [|quiet].
    destruct (SendStakeTx _ _ _) as [[n1 r1]|] eqn:E; [|done]. intros [= <- _ <-]. by eapply send_signed_effect. }
  case_bool_decide.
  { destruct args as [|a ?]; [quiet|]. destruct (IsHexAddress _); [|quiet].
    destruct (SendUnstakeTx _ _) as [[n1 r1]|] eqn:E; [|done]. intros [= <- _ <-]. by eapply send_signed_effect. }
  quiet.
Qed.

(** C24: The console cannot damage the node. Whatever lines are typed, the chain, the
    state, the engine, the lock and the sent blocks are untouched and no key is
    forgotten; the only other effect is that the transaction channel gets exactly one more transaction
    per reported submission, each a signed call of the staking contract with the fixed gas and
    price. *)
Theorem console_safe env n s lines n' s' rs :
  console HexToECDSA env n s lines = Some (n', s', rs) -> console_effect n n' rs.
Proof.
  revert n s n' s' rs. induction lines as [|line lines IH]; intros n s n' s' rs; cbn [console].
  - intros [= <- <- <-]. unfold console_effect. split_and!; [done..|]. exists []. by rewrite app_nil_r.
  - destruct (Fields line) as [|p parts]; [apply IH|].
    destruct (command _ env n s (p :: parts)) as [[[n1 s1] r]|] eqn:Ec; [|done]. cbn [mbind option_bind].
    apply command_effect in Ec.
    assert (forall rs1, console_effect n1 n' rs1 -> console_effect n n' (r :: rs1)) as Hcons
      by (intros rs1; by apply (console_effect_trans n n1 n' [r])).
    assert ((r = RBye /\ n' = n1 /\ rs = [r]) \/ (exists rs1, console HexToECDSA env n1 s1 lines = Some (n', s', rs1) /\ rs = r :: rs1) ->
            console_effect n n' rs) as Hend.
    { intros [(-> & -> & ->)|(rs1 & E & ->)]; [done|]. apply Hcons. by eapply IH. }
    intros H. apply Hend. destruct r; try (right; destruct (console _ _ _ _ lines) as [[[n2 s2] rs1]|]; [|done];
      cbn [mbind option_bind] in H; injection H as <- <- <-; by eauto). left. by injection H as <- <- <-.
Qed.
End ConsoleTheorems.
