(* ===== verification/Lifecycle.v ===== *)
(** * Lifecycle: the resources of the nodes of one process (node/node.go, p2p/server.go).

    [New], [Start], [StartMining] and [Stop] on the database lock, the TCP ports and the IPC
    socket of the host. What [Start] does to the chain and the state is [Start] of Node.v, and
    [Server.Stop] is taken to return here: Shutdown.v shows when it does not. *)

From S2P Require Import Prelude Words Interfaces Rlp Types Hex StateDB StateOps Scheduler Consensus Genesis SystemContracts Executor RawDB Blockchain Stream P2P Node Rpc Services.

(** ** State *)

Inductive use := ForP2P | ForHTTP | ForWS.

(** Who holds what: ports and what for, socket files and database locks, by the number of the node. *)
Record Host := mkHost {
  h_ports : gmap Z (nat * use);
  h_sockets : gmap string nat;
  h_dbs : gmap string nat
}.

Inductive open_error := ErrOpenDB | ErrGenesis (err : start_error) | ErrListen (err : listen_error).

Section Lifecycle.
Context {C : Crypto}.

(** The fields of a [Node] that hold a resource. [v_p2p] is the server: whether its listener
    is open and its quit channel closed; [v_loops] counts the mining goroutines. *)
Record Vessel := mkVessel {
  v_config : Config;
  v_db : bool;
  v_p2p : option (bool * bool);
  v_http : bool;
  v_ws : bool;
  v_ipc : bool;
  v_loops : nat
}.

Implicit Types (v : Vessel) (h : Host) (cfg : Config).

(** [New] *)
Definition node_New cfg : Vessel := mkVessel cfg false None false false false 0.

Definition set_p2p v (p : option (bool * bool)) : Vessel := mkVessel (v_config v) (v_db v) p (v_http v) (v_ws v) (v_ipc v) (v_loops v).
Definition set_open_db v (b : bool) : Vessel := mkVessel (v_config v) b (v_p2p v) (v_http v) (v_ws v) (v_ipc v) (v_loops v).
Definition set_http v : Vessel := mkVessel (v_config v) (v_db v) (v_p2p v) true (v_ws v) (v_ipc v) (v_loops v).
Definition set_ws v : Vessel := mkVessel (v_config v) (v_db v) (v_p2p v) (v_http v) true (v_ipc v) (v_loops v).
Definition set_ipc v : Vessel := mkVessel (v_config v) (v_db v) (v_p2p v) (v_http v) (v_ws v) true (v_loops v).

Definition set_ports h (ports : gmap Z (nat * use)) : Host := mkHost ports (h_sockets h) (h_dbs h).
Definition set_sockets h (sockets : gmap string nat) : Host := mkHost (h_ports h) sockets (h_dbs h).
Definition set_dbs h (dbs : gmap string nat) : Host := mkHost (h_ports h) (h_sockets h) dbs.

(** ** Operations *)

(** [net.Listen("tcp", ":port")]: [None] when the port is taken. The port is a fixed one, as in every
    configuration of the repository; port 0, for which the system picks a free port each time, is left out. *)
Definition Listen h (i : nat) (u : use) (port : Z) : option Host :=
  match h_ports h !! port with None => Some (set_ports h (<[port := (i, u)]> (h_ports h))) | Some _ => None end.

(** [leveldb.OpenFile], which locks the directory. *)
Definition OpenFile h (i : nat) (dir : string) : option Host :=
  match h_dbs h !! dir with None => Some (set_dbs h (<[dir := i]> (h_dbs h))) | Some _ => None end.

(** [Server.Start] of a new server; a failed listener leaves the server without one. *)
Definition server_start h (i : nat) (port : Z) : Host * (bool * bool) :=
  match Listen h i ForP2P port with Some h => (h, (true, false)) | None => (h, (false, false)) end.

(** [Server.Stop]; closing the quit channel twice panics. *)
Definition server_stop h (port : Z) (p : bool * bool) : option (Host * (bool * bool)) :=
  if p.2 then None
  else Some (if p.1 then set_ports h (delete port (h_ports h)) else h, (false, true)).

(** The IPC listener: an old socket file is removed first, whoever listens on it. [creatable] is
    whether a socket can be made there. *)
Definition start_ipc h v (i : nat) (creatable : bool) : Host * Vessel :=
  let path := IPCPath (v_config v) in
  if bool_decide (path = EmptyString) then (h, v)
  else if creatable then (set_sockets h (<[path := i]> (h_sockets h)), set_ipc v)
  else (set_sockets h (delete path (h_sockets h)), v).

Definition start_ws h v (i : nat) : Host * Vessel :=
  let port := WSPort (v_config v) in
  if 0 <? port then match Listen h i ForWS port with Some h => (h, set_ws v) | None => (h, v) end else (h, v).

(** [Start]; [chain] is the outcome of the steps on the chain. What was opened before an error
    stays open. *)
Definition node_Start h v (i : nat) (chain : result start_error unit) (creatable : bool)
  : Host * Vessel * result open_error unit :=
  match OpenFile h i (DataDir (v_config v)) with
  | None => (h, v, Err ErrOpenDB)
  | Some h =>
      let v := set_open_db v true in
      match chain with
      | Err err => (h, v, Err (ErrGenesis err))
      | Ok _ =>
          let '(h, server) := server_start h i (P2PPort (v_config v)) in
          let v := set_p2p v (Some server) in
          match Listen h i ForHTTP (HTTPPort (v_config v)) with
          | None => (h, v, Err (ErrListen ErrListenHTTP))
          | Some h =>
              let '(h, v) := start_ws h (set_http v) i in
              let '(h, v) := start_ipc h v i creatable in
              (h, v, Ok tt)
          end
      end
  end.

(** [StartMining]: the ticker of the loop panics before the network is configured. *)
Definition StartMining v : option (Vessel) :=
  if v_db v then Some (mkVessel (v_config v) (v_db v) (v_p2p v) (v_http v) (v_ws v) (v_ipc v) (S (v_loops v))) else None.

(** [Stop]: the server, the IPC socket with its file, and the database; closing a database
    again changes nothing. *)
Definition node_Stop h v (i : nat) : option (Host * Vessel) :=
  '(h, server) ← match v_p2p v with
                 | None => Some (h, None)
                 | Some p => '(h, p) ← server_stop h (P2PPort (v_config v)) p; Some (h, Some p)
                 end;
  let h := if v_ipc v then set_sockets h (delete (IPCPath (v_config v)) (h_sockets h)) else h in
  let h := if v_db v && bool_decide (h_dbs h !! DataDir (v_config v) = Some i)
           then set_dbs h (delete (DataDir (v_config v)) (h_dbs h)) else h in
  Some (h, set_p2p v server).

(** ** A process *)

Record Process := mkProcess { p_host : Host; p_nodes : gmap nat Vessel }.

(** The calls a program makes, in any order. *)
Inductive life_step : Process -> Process -> Prop :=
| life_new h ns i cfg : ns !! i = None -> life_step (mkProcess h ns) (mkProcess h (<[i := node_New cfg]> ns))
| life_start h ns i v chain creatable h' v' r :
    ns !! i = Some v -> node_Start h v i chain creatable = (h', v', r) ->
    life_step (mkProcess h ns) (mkProcess h' (<[i := v']> ns))
| life_mine h ns i v v' :
    ns !! i = Some v -> StartMining v = Some v' -> life_step (mkProcess h ns) (mkProcess h (<[i := v']> ns))
| life_stop h ns i v h' v' :
    ns !! i = Some v -> node_Stop h v i = Some (h', v') -> life_step (mkProcess h ns) (mkProcess h' (<[i := v']> ns)).

(** [P2PInfo]: the listen address' port and the number of peers. *)
Definition P2PInfo v (server : Server) : option (option Z * nat) :=
  match v_p2p v with
  | None => Some (None, 0%nat)
  | Some _ => count ← PeerCount server; Some (Some (P2PPort (v_config v)), count)
  end.

(** [DialPeer] and [AddPeer]: without a server they do nothing. *)
Definition DialPeer {V : Verkle} v (server : Server) (ok : bool) (now : Z) (pick : bool) : option Server :=
  match v_p2p v with None => Some server | Some _ => Dial server ok now pick end.

(** ** Theorems *)

(** The listeners a node has are bound by it. *)
Definition bound h (i : nat) v : Prop :=
  (v_http v = true -> h_ports h !! HTTPPort (v_config v) = Some (i, ForHTTP)) /\
  (v_ws v = true -> h_ports h !! WSPort (v_config v) = Some (i, ForWS)) /\
  (forall q, v_p2p v = Some (true, q) -> h_ports h !! P2PPort (v_config v) = Some (i, ForP2P)).

(** From [h] to [h'], the node [i] bound ports for itself or released its P2P port. *)
Definition only (i : nat) h h' : Prop :=
  forall p o, h_ports h !! p = Some o -> h_ports h' !! p = Some o \/ o = (i, ForP2P).
Definition grows h h' : Prop := forall p o, h_ports h !! p = Some o -> h_ports h' !! p = Some o.

Lemma Listen_grows h i u port h' : Listen h i u port = Some h' -> grows h h' /\ h_ports h' !! port = Some (i, u).
Proof.
  unfold Listen. destruct (h_ports h !! port) as [o|] eqn:E; [done|]. intros [= <-]. cbn.
  split; [|by rewrite lookup_insert_eq]. intros p o Hp. cbn. rewrite lookup_insert_ne; congruence.
Qed.

Lemma grows_refl h : grows h h.
Proof. by intros p o. Qed.
Lemma grows_trans h1 h2 h3 : grows h1 h2 -> grows h2 h3 -> grows h1 h3.
Proof. unfold grows. eauto. Qed.
Lemma bound_grows h h' i v : grows h h' -> bound h i v -> bound h' i v.
Proof. intros Hg (H1 & H2 & H3). unfold bound. eauto 10. Qed.

Lemma server_start_spec h i port h' p :
  server_start h i port = (h', p) -> grows h h' /\ (p.1 = true -> h_ports h' !! port = Some (i, ForP2P)).
Proof.
  unfold server_start. destruct (Listen h i ForP2P port) as [h1|] eqn:E; intros [= <- <-]; [|by split; [apply grows_refl|]].
  destruct (Listen_grows _ _ _ _ _ E). done.
Qed.

Lemma start_ws_spec h v i h' v' :
  start_ws h v i = (h', v') ->
  grows h h' /\ (v' = v \/ v' = set_ws v /\ h_ports h' !! WSPort (v_config v) = Some (i, ForWS)).
Proof.
  unfold start_ws. destruct (0 <? _); [|intros [= <- <-]; by split; [apply grows_refl|left]].
  destruct (Listen h i ForWS _) as [h1|] eqn:E; intros [= <- <-]; [|by split; [apply grows_refl|left]].
  destruct (Listen_grows _ _ _ _ _ E). split; [done|by right].
Qed.

Lemma start_ipc_spec h v i c h' v' :
  start_ipc h v i c = (h', v') -> h_ports h' = h_ports h /\ (v' = v \/ v' = set_ipc v).
Proof. unfold start_ipc. destruct (bool_decide _), c; intros [= <- <-]; cbn; auto. Qed.

Lemma OpenFile_ports h i dir h' : OpenFile h i dir = Some h' -> h_ports h' = h_ports h.
Proof. unfold OpenFile. destruct (h_dbs h !! dir); [done|]. by intros [= <-]. Qed.

(** [Start] releases no port, and what it opened is bound. *)
Lemma node_Start_spec h v i chain c h' v' r :
  node_Start h v i chain c = (h', v', r) ->
  grows h h' /\ v_config v' = v_config v /\ (v_http v = true -> v_http v' = true) /\ (v_ws v = true -> v_ws v' = true) /\
  v_loops v' = v_loops v /\ (bound h i v -> bound h' i v').
Proof.
  unfold node_Start. destruct (OpenFile h i _) as [h1|] eqn:E1; [|intros [= <- <- <-]; by split; [apply grows_refl|]].
  apply OpenFile_ports in E1. assert (grows h h1) as G1 by (intros p o; by rewrite E1).
  destruct chain as [[]|err]; [|intros [= <- <- <-]; split_and!; try done; intros Hb; by apply (bound_grows h h1)].
  destruct (server_start h1 i _) as [h2 p] eqn:E2. apply server_start_spec in E2 as [G2 Hp].
  destruct (Listen h2 i ForHTTP _) as [h3|] eqn:E3.
  2: { intros [= <- <- <-]. split_and!; try done; [by eapply grows_trans|]. intros (B1 & B2 & _).
       split_and!; cbn; [intros; apply G2, G1, B1; done|intros; apply G2, G1, B2; done|]. intros q [= ->]. by apply Hp. }
  apply Listen_grows in E3 as [G3 H3]. destruct (start_ws h3 _ i) as [h4 v4] eqn:E4. apply start_ws_spec in E4 as [G4 Hv4].
  destruct (start_ipc h4 v4 i c) as [h5 v5] eqn:E5. apply start_ipc_spec in E5 as [G5 Hv5]. intros [= <- <- <-].
  assert (grows h4 h5) as G5' by (intros q o; by rewrite G5). clear G5.
  assert (grows h1 h5) as G by eauto using grows_trans.
  split; [by eapply grows_trans|]. cbn in *.
  assert (forall q, p = (true, q) -> h_ports h5 !! P2PPort (v_config v) = Some (i, ForP2P)) as Hp'
    by (intros q ->; apply G5', G4, G3, Hp; done).
  destruct Hv4 as [->|[-> H4]], Hv5 as [->| ->]; cbn in *; (split_and!; try done); intros (B1 & B2 & _);
    (split_and!; cbn; [intros; by apply G5', G4| |intros q [= ->]; by eapply Hp']); intros; first [by apply G5'|by apply G, G1, B2].
Qed.

(** [Stop] releases the P2P port at most. *)
Lemma node_Stop_spec h v i h' v' :
  node_Stop h v i = Some (h', v') -> bound h i v ->
  only i h h' /\ v_config v' = v_config v /\ v_http v' = v_http v /\ v_ws v' = v_ws v /\ v_loops v' = v_loops v /\ bound h' i v'.
Proof.
  unfold node_Stop. intros H (B1 & B2 & B3).
  assert (exists h1 p, only i h h1 /\ v' = set_p2p v p /\ h_ports h' = h_ports h1 /\ forall q, p <> Some (true, q)) as (h1 & p & Ho & -> & E & Hp).
  { destruct (v_p2p v) as [[l q]|] eqn:Ep; cbn in H.
    - unfold server_stop in H. destruct q; [done|]. cbn in H. injection H as <- <-.
      exists (if l then set_ports h (delete (P2PPort (v_config v)) (h_ports h)) else h), (Some (false, true)).
      split; [|by destruct l, (v_ipc v), (v_db v && _)].
      destruct l; [|by left]. intros p o Hp. cbn. destruct (decide (p = P2PPort (v_config v))) as [->|Hne].
      + rewrite (B3 _ eq_refl) in Hp. injection Hp as <-. by right.
      + left. by rewrite lookup_delete_ne.
    - injection H as <- <-. exists h, None. split; [by left|]. by destruct (v_ipc v), (v_db v && _). }
  assert (forall port u, u <> ForP2P -> h_ports h !! port = Some (i, u) -> h_ports h' !! port = Some (i, u)) as Hk.
  { intros port u Hu Hb. rewrite E. destruct (Ho _ _ Hb) as [?|[= ?]]; done. }
  split; [intros q o Hq; rewrite E; by apply Ho|]. split_and!; try done. split_and!; cbn.
  - intros Hh. by apply Hk; [|apply B1].
  - intros Hh. by apply Hk; [|apply B2].
  - intros q Hq. by destruct (Hp q).
Qed.

Definition process_ok (s : Process) : Prop := forall i v, p_nodes s !! i = Some v -> bound (p_host s) i v.

(** What a step leaves of the listeners of a node. *)
Definition kept (s s' : Process) : Prop :=
  forall i v, p_nodes s !! i = Some v -> exists v', p_nodes s' !! i = Some v' /\ v_config v' = v_config v /\
    (v_http v = true -> v_http v' = true) /\ (v_ws v = true -> v_ws v' = true) /\ (v_loops v <= v_loops v')%nat.

Lemma bound_only h h' i j v : only i h h' -> i <> j -> bound h j v -> bound h' j v.
Proof.
  intros Ho Hne (B1 & B2 & B3). split_and!; intros.
  - destruct (Ho _ _ (B1 ltac:(done))) as [?|[=]]; done.
  - destruct (Ho _ _ (B2 ltac:(done))) as [?|[=]]; done.
  - destruct (Ho _ _ (B3 _ ltac:(done))) as [?|[=]]; done.
Qed.

Lemma life_step_ok s s' : life_step s s' -> process_ok s -> process_ok s' /\ kept s s'.
Proof.
  assert (forall h ns h' i v v', ns !! i = Some v -> only i h h' -> v_config v' = v_config v ->
            (v_http v = true -> v_http v' = true) -> (v_ws v = true -> v_ws v' = true) -> (v_loops v <= v_loops v')%nat ->
            bound h' i v' -> process_ok (mkProcess h ns) ->
            process_ok (mkProcess h' (<[i := v']> ns)) /\ kept (mkProcess h ns) (mkProcess h' (<[i := v']> ns))) as Hupd.
  { intros h ns h' i v v' Hi Ho Hc H1 H2 H3 Hb Hok. split; intros j w; cbn; intros Hj.
    - destruct (decide (i = j)) as [<-|Hne].
      + rewrite lookup_insert_eq in Hj. by injection Hj as <-.
      + rewrite lookup_insert_ne in Hj by done. apply (bound_only h h' i); [done..|]. by apply Hok.
    - destruct (decide (i = j)) as [<-|Hne].
      + rewrite Hi in Hj. injection Hj as <-. exists v'. by rewrite lookup_insert_eq.
      + exists w. by rewrite lookup_insert_ne. }
  intros [h ns i cfg Hi|h ns i v chain c h' v' r Hi Hs|h ns i v v' Hi Hm|h ns i v h' v' Hi Hs] Hok.
  - split; intros j w; cbn; intros Hj.
    + destruct (decide (i = j)) as [<-|Hne]; [|rewrite lookup_insert_ne in Hj by done; by apply Hok].
      rewrite lookup_insert_eq in Hj. injection Hj as <-. by split_and!.
    + exists w. rewrite lookup_insert_ne by congruence. done.
  - destruct (node_Start_spec _ _ _ _ _ _ _ _ Hs) as (G & Hc & H1 & H2 & H3 & H4).
    apply (Hupd _ _ _ _ v); try done; [intros p o Hp; left; by apply G|lia|by apply H4, Hok].
  - unfold StartMining in Hm. destruct (v_db v); [|done]. injection Hm as <-.
    apply (Hupd _ _ _ _ v); try done; [by left|cbn; lia|exact (Hok i v Hi)].
  - destruct (node_Stop_spec _ _ _ _ _ Hs (Hok _ _ Hi)) as (G & Hc & H1 & H2 & H3 & H4).
    apply (Hupd _ _ _ _ v); try done; [by rewrite H1|by rewrite H2|lia].
Qed.

Lemma life_steps_ok s s' : rtc life_step s s' -> process_ok s -> process_ok s' /\ kept s s'.
Proof.
  induction 1 as [s|s s1 s' Hs _ IH]; intros Hok.
  - split; [done|]. intros i v Hi. by exists v.
  - destruct (life_step_ok _ _ Hs Hok) as [Hok1 K1]. destruct (IH Hok1) as [Hok2 K2]. split; [done|].
    intros i v Hi. destruct (K1 i v Hi) as (v1 & Hi1 & C1 & A1 & B1 & L1). destruct (K2 i v1 Hi1) as (v2 & Hi2 & C2 & A2 & B2 & L2).
    exists v2. split_and!; [done|congruence|auto|auto|lia].
Qed.

(** A [Start] on a host where the HTTP port is taken does not succeed. *)
Lemma start_http_taken h v i chain c o :
  h_ports h !! HTTPPort (v_config v) = Some o -> (node_Start h v i chain c).2 <> Ok tt.
Proof.
  intros Ho. unfold node_Start. destruct (OpenFile h i _) as [h1|] eqn:E1; [|done].
  apply OpenFile_ports in E1. destruct chain as [[]|]; [|done].
  destruct (server_start h1 i _) as [h2 p] eqn:E2. apply server_start_spec in E2 as [G2 _].
  unfold Listen. cbn. by rewrite (G2 (HTTPPort (v_config v)) o) by by rewrite E1.
Qed.

(** C40: A stopped node keeps its RPC ports and its mining loops. In a program that makes, starts
    and stops nodes in any order, from the moment a node listens for HTTP no later step, its own
    [Stop] included, releases its HTTP or WebSocket port or ends one of its mining loops; no
    [Start] with that HTTP port ever succeeds again in the program. *)
Theorem rpc_ports_kept h s s' i v :
  rtc life_step (mkProcess h ∅) s -> p_nodes s !! i = Some v -> v_http v = true -> rtc life_step s s' ->
  (exists v', p_nodes s' !! i = Some v' /\ v_config v' = v_config v /\ v_http v' = true /\ (v_loops v <= v_loops v')%nat) /\
  h_ports (p_host s') !! HTTPPort (v_config v) = Some (i, ForHTTP) /\
  (v_ws v = true -> h_ports (p_host s') !! WSPort (v_config v) = Some (i, ForWS)) /\
  forall j w chain c, HTTPPort (v_config w) = HTTPPort (v_config v) -> (node_Start (p_host s') w j chain c).2 <> Ok tt.
Proof.
  intros H0 Hi Hh Hs. destruct (life_steps_ok _ _ H0) as [Hok _]; [intros j w; cbn; by rewrite lookup_empty|].
  destruct (life_steps_ok _ _ Hs Hok) as [Hok' K]. destruct (K i v Hi) as (v' & Hi' & Hc & Hh' & Hw & Hl).
  destruct (Hok' i v' Hi') as (B1 & B2 & _). rewrite Hc in B1, B2. specialize (Hh' Hh). specialize (B1 Hh').
  split; [by exists v'|]. split; [done|]. split; [auto|].
  intros j w chain c Hp. apply (start_http_taken _ _ _ _ _ (i, ForHTTP)). by rewrite Hp.
Qed.

(** The database lock and the server after a [Start] that went past the chain. *)
Lemma start_opened h v i c h' v' r :
  node_Start h v i (Ok tt) c = (h', v', r) -> r <> Err ErrOpenDB ->
  h_dbs h' !! DataDir (v_config v) = Some i /\ v_db v' = true /\ v_config v' = v_config v /\ exists l, v_p2p v' = Some (l, false).
Proof.
  unfold node_Start. destruct (OpenFile h i _) as [h1|] eqn:E1; [|by intros [= <- <- <-]].
  assert (h_dbs h1 !! DataDir (v_config v) = Some i) as Hd.
  { unfold OpenFile in E1. destruct (h_dbs h !! _); [done|]. injection E1 as <-. apply lookup_insert_eq. }
  destruct (server_start h1 i _) as [h2 p] eqn:E2.
  assert (h_dbs h2 = h_dbs h1 /\ exists l, p = (l, false)) as [D2 [l Hl]].
  { unfold server_start, Listen in E2. destruct (h_ports h1 !! _); injection E2 as <- <-; eauto. }
  unfold Listen. destruct (h_ports h2 !! _) as [o|]; [intros [= <- <- <-] _; rewrite D2, Hl; cbn; eauto|].
  unfold start_ws, Listen, start_ipc. cbn. repeat (case_match; cbn); intros; simplify_eq; cbn; rewrite ?D2; eauto.
Qed.

(** A node cannot be restarted. After a successful [Start], [Stop] succeeds and releases the
    database, but a second [Start] of the same node fails at the HTTP port, which the first one
    still holds; that [Start] leaves the database locked, so that a third one fails
    already there. A second [Stop] without a [Start] in between panics. *)
Theorem restart_fails h v i c h1 v1 :
  node_Start h v i (Ok tt) c = (h1, v1, Ok tt) -> bound h i v ->
  exists h2 v2, node_Stop h1 v1 i = Some (h2, v2) /\ h_dbs h2 !! DataDir (v_config v) = None /\ node_Stop h2 v2 i = None /\
    forall c2, exists h3 v3, node_Start h2 v2 i (Ok tt) c2 = (h3, v3, Err (ErrListen ErrListenHTTP)) /\
      h_dbs h3 !! DataDir (v_config v) = Some i /\
      forall chain c3, node_Start h3 v3 i chain c3 = (h3, v3, Err ErrOpenDB).
Proof.
  intros Hs Hb. destruct (start_opened _ _ _ _ _ _ _ Hs) as (D1 & V1 & C1 & l & P1); [done|].
  destruct (node_Start_spec _ _ _ _ _ _ _ _ Hs) as (_ & _ & _ & _ & _ & Hb1). specialize (Hb1 Hb).
  assert (v_http v1 = true) as Hh.
  { unfold node_Start in Hs. destruct (OpenFile h i _); [|done]. destruct (server_start _ _ _).
    destruct (Listen _ _ _ _); [|done]. unfold start_ws, Listen, start_ipc in Hs. cbn in Hs.
    repeat (case_match; cbn in *); simplify_eq; done. }
  destruct (node_Stop h1 v1 i) as [[h2 v2]|] eqn:E2.
  2: { unfold node_Stop in E2. rewrite P1 in E2. done. }
  destruct (node_Stop_spec _ _ _ _ _ E2 Hb1) as (_ & C2 & Hh2 & _ & _ & Hb2). exists h2, v2. split; [done|].
  assert (h_dbs h2 !! DataDir (v_config v) = None /\ v_p2p v2 = Some (false, true)) as [D2 P2].
  { unfold node_Stop in E2. rewrite P1 in E2. cbn in E2. injection E2 as <- <-. split; [|done]. rewrite V1, C1.
    assert (forall h', h_dbs h' = h_dbs h1 -> h_dbs (if true && bool_decide (h_dbs h' !! DataDir (v_config v) = Some i)
              then set_dbs h' (delete (DataDir (v_config v)) (h_dbs h')) else h') !! DataDir (v_config v) = None) as Hdel.
    { intros h' Eh. rewrite Eh, bool_decide_eq_true_2 by done. cbn. apply lookup_delete_eq. }
    apply Hdel. by destruct (v_ipc v1), l. }
  split; [done|]. split; [unfold node_Stop; rewrite P2; done|]. intros c2.
  destruct (node_Start h2 v2 i (Ok tt) c2) as [[h3 v3] r] eqn:E3.
  assert (r = Err (ErrListen ErrListenHTTP)) as ->.
  { pose proof (start_http_taken h2 v2 i (Ok tt) c2 (i, ForHTTP)) as Hn. rewrite E3 in Hn.
    unfold node_Start, OpenFile in E3. rewrite C2, C1, D2 in E3. destruct (server_start _ _ _).
    destruct (Listen _ _ _ _) as [h4|]; [|by simplify_eq]. destruct (start_ws _ _ _), (start_ipc _ _ _ _). simplify_eq.
    exfalso. apply Hn; [|done]. apply Hb2. by rewrite Hh2. }
  destruct (start_opened _ _ _ _ _ _ _ E3) as (D3 & _ & C3 & _); [done|]. rewrite C2, C1 in D3.
  exists h3, v3. split; [done|]. split; [done|]. intros chain c3. unfold node_Start, OpenFile. by rewrite C3, C2, C1, D3.
Qed.

(** Whether a listener opens, by the ports bound before. *)
Definition unbound h (p : Z) : bool := bool_decide (h_ports h !! p = None).

Lemma Listen_unbound h i u port :
  Listen h i u port = if unbound h port then Some (set_ports h (<[port := (i, u)]> (h_ports h))) else None.
Proof. unfold Listen, unbound. by destruct (h_ports h !! port). Qed.
Lemma unbound_insert h i u port p :
  unbound (set_ports h (<[port := (i, u)]> (h_ports h))) p = unbound h p && negb (p =? port).
Proof.
  unfold unbound. cbn. destruct (Z.eqb_spec p port) as [->|Hne].
  - rewrite lookup_insert_eq, andb_false_r. by apply bool_decide_eq_false_2.
  - rewrite lookup_insert_ne, andb_true_r by congruence. done.
Qed.

(** The listeners of [Start] are those of [open_listeners]. *)
Lemma start_listeners h v i c h' v' r :
  node_Start h v i (Ok tt) c = (h', v', r) -> r <> Err ErrOpenDB -> v_ws v = false ->
  match open_listeners (unbound h) (v_config v) with
  | Ok l => r = Ok tt /\ v_p2p v' = Some (l_p2p l, false) /\ v_http v' = l_http l /\ v_ws v' = l_ws l
  | Err err => r = Err (ErrListen err)
  end.
Proof.
  unfold node_Start. destruct (OpenFile h i _) as [h1|] eqn:E1; [|by intros [= <- <- <-]].
  apply OpenFile_ports in E1. assert (forall p, unbound h1 p = unbound h p) as E by (intros p; unfold unbound; by rewrite E1).
  intros H _ Hws. unfold server_start in H. rewrite Listen_unbound, E in H. cbn [v_config set_open_db set_p2p] in H.
  set (p2p := unbound h (P2PPort (v_config v))) in *.
  assert (exists h2, (forall p, unbound h2 p = unbound h p && negb (p2p && (p =? P2PPort (v_config v)))) /\
            match Listen h2 i ForHTTP (HTTPPort (v_config v)) with
            | None => (h2, set_p2p (set_open_db v true) (Some (p2p, false)), Err (ErrListen ErrListenHTTP))
            | Some h3 => let '(h, w) := start_ws h3 (set_http (set_p2p (set_open_db v true) (Some (p2p, false)))) i in
                         let '(h, w) := start_ipc h w i c in (h, w, Ok tt)
            end = (h', v', r)) as (h2 & E2 & H2).
  { destruct p2p; eexists; (split; [|exact H]); intros p; cbn [andb negb].
    - by rewrite unbound_insert, E.
    - by rewrite andb_true_r. }
  clear H. unfold open_listeners. fold p2p. rewrite Listen_unbound, E2 in H2.
  destruct (unbound h (HTTPPort (v_config v)) && _); [|by simplify_eq].
  unfold start_ws in H2. cbn [v_config set_http set_p2p set_open_db] in H2. rewrite Listen_unbound, unbound_insert, E2 in H2.
  cbn [l_p2p l_http l_ws]. destruct (0 <? _); [destruct (unbound h (WSPort _) && _ && _)|]; cbn [andb];
    (destruct (start_ipc _ _ i c) as [h5 v5] eqn:E5; apply start_ipc_spec in E5 as [_ [->| ->]]; simplify_eq; done).
Qed.

(** A successful [Start] with an IPC path makes the socket. *)
Lemma start_socket h w j chain h1 w1 :
  node_Start h w j chain true = (h1, w1, Ok tt) -> IPCPath (v_config w) <> EmptyString ->
  h_sockets h1 !! IPCPath (v_config w) = Some j /\ v_ipc w1 = true.
Proof.
  unfold node_Start. intros Hs Hne. destruct (OpenFile h j _) as [ha|]; [|done]. destruct chain as [[]|]; [|done].
  destruct (server_start ha j _) as [hb p]. destruct (Listen hb j _ _) as [hc|]; [|done].
  destruct (start_ws hc _ j) as [hd u] eqn:Ew. apply start_ws_spec in Ew as [_ Hu].
  assert (v_config u = v_config w) as Ec by (destruct Hu as [->|[-> _]]; done).
  unfold start_ipc in Hs. rewrite Ec, bool_decide_eq_false_2 in Hs by done. injection Hs as <- <-. cbn.
  by rewrite lookup_insert_eq.
Qed.

(** One IPC path, one reachable node. When a second node starts with the IPC path of a running
    one, it silently takes the endpoint over; when the first node then stops, it removes the
    socket of the second, which stays up without an endpoint. *)
Theorem ipc_taken_over h i j v w chain h1 w1 h2 v2 :
  v_ipc v = true -> IPCPath (v_config w) = IPCPath (v_config v) -> IPCPath (v_config v) <> EmptyString ->
  node_Start h w j chain true = (h1, w1, Ok tt) -> node_Stop h1 v i = Some (h2, v2) ->
  h_sockets h1 !! IPCPath (v_config v) = Some j /\ v_ipc w1 = true /\ h_sockets h2 !! IPCPath (v_config v) = None.
Proof.
  intros Hi Hp Hne Hs Hstop. rewrite <- Hp in Hne. destruct (start_socket _ _ _ _ _ _ Hs Hne) as [H1 H2].
  rewrite Hp in H1. split; [done|]. split; [done|].
  unfold node_Stop in Hstop. destruct (v_p2p v) as [p|]; cbn in Hstop;
    [destruct (server_stop _ _ _) as [[ha p']|]; [|done]|]; cbn in Hstop; rewrite Hi in Hstop; injection Hstop as <- <-;
    destruct (v_db v && _); cbn; apply lookup_delete_eq.
Qed.
End Lifecycle.
