(* ===== verification/Network.v ===== *)
(** * Network: several nodes (cmd/simulation/main.go).

    The simulation starts four nodes in one process, connects each to all others, feeds
    transactions to two of them and watches the heights. [mesh_step] is no translation of
    code of its own but the network such nodes form over time: every node runs its own [tick] and receives transactions, and a block one node
    handed to the network may reach any other node at any time, once, several times or
    never. A [tick] here runs without interruption (Running.v has the steps between its
    critical sections). [sync_round] is an idealised round: the leader's block reaches
    everybody before the next tick, and each node handles it with its import handler. *)

From stdpp Require Import pretty.
From S2P Require Import Prelude Words Interfaces Rlp Types Sanity Hex StateDB StateOps Scheduler Consensus Genesis SystemContracts Executor RawDB Blockchain Node Running Services.

(** ** cmd/simulation/main.go *)

Definition valKeys : list string :=
  ["ac0974bec39a17e36ba4a6b4d238ff944bacb478cbed5efcae784d7bf4f2ff80";
   "59c6995e998f97a5a0044966f0945389dc9e86dae88c7a8412f4603b6b78690d";
   "5de4111afa1a4b94908f83103eb1f1706367c2e68ca870fc3fb9a804cdab365a";
   "7c852118294e51e653712a81e05800f419141751be58f605c371e15141b007a6"]%string.

(** The mesh: every node dials every other one. *)
Definition sim_dials : list (nat * string) :=
  i ← seq 0 4; j ← seq 0 4;
  if bool_decide (i = j) then [] else [(i, ("127.0.0.1:" +:+ pretty (30300 + Z.of_nat j))%string)].

(** The exit condition of the monitor loop, on the four heights. *)
Definition sim_success (heights : list Z) : bool :=
  match heights with
  | [h0; h1; h2; h3] => (20 <? h0) && (h0 =? h1) && (h1 =? h2) && (h2 =? h3)
  | _ => false
  end.

Section Simulation.
Context {C : Crypto} {V : Verkle} {EV : EVM} {TS : TxSigner}.
Context {CB : Codec Block} {CR : Codec (list Receipt)} {CT : Codec TxLookupEntry}.
(** go-ethereum's [crypto.HexToECDSA]; [None] is the error result. *)
Variable HexToECDSA : string -> option PrivateKey.

Definition sim_config (i : nat) (key : PrivateKey) : Config :=
  mkConfig "simulation" ("tmp/sim_node_" +:+ pretty i)%string (8500 + Z.of_nat i) (Some key)
    (30300 + Z.of_nat i) 0 "" [].

(** One turn of the start loop, on an emptied data directory. [None] is a panic: a key that
    does not parse, or a node that fails to start. *)
Definition sim_node (free : Z -> bool) (devKey : PrivateKey) (i : nat) (k : string) : option Node :=
  match HexToECDSA k with
  | None => None
  | Some key =>
      match Start (sim_config i key) devKey ∅ with
      | Some (_, Ok n) => match open_listeners free (sim_config i key) with Ok _ => Some n | Err _ => None end
      | _ => None
      end
  end.

Definition sim_start (free : Z -> bool) (devKey : PrivateKey) : option (list Node) :=
  mapM (fun ik => sim_node free devKey ik.1 ik.2) (imap pair valKeys).

(** The [i]-th transaction of the traffic and where it goes. *)
Definition sim_tx (key : PrivateKey) (i : nat) : option Transaction :=
  sign_legacy (network_ChainConfig (GetNetworkConfig "simulation")) (wd (Z.of_nat i)) (addr_lit "0xdeadbeef") 100
    (wd 21000) 100 [] key.

Definition sim_send (key : PrivateKey) (i : nat) (n0 n1 : Node) : option (Node * Node) :=
  tx ← sim_tx key i;
  n0 ← SubmitTx n0 tx;
  if Nat.even i then n1 ← SubmitTx n1 tx; Some (n0, n1) else Some (n0, n1).

Definition sim_height (n : Node) : option Z :=
  cur ← CurrentBlock (n_bc n);
  number ← Number (BHeader cur);
  Some (uval (big_uint64 number)).

Definition sim_monitor (ns : list Node) : option bool := sim_success <$> mapM sim_height ns.
End Simulation.

(** ** The network *)

Section Network.
Context {C : Crypto} {V : Verkle} {EV : EVM} {TS : TxSigner}.
Context {CB : Codec Block} {CR : Codec (list Receipt)} {CT : Codec TxLookupEntry}.
Implicit Types (n : Node) (b : Block).

(** The nodes with the pools of their mining loops. *)
Abbreviation mesh := (list (Node * list Transaction)).

Inductive mesh_step : mesh -> mesh -> Prop :=
| mesh_intake ns i c c' : ns !! i = Some c -> intake_step c c' -> mesh_step ns (<[i := c']> ns)
| mesh_tick ns i n pool r n' pool' :
    ns !! i = Some (n, pool) -> tick n pool r n' pool' -> mesh_step ns (<[i := (n', pool')]> ns)
| mesh_deliver ns i j n pool n' m pool' b :
    ns !! i = Some (n, pool) -> ns !! j = Some (m, pool') -> b ∈ n_sent m -> import_step n b n' ->
    mesh_step ns (<[i := (n', pool)]> ns).

(** A round: one node proposes [b], all others wait for it and import it. *)
Inductive sync_round (b : Block) : mesh -> mesh -> Prop :=
| round_intro ns l n pool period n' pool' ns' :
    ns !! l = Some (n, pool) -> tick n pool (Proposed period) n' pool' -> n_sent n' = n_sent n ++ [b] ->
    length ns' = length ns -> ns' !! l = Some (n', pool') ->
    (forall j m p, j <> l -> ns !! j = Some (m, p) ->
       exists m1 m2, tick m p BlockArrived m1 p /\ import_step m1 b m2 /\ ns' !! j = Some (m2, p)) ->
    sync_round b ns ns'.

(** The validators the next election of a node is over. *)
Definition electorate n : option (list Validator) := Validators <$> SyncValidators (n_engine n) (n_state n).
End Network.

(** ** One election, one block *)

Section Rounds.
Context {C : Crypto} {CL : CryptoLaws C} {V : Verkle} {VL : VerkleLaws V} {EV : EVM} {TS : TxSigner}.
Context {CB : Codec Block} {CR : Codec (list Receipt)} {CT : Codec TxLookupEntry}.
Implicit Types (n m : Node) (b : Block) (vs : list Validator).

Lemma SyncValidators_key (e e' : ZeliusEngine) (s : StateDB) : SyncValidators e s = Some e' -> privKey e' = privKey e.
Proof.
  unfold SyncValidators. destruct (_ =? 0); [by intros [= ->]|].
  destruct (sync_loop _ _ _ _); [|done]. cbn [mbind option_bind]. by intros [= <-].
Qed.

Lemma elect_inv n e proposer my :
  engine_ok (n_engine n) -> elect n = Some (e, proposer, my) ->
  exists vs cur k key, electorate n = Some vs /\ CurrentBlock (n_bc n) = Some cur /\ Number (BHeader cur) = Some k /\
    leader_of vs (big_uint64 (k + 1)) = Some proposer /\ engine_ok e /\ Validators e = vs /\
    privKey (n_engine n) = Some key /\ privKey e = Some key /\ my = PubkeyToAddress (pub_of key).
Proof.
  intros He. unfold elect, electorate. destruct (SyncValidators _ _) as [e1|] eqn:Es; [|done]. cbn [mbind option_bind].
  assert (engine_ok e1) as H1 by (eapply engine_step_ok; [apply (es_sync (fun _ => True) _ (n_state n)); done|done]).
  pose proof (SyncValidators_key _ _ _ Es) as Hk.
  destruct (CurrentBlock _) as [cur|]; [|done]. cbn [mbind option_bind].
  destruct (Number _) as [k|] eqn:Ek; [|done]. cbn [mbind option_bind].
  pose proof (GetLeader_spec e1 (big_uint64 (k + 1)) (proj1 H1)) as Hl.
  destruct (GetLeader e1 _) as [[e2 l]|] eqn:Eg; [|done]. cbn [mbind option_bind].
  destruct Hl as (Hl & Hc & mp & ->). destruct (privKey _) as [key|] eqn:Ep; [|done]. cbn [mbind option_bind].
  intros [= <- <- <-]. exists (Validators e1), cur, k, key. cbn in Ep. split_and!; try done; try congruence.
  by destruct (engine_ok_leaders _ _ _ _ H1 Eg).
Qed.

(** A tick that broadcast [b]: the election, the execution, the seal and the new node. *)
Record minted n (pool : list Transaction) n' b (vs : list Validator) (key : PrivateKey) (k : Z) : Prop := {
  mi_vs : electorate n = Some vs;
  mi_head : exists cur, CurrentBlock (n_bc n) = Some cur /\ Number (BHeader cur) = Some k /\
                        ParentHash (BHeader b) = BlockHash cur;
  mi_number : Number (BHeader b) = Some (k + 1);
  mi_leader : leader_of vs (big_uint64 (k + 1)) = Some (PubkeyToAddress (pub_of key));
  mi_key : privKey (n_engine n) = Some key /\ privKey (n_engine n') = Some key;
  mi_engine : exists e, engine_ok e /\ Validators e = vs /\ n_engine n' = intercept (Params (n_netCfg n)) e (Transactions b);
  mi_sealed : exists h sig, ExtraData h = [] /\ Sign (hash_bytes (BlockHash (NewBlock h (Transactions b)))) key = Some sig /\
                BHeader b = set_extra h sig;
  mi_stored : exists rs s r,
    ApplyBlock (executor_of n) (Some (chain_db (n_bc n))) (n_state n) (BHeader b) (Transactions b)
      (Some (rs, VerkleRoot (BHeader b), s)) /\
    AddBlock (set_db (n_bc n) (db_write (chain_db (n_bc n)) (commit_batch s))) b (Some rs) = Some (n_bc n', r) /\
    n_state n' = committed s;
  mi_frame : n_netCfg n' = n_netCfg n /\ n_stateLock n' = false /\ n_stateLock n = false
}.

Lemma processBatch_netCfg n txs now out n' : processBatch n txs now out = Some n' -> n_netCfg n' = n_netCfg n.
Proof.
  unfold processBatch. destruct (CurrentBlock _); [|done]. cbn [mbind option_bind].
  unfold execute_batch. destruct (header_on _ _ _); [|done]. cbn [mbind option_bind].
  destruct out as [[[rs root] s]|]; [|done]. cbn [mbind option_bind]. destruct (Seal _ _) as [b1 [u|err]]; [|by intros [= <-]].
  rewrite commit_state_eq. destruct (AddBlock _ _ _) as [[bc r]|]; [|done]. cbn [mbind option_bind]. by intros [= <-].
Qed.

Lemma tick_minted n pool period n' pool' b :
  engine_ok (n_engine n) -> tick n pool (Proposed period) n' pool' -> n_sent n' = n_sent n ++ [b] ->
  exists vs key k, minted n pool n' b vs key k.
Proof.
  intros He Ht Hsent. inversion Ht as [e my now ex n1 Hlock Hel Hm| |]; subst. clear Ht. symmetry in Hel.
  destruct (elect_inv _ _ _ _ He Hel) as (vs & cur & k & key & Hvs & Hcur & Hk & Hl & He' & Hv & Hkey & Hkey' & ->).
  destruct Hm as [txs h out _ Htxs Hh Hex Hp]. pose proof (processBatch_netCfg _ _ _ _ _ Hp) as Hcfg.
  apply processBatch_inv in Hp as (h' & rs & root & s & Hh' & -> & Hx & Heng & [(Hs & _)|Hs]).
  { cbn [n_sent with_engine] in Hs. rewrite Hs in Hsent. apply (f_equal length) in Hsent. rewrite length_app in Hsent. cbn in Hsent. lia. }
  rewrite Hh in Hh'. injection Hh' as <-.
  destruct Hs as (key' & sig & bc & r & Ek & Hsig & Hsent' & Hl' & Ha & Hbc & Hst).
  cbn [n_engine n_state n_sent n_netCfg n_bc with_engine] in *. assert (key' = key) as -> by congruence.
  rewrite Hsent in Hsent'. apply app_inv_head in Hsent' as [= ->]. set (final := select_txs (with_engine n e) txs) in *.
  change (mining_header (with_engine n e) now) with (mining_header n now) in Hh.
  unfold mining_header, header_on in Hh. rewrite Hcur in Hh. cbn [mbind option_bind] in Hh. rewrite Hk in Hh.
  cbn [mbind option_bind] in Hh. destruct (CalcBaseFee _ _) as [fee|]; [|done]. injection Hh as <-.
  exists vs, key, k. split; try done.
  - by exists cur.
  - split; [done|]. rewrite Heng. by rewrite intercept_key.
  - by exists e.
  - eexists _, sig. split_and!; [|exact Hsig|done]. done.
  - exists rs, s, r. rewrite commit_state_eq in Ha, Hst. cbn [n_bc n_state with_bc with_state] in *. split_and!; [|by rewrite Hbc|done].
    cbn [BHeader]. eapply ApplyBlock_context, Hex. done.
Qed.

(** Some account takes part in every transaction: there is one order of execution. *)
Definition shared_account b : Prop := exists a, Forall (fun tx => a ∈ tx_accounts tx) (Transactions b).

(** What importing leaves alone, whatever the block. *)
Lemma import_frame n b n' :
  import_step n b n' -> engine_ok (n_engine n) ->
  engine_ok (n_engine n') /\ Validators (n_engine n') = Validators (n_engine n) /\
  privKey (n_engine n') = privKey (n_engine n) /\
  n_netCfg n' = n_netCfg n /\ n_stateLock n' = n_stateLock n /\ n_sent n' = n_sent n.
Proof.
  intros [out _ _ Hi] He. unfold import_block in Hi.
  destruct (Verify (n_engine n) b) as [[e v]|] eqn:Ev; [|done]. cbn [mbind option_bind] in Hi.
  destruct (engine_ok_verify _ _ _ _ He Ev) as [He' Hv].
  assert (privKey e = privKey (n_engine n)) as Hk.
  { revert Ev. unfold Verify. destruct (_ <? _)%nat; [by intros [= <- _]|].
    destruct (SigToPub _ _); [|by intros [= <- _]]. destruct (Number _); [|done]. cbn [mbind option_bind].
    pose proof (GetLeader_spec (n_engine n) (big_uint64 z) (proj1 He)) as Hl.
    destruct (GetLeader _ _) as [[e1 l]|]; [|done]. destruct Hl as (_ & _ & mp & ->). cbn [mbind option_bind].
    destruct (bool_decide _); by intros [= <- _]. }
  destruct v as [u|err]; [|by injection Hi as <-].
  destruct out as [[[rs root] s]|]; [|done]. cbn [mbind option_bind] in Hi. rewrite commit_state_eq in Hi.
  destruct (AddBlock _ _ _) as [[bc r]|]; [|done]. cbn [mbind option_bind] in Hi. by injection Hi as <-.
Qed.

(** Every engine with the proposer's validators accepts the seal, and the proposer's root is
    the one in the header. *)
Lemma minted_verifies n pool n' b vs key k e :
  minted n pool n' b vs key k -> engine_ok e -> Validators e = vs ->
  (exists e', Verify e b = Some (e', Ok tt)) /\
  NewBlock (set_root (BHeader b) (VerkleRoot (BHeader b))) (Transactions b) = b.
Proof.
  intros Hmi He Hv. split; [|by destruct b as [[] ?]].
  destruct Hmi as [_ _ Hnum Hl _ _ (h & sig & Hx & Hsig & Hb) _ _].
  pose proof (GetLeader_spec e (big_uint64 (k + 1)) (proj1 He)) as Hg. rewrite Hv, Hl in Hg.
  destruct (GetLeader e _) as [[e' l]|] eqn:Eg; [|done]. destruct Hg as ([= <-] & _ & _). exists e'.
  assert (Number h = Some (k + 1)) as Hnh by (rewrite Hb in Hnum; done).
  pose proof (signed_verifies e (NewBlock h (Transactions b)) key sig (k + 1) e' _ Hx Hnh Hsig Eg) as Hver.
  cbn zeta in Hver. rewrite decide_True in Hver by done. cbn [BHeader Transactions] in Hver.
  rewrite <- Hb in Hver. by destruct b.
Qed.

(** Importing a minted block whose transactions share an account on a node with the proposer's chain, state and
    validators gives the proposer's chain and state. *)
Lemma import_minted n pool n' b vs key k m m' :
  minted n pool n' b vs key k -> shared_account b ->
  n_bc m = n_bc n -> n_state m = n_state n -> n_netCfg m = n_netCfg n ->
  engine_ok (n_engine m) -> Validators (n_engine m) = vs -> import_step m b m' ->
  n_bc m' = n_bc n' /\ n_state m' = n_state n'.
Proof.
  intros Hmi [a Ha] Hbc Hst Hcfg He Hv [out _ Hex Hi].
  destruct (minted_verifies _ _ _ _ _ _ _ _ Hmi He Hv) as [[e Hver] Er].
  destruct Hmi as [_ _ _ _ _ _ _ (rs & s & r & Hex' & Hadd & Hst') _].
  assert (executor_of m = executor_of n) as Heq by (unfold executor_of; by rewrite Hbc, Hcfg).
  rewrite Heq, Hbc, Hst in Hex. rewrite (ApplyBlock_shared_account _ _ _ _ _ _ _ Ha Hex) in Hi.
  rewrite <- (ApplyBlock_shared_account _ _ _ _ _ _ _ Ha Hex') in Hi.
  unfold import_block in Hi. rewrite Hver in Hi. cbn [mbind option_bind] in Hi.
  rewrite Er, commit_state_eq in Hi. cbn [n_bc n_state with_state with_bc with_engine] in Hi.
  rewrite Hbc, Hadd in Hi. cbn [mbind option_bind] in Hi. injection Hi as <-. done.
Qed.

(** The registry of the state decides the next electorate alone, unless it is empty. *)
Lemma electorate_same n m :
  n_state n = n_state m ->
  hash_big (GetState (n_state n) sync_validatorAddr zero_hash) <> 0 \/ Validators (n_engine n) = Validators (n_engine m) ->
  electorate n = electorate m.
Proof.
  intros Hs H. unfold electorate, SyncValidators. rewrite <- Hs.
  destruct (Z.eqb_spec (hash_big (GetState (n_state n) sync_validatorAddr zero_hash)) 0) as [E|E].
  - destruct H as [H|H]; [done|]. cbn. by rewrite H.
  - destruct (sync_loop _ _ _ _); done.
Qed.

Definition unstakes (P : SystemParams) (tx : Transaction) : bool :=
  bool_decide (tx_to tx = Some (StakingAddr P)) && bool_decide (tx_data tx = bytes_of_string "UNSTAKE").

Lemma intercept_quiet P e txs : Forall (fun tx => unstakes P tx = false) txs -> intercept P e txs = e.
Proof.
  unfold intercept. induction 1 as [|tx txs Hq _ IH]; [done|]. cbn [fold_left]. unfold unstakes in Hq.
  by rewrite Hq.
Qed.

(** A node of a network in step: its chain, state, configuration and next electorate. *)
Record replica (bc : Blockchain) (s : StateDB) (cfg : NetworkConfig) (ovs : option (list Validator)) n : Prop := {
  re_bc : n_bc n = bc;
  re_state : n_state n = s;
  re_cfg : n_netCfg n = cfg;
  re_vs : electorate n = ovs;
  re_lock : n_stateLock n = false;
  re_engine : engine_ok (n_engine n)
}.

(** A round whose block is new, executes in one order, and does not empty the registry by
    unstaking. *)
Definition calm_round (ns ns' : list (Node * list Transaction)) : Prop :=
  exists b, sync_round b ns ns' /\ shared_account b /\
    Forall (fun c => ReadBlock (chain_db (n_bc c.1)) (BlockHash b) = None) ns /\
    Forall (fun c => Forall (fun tx => unstakes (Params (n_netCfg c.1)) tx = false) (Transactions b) \/
                     hash_big (GetState (n_state c.1) sync_validatorAddr zero_hash) <> 0) ns'.

Definition head_at (bc : Blockchain) (k : Z) : Prop :=
  exists cur, CurrentBlock bc = Some cur /\ Number (BHeader cur) = Some k.

(** The encoders of encoding/json do not fail on the stored types. *)
Definition encodable : Prop :=
  (forall b, is_Some (Marshal b)) /\ (forall rs : list Receipt, is_Some (Marshal rs)) /\
  (forall l : TxLookupEntry, is_Some (Marshal l)).

Lemma write_lookups_encodable db hash number i txs :
  encodable -> exists db', write_lookups db hash number i txs = (db', Ok tt).
Proof.
  intros (_ & _ & HL). revert db i. induction txs as [|tx txs IH]; intros db i; [by exists db|]. cbn [write_lookups].
  destruct (HL (mkLookup hash number (wd i))) as [d ->]. apply IH.
Qed.

(** With them a block is either known already or stored. *)
Lemma AddBlock_new bc b rs bc' r k :
  encodable -> AddBlock bc b (Some rs) = Some (bc', r) -> head_at bc k ->
  (bc' = bc /\ r = Err ErrBlockKnown /\ is_Some (ReadBlock (chain_db bc) (BlockHash b))) \/
  (r = Ok tt /\ exists k', Number (BHeader b) = Some k' /\
     if k <? k' then CurrentBlock bc' = Some b else CurrentBlock bc' = CurrentBlock bc).
Proof.
  intros HE H (cur & Hc & Hk). unfold CurrentBlock, AddBlock in *.
  destruct (ReadBlock _ _) as [x|]; [injection H as <- <-; left; eauto|]. right.
  pose proof HE as (HB & HR & _). unfold WriteBlock in H. destruct (HB b) as [d Hd]. rewrite Hd in H.
  unfold WriteReceipts in H. destruct (HR rs) as [d' Hd']. rewrite Hd' in H.
  destruct (Number (BHeader b)) as [k'|]; [|done]. cbn [mbind option_bind] in H. unfold WriteTxLookupEntries in H.
  destruct (write_lookups_encodable (<[receiptsKey (BlockHash b) := d']> (<[blockKey (BlockHash b) := d]> (chain_db bc)))
              (BlockHash b) (number64 (BHeader b)) 0 (Transactions b) HE) as [db3 Hw]. rewrite Hw in H.
  rewrite Hc, Hk in H. cbn [mbind option_bind] in H. destruct (k <? k') eqn:El; injection H as <- <-;
    (split; [done|]); exists k'; by rewrite El.
Qed.

Lemma ReadBlock_commit db s h : ReadBlock (db_write db (commit_batch s)) h = ReadBlock db h.
Proof. unfold ReadBlock. by rewrite commit_lookup by (by rewrite head_blockKey; vm_compute). Qed.

Lemma minted_head n pool n' b vs key k :
  encodable -> minted n pool n' b vs key k -> ReadBlock (chain_db (n_bc n)) (BlockHash b) = None ->
  CurrentBlock (n_bc n') = Some b.
Proof.
  intros HE Hmi Hnew. destruct Hmi as [_ (cur & Hc & Hk & _) Hnum _ _ _ _ (rs & s & r & _ & Hadd & _) _].
  apply (AddBlock_new _ _ _ _ _ k HE) in Hadd as [(_ & _ & Hs)|(_ & k' & Hk' & Hcur)]; [| |by exists cur].
  - cbn [chain_db set_db] in Hs. rewrite ReadBlock_commit, Hnew in Hs. by destruct Hs.
  - assert (k' = k + 1) as -> by congruence. by rewrite (proj2 (Z.ltb_lt k (k + 1))) in Hcur by lia.
Qed.

Lemma tick_waited n pool n' pool' :
  tick n pool BlockArrived n' pool' -> exists e proposer my, elect n = Some (e, proposer, my) /\ n' = with_engine n e.
Proof. inversion 1; subst. eauto. Qed.

Lemma calm_round_replicas bc s cfg ovs k ns ns' :
  encodable -> Forall (fun c => replica bc s cfg ovs c.1) ns -> head_at bc k -> calm_round ns ns' ->
  exists bc' s' ovs', Forall (fun c => replica bc' s' cfg ovs' c.1) ns' /\ head_at bc' (k + 1) /\ length ns' = length ns.
Proof.
  intros HE HF Hhead (b & Hr & Hone & Hnew & Hq).
  destruct Hr as [ns l n pool period n' pool' ns' Hl Ht Hsent Hlen Hl' Hothers].
  assert (forall j c, ns !! j = Some c -> replica bc s cfg ovs c.1) as Hrep by (intros; rewrite Forall_lookup in HF; eauto).
  destruct (Hrep _ _ Hl) as [Hbc Hst Hcfg Hvs Hlock He]. cbn [fst] in *.
  destruct (tick_minted _ _ _ _ _ _ He Ht Hsent) as (vs' & key & k' & Hmi).
  assert (k' = k) as ->.
  { destruct Hhead as (cur & Hc & Hk), (mi_head _ _ _ _ _ _ _ Hmi) as (cur' & Hc' & Hk' & _). congruence. }
  pose proof (mi_vs _ _ _ _ _ _ _ Hmi) as Evs. destruct (mi_engine _ _ _ _ _ _ _ Hmi) as (e & He' & Hv' & Heng).
  assert (Forall (fun c => replica (n_bc n') (n_state n') cfg (electorate n') c.1) ns') as HF'.
  2:{ exists (n_bc n'), (n_state n'), (electorate n'). split_and!; [done| |done]. exists b. split; [|apply (mi_number _ _ _ _ _ _ _ Hmi)].
      eapply minted_head; [done|exact Hmi|]. rewrite Forall_lookup in Hnew. apply (Hnew _ _ Hl). }
  apply Forall_lookup_2. intros j c Hj. rewrite Forall_lookup in Hq. specialize (Hq j c Hj).
  destruct (decide (j = l)) as [->|Hne].
  { rewrite Hl' in Hj. injection Hj as <-. cbn [fst]. destruct (mi_frame _ _ _ _ _ _ _ Hmi) as (Hc' & Hlk & _).
    split; try done; [congruence|]. rewrite Heng. by apply intercept_ok. }
  destruct (ns !! j) as [[m p]|] eqn:Ej.
  2:{ apply lookup_ge_None in Ej. apply lookup_lt_Some in Hj. lia. }
  destruct (Hothers j m p Hne Ej) as (m1 & m2 & Htm & Him & Ej'). rewrite Hj in Ej'. injection Ej' as ->.
  destruct (Hrep _ _ Ej) as [Hbc2 Hst2 Hcfg2 Hvs2 Hlock2 He2]. cbn [fst] in *.
  apply tick_waited in Htm as (e1 & prop & my & Hel & ->).
  destruct (elect_inv _ _ _ _ He2 Hel) as (vs2 & _ & _ & _ & Hvs2' & _ & _ & _ & He1 & Hv1 & _).
  destruct (import_frame _ _ _ Him He1) as (He3 & Hv3 & _ & Hc3 & Hl3 & _). cbn [n_engine n_netCfg n_stateLock with_engine] in *.
  assert (vs2 = vs') as -> by congruence.
  destruct (import_minted n pool n' b vs' key k (with_engine m e1) m2) as [Hb3 Hs3]; try done; cbn; try congruence.
  split; try done; try congruence. apply electorate_same; [done|].
  destruct Hq as [Hq|Hq]; [right|by left]. rewrite Hv3, Hv1, Heng.
  rewrite intercept_quiet; [done|]. rewrite Hcfg. by rewrite Hc3, Hcfg2 in Hq.
Qed.

(** *** Rounds are executions of the network *)

(** The others follow the proposer one after the other. *)
Lemma followers_run b l cl (ns ns' : list (Node * list Transaction)) K :
  (l < length ns)%nat -> b ∈ n_sent cl.1 -> length ns' = length ns ->
  (forall j m p, j <> l -> ns !! j = Some (m, p) ->
     exists m1 m2, tick m p BlockArrived m1 p /\ import_step m1 b m2 /\ ns' !! j = Some (m2, p)) ->
  (K <= length ns)%nat ->
  rtc mesh_step (<[l := cl]> ns) (<[l := cl]> (take K ns' ++ drop K ns)).
Proof.
  intros Hl Hb Hlen Hothers. induction K as [|K IH]; intros HK; [done|].
  etransitivity; [apply IH; lia|].
  set (cur := take K ns' ++ drop K ns). assert (length cur = length ns) as Hcl.
  { unfold cur. rewrite length_app, length_take, length_drop. lia. }
  destruct (lookup_lt_is_Some_2 ns K) as [[m p] Em]; [lia|].
  destruct (lookup_lt_is_Some_2 ns' K) as [c' Ec']; [lia|].
  assert (take (S K) ns' ++ drop (S K) ns = <[K := c']> cur) as ->.
  { unfold cur. rewrite (take_S_r _ _ c') by done. rewrite (drop_S ns (m, p) K) by done.
    rewrite <- app_assoc. rewrite insert_app_r_alt by (rewrite length_take; lia).
    by replace (K - length (take K ns'))%nat with 0%nat by (rewrite length_take; lia). }
  destruct (decide (K = l)) as [->|Hne]; [by rewrite list_insert_insert_eq|].
  rewrite list_insert_insert_ne by done.
  destruct (Hothers K m p Hne Em) as (m1 & m2 & Ht & Hi & E). rewrite E in Ec'. injection Ec' as <-.
  assert (<[l := cl]> cur !! K = Some (m, p)) as EK.
  { rewrite list_lookup_insert_ne by done. unfold cur.
    rewrite lookup_app_r by (rewrite length_take; lia). rewrite length_take, lookup_drop.
    by replace (K + (K - K `min` length ns'))%nat with K by lia. }
  eapply rtc_l; [exact (mesh_tick _ K m p _ m1 p EK Ht)|]. eapply rtc_l; [|done].
  replace (<[K := (m2, p)]> (<[l := cl]> cur)) with (<[K := (m2, p)]> (<[K := (m1, p)]> (<[l := cl]> cur)))
    by apply list_insert_insert_eq.
  destruct cl as [nl pl]. apply (mesh_deliver _ K l m1 p m2 nl pl b); [| |done|done].
  - apply list_lookup_insert_eq. rewrite length_insert. lia.
  - rewrite list_lookup_insert_ne by done. apply list_lookup_insert_eq. lia.
Qed.

Lemma sync_round_run b ns ns' : sync_round b ns ns' -> rtc mesh_step ns ns'.
Proof.
  intros [ns0 l n pool period n' pool' ns1 Hl Ht Hsent Hlen Hl' Hothers].
  pose proof (lookup_lt_Some _ _ _ Hl) as Hlt.
  eapply rtc_l; [exact (mesh_tick _ l n pool _ n' pool' Hl Ht)|].
  pose proof (followers_run b l (n', pool') ns0 ns1 (length ns0) Hlt) as H. cbn [fst] in H.
  rewrite (take_ge ns1), (drop_ge ns0), app_nil_r, (list_insert_id ns1) in H by (done || lia).
  apply H; [|done..]. rewrite Hsent. set_solver.
Qed.

(** [k] rounds, with transactions arriving at any node in between. *)
Inductive calm_run : nat -> list (Node * list Transaction) -> list (Node * list Transaction) -> Prop :=
| calm_done ns : calm_run 0 ns ns
| calm_intake k ns i c c' ns' :
    ns !! i = Some c -> intake_step c c' -> calm_run k (<[i := c']> ns) ns' -> calm_run k ns ns'
| calm_next k ns ns1 ns' : calm_round ns ns1 -> calm_run k ns1 ns' -> calm_run (S k) ns ns'.

Lemma replica_intake bc s cfg ovs c c' : intake_step c c' -> replica bc s cfg ovs c.1 -> replica bc s cfg ovs c'.1.
Proof.
  intros H [H1 H2 H3 H4 H5 H6]. apply intake_core in H as [(E1 & E2 & E3 & E4 & E5 & _) _].
  split; [congruence..| |by rewrite E5|by rewrite E3]. rewrite <- H4. unfold electorate. by rewrite E2, E3.
Qed.

Lemma calm_run_replicas bc s cfg ovs h k ns ns' :
  encodable -> Forall (fun c => replica bc s cfg ovs c.1) ns -> head_at bc h -> calm_run k ns ns' ->
  rtc mesh_step ns ns' /\ length ns' = length ns /\
  exists bc' s' ovs', Forall (fun c => replica bc' s' cfg ovs' c.1) ns' /\ head_at bc' (h + Z.of_nat k).
Proof.
  intros HE HF Hh Hr. revert bc s ovs h HF Hh.
  induction Hr as [ns|k ns i c c' ns' Hi Hst _ IH|k ns ns1 ns' Hrd _ IH]; intros bc s ovs h HF Hh.
  - split_and!; [done|done|]. exists bc, s, ovs. rewrite Z.add_0_r. done.
  - destruct (IH bc s ovs h) as (Hrt & Hlen & Hex); [|done|].
    { apply Forall_insert; [done|]. rewrite Forall_lookup in HF. eapply replica_intake, HF; done. }
    rewrite length_insert in Hlen. split_and!; [|done|done]. eapply rtc_l; [by eapply mesh_intake|done].
  - destruct (calm_round_replicas _ _ _ _ _ _ _ HE HF Hh Hrd) as (bc1 & s1 & vs1 & HF1 & Hh1 & Hl1).
    destruct (IH _ _ _ _ HF1 Hh1) as (Hrt & Hlen & bc2 & s2 & vs2 & HF2 & Hh2). split_and!; [|congruence|].
    + destruct Hrd as (b & Hrd & _). etransitivity; [by eapply sync_round_run|done].
    + exists bc2, s2, vs2. split; [done|]. by replace (h + Z.of_nat (S k)) with (h + 1 + Z.of_nat k) by lia.
Qed.

Lemma replica_height bc s cfg ovs n k :
  replica bc s cfg ovs n -> head_at bc k -> 0 <= k < 2 ^ 64 -> sim_height n = Some k.
Proof.
  intros [<- _ _ _ _ _] (cur & Hc & Hk) Hr. unfold sim_height. rewrite Hc. cbn [mbind option_bind].
  rewrite Hk. cbn [mbind option_bind]. unfold big_uint64. rewrite Z.abs_eq by lia.
  by rewrite uval_wd_small by (change (2 ^ Z.of_N 64) with (2 ^ 64); lia).
Qed.

(** C5: The network stays in step. Nodes with the same chain, state, configuration and
    validators stay so through any number of rounds in which the leader's block reaches
    everybody and no tick is interrupted, with transactions arriving at any node in between, provided encoding to JSON does
    not fail and each block is new,
    carries transactions that share an account (so that all goroutine interleavings agree), and
    does not empty the registry by unstaking: after k rounds all nodes have
    the same chain, state and next electorate, and their heads are k blocks higher. Rounds
    are executions of the asynchronous network. *)
Theorem network_in_step bc s cfg ovs h k ns ns' :
  encodable -> Forall (fun c => replica bc s cfg ovs c.1) ns -> head_at bc h -> calm_run k ns ns' ->
  rtc mesh_step ns ns' /\
  exists bc' s' ovs', Forall (fun c => replica bc' s' cfg ovs' c.1) ns' /\ head_at bc' (h + Z.of_nat k).
Proof.
  intros HE HF Hh Hr. by destruct (calm_run_replicas _ _ _ _ _ _ _ _ HE HF Hh Hr) as (Hrt & _ & Hex).
Qed.
End Rounds.

(** ** No forks *)

Section NoForks.
Context {C : Crypto} {CL : CryptoLaws C} {V : Verkle} {VL : VerkleLaws V} {EV : EVM} {TS : TxSigner}.
Context {CB : Codec Block} {CBL : CodecLaws Block CB readable} {CR : Codec (list Receipt)} {CT : Codec TxLookupEntry}.
Implicit Types (n m : Node) (b : Block) (vs : list Validator) (ns : list (Node * list Transaction)).

Definition node_addr n : option Address := (fun key => PubkeyToAddress (pub_of key)) <$> privKey (n_engine n).

(** The same block up to the state root, which an importer replaces by its own. *)
Definition same_proposal b b' : Prop :=
  Transactions b' = Transactions b /\ set_root (BHeader b') zero_hash = set_root (BHeader b) zero_hash.

Lemma same_proposal_number b b' : same_proposal b b' -> Number (BHeader b') = Number (BHeader b).
Proof. intros [_ H]. by apply (f_equal Number) in H. Qed.

(** A chain whose stored blocks are found under their hashes and are not above the head. *)
Definition stored_below (bc : Blockchain) (k : Z) : Prop :=
  head_at bc k /\ forall h b, ReadBlock (chain_db bc) h = Some b -> h = BlockHash b /\
    exists j, Number (BHeader b) = Some j /\ 0 <= j <= k.

(** Committing a state and adding a block. *)
Lemma add_stored bc k s b rs bc' r j :
  encodable -> stored_below bc k -> Number (BHeader b) = Some j -> 0 <= j ->
  AddBlock (set_db bc (db_write (chain_db bc) (commit_batch s))) b (Some rs) = Some (bc', r) ->
  (stored_below bc' k /\ is_Some (ReadBlock (chain_db bc) (BlockHash b)) /\
   forall h, ReadBlock (chain_db bc') h = ReadBlock (chain_db bc) h) \/
  (stored_below bc' (Z.max k j) /\
   forall h b', ReadBlock (chain_db bc') h = Some b' -> h = BlockHash b /\ b' = b \/ ReadBlock (chain_db bc) h = Some b').
Proof.
  intros HE [Hh Hst] Hj H0 H. pose proof H as H'. set (bc1 := set_db bc _) in *.
  assert (forall h, ReadBlock (chain_db bc1) h = ReadBlock (chain_db bc) h) as Hrd by apply ReadBlock_commit.
  apply (AddBlock_new _ _ _ _ _ k HE) in H as [(-> & _ & Hs)|(-> & j' & Hj' & Hcur)]; [left|right|done].
  - rewrite Hrd in Hs. split_and!; [|done|done]. split; [done|]. intros h b'. rewrite Hrd. apply Hst.
  - assert (j' = j) as -> by congruence.
    assert (forall h b', ReadBlock (chain_db bc') h = Some b' -> h = BlockHash b /\ b' = b \/ ReadBlock (chain_db bc) h = Some b') as Hrd'.
    { intros h b'. rewrite (AddBlock_ReadBlock _ _ _ _ h H'), Hrd. destruct (decide _) as [->|_]; [|by right].
      destruct (Marshal b) as [d|] eqn:Ed; [|done]. cbn. intros Hu. left. split; [done|]. by apply (unmarshal_faithful b d). }
    split; [|done]. split.
    + destruct (Z.ltb_spec k j).
      * exists b. by rewrite Z.max_r by lia.
      * rewrite Z.max_l by lia. destruct Hh as (cur & Hc & Hk). exists cur. by rewrite Hcur.
    + intros h b' Hb. destruct (Hrd' h b' Hb) as [[-> ->]|Hb'].
      * split; [done|]. exists j. split; [done|lia].
      * destruct (Hst h b' Hb') as (-> & i & Hi & Hle). split; [done|]. exists i. split; [done|lia].
Qed.

(** A tick either leaves the chain and the sent blocks alone or mints a block. *)
Lemma tick_cases n pool r n' pool' :
  tick n pool r n' pool' -> engine_ok (n_engine n) ->
  engine_ok (n_engine n') /\ node_addr n' = node_addr n /\
  ((n_bc n' = n_bc n /\ n_sent n' = n_sent n) \/
   exists b vs key k, n_sent n' = n_sent n ++ [b] /\ minted n pool n' b vs key k).
Proof.
  intros Ht He. destruct Ht as [e my now ex n1 Hlock Hel Hm|e p my Hlock Hel Hne|e p my Hlock Hel Hne]; pose proof Hel as Hel'; symmetry in Hel;
    destruct (elect_inv _ _ _ _ He Hel) as (vs & cur & k & key & _ & _ & _ & _ & He' & Hv & Hkey & Hkey' & _).
  - pose proof (tick_mine n pool e my now ex n1 Hlock Hel' Hm) as Ht.
    destruct Hm as [txs h out _ Htxs Hh Hex Hp].
    apply processBatch_inv in Hp as (h' & rs & root & s & Hh' & -> & Hx & Heng & Hs).
    split_and!; [rewrite Heng; by apply intercept_ok|unfold node_addr; rewrite Heng, intercept_key; cbn [n_engine with_engine]; by rewrite Hkey, Hkey'|].
    destruct Hs as [(Hs & _ & Hbc & _)|(key' & sig & bc & r & _ & _ & Hs & _)]; [by left|right].
    cbn [n_sent with_engine] in Hs. eexists. destruct (tick_minted _ _ _ _ _ _ He Ht Hs) as (vs' & key'' & k' & Hmi).
    by exists vs', key'', k'.
  - split_and!; [done|unfold node_addr; cbn; by rewrite Hkey, Hkey'|by left].
  - assert (privKey (RecordNonCompliance e p) = privKey e) as Hk.
    { unfold RecordNonCompliance, Slash. destruct (1000 <=? _); [by rewrite RemoveValidator_key|done]. }
    split_and!; [|unfold node_addr; cbn; by rewrite Hk, Hkey, Hkey'|by left].
    cbn. by eapply engine_step_ok; [apply (es_noncompliance (fun _ => True))|].
Qed.

Lemma import_cases n b n' :
  import_step n b n' ->
  n_bc n' = n_bc n \/
  exists root rs s r, AddBlock (set_db (n_bc n) (db_write (chain_db (n_bc n)) (commit_batch s)))
    (NewBlock (set_root (BHeader b) root) (Transactions b)) (Some rs) = Some (n_bc n', r).
Proof.
  intros [out _ _ Hi]. unfold import_block in Hi. destruct (Verify _ _) as [[e v]|]; [|done]. cbn [mbind option_bind] in Hi.
  destruct v as [u|err]; [|left; by injection Hi as <-].
  destruct out as [[[rs root] s]|]; [|done]. cbn [mbind option_bind] in Hi. rewrite commit_state_eq in Hi.
  cbn [n_bc n_state with_state with_engine with_bc] in Hi.
  destruct (AddBlock _ _ _) as [[bc r]|] eqn:Ea; [|done]. cbn [mbind option_bind] in Hi. injection Hi as <-.
  right. by exists root, rs, s, r.
Qed.

(** *** The invariant *)

(** What a node knows and has sent, at height [k]: it proposed each number at most once, and
    only numbers it leads. *)
Record sound vs n (k : Z) : Prop := {
  so_engine : engine_ok (n_engine n);
  so_stored : stored_below (n_bc n) k;
  so_height : 0 <= k;
  so_sent : forall b, b ∈ n_sent n -> exists j, Number (BHeader b) = Some j /\ 1 <= j <= k /\
                                            leader_of vs (big_uint64 j) = node_addr n;
  so_once : forall b b', b ∈ n_sent n -> b' ∈ n_sent n -> Number (BHeader b) = Number (BHeader b') -> b = b'
}.

(** All nodes are sound, and every stored block is the genesis block or was proposed. *)
Record net_ok (g : Block) vs (addrs : list (option Address)) ns : Prop := {
  no_sound : forall i c, ns !! i = Some c -> exists k, sound vs c.1 k;
  no_origin : forall i c h b', ns !! i = Some c -> ReadBlock (chain_db (n_bc c.1)) h = Some b' ->
    b' = g \/ exists j d b, ns !! j = Some d /\ b ∈ n_sent d.1 /\ same_proposal b b';
  no_addrs : (fun c => node_addr c.1) <$> ns = addrs
}.

(** Headers of one node's sent and stored blocks with the same hash are equal. *)
Definition no_collision ns : Prop :=
  forall i c h b b', ns !! i = Some c -> b ∈ n_sent c.1 -> ReadBlock (chain_db (n_bc c.1)) h = Some b' ->
    BlockHash b = BlockHash b' -> BHeader b = BHeader b'.

(** Every node elects from [vs]. *)
Definition steady vs ns : Prop := forall i c, ns !! i = Some c -> electorate c.1 = Some vs.

(** Replacing one node. *)
Lemma net_ok_update g vs addrs ns i c c' k :
  net_ok g vs addrs ns -> ns !! i = Some c -> sound vs c'.1 k -> node_addr c'.1 = node_addr c.1 ->
  (forall b, b ∈ n_sent c.1 -> b ∈ n_sent c'.1) ->
  (forall h b', ReadBlock (chain_db (n_bc c'.1)) h = Some b' ->
     ReadBlock (chain_db (n_bc c.1)) h = Some b' \/
     exists j d b, <[i := c']> ns !! j = Some d /\ b ∈ n_sent d.1 /\ same_proposal b b') ->
  net_ok g vs addrs (<[i := c']> ns).
Proof.
  intros [Hs Ho Ha] Hi Hs' Haddr Hsent Hst.
  pose proof (lookup_lt_Some _ _ _ Hi) as Hlt.
  assert (forall b', (exists j d b, ns !! j = Some d /\ b ∈ n_sent d.1 /\ same_proposal b b') ->
            exists j d b, <[i := c']> ns !! j = Some d /\ b ∈ n_sent d.1 /\ same_proposal b b') as Hmono.
  { intros b' (j & d & b & Hj & Hb & Hp). destruct (decide (j = i)) as [->|Hne].
    - rewrite Hi in Hj. injection Hj as <-. exists i, c', b. rewrite list_lookup_insert_eq by done. eauto.
    - exists j, d, b. by rewrite list_lookup_insert_ne. }
  split.
  - intros j d Hj. destruct (decide (j = i)) as [->|Hne].
    + rewrite list_lookup_insert_eq in Hj by done. injection Hj as <-. eauto.
    + rewrite list_lookup_insert_ne in Hj by done. eauto.
  - intros j d h b' Hj Hb. destruct (decide (j = i)) as [->|Hne].
    + rewrite list_lookup_insert_eq in Hj by done. injection Hj as <-.
      destruct (Hst h b' Hb) as [Hb'|]; [|by right]. destruct (Ho i c h b' Hi Hb'); auto.
    + rewrite list_lookup_insert_ne in Hj by done. destruct (Ho j d h b' Hj Hb); auto.
  - rewrite list_fmap_insert, Haddr, Ha. apply list_insert_id. rewrite <- Ha, list_lookup_fmap, Hi. done.
Qed.

Lemma sound_core vs n n' k :
  sound vs n k -> n_bc n' = n_bc n -> n_sent n' = n_sent n -> node_addr n' = node_addr n ->
  engine_ok (n_engine n') -> sound vs n' k.
Proof. intros [H1 H2 H3 H4 H5] E1 E2 E3 He. split; rewrite ?E1, ?E2, ?E3; done. Qed.

(** Minting a block. *)
Lemma minted_sound vs n pool n' b vs' key k0 k :
  encodable -> sound vs n k -> electorate n = Some vs -> minted n pool n' b vs' key k0 ->
  n_sent n' = n_sent n ++ [b] -> engine_ok (n_engine n') -> node_addr n' = node_addr n ->
  (forall h b', ReadBlock (chain_db (n_bc n')) h = Some b' -> BlockHash b = BlockHash b' -> BHeader b = BHeader b') ->
  sound vs n' (k + 1) /\
  forall h b', ReadBlock (chain_db (n_bc n')) h = Some b' -> ReadBlock (chain_db (n_bc n)) h = Some b' \/ b' = b.
Proof.
  intros HE Hso Hvs Hmi Hsent He Haddr Hcol. destruct Hso as [_ Hst H0 Hsn Honce].
  destruct Hmi as [Hvs' (cur & Hc & Hk & _) Hnum Hl [Hkey _] _ _ (rs & s & r & _ & Hadd & _) _].
  assert (k0 = k) as ->. { destruct Hst as [(cur' & Hc' & Hk') _]. congruence. }
  assert (vs' = vs) as -> by congruence.
  assert (leader_of vs (big_uint64 (k + 1)) = node_addr n) as Hlead by (rewrite Hl; unfold node_addr; by rewrite Hkey).
  apply (add_stored _ k _ _ _ _ _ (k + 1) HE) in Hadd as [(Hst' & [x Hx] & Hrd)|(Hst' & Hrd)]; [| |done|done|lia].
  - exfalso. rewrite <- Hrd in Hx. destruct (proj2 Hst' _ _ Hx) as (Hhx & j & Hj & Hle).
    specialize (Hcol _ _ Hx Hhx). rewrite Hcol, Hj in Hnum. injection Hnum as ->. lia.
  - rewrite Z.max_r in Hst' by lia. split; [split; try done; [lia| |]|].
    + intros b' Hb'. rewrite Hsent in Hb'. rewrite Haddr. apply elem_of_app in Hb' as [Hb'|Hb'].
      * destruct (Hsn b' Hb') as (j & Hj & Hr & Hlj). exists j. split_and!; [done|lia..|done].
      * apply list_elem_of_singleton in Hb' as ->. exists (k + 1). split_and!; [done|lia..|done].
    + assert (forall b', b' ∈ n_sent n -> Number (BHeader b') <> Some (k + 1)) as Hnew.
      { intros b' Hb' E. destruct (Hsn b' Hb') as (j & Hj & Hr & _). rewrite Hj in E. injection E as ->. lia. }
      intros b1 b2 H1 H2 E. rewrite Hsent in H1, H2. rewrite elem_of_app, list_elem_of_singleton in H1, H2.
      destruct H1 as [H1| ->], H2 as [H2| ->]; [by apply Honce| | |done]; exfalso; eapply Hnew; [done|congruence|done|congruence].
    + intros h b' Hb'. destruct (Hrd h b' Hb') as [[_ ->]|]; [by right|by left].
Qed.

(** Importing a proposed block. *)
Lemma import_sound vs n b n' k j :
  encodable -> sound vs n k -> import_step n b n' -> Number (BHeader b) = Some j -> 1 <= j ->
  exists k', sound vs n' k' /\ node_addr n' = node_addr n /\ n_sent n' = n_sent n /\
    forall h b', ReadBlock (chain_db (n_bc n')) h = Some b' -> ReadBlock (chain_db (n_bc n)) h = Some b' \/ same_proposal b b'.
Proof.
  intros HE Hso Him Hj Hpos. destruct (import_frame _ _ _ Him (so_engine _ _ _ Hso)) as (He & _ & Hk & _ & _ & Hsent).
  assert (node_addr n' = node_addr n) as Haddr by (unfold node_addr; by rewrite Hk).
  destruct (import_cases _ _ _ Him) as [Hbc|(root & rs & s & r & Hadd)].
  { exists k. split_and!; [by apply (sound_core vs n)|done|done|]. rewrite Hbc. auto. }
  destruct Hso as [_ Hst H0 Hsn Honce].
  assert (forall k', k <= k' -> stored_below (n_bc n') k' -> sound vs n' k') as Hkeep.
  { intros k' Hle Hst'. split; rewrite ?Hsent, ?Haddr; try done; [lia|]. intros b1 H1.
    destruct (Hsn b1 H1) as (i & Hi & Hr & Hl). exists i. split_and!; [done|lia..|done]. }
  apply (add_stored _ k _ _ _ _ _ j HE) in Hadd as [(Hst' & _ & Hrd)|(Hst' & Hrd)]; [| |done|done|lia].
  - exists k. split_and!; [by apply Hkeep; [lia|]|done|done|]. intros h b'. rewrite Hrd. auto.
  - exists (Z.max k j). split_and!; [by apply Hkeep; [lia|]|done|done|]. intros h b' Hb'.
    destruct (Hrd h b' Hb') as [[_ ->]|]; [by right|by left].
Qed.

Lemma mesh_step_sound g vs addrs ns ns' :
  encodable -> net_ok g vs addrs ns -> steady vs ns -> no_collision ns' -> mesh_step ns ns' -> net_ok g vs addrs ns'.
Proof.
  intros HE Hok Hsteady Hcol Hst.
  destruct Hst as [ns i c c' Hi H|ns i n pool r n' pool' Hi H|ns i j n pool n' m pool' b Hi Hj Hb H];
    destruct (no_sound _ _ _ _ Hok _ _ Hi) as [k Hk]; cbn [fst] in *.
  - apply intake_core in H as [(E1 & E2 & E3 & _ & _ & E6) _].
    assert (node_addr c'.1 = node_addr c.1) as Ha by (unfold node_addr; by rewrite E3).
    apply (net_ok_update _ _ _ _ _ c _ k Hok Hi); [|done| |].
    + apply (sound_core vs c.1); try done. rewrite E3. by apply (so_engine _ _ _ Hk).
    + by rewrite E6.
    + rewrite E1. auto.
  - destruct (tick_cases _ _ _ _ _ H (so_engine _ _ _ Hk)) as (He & Ha & [(Hbc & Hs)|(b & vs' & key & k0 & Hs & Hmi)]).
    + apply (net_ok_update _ _ _ _ _ (n, pool) _ k Hok Hi); cbn [fst]; [by apply (sound_core vs n)|done|by rewrite Hs|].
      rewrite Hbc. auto.
    + assert (<[i := (n', pool')]> ns !! i = Some (n', pool')) as Hi'
        by (apply list_lookup_insert_eq; by eapply lookup_lt_Some).
      destruct (minted_sound vs n pool n' b vs' key k0 k HE Hk (Hsteady _ _ Hi) Hmi Hs He Ha) as [Hk' Hrd].
      { intros h b' Hb'. apply (Hcol i _ h b b' Hi'); [|done]. cbn [fst]. rewrite Hs. set_solver. }
      apply (net_ok_update _ _ _ _ _ (n, pool) _ (k + 1) Hok Hi); cbn [fst]; [done|done|rewrite Hs; set_solver|].
      intros h b' Hb'. destruct (Hrd h b' Hb') as [| ->]; [by left|right]. exists i, (n', pool'), b.
      split_and!; [done|cbn [fst]; rewrite Hs; set_solver|done].
  - destruct (no_sound _ _ _ _ Hok _ _ Hj) as [km Hkm]. destruct (so_sent _ _ _ Hkm b Hb) as (x & Hx & Hr & _).
    destruct (import_sound vs n b n' k x HE Hk H Hx) as (k' & Hk' & Ha & Hs & Hrd); [lia|].
    apply (net_ok_update _ _ _ _ _ (n, pool) _ k' Hok Hi); cbn [fst]; [done|done|by rewrite Hs|].
    intros h b' Hb'. destruct (Hrd h b' Hb') as [|Hp]; [by left|right].
    destruct (decide (j = i)) as [->|Hne].
    + rewrite Hi in Hj. injection Hj as -> ->. exists i, (n', pool'), b. rewrite list_lookup_insert_eq by (by eapply lookup_lt_Some).
      cbn [fst]. by rewrite Hs.
    + exists j, (m, pool'), b. by rewrite list_lookup_insert_ne.
Qed.

(** *** Start-up *)

(** On an empty database the chain holds the genesis block and nothing else. *)
Lemma fresh_chain cfg bc :
  encodable -> NewBlockchain ∅ cfg = Some bc ->
  exists g, CurrentBlock bc = Some g /\ Number (BHeader g) = Some 0 /\
    forall h b, ReadBlock (chain_db bc) h = Some b -> h = BlockHash g /\ b = g.
Proof.
  intros HE. unfold NewBlockchain. change (ReadHeadBlockHash ∅) with zero_hash. rewrite bool_decide_eq_true_2 by done.
  set (s := genesis_state ∅ _). change (Commit s []) with (committed s, commit_batch s, (Commit s []).2). cbv beta iota zeta.
  set (g := NewBlock (set_root _ _) []). set (bc0 := mkChain _ cfg None).
  destruct (AddBlock bc0 g None) as [[bc1 r]|] eqn:Ea; [|done]. cbn [mbind option_bind].
  assert (forall h, ReadBlock (chain_db bc0) h = None) as Hnone by (intros h; apply ReadBlock_commit).
  assert (r = Ok tt) as ->.
  { revert Ea. unfold AddBlock, WriteBlock. rewrite Hnone. destruct HE as (HM & _). destruct (HM g) as [d ->]. cbn. by intros [= _ <-]. }
  intros [= <-]. exists g. split_and!; [done|done|]. intros h b. cbn [chain_db set_db].
  unfold ReadBlock. rewrite lookup_head by dbkey_ne.
  pose proof (AddBlock_ReadBlock _ _ _ _ h Ea) as E. rewrite Hnone in E. unfold ReadBlock in E. rewrite E.
  destruct (decide _) as [->|]; [|done]. destruct (Marshal g) as [d|] eqn:Ed; [|done]. cbn. intros Hu.
  split; [done|]. by apply (unmarshal_faithful g d).
Qed.

(** Nodes started on the same database for the same network differ in the key only. *)
Lemma Start_spec cfg devKey db db' n :
  Start cfg devKey db = Some (db', Ok n) ->
  exists bc, NewBlockchain db (GetNetworkConfig (Network cfg)) = Some bc /\
    CurrentBlock (n_bc n) = CurrentBlock bc /\ (forall h, ReadBlock (chain_db (n_bc n)) h = ReadBlock (chain_db bc) h) /\
    n_engine n = NewZelius (cfg_Validators (GetNetworkConfig (Network cfg))) (Some (default devKey (ValidatorKey cfg))) /\
    n_netCfg n = GetNetworkConfig (Network cfg) /\ n_stateLock n = false /\ n_sent n = [].
Proof.
  unfold Start. set (net := GetNetworkConfig _). destruct (NewBlockchain db net) as [bc|]; [|done]. cbn [mbind option_bind].
  set (mm := match GetBlockByNumber bc (wd 0) with Some _ => _ | None => None end). destruct mm; [done|].
  destruct (match CurrentBlock bc with Some h => Number (BHeader h) ≫= _ | None => Some 0 end) as [height|]; [|done].
  cbn [mbind option_bind]. intros [= _ <-]. exists bc. split; [done|].
  destruct (height =? 0); [|split_and!; done]. rewrite commit_state_eq.
  split_and!; try done. intros h. cbn. apply ReadBlock_commit.
Qed.

Lemma Start_same cfg1 cfg2 dk1 dk2 db db1 db2 n1 n2 :
  Network cfg1 = Network cfg2 -> Start cfg1 dk1 db = Some (db1, Ok n1) -> Start cfg2 dk2 db = Some (db2, Ok n2) ->
  n_bc n1 = n_bc n2 /\ n_state n1 = n_state n2.
Proof.
  intros Hnet. unfold Start. rewrite <- Hnet. set (net := GetNetworkConfig _).
  destruct (NewBlockchain db net) as [bc|]; [|done]. cbn [mbind option_bind].
  set (mm := match GetBlockByNumber bc (wd 0) with Some _ => _ | None => None end). destruct mm; [done|].
  destruct (match CurrentBlock bc with Some h => Number (BHeader h) ≫= _ | None => Some 0 end) as [height|]; [|done].
  cbn [mbind option_bind]. destruct (height =? 0); intros [= _ <-] [= _ <-]; [|done]. by rewrite !commit_state_eq.
Qed.

(** A node started on an empty database for the network [net], with an empty pool. *)
Definition started (net : string) (c : Node * list Transaction) : Prop :=
  c.2 = [] /\ exists cfg devKey db, Network cfg = net /\ Start cfg devKey ∅ = Some (db, Ok c.1).

Lemma started_net_ok net vs ns :
  encodable -> (forall i c, ns !! i = Some c -> started net c) -> exists g, Number (BHeader g) = Some 0 /\
    net_ok g vs ((fun c => node_addr c.1) <$> ns) ns.
Proof.
  intros HE Hst. destruct ns as [|c0 ns0].
  { exists (NewBlock (mkHeader zero_hash (Some 0) (wd 0) zero_hash zero_hash zero_addr [] None (wd 0) (wd 0) None) []).
    split; [done|]. by split. }
  destruct (Hst 0%nat c0 eq_refl) as (_ & cfg0 & dk0 & db0 & Hnet0 & Hs0).
  destruct (Start_spec _ _ _ _ _ Hs0) as (bc & Hbc & Hc0 & Hr0 & _). rewrite Hnet0 in Hbc.
  destruct (fresh_chain _ _ HE Hbc) as (g & Hg & Hn & Hall).
  exists g. split; [done|]. revert Hst. generalize (c0 :: ns0) as ns. clear c0 ns0 cfg0 dk0 db0 Hnet0 Hs0 Hc0 Hr0. intros ns Hst.
  assert (forall i c, ns !! i = Some c -> CurrentBlock (n_bc c.1) = Some g /\ engine_ok (n_engine c.1) /\ n_sent c.1 = [] /\
            forall h b, ReadBlock (chain_db (n_bc c.1)) h = Some b -> h = BlockHash g /\ b = g) as Hnode.
  { intros i c Hi. destruct (Hst i c Hi) as (_ & cfg & dk & db & Hnet & Hs).
    destruct (Start_spec _ _ _ _ _ Hs) as (bc' & Hbc' & Hc & Hr & He & _ & _ & Hsent). rewrite Hnet, Hbc in Hbc'.
    injection Hbc' as <-. split_and!; [congruence| |done|intros h b; rewrite Hr; apply Hall].
    rewrite He. split; [by apply cache_ok_cleared|done]. }
  split; [| |done].
  - intros i c Hi. destruct (Hnode i c Hi) as (Hcur & He & Hsent & Hb). exists 0.
    split; [exact He| |apply Z.le_refl|rewrite Hsent; by intros b ?%not_elem_of_nil|rewrite Hsent; by intros b b' ?%not_elem_of_nil].
    split; [by exists g|]. intros h b Hrd. destruct (Hb h b Hrd) as [-> ->]. split; [done|]. exists 0. split; [done|lia].
  - intros i c h b' Hi Hrd. left. by apply (Hnode i c Hi) in Hrd as [_ ->].
Qed.

(** C3: No forks. In a network of nodes with different keys, started on empty databases for one
    network, whatever transactions arrive and however blocks are delayed, reordered,
    duplicated or lost, as long as every node elects from the same validators (nobody is
    slashed and the registry does not change) and hashes do not collide: two blocks with the
    same number that nodes proposed are the same block, and two blocks with the same
    number in any two databases have the same parent, transactions, seal and every other header field
    except the state root each node computed itself. *)
Theorem no_forks net vs ns0 ns :
  encodable -> Forall (started net) ns0 -> NoDup ((fun c => node_addr c.1) <$> ns0) ->
  steady vs ns0 -> rtc (fun x y => mesh_step x y /\ steady vs y /\ no_collision y) ns0 ns ->
  forall i j c d, ns !! i = Some c -> ns !! j = Some d ->
    (forall b b', b ∈ n_sent c.1 -> b' ∈ n_sent d.1 -> Number (BHeader b) = Number (BHeader b') -> b = b') /\
    (forall h h' b b', GetBlockByHash (n_bc c.1) h = Some b -> GetBlockByHash (n_bc d.1) h' = Some b' ->
       Number (BHeader b) = Number (BHeader b') -> same_proposal b b').
Proof.
  intros HE Hst HN Hsteady Hrun. rewrite Forall_lookup in Hst.
  destruct (started_net_ok net vs ns0 HE Hst) as (g & Hg & Hok0).
  assert (net_ok g vs ((fun c => node_addr c.1) <$> ns0) ns) as Hok.
  { clear Hst HN. revert Hok0 Hsteady. generalize ((fun c => node_addr c.1) <$> ns0) as addrs. intros addrs Hok0 Hsteady.
    induction Hrun as [x|x y z (Hxy & Hy & Hcy) _ IH]; [done|].
    apply IH; [|done]. by eapply mesh_step_sound. }
  clear Hok0 Hrun Hsteady. destruct Hok as [Hs Ho Ha].
  assert (forall i j c d b b', ns !! i = Some c -> ns !! j = Some d -> b ∈ n_sent c.1 -> b' ∈ n_sent d.1 ->
            Number (BHeader b) = Number (BHeader b') -> b = b') as Hsent.
  { intros i j c d b b' Hi Hj Hb Hb' E. destruct (Hs _ _ Hi) as [k Hk], (Hs _ _ Hj) as [k' Hk'].
    destruct (so_sent _ _ _ Hk b Hb) as (x & Hx & _ & Hl), (so_sent _ _ _ Hk' b' Hb') as (x' & Hx' & _ & Hl').
    assert (x' = x) as -> by congruence. assert (i = j) as ->.
    { apply (NoDup_lookup _ i j (node_addr c.1) HN); rewrite <- Ha, list_lookup_fmap, ?Hi, ?Hj; [done|]. cbn. congruence. }
    rewrite Hi in Hj. injection Hj as <-. by apply (so_once _ _ _ Hk). }
  intros i j c d Hi Hj. split; [intros b b'; by apply (Hsent i j c d)|].
  unfold GetBlockByHash. intros h h' b b' Hb Hb' E.
  assert (forall p dd q, ns !! p = Some dd -> q ∈ n_sent dd.1 -> Number (BHeader q) <> Some 0) as Hpos.
  { intros p dd q Hp Hq E0. destruct (Hs _ _ Hp) as [k Hk]. destruct (so_sent _ _ _ Hk q Hq) as (x & Hx & Hr & _).
    rewrite Hx in E0. injection E0 as ->. lia. }
  destruct (Ho i c h b Hi Hb) as [->|(p & dd & q & Hp & Hq & Hpq)], (Ho j d h' b' Hj Hb') as [->|(p' & dd' & q' & Hp' & Hq' & Hpq')].
  - done.
  - apply same_proposal_number in Hpq'. exfalso. apply (Hpos _ _ _ Hp' Hq'). congruence.
  - apply same_proposal_number in Hpq. exfalso. apply (Hpos _ _ _ Hp Hq). congruence.
  - pose proof (same_proposal_number _ _ Hpq) as E1. pose proof (same_proposal_number _ _ Hpq') as E2.
    assert (q = q') as -> by (apply (Hsent p p' dd dd'); try done; congruence).
    destruct Hpq as [E3 E4], Hpq' as [E5 E6]. split; congruence.
Qed.
End NoForks.

(** ** Progress *)

Section Progress.
Context {C : Crypto} {CL : CryptoLaws C} {V : Verkle} {VL : VerkleLaws V} {EV : EVM} {TS : TxSigner}.
Context {CB : Codec Block} {CBL : CodecLaws Block CB readable} {CR : Codec (list Receipt)} {CT : Codec TxLookupEntry}.
Implicit Types (n m : Node) (b : Block) (vs : list Validator) (ns : list (Node * list Transaction)).

(** An election succeeds whenever there is a head, a key and an electorate. *)
Lemma elect_total n vs k key leader :
  engine_ok (n_engine n) -> electorate n = Some vs -> head_at (n_bc n) k -> privKey (n_engine n) = Some key ->
  leader_of vs (big_uint64 (k + 1)) = Some leader ->
  exists e, elect n = Some (e, leader, PubkeyToAddress (pub_of key)) /\ privKey e = Some key.
Proof.
  intros He Hvs (cur & Hc & Hk) Hkey Hl. unfold electorate in Hvs. unfold elect.
  destruct (SyncValidators _ _) as [e1|] eqn:Es; [|done]. injection Hvs as Hv. cbn [mbind option_bind].
  assert (engine_ok e1) as H1 by (eapply engine_step_ok; [apply (es_sync (fun _ => True) _ (n_state n)); done|done]).
  assert (privKey e1 = Some key) as Hk1 by (by rewrite (SyncValidators_key _ _ _ Es)).
  rewrite Hc. cbn [mbind option_bind]. rewrite Hk. cbn [mbind option_bind].
  pose proof (GetLeader_spec e1 (big_uint64 (k + 1)) (proj1 H1)) as Hg. rewrite Hv, Hl in Hg.
  destruct (GetLeader e1 _) as [[e2 l]|]; [|done]. destruct Hg as ([= <-] & _ & mp & ->). cbn [mbind option_bind].
  change (privKey (set_leaders e1 mp)) with (privKey e1). rewrite Hk1. by eexists.
Qed.

(** A replica can import a minted block. *)
Lemma import_exists n pool n' b vs key k m :
  minted n pool n' b vs key k -> n_stateLock m = false ->
  n_bc m = n_bc n -> n_state m = n_state n -> n_netCfg m = n_netCfg n ->
  engine_ok (n_engine m) -> Validators (n_engine m) = vs -> exists m', import_step m b m'.
Proof.
  intros Hmi Hlock Hbc Hst Hcfg He Hv.
  destruct (minted_verifies _ _ _ _ _ _ _ _ Hmi He Hv) as [[e Hver] Er].
  destruct Hmi as [_ _ _ _ _ _ _ (rs & s & r & Hex & Hadd & _) _].
  eexists. apply (import_intro _ _ _ (Some (rs, VerkleRoot (BHeader b), s))); [done| |].
  - unfold executor_of. rewrite Hbc, Hst, Hcfg. exact Hex.
  - unfold import_block. rewrite Hver. cbn [mbind option_bind].
    rewrite Er, commit_state_eq. cbn [n_bc n_state with_state with_bc with_engine]. rewrite Hbc, Hadd. done.
Qed.

(** Once the leader of a network in step has proposed, all others can follow. *)
Lemma followers_exist bc s cfg vs ns l n n' pool pool' period b :
  Forall (fun c => replica bc s cfg (Some vs) c.1) ns -> Forall (fun c => is_Some (privKey (n_engine c.1))) ns ->
  NoDup ((fun c => node_addr c.1) <$> ns) -> ns !! l = Some (n, pool) ->
  tick n pool (Proposed period) n' pool' -> n_sent n' = n_sent n ++ [b] -> exists ns', sync_round b ns ns'.
Proof.
  intros HF HK HN El Ht Hsent. rewrite Forall_lookup in HF, HK.
  destruct (HF _ _ El) as [Hbc Hst Hcfg Hvs Hlock He]. cbn [fst] in *.
  destruct (tick_minted _ _ _ _ _ _ He Ht Hsent) as (vs' & key & k & Hmi).
  assert (vs' = vs) as -> by (pose proof (mi_vs _ _ _ _ _ _ _ Hmi); congruence).
  pose proof (mi_leader _ _ _ _ _ _ _ Hmi) as Hl. destruct (mi_key _ _ _ _ _ _ _ Hmi) as [Hkey _].
  assert (forall j c, ns !! j = Some c -> exists c', if decide (j = l) then c' = (n', pool') else
            exists m1 m2, tick c.1 c.2 BlockArrived m1 c.2 /\ import_step m1 b m2 /\ c' = (m2, c.2)) as Hall.
  { intros j [m p] Hj. destruct (decide (j = l)) as [->|Hne]; [by eexists|].
    destruct (HF _ _ Hj) as [Hbc2 Hst2 Hcfg2 Hvs2 Hlock2 He2], (HK _ _ Hj) as [key2 Hkey2]. cbn [fst snd] in *.
    destruct (elect_total m vs k key2 (PubkeyToAddress (pub_of key))) as (e2 & Hel2 & _); [done|done| |done|done|].
    { destruct (mi_head _ _ _ _ _ _ _ Hmi) as (cur & Hc & Hk & _). exists cur. by rewrite Hbc2, <- Hbc. }
    destruct (elect_inv _ _ _ _ He2 Hel2) as (vs2 & _ & _ & _ & Hvs2' & _ & _ & _ & He3 & Hv3 & _).
    assert (vs2 = vs) as -> by congruence.
    destruct (import_exists n pool n' b vs key k (with_engine m e2) Hmi) as [m2 Hm2]; try done; cbn; try congruence.
    exists (m2, p), (with_engine m e2), m2. split_and!; [|done|done]. apply (tick_wait m p e2 _ _ Hlock2 (eq_sym Hel2)).
    intros E. apply Hne. apply (NoDup_lookup _ j l (node_addr m) HN); rewrite list_lookup_fmap, ?Hj, ?El; [done|].
    cbn. unfold node_addr. rewrite Hkey, Hkey2. cbn. by rewrite E. }
  destruct (list_choice _ ns Hall) as (ns' & Hlen & Hns'). exists ns'.
  apply (round_intro b ns l n pool period n' pool' ns'); try done.
  - destruct (Hns' l _ El) as (c' & Hc' & HR). rewrite decide_True in HR by done. by subst c'.
  - intros j m p Hne Hj. destruct (Hns' j _ Hj) as (c' & Hc' & HR). rewrite decide_False in HR by done.
    destruct HR as (m1 & m2 & H1 & H2 & ->). by exists m1, m2.
Qed.

(** After a round with an empty block all nodes have paid its coinbase, would verify it (again), and have the same
    chain, which ends in the block when its hash was not taken. *)
Lemma empty_round bc s cfg vs ns ns' b :
  encodable -> Forall (fun c => replica bc s cfg (Some vs) c.1) ns -> sync_round b ns ns' -> Transactions b = [] ->
  exists bc', Forall (fun c => n_bc c.1 = bc' /\ n_state c.1 = committed (AddBalanceReward s (Coinbase (BHeader b)) (wd block_reward)) /\
                               exists e, Verify (n_engine c.1) b = Some (e, Ok tt)) ns' /\
    (ReadBlock (chain_db bc) (BlockHash b) = None -> CurrentBlock bc' = Some b /\ ReadBlock (chain_db bc') (BlockHash b) = Some b).
Proof.
  intros HE HF Hr Htx. rewrite Forall_lookup in HF. destruct Hr as [ns l n pool period n' pool' ns' El Ht Hsent Hlen El' Hothers].
  destruct (HF _ _ El) as [Hbc Hst Hcfg Hvs Hlock He]. cbn [fst] in *.
  destruct (tick_minted _ _ _ _ _ _ He Ht Hsent) as (vs' & key & k & Hmi).
  assert (vs' = vs) as -> by (pose proof (mi_vs _ _ _ _ _ _ _ Hmi); congruence).
  assert (n_state n' = committed (AddBalanceReward s (Coinbase (BHeader b)) (wd block_reward))) as Hs'.
  { destruct (mi_stored _ _ _ _ _ _ _ Hmi) as (rs & s' & r & Hex & _ & Hs'). rewrite Htx in Hex.
    apply ApplyBlock_empty in Hex as [= _ _ ->]. by rewrite Hs', Hst. }
  destruct (mi_engine _ _ _ _ _ _ _ Hmi) as (e & Hee & Hev & Hen). rewrite Htx in Hen. change (intercept _ e []) with e in Hen.
  exists (n_bc n'). split.
  - apply Forall_lookup_2. intros j c Hj. destruct (decide (j = l)) as [->|Hne].
    { rewrite El' in Hj. injection Hj as <-. cbn [fst]. split_and!; [done..|]. rewrite Hen.
      by destruct (minted_verifies _ _ _ _ _ _ _ _ Hmi Hee Hev). }
    destruct (ns !! j) as [[m p]|] eqn:Ej.
    2:{ apply lookup_ge_None in Ej. apply lookup_lt_Some in Hj. lia. }
    destruct (Hothers j m p Hne Ej) as (m1 & m2 & Htm & Him & Ej'). rewrite Hj in Ej'. injection Ej' as ->.
    destruct (HF _ _ Ej) as [Hbc2 Hst2 Hcfg2 Hvs2 Hlock2 He2]. cbn [fst] in *.
    apply tick_waited in Htm as (e1 & prop & my & Hel & ->).
    destruct (elect_inv _ _ _ _ He2 Hel) as (vs2 & _ & _ & _ & Hvs2' & _ & _ & _ & He1 & Hv1 & _).
    destruct (import_frame _ _ _ Him He1) as (He3 & Hv3 & _). cbn [n_engine with_engine] in *.
    assert (vs2 = vs) as -> by congruence.
    destruct (import_minted n pool n' b vs key k (with_engine m e1) m2) as [Hb3 Hs3]; try done; cbn; try congruence.
    { exists zero_addr. by rewrite Htx. }
    split_and!; [done|by rewrite Hs3|]. by destruct (minted_verifies _ _ _ _ _ _ _ (n_engine m2) Hmi He3 (eq_trans Hv3 Hv1)).
  - rewrite <- Hbc. intros Hnew. pose proof (minted_head _ _ _ _ _ _ _ HE Hmi Hnew) as Hcur. split; [done|].
    destruct (mi_head _ _ _ _ _ _ _ Hmi) as (cur & Hc & Hk & _).
    destruct (mi_stored _ _ _ _ _ _ _ Hmi) as (rs & s' & r & _ & Hadd & _).
    pose proof Hadd as Hadd'. apply (AddBlock_new _ _ _ _ _ k HE) in Hadd as [(_ & _ & Hs)|(-> & _)]; [| |by exists cur].
    + cbn [chain_db set_db] in Hs. rewrite ReadBlock_commit, Hnew in Hs. by destruct Hs.
    + apply (AddBlock_reads _ _ _ _ Hadd'). unfold readable. by rewrite Htx.
Qed.

(** C17: A network in step can go on. When nodes with the same chain, state, configuration and
    validators have different keys that can sign, the next leader is one of them, the pools are
    empty, the head allows a base fee and JSON encoding does not fail, there is a round: the leader proposes the next
    (empty) block and every other node waits for it and imports it. After it every node accepts the block's seal, has
    paid the block's coinbase and committed, and all have the same chain; unless the hash of the block
    was taken before, this chain has the block as its head and returns it by its hash. *)
Theorem next_round_exists bc s cfg vs k cur leader ns :
  encodable -> Forall (fun c => replica bc s cfg (Some vs) c.1 /\ c.2 = []) ns ->
  Forall (fun c => exists key, privKey (n_engine c.1) = Some key /\ forall d, is_Some (Sign (hash_bytes d) key)) ns ->
  NoDup ((fun c => node_addr c.1) <$> ns) ->
  CurrentBlock bc = Some cur -> Number (BHeader cur) = Some k ->
  is_Some (CalcBaseFee (network_ChainConfig cfg) (BHeader cur)) ->
  leader_of vs (big_uint64 (k + 1)) = Some leader -> Some leader ∈ (fun c => node_addr c.1) <$> ns ->
  exists b ns' bc', sync_round b ns ns' /\ Number (BHeader b) = Some (k + 1) /\ ParentHash (BHeader b) = BlockHash cur /\
    Transactions b = [] /\
    Forall (fun c => n_bc c.1 = bc' /\ n_state c.1 = committed (AddBalanceReward s (Coinbase (BHeader b)) (wd block_reward)) /\
                     exists e, Verify (n_engine c.1) b = Some (e, Ok tt)) ns' /\
    (ReadBlock (chain_db bc) (BlockHash b) = None -> CurrentBlock bc' = Some b /\ ReadBlock (chain_db bc') (BlockHash b) = Some b).
Proof.
  intros HE HF HK HN Hcur Hk [fee Hfee] Hl Hin.
  apply list_elem_of_lookup in Hin as [l Hin]. rewrite list_lookup_fmap in Hin.
  destruct (ns !! l) as [[n p]|] eqn:El; [|done]. injection Hin as Haddr.
  pose proof HF as HF1. pose proof HK as HK1. rewrite Forall_lookup in HF1, HK1.
  destruct (HF1 _ _ El) as [[Hbc Hst Hcfg Hvs Hlock He] Hp], (HK1 _ _ El) as (key & Hkey & Hsign). cbn [fst snd] in *. subst p.
  assert (PubkeyToAddress (pub_of key) = leader) as Hlk by (unfold node_addr in Haddr; rewrite Hkey in Haddr; by injection Haddr).
  destruct (elect_total n vs k key leader) as (e & Hel & Hke); [done|done|rewrite Hbc; by exists cur|done|done|].
  destruct (own_turn n key e) as (n' & b & parent & number & Ht & Hsent & Hpar & Hnum & Hph & Hbn & Htx); [done| |done|congruence|done|].
  { intros now. unfold mining_header, header_on. rewrite Hbc, Hcur, Hcfg. cbn [mbind option_bind]. rewrite Hk. cbn [mbind option_bind]. rewrite Hfee. by eexists. }
  rewrite Hbc, Hcur in Hpar. injection Hpar as <-. assert (number = k) as -> by congruence.
  assert (Forall (fun c => replica bc s cfg (Some vs) c.1) ns) as HR by (eapply Forall_impl; [exact HF|]; by intros c [Hc _]).
  destruct (followers_exist bc s cfg vs ns l n n' [] [] None b) as [ns' Hns']; try done.
  - eapply Forall_impl; [exact HK|]. intros c (key' & Hk' & _). by eexists.
  - destruct (empty_round _ _ _ _ _ _ _ HE HR Hns' Htx) as (bc' & Hall & Hstored). by exists b, ns', bc'.
Qed.
End Progress.

(** ** The simulation *)

Section SimulationRun.
Context {C : Crypto} {CL : CryptoLaws C} {V : Verkle} {VL : VerkleLaws V} {EV : EVM} {TS : TxSigner}.
Context {CB : Codec Block} {CBL : CodecLaws Block CB readable} {CR : Codec (list Receipt)} {CT : Codec TxLookupEntry}.
Variable HexToECDSA : string -> option PrivateKey.

Lemma sim_node_started free devKey i k n :
  sim_node HexToECDSA free devKey i k = Some n ->
  exists key db, HexToECDSA k = Some key /\ Start (sim_config i key) devKey ∅ = Some (db, Ok n).
Proof.
  unfold sim_node. destruct (HexToECDSA k) as [key|]; [|discriminate].
  destruct (Start _ _ _) as [[db [n1|]]|] eqn:E; [|discriminate|discriminate].
  destruct (open_listeners _ _); [|discriminate]. intros H. injection H as ->. exists key, db. split; [reflexivity|exact E].
Qed.

(** The four nodes start in step, on the genesis block. *)
Lemma sim_start_replicas free devKey ns :
  encodable -> sim_start HexToECDSA free devKey = Some ns ->
  length ns = 4%nat /\ Forall (fun n => started "simulation" (n, [])) ns /\
  exists bc s ovs, Forall (replica bc s (GetNetworkConfig "simulation") ovs) ns /\ head_at bc 0.
Proof.
  intros HE H. apply mapM_Some in H.
  assert (forall n, n ∈ ns -> exists cfg db, Network cfg = "simulation"%string /\ Start cfg devKey ∅ = Some (db, Ok n)) as Hst.
  { intros n Hn. apply list_elem_of_lookup in Hn as [i Hn]. destruct (Forall2_lookup_r _ _ _ _ _ H Hn) as ([j k] & _ & Hs).
    apply sim_node_started in Hs as (key & db & _ & Hs). exists (sim_config j key), db. split; [reflexivity|exact Hs]. }
  split; [by rewrite <- (Forall2_length _ _ _ H)|]. split.
  { apply Forall_forall. intros n Hn. split; [done|]. destruct (Hst n Hn) as (cfg & db & Hnet & Hs). exists cfg, devKey, db. split; [exact Hnet|exact Hs]. }
  destruct ns as [|n0 ns]; [by apply Forall2_length in H|].
  destruct (Hst n0) as (cfg0 & db0 & Hnet0 & Hs0); [set_solver|].
  destruct (Start_spec _ _ _ _ _ Hs0) as (bc & Hbc & Hc0 & _ & He0 & _). rewrite Hnet0 in He0.
  destruct (fresh_chain _ _ HE Hbc) as (g & Hg & Hn & _).
  exists (n_bc n0), (n_state n0), (electorate n0). split; [|exists g; split; [congruence|done]].
  apply Forall_forall. intros n Hn'. destruct (Hst n Hn') as (cfg & db & Hnet & Hs).
  destruct (Start_same _ _ _ _ _ _ _ _ _ (eq_trans Hnet (eq_sym Hnet0)) Hs Hs0) as [Eb Es].
  destruct (Start_spec _ _ _ _ _ Hs) as (_ & _ & _ & _ & He & Hcfg & Hlock & _). rewrite Hnet in He, Hcfg.
  split; [exact Eb|exact Es|exact Hcfg| |exact Hlock|].
  - apply electorate_same; [exact Es|]. right. by rewrite He, He0.
  - rewrite He. split; [by apply cache_ok_cleared|done].
Qed.

(** The simulation reports what it should. If the four nodes start (on emptied data
    directories), then after k rounds in which the leader's block reaches all nodes, with the
    traffic and any other transactions arriving in between, the four heights are k, and the
    monitor announces success exactly when k is above 20. *)
Theorem simulation_result free devKey ns0 k ns :
  encodable -> sim_start HexToECDSA free devKey = Some ns0 -> Z.of_nat k < 2 ^ 64 ->
  calm_run k ((fun n => (n, [])) <$> ns0) ns ->
  Forall (fun c => sim_height c.1 = Some (Z.of_nat k)) ns /\ sim_monitor (fst <$> ns) = Some (20 <? Z.of_nat k).
Proof.
  intros HE Hst Hlt Hr. destruct (sim_start_replicas _ _ _ HE Hst) as (H4 & _ & bc & s & ovs & HF & Hh).
  destruct (calm_run_replicas bc s (GetNetworkConfig "simulation") ovs 0 k ((fun n => (n, [])) <$> ns0) ns HE) as (_ & Hlen & bc' & s' & ovs' & HF' & Hh'); [|done|done|].
  { by apply Forall_fmap. }
  assert (Forall (fun c => sim_height c.1 = Some (Z.of_nat k)) ns) as Hs.
  { eapply Forall_impl; [done|]. intros c Hc. apply (replica_height _ _ _ _ _ _ Hc Hh'). lia. }
  split; [done|]. rewrite length_fmap, H4 in Hlen. clear -Hs Hlen.
  destruct ns as [|c0 [|c1 [|c2 [|c3 [|]]]]]; try done.
  do 4 (apply Forall_cons in Hs as [? Hs]). unfold sim_monitor. cbn in *. simplify_option_eq.
  by rewrite !Z.eqb_refl, !andb_true_r.
Qed.
End SimulationRun.

(** ** Local slashing *)

Section Slashing.
Context {C : Crypto} {CL : CryptoLaws C} {V : Verkle} {VL : VerkleLaws V} {EV : EVM} {TS : TxSigner}.
Context {CB : Codec Block} {CR : Codec (list Receipt)} {CT : Codec TxLookupEntry}.
Implicit Types (n m : Node) (b : Block).

(** The next tick of [n] can propose a block with the number of [b] that an engine [e], with
    the key [other], rejects, after which [n] rejects [b]. *)
Definition splits_from b (e : ZeliusEngine) (other : PrivateKey) n (key : PrivateKey) : Prop :=
  exists n' b' e1 e2, tick n [] (Proposed None) n' [] /\ n_sent n' = n_sent n ++ [b'] /\
    Number (BHeader b') = Number (BHeader b) /\ ParentHash (BHeader b') = ParentHash (BHeader b) /\ b' <> b /\
    Verify e b' = Some (e1, Err (ErrWrongLeader (PubkeyToAddress (pub_of other)) (PubkeyToAddress (pub_of key)))) /\
    Verify (n_engine n') b = Some (e2, Err (ErrWrongLeader (PubkeyToAddress (pub_of key)) (PubkeyToAddress (pub_of other)))).

(** An engine whose leader is somebody else rejects a minted block. *)
Lemma minted_rejected n pool n' b vs key k e leader :
  minted n pool n' b vs key k -> engine_ok e -> leader_of (Validators e) (big_uint64 (k + 1)) = Some leader ->
  leader <> PubkeyToAddress (pub_of key) ->
  exists e', Verify e b = Some (e', Err (ErrWrongLeader leader (PubkeyToAddress (pub_of key)))).
Proof.
  intros Hmi He Hl Hne. destruct Hmi as [_ _ Hnum _ _ _ (h & sig & Hx & Hsig & Hb) _ _].
  pose proof (GetLeader_spec e (big_uint64 (k + 1)) (proj1 He)) as Hg. rewrite Hl in Hg.
  destruct (GetLeader e _) as [[e' l]|] eqn:Eg; [|done]. destruct Hg as ([= <-] & _ & _). exists e'.
  assert (Number h = Some (k + 1)) as Hnh by (rewrite Hb in Hnum; done).
  pose proof (signed_verifies e (NewBlock h (Transactions b)) key sig (k + 1) e' _ Hx Hnh Hsig Eg) as Hver.
  cbn zeta in Hver. rewrite decide_False in Hver by done. cbn [BHeader Transactions] in Hver.
  rewrite <- Hb in Hver. by destruct b.
Qed.

(** C37: Slashing splits the network. Timeouts are counted by each node for itself. Take two
    validators with the same chain, the first of which leads the next number and proposes
    it: if its blocks do not reach the second, then after at most 1000 timeouts per validator the second
    can propose a different block with the same number and parent, and from then on each
    rejects the other's block as coming from the wrong leader. *)
Theorem slashing_forks n m keyN keyM n' b :
  waiting m keyM -> map_Forall (fun _ c => 0 <= c) (NonCompliantValidators (n_engine m)) -> n_bc m = n_bc n ->
  engine_ok (n_engine n) -> privKey (n_engine n) = Some keyN -> PubkeyToAddress (pub_of keyN) <> PubkeyToAddress (pub_of keyM) ->
  tick n [] (Proposed None) n' [] -> n_sent n' = n_sent n ++ [b] -> Transactions b = [] ->
  within silent_tick (fun m1 => splits_from b (n_engine n') keyN m1 keyM) (1000 * length (Validators (n_engine m))) m.
Proof.
  intros Hw Hc Hbc He Hkey Hne Ht Hsent Htx.
  destruct (tick_minted _ _ _ _ _ _ He Ht Hsent) as (vs & key & k & Hmi).
  assert (key = keyN) as -> by (destruct (mi_key _ _ _ _ _ _ _ Hmi); congruence).
  destruct (mi_engine _ _ _ _ _ _ _ Hmi) as (e & Hee & Hev & Hen). rewrite Htx in Hen. change (intercept _ e []) with e in Hen.
  pose proof (mi_leader _ _ _ _ _ _ _ Hmi) as Hl. rewrite <- Hev in Hl.
  pose proof (total_patience_bound (PubkeyToAddress (pub_of keyM)) (n_engine m) Hc) as [_ Hb].
  eapply within_mono; [|apply (silent_within m keyM _ (n_bc m) (n_sent m)); [done|done|done|lia]].
  intros m1 ((m' & b' & parent & number & Htm & Hsm & Hpar & Hnum & Hph & Hbn & Htx') & Hw1 & Hbc1 & _).
  destruct (tick_minted _ _ _ _ _ _ (w_engine _ _ Hw1) Htm Hsm) as (vs' & key' & k' & Hmi').
  assert (key' = keyM) as -> by (destruct (mi_key _ _ _ _ _ _ _ Hmi'); pose proof (w_key _ _ Hw1); congruence).
  destruct (mi_head _ _ _ _ _ _ _ Hmi) as (cur & Hcur & Hk & Hpb), (mi_head _ _ _ _ _ _ _ Hmi') as (cur' & Hcur' & Hk' & Hpb').
  assert (cur' = cur) as -> by congruence. assert (k' = k) as -> by congruence.
  pose proof (mi_number _ _ _ _ _ _ _ Hmi) as Hn1. pose proof (mi_number _ _ _ _ _ _ _ Hmi') as Hn2.
  destruct (mi_engine _ _ _ _ _ _ _ Hmi') as (em & Hee' & Hev' & Hen'). rewrite Htx' in Hen'. change (intercept _ em []) with em in Hen'.
  pose proof (mi_leader _ _ _ _ _ _ _ Hmi') as Hl'. rewrite <- Hev' in Hl'.
  destruct (minted_rejected _ _ _ _ _ _ _ e _ Hmi' Hee Hl Hne) as [e1 He1].
  destruct (minted_rejected _ _ _ _ _ _ _ em _ Hmi Hee' Hl' (not_eq_sym Hne)) as [e2 He2].
  exists m', b', e1, e2. rewrite Hen, Hen'. split_and!; try done; [congruence|congruence|].
  intros ->. destruct (mi_sealed _ _ _ _ _ _ _ Hmi) as (h & sig & Hx & Hsig & Hh), (mi_sealed _ _ _ _ _ _ _ Hmi') as (h' & sig' & Hx' & Hsig' & Hh').
  assert (h' = h /\ sig' = sig) as [-> ->].
  { rewrite Hh in Hh'. destruct h, h'. cbn in *. subst. by injection Hh' as ?; subst. }
  apply Hne. apply sign_recover in Hsig. apply sign_recover in Hsig'. congruence.
Qed.
End Slashing.
