(* ===== verification/Client.v ===== *)
(** * Client: the programs of cmd/ that talk to a running node (cmd/zwallet, cmd/stake_sim,
    cmd/verify_rpc, cmd/verify_deploy, cmd/metamask_sim, cmd/verify_ws), with the methods of
    go-ethereum's ethclient they call.

    The node changes while a client runs: a client is a function of the service as it is at
    each call. Every loop has a number of polls as fuel; a program that uses it up is [Polling]. *)

From stdpp Require Import pretty.
From S2P Require Import Prelude Words Interfaces Rlp Types Sanity Hex StateDB StateOps Scheduler Consensus Genesis SystemContracts Executor RawDB Blockchain Stream P2P Node Rpc Services.

(** ** Client programs *)

(** How a program ends: with a value, with an error message ([log.Fatal] or a return from
    [main]), with a panic, or not within the given number of polls. *)
Inductive outcome (A : Type) :=
| Done (a : A)
| Fatal
| Crashed
| Polling.
Arguments Done {A} _.
Arguments Fatal {A}.
Arguments Crashed {A}.
Arguments Polling {A}.

Section Monad.
Context {View : Type}.

(** [View] is the service at one moment; [t] counts the calls. *)
Definition client (A : Type) : Type := (nat -> View) -> nat -> outcome (A * nat).

#[global] Instance client_ret : MRet client := fun A a views t => Done (a, t).
#[global] Instance client_bind : MBind client := fun A B k m views t =>
  match m views t with
  | Done (a, t') => k a views t'
  | Fatal => Fatal
  | Crashed => Crashed
  | Polling => Polling
  end.

Definition fatal {A} : client A := fun _ _ => Fatal.
Definition crash {A} : client A := fun _ _ => Crashed.

(** One call; [None] is an error response. *)
Definition ask {A} (f : View -> option A) : client (option A) := fun views t => Done (f (views t), S t).

(** [if err != nil { log.Fatal }] *)
Definition must {A} (m : client (option A)) : client A :=
  r ← m; match r with Some a => mret a | None => fatal end.

(** A loop that polls until [body] gives a result. *)
Fixpoint poll {A} (polls : nat) (body : client (option A)) : client A :=
  match polls with
  | O => fun _ _ => Polling
  | S polls => r ← body; match r with Some a => mret a | None => poll polls body end
  end.

(** [for i := 0; i < n; i++] around the same body; [None] when no turn gave a result. *)
Fixpoint attempts {A} (n : nat) (body : client (option A)) : client (option A) :=
  match n with
  | O => mret None
  | S n => r ← body; match r with Some a => mret (Some a) | None => attempts n body end
  end.
End Monad.

(** ** Signing and sending

    What the clients take from go-ethereum's transaction package: [NewTransaction] or [NewTx]
    with [SignTx], and the payload of a typed transaction ([inner.encode]). *)
Class Wallet {C : Crypto} := {
  (** chain id, nonce, recipient, value, gas, gas price, data *)
  sign_eip155 : Z -> u64 -> option Address -> Z -> u64 -> Z -> bytes -> PrivateKey -> option Transaction;
  (** chain id, nonce, recipient, value, gas, tip cap, fee cap, data *)
  sign_dynamic : Z -> u64 -> option Address -> Z -> u64 -> Z -> Z -> bytes -> PrivateKey -> option Transaction;
  tx_payload : Transaction -> option bytes;
  (** the chain of the signer that recovers [tx_sender] *)
  signer_chain : Z;
  (** [sanityCheckSignature] *)
  sane_signature : Z * Z * Z -> bool
}.

(** [MarshalBinary]: the RLP encoding of a legacy transaction, the type and the payload of
    any other. *)
Definition MarshalBinary {C : Crypto} {W : Wallet} {TR : TxRlp} (tx : Transaction) : option bytes :=
  if tx_type tx =? 0 then tx_encode tx else (cons (wd (tx_type tx))) <$> tx_payload tx.

(** ** Decoding responses *)

(** A [hexutil.Big] of a response: not negative and at most 256 bits. *)
Definition json_big (x : option Z) : option Z :=
  z ← x; if (0 <=? z) && (z <? 2 ^ 256) then Some z else None.

(** A field is missing when it is absent or null. *)
Definition field_given (r : response) (name : string) : bool :=
  match r !! name with
  | None | Some FNull | Some (FBig None) | Some (FAddress None) => false
  | Some _ => true
  end.

(** A number that is there but out of range fails the whole response. *)
Definition big_ok (r : response) (name : string) : bool :=
  match r !! name with Some (FBig (Some z)) => (0 <=? z) && (z <? 2 ^ 256) | _ => true end.
Definition big_field (r : response) (name : string) : option Z :=
  match r !! name with
  | Some (FBig x) => json_big x
  | Some (FUint64 x) => Some (uval x)
  | _ => None
  end.
Definition uint_field (r : response) (name : string) : option u64 :=
  match r !! name with Some (FUint64 x) => Some x | _ => None end.

(** [Header.UnmarshalJSON], of which the clients use the base fee; the inner [None] is a nil
    [BaseFee]. *)
Definition header_required : list string :=
  ["parentHash"; "sha3Uncles"; "stateRoot"; "transactionsRoot"; "receiptsRoot"; "logsBloom"; "difficulty";
   "number"; "gasLimit"; "gasUsed"; "timestamp"; "extraData"].
Definition unmarshal_header (r : response) : option (option Z) :=
  if forallb (field_given r) header_required && forallb (big_ok r) ["difficulty"; "baseFeePerGas"]
  then Some (big_field r "baseFeePerGas") else None.

(** [Receipt.UnmarshalJSON], of which the clients use the status. *)
Definition receipt_required : list string := ["cumulativeGasUsed"; "logsBloom"; "logs"; "transactionHash"; "gasUsed"].
Definition unmarshal_receipt (r : response) : option u64 :=
  if forallb (field_given r) receipt_required && big_ok r "effectiveGasPrice"
  then Some (default (wd 0) (uint_field r "status")) else None.

(** [Transaction.UnmarshalJSON] by type; the result is whether the block number is missing. *)
Definition tx_required (type : Z) : option (list string) :=
  if type =? 0 then Some ["nonce"; "gas"; "gasPrice"; "value"; "input"; "r"; "s"; "v"]
  else if type =? 1 then Some ["chainId"; "nonce"; "gas"; "gasPrice"; "value"; "input"; "r"; "s"; "v"]
  else if type =? 2 then Some ["chainId"; "nonce"; "gas"; "maxPriorityFeePerGas"; "maxFeePerGas"; "value"; "input"; "r"; "s"; "v"]
  else None.
Definition unmarshal_tx {C : Crypto} {W : Wallet} (r : response) : option bool :=
  type ← uint_field r "type";
  required ← tx_required (uval type);
  v ← big_field r "v"; rr ← big_field r "r"; s ← big_field r "s";
  if forallb (field_given r) required && forallb (big_ok r) ["chainId"; "gasPrice"; "value"]
     && (bool_decide ((v, rr, s) = (0, 0, 0)) || sane_signature (v, rr, s))
  then Some (negb (field_given r "blockNumber")) else None.

Section Programs.
Context {C : Crypto} {V : Verkle} {EV : EVM} {TT : TxTools} {RT : Runtime} {TR : TxRlp} {W : Wallet}.
Context {CB : Codec Block} {CR : Codec (list Receipt)} {CT : Codec TxLookupEntry}.
(** go-ethereum's [crypto.HexToECDSA]; [None] is the error result. *)
Variable HexToECDSA : string -> option PrivateKey.
Implicit Types (api : PublicEthAPI).

(** ** ethclient

    A method of the service that panics is answered with an error. *)

Definition replied {A} (r : option (result rpc_error A)) : option A :=
  match r with Some (Ok a) => Some a | _ => None end.

Definition latest : BlockNumberOrHash := mkBlockRef (Some LatestBlockNumber) None.
Definition pending : BlockNumberOrHash := mkBlockRef (Some PendingBlockNumber) None.

Definition ec_ChainID api : option Z := json_big (Some (eth_ChainId api)).
Definition ec_BlockNumber api : option u64 := n ← eth_BlockNumber api; z ← json_big n; if z <? 2 ^ 64 then Some (wd z) else None.
Definition ec_NetworkID api : option Z := SetString 10 (bytes_of_string (eth_NetVersion api)).
Definition ec_BalanceAt (a : Address) api : option Z := json_big (Some (eth_GetBalance api a latest)).
Definition ec_NonceAt (a : Address) api : option u64 := replied (eth_GetTransactionCount api a latest).
Definition ec_PendingNonceAt (a : Address) api : option u64 := replied (eth_GetTransactionCount api a pending).
Definition ec_SuggestGasPrice api : option Z := json_big (eth_GasPrice api).
Definition ec_SuggestGasTipCap api : option Z := json_big (Some eth_MaxPriorityFeePerGas).
Definition ec_EstimateGas (args : CallArgs) api : option u64 := replied (eth_EstimateGas api args).

(** [HeaderByNumber(ctx, nil)] *)
Definition ec_Header api : option (option Z) :=
  match eth_GetBlockByNumber api LatestBlockNumber false with Some (Some r) => unmarshal_header r | _ => None end.
Definition ec_TransactionReceipt (h : Hash) api : option u64 :=
  match eth_GetTransactionReceipt api h with Some (Some r) => unmarshal_receipt r | _ => None end.
Definition ec_TransactionByHash (h : Hash) api : option bool :=
  r ← eth_GetTransactionByHash api h; unmarshal_tx r.
Definition ec_SendTransaction (tx : Transaction) api : option unit :=
  data ← MarshalBinary tx; match replied (eth_SendRawTransaction api data) with Some _ => Some tt | None => None end.

(** A signing error is ignored and leaves a nil transaction, whose use panics. *)
Definition signed (tx : option Transaction) : client (View := PublicEthAPI) Transaction :=
  match tx with Some tx => mret tx | None => crash end.

Definition ether : Z := 1000000000000000000.

(** ** cmd/stake_sim/main.go *)

Definition genesis_key : string := "ac0974bec39a17e36ba4a6b4d238ff944bacb478cbed5efcae784d7bf4f2ff80".

(** The address the program stakes to. *)
Definition stakingAddress : Address := addr_lit "0x0000000000000000000000000000000000002000".

(** One turn of [waitForTx]. *)
Definition wait_turn (hash : Hash) : client (View := PublicEthAPI) (option unit) :=
  found ← ask (ec_TransactionByHash hash);
  match found with
  | Some false =>
      status ← ask (ec_TransactionReceipt hash);
      mret (match status with Some s => if uval s =? 1 then Some tt else None | None => None end)
  | _ => mret None
  end.
Definition waitForTx (polls : nat) (hash : Hash) : client (View := PublicEthAPI) unit := poll polls (wait_turn hash).

(** [fund] and [stake] differ in the key, the account, the recipient, the amount and the gas. *)
Definition transfer_and_wait (polls : nat) (key : PrivateKey) (addr to : Address) (amount : Z) (gas : u64)
  : client (View := PublicEthAPI) Hash :=
  nonce ← must (ask (ec_PendingNonceAt addr));
  gasPrice ← must (ask ec_SuggestGasPrice);
  chainID ← must (ask ec_ChainID);
  tx ← signed (sign_eip155 chainID nonce (Some to) amount gas gasPrice [] key);
  _ ← must (ask (ec_SendTransaction tx));
  _ ← waitForTx polls (tx_hash tx);
  mret (tx_hash tx).

Definition fund (polls : nat) (to : Address) : client (View := PublicEthAPI) Hash :=
  match HexToECDSA genesis_key with
  | None => crash
  | Some key => transfer_and_wait polls key (PubkeyToAddress (pub_of key)) to (100 * ether) (wd 21000)
  end.
Definition stake (polls : nat) (key : PrivateKey) (addr : Address) : client (View := PublicEthAPI) Hash :=
  transfer_and_wait polls key addr stakingAddress (10 * ether) (wd 100000).

(** [checkValidatorCount]: slot 0 of the address the program takes for the registry. *)
Definition validatorAddress : Address := addr_lit "0x0000000000000000000000000000000000003000".
Definition checkValidatorCount : client (View := PublicEthAPI) Z :=
  count ← must (ask (fun api =>
    replied (eth_GetStorageAt api validatorAddress
      (bytes_of_string "0x0000000000000000000000000000000000000000000000000000000000000000") latest)));
  mret (be_val count).

(** [main] funds a fresh key. *)
Definition stake_sim (polls : nat) (fresh : PrivateKey) : client (View := PublicEthAPI) Hash :=
  fund polls (PubkeyToAddress (pub_of fresh)).

(** ** cmd/zwallet/main.go *)

Definition wallet_key : string := "b71c71a67e1177ad4e901695e1b4b9ee17ae16c6668d313eac2f96dbcda3f291".
Definition wallet_to : Address := addr_lit "0x70997970C51812dc3A010C7d01b50e0d17dc79C8".

(** The result is whether the receipt's status is 1. [new(big.Int).Mul] with a nil base fee panics. *)
Definition zwallet (polls : nat) : client (View := PublicEthAPI) bool :=
  match HexToECDSA wallet_key with
  | None => fatal
  | Some key =>
      nonce ← must (ask (ec_PendingNonceAt (PubkeyToAddress (pub_of key))));
      tip ← must (ask ec_SuggestGasTipCap);
      baseFee ← must (ask ec_Header);
      match baseFee with
      | None => crash
      | Some baseFee =>
          let gasFeeCap := baseFee * 2 + tip in
          chainID ← must (ask ec_NetworkID);
          match sign_dynamic chainID nonce (Some wallet_to) ether (wd 21000) tip gasFeeCap [] key with
          | None => fatal
          | Some tx =>
              _ ← must (ask (ec_SendTransaction tx));
              status ← poll polls (ask (ec_TransactionReceipt (tx_hash tx)));
              mret (uval status =? 1)
          end
      end
  end.

(** ** cmd/verify_rpc/main.go *)

(** The result is the status and the decrease of the balance, or [None] after ten polls. A
    balance query that fails leaves 0 in the subtraction. *)
Definition verify_rpc : client (View := PublicEthAPI) (option (u64 * Z)) :=
  cid ← must (ask ec_ChainID);
  _ ← must (ask ec_BlockNumber);
  match HexToECDSA genesis_key with
  | None => crash
  | Some key =>
      let addr := PubkeyToAddress (pub_of key) in
      bal ← must (ask (ec_BalanceAt addr));
      nonce ← must (ask (ec_PendingNonceAt addr));
      gasPrice ← must (ask ec_SuggestGasPrice);
      tx ← signed (sign_eip155 cid nonce (Some (addr_lit "0x1234567890123456789012345678901234567890")) ether (wd 21000) gasPrice [] key);
      _ ← must (ask (ec_SendTransaction tx));
      status ← attempts 10 (ask (ec_TransactionReceipt (tx_hash tx)));
      match status with
      | None => mret None
      | Some status => newBal ← ask (ec_BalanceAt addr); mret (Some (status, bal - default 0 newBal))
      end
  end.

(** ** cmd/verify_deploy/main.go

    Errors of the first queries are ignored: the zero values are used. [code] is the
    bytecode of the contract. *)
Definition verify_deploy (code : bytes) : client (View := PublicEthAPI) (option u64) :=
  match HexToECDSA genesis_key with
  | None => crash
  | Some key =>
      let addr := PubkeyToAddress (pub_of key) in
      nonce ← ask (ec_PendingNonceAt addr);
      gasPrice ← ask ec_SuggestGasPrice;
      chainID ← ask ec_ChainID;
      _ ← ask (ec_EstimateGas (mkCallArgs (Some addr) None None (json_big gasPrice) None None (Some 0) None (Some code) None));
      tx ← signed (sign_eip155 (default 0 chainID) (default (wd 0) nonce) None 0 (wd 3000000) (default 0 gasPrice) code key);
      _ ← must (ask (ec_SendTransaction tx));
      attempts 10 (ask (ec_TransactionReceipt (tx_hash tx)))
  end.

(** ** cmd/metamask_sim/main.go, after the CORS request *)

Definition metamask_sim (code : bytes) : client (View := PublicEthAPI) Hash :=
  connected ← attempts 5 (ask ec_ChainID);
  match connected with
  | None => fatal
  | Some _ =>
      chainID ← ask ec_ChainID;
      match HexToECDSA genesis_key with
      | None => crash
      | Some key =>
          let addr := PubkeyToAddress (pub_of key) in
          nonce ← ask (ec_NonceAt addr);
          _ ← must (ask (ec_EstimateGas (mkCallArgs (Some addr) None None None None None None (Some code) None None)));
          tx ← signed (sign_eip155 (default 0 chainID) (default (wd 0) nonce) (Some addr) 1000 (wd 21000) 20000000000 [] key);
          _ ← must (ask (ec_SendTransaction tx));
          mret (tx_hash tx)
      end
  end.

(** ** cmd/verify_ws/main.go *)

Definition verify_ws : client (View := PublicEthAPI) Z := must (ask (fun api => n ← eth_BlockNumber api; n)).
End Programs.

(** ** What the clients get *)

(** The decoder of transactions takes a single byte for a typed transaction without payload
    ([errShortTypedTx]). *)
Class TypedTxLaws {RT : Runtime} (TR : TxRlp) := {
  tx_decode_byte : forall st x rest, s_r st = x :: rest -> s_stack st = [] -> uval x < 128 -> tx_decode st = Some (Err ErrStream)
}.

(** A number a response can carry. *)
Definition word_range (z : Z) : Prop := 0 <= z < 2 ^ 256.

(** What signing with the EIP-155 signer of the node's chain gives. *)
Class WalletLaws {C : Crypto} {RT : Runtime} {TR : TxRlp} (TL : TxRlpLaws TR) (W : Wallet) := {
  sign_eip155_ok : forall nonce to value gas price data key tx,
    sign_eip155 signer_chain nonce to value gas price data key = Some tx -> 0 < signer_chain < 2 ^ 62 ->
    word_range value -> word_range price ->
    tx_type tx = 0 /\ tx_chainId tx = signer_chain /\ tx_nonce tx = nonce /\ tx_gas tx = gas /\ tx_gasPrice tx = price /\ tx_gasTipCap tx = price /\
    tx_value tx = value /\ tx_to tx = to /\ tx_data tx = data /\ tx_sender tx = Some (PubkeyToAddress (pub_of key)) /\
    tx_canonical tx /\ exists e, tx_encode tx = Some e /\ zlen e = tx_size tx;
  signature_ok : forall nonce to value gas price data key tx,
    sign_eip155 signer_chain nonce to value gas price data key = Some tx -> 0 < signer_chain < 2 ^ 62 ->
    let '(v, r, s) := tx_sig tx in
    0 <= v < 2 ^ 256 /\ 0 <= r < 2 ^ 256 /\ 0 <= s < 2 ^ 256 /\ sane_signature (v, r, s) = true
}.

Section Monads.
Context {View : Type}.
Implicit Types (views : nat -> View).

Lemma bind_done {A B} (m : client (View := View) A) (k : A -> client B) views t a t' :
  m views t = Done (a, t') -> (m ≫= k) views t = k a views t'.
Proof. unfold mbind, client_bind. by intros ->. Qed.

Lemma must_ask {A} (f : View -> option A) views t a : f (views t) = Some a -> must (ask f) views t = Done (a, S t).
Proof. intros H. unfold must, mbind, client_bind, ask. by rewrite H. Qed.
Lemma must_ask_none {A} (f : View -> option A) views t : f (views t) = None -> must (ask f) views t = Fatal.
Proof. intros H. unfold must, mbind, client_bind, ask. by rewrite H. Qed.


End Monads.

Section Clients.
Context {C : Crypto} {V : Verkle} {EV : EVM} {TT : TxTools} {RT : Runtime} {TR : TxRlp} {W : Wallet}.
Context {CB : Codec Block} {CR : Codec (list Receipt)} {CT : Codec TxLookupEntry}.
Variable HexToECDSA : string -> option PrivateKey.
Implicit Types (api : PublicEthAPI) (views : nat -> PublicEthAPI).

Lemma block_fields_baseFee b n full : block_fields b n full !! "baseFeePerGas" = None.
Proof. apply not_elem_of_list_to_map_1. cbn. set_solver. Qed.

(** The header a client decodes never has a base fee. *)
Lemma ec_Header_no_fee api fee : ec_Header api = Some fee -> fee = None.
Proof.
  unfold ec_Header, eth_GetBlockByNumber. destruct (rpc_block_by_number _ _) as [b|]; [|done].
  destruct (Number (BHeader b)) as [n|]; [|done]. cbn [mbind option_bind]. unfold unmarshal_header, big_field.
  rewrite lookup_insert_ne, block_fields_baseFee by done. destruct (_ && _); naive_solver.
Qed.

Lemma ec_Header_some api b n d :
  CurrentBlock (api_bc api) = Some b -> Number (BHeader b) = Some n -> Difficulty (BHeader b) = Some d ->
  0 <= d < 2 ^ 256 -> ec_Header api = Some None.
Proof.
  intros Hb Hn Hd Hr. unfold ec_Header, eth_GetBlockByNumber, rpc_block_by_number.
  change (LatestBlockNumber =? LatestBlockNumber) with true. cbv iota. rewrite Hb, Hn. cbn [mbind option_bind].
  assert (<["mixHash" := FHash zero_hash]> (block_fields b n false) !! "difficulty" = Some (FBig (Some d))) as Ed
    by (rewrite lookup_insert_ne by done; unfold block_fields; rewrite Hd; done).
  unfold unmarshal_header, header_required, big_field, big_ok. cbn [forallb].
  rewrite Ed, lookup_insert_ne, block_fields_baseFee by done.
  rewrite (proj2 (Z.leb_le 0 d)), (proj2 (Z.ltb_lt d _)) by lia. unfold field_given at 7. rewrite Ed.
  unfold field_given, block_fields. rewrite !lookup_insert_ne by done. reflexivity.
Qed.

(** The wallet program never gets to sign. The service returns blocks without
    [baseFeePerGas], so the header the wallet decodes has no base fee: whatever the node
    does, the program ends with an error or with a panic; and it is the panic, in
    [new(big.Int).Mul], whenever the node answers the nonce and has a head block. *)
Theorem zwallet_crashes polls views t :
  (zwallet HexToECDSA polls views t = Fatal \/ zwallet HexToECDSA polls views t = Crashed) /\
  (forall key nonce b n d, HexToECDSA wallet_key = Some key ->
     ec_PendingNonceAt (PubkeyToAddress (pub_of key)) (views t) = Some nonce ->
     CurrentBlock (api_bc (views (S (S t)))) = Some b -> Number (BHeader b) = Some n ->
     Difficulty (BHeader b) = Some d -> 0 <= d < 2 ^ 256 -> zwallet HexToECDSA polls views t = Crashed).
Proof.
  unfold zwallet. destruct (HexToECDSA wallet_key) as [key|]; [|by split; [left|]].
  destruct (ec_PendingNonceAt (PubkeyToAddress (pub_of key)) (views t)) as [nonce|] eqn:En; unfold mbind, client_bind.
  2: { rewrite (must_ask_none _ _ _ En). split; [by left|]. intros key' nonce' b n d [= <-] En'. congruence. }
  rewrite (must_ask _ _ _ _ En), (must_ask ec_SuggestGasTipCap views (S t) eth_MaxPriorityFeePerGas) by done.
  destruct (ec_Header (views (S (S t)))) as [fee|] eqn:Eh.
  - rewrite (must_ask _ _ _ _ Eh), (ec_Header_no_fee _ _ Eh). by split; [right|].
  - rewrite (must_ask_none _ _ _ Eh). split; [by left|]. intros _ _ b n d _ _ Hb Hn Hd Hr.
    rewrite (ec_Header_some _ b n d Hb Hn Hd Hr) in Eh. done.
Qed.

(** C39: Typed transactions cannot be submitted. A client sends a transaction of type 1 to 127
    (EIP-2930, EIP-1559 and later) as its type byte and payload; [eth_sendRawTransaction] decodes it
    with [rlp.DecodeBytes], which takes the type byte for a whole value, so that every such
    transaction is refused as undecodable, whatever the state. *)
Theorem typed_tx_rejected {TL : TypedTxLaws TR} api tx payload :
  0 < tx_type tx < 128 -> tx_payload tx = Some payload ->
  (exists data, MarshalBinary tx = Some data /\ eth_SendRawTransaction api data = Some (Err ErrDecodeTx)) /\
  ec_SendTransaction tx api = None.
Proof.
  intros Ht Hp.
  assert (MarshalBinary tx = Some (wd (tx_type tx) :: payload)) as Em.
  { unfold MarshalBinary. rewrite (proj2 (Z.eqb_neq _ 0)) by lia. by rewrite Hp. }
  assert (eth_SendRawTransaction api (wd (tx_type tx) :: payload) = Some (Err ErrDecodeTx)) as Es.
  { unfold eth_SendRawTransaction, DecodeBytes. rewrite (tx_decode_byte _ (wd (tx_type tx)) payload); try done.
    rewrite uval_wd_small; [lia|]. change (2 ^ Z.of_N 8) with 256. lia. }
  split; [by eexists|]. unfold ec_SendTransaction. rewrite Em. cbn [mbind option_bind]. by rewrite Es.
Qed.

(** ** Waiting for a transaction *)




End Clients.

(** ** A transfer from the first query to the confirmation *)

Section Transfer.
Context {C : Crypto} {CL : CryptoLaws C} {V : Verkle} {VL : VerkleLaws V} {EV : EVM} {TT : TxTools} {RT : Runtime}.
Context {TR : TxRlp} {TL : TxRlpLaws TR} {W : Wallet} {WL : WalletLaws TL W}.
Context {CB : Codec Block} {CBL : CodecLaws Block CB readable} {CR : Codec (list Receipt)}
  {CRL : CodecLaws (list Receipt) CR always} {CT : Codec TxLookupEntry} {CTL : CodecLaws TxLookupEntry CT always}.
Implicit Types (api : PublicEthAPI) (views : nat -> PublicEthAPI) (m : Node).

Lemma json_big_range z : word_range z -> json_big (Some z) = Some z.
Proof. intros []. cbn. by rewrite (proj2 (Z.leb_le 0 z)), (proj2 (Z.ltb_lt z _)) by lia. Qed.






(** A signed transaction the sender can pay is accepted. *)
Lemma signed_accepted m cur nonce to amount gas price key tx :
  let cid := ChainID (chain_config (n_bc m)) in let a := PubkeyToAddress (pub_of key) in
  settled m -> CurrentBlock (n_bc m) = Some cur -> cid = signer_chain -> 0 < cid < 2 ^ 62 ->
  sign_eip155 cid nonce to amount gas price [] key = Some tx -> word_range amount -> word_range price ->
  tx_size tx <= 512 * 1024 <= max_alloc ->
  uval (GetNonce (n_state m) a) <= uval nonce -> uval gas * price + amount <= uval (GetBalance (n_state m) a) ->
  exists data, MarshalBinary tx = Some data /\ eth_SendRawTransaction (eth_api m) data = Some (Ok (tx_hash tx, tx)).
Proof.
  intros cid a Hs Hc Ehome Hid Hsign Ham Hpr Hsize Hnonce Hbal. rewrite Ehome in Hsign, Hid.
  destruct (sign_eip155_ok _ _ _ _ _ _ _ _ Hsign Hid Ham Hpr) as (Ht & Ec & En & Eg & Ep & _ & Ev & _ & _ & Ea & Hcan & data & Ed & El).
  exists data. unfold MarshalBinary. rewrite Ht. split; [done|]. unfold eth_SendRawTransaction.
  rewrite (DecodeBytes_encoded _ _ tx) by (apply tx_decode_encode; [done..|split; unfold fits; lia]). cbn [mbind option_bind].
  change (api_bc (eth_api m)) with (n_bc m). fold cid. rewrite Ec, Ehome, Z.eqb_refl, andb_false_r, Ea, Hc.
  rewrite (proj2 (Z.ltb_ge (512 * 1024) _)) by lia. rewrite GetNonce_settled, GetBalance_settled by done.
  rewrite En, Eg, Ep, Ev. by rewrite !(proj2 (Z.ltb_ge _ _)).
Qed.






(** [cmd/metamask_sim] against a settled node that can simulate its contract: its transaction is
    accepted and it ends with the hash. *)
Lemma metamask_submits HexToECDSA views t m cur key code gas tx :
  let a := PubkeyToAddress (pub_of key) in let cid := ChainID (chain_config (n_bc m)) in
  HexToECDSA genesis_key = Some key -> settled m -> (forall u, (t <= u <= 4 + t)%nat -> views u = eth_api m) ->
  CurrentBlock (n_bc m) = Some cur -> cid = signer_chain -> 0 < cid < 2 ^ 62 ->
  ec_EstimateGas (mkCallArgs (Some a) None None None None None None (Some code) None None) (eth_api m) = Some gas ->
  sign_eip155 cid (GetNonce (n_state m) a) (Some a) 1000 (wd 21000) 20000000000 [] key = Some tx ->
  tx_size tx <= 512 * 1024 <= max_alloc -> 21000 * 20000000000 + 1000 <= uval (GetBalance (n_state m) a) ->
  metamask_sim HexToECDSA code views t = Done (tx_hash tx, (5 + t)%nat).
Proof.
  intros a cid Hkey Hs Hv Hc Ehome Hid Hest Hsign Hsz Hbal.
  assert (ec_ChainID (eth_api m) = Some cid) as E1 by (apply json_big_range; unfold word_range; cbn; fold cid; lia).
  assert (ec_NonceAt a (eth_api m) = Some (GetNonce (n_state m) a)) as E2.
  { unfold ec_NonceAt, eth_GetTransactionCount, with_state_at, headerByRpcBlock. cbn [latest ref_BlockHash ref_BlockNumber].
    change (LatestBlockNumber =? LatestBlockNumber) with true. cbv iota. unfold api_head. change (api_bc (eth_api m)) with (n_bc m).
    rewrite Hc. cbn. by rewrite GetNonce_settled. }
  destruct (signed_accepted m cur _ _ _ _ _ key tx Hs Hc Ehome Hid Hsign) as (data & Hdata & Hsend);
    [unfold word_range; lia|unfold word_range; lia|done|done|by change (uval (wd (w:=64) 21000)) with 21000|].
  unfold metamask_sim. rewrite (bind_done _ _ _ _ (Some cid) (S t)).
  2: { cbn [attempts]. rewrite (bind_done _ _ _ _ (Some cid) (S t)); [done|]. unfold ask. by rewrite Hv, E1 by lia. }
  rewrite (bind_done _ _ _ _ (Some cid) (S (S t))) by (unfold ask; by rewrite Hv, E1 by lia). rewrite Hkey. cbv zeta. fold a.
  rewrite (bind_done _ _ _ _ (Some (GetNonce (n_state m) a)) (3 + t)) by (unfold ask; by rewrite Hv, E2 by lia).
  rewrite (bind_done _ _ _ _ gas (4 + t)) by (apply must_ask; by rewrite Hv by lia). cbn [default from_option id].
  rewrite Hsign. rewrite (bind_done (signed (Some tx)) _ _ _ tx (4 + t)) by done.
  rewrite (bind_done _ _ _ _ tt (5 + t)); [done|]. apply must_ask. rewrite Hv by lia. unfold ec_SendTransaction.
  rewrite Hdata. cbn [mbind option_bind]. by rewrite Hsend.
Qed.
End Transfer.
