(* ===== verification/Transactions.v ===== *)
(** * Transactions: go-ethereum's transactions, as the node and its clients use them
    (core/types/transaction.go, core/types/tx_legacy.go, core/types/transaction_signing.go and
    crypto/crypto.go of the vendored go-ethereum).

    Legacy transactions with their RLP encoding, hash, EIP-155 signature and sender. The other
    files take a transaction's encoding, decoding and signing from the classes [TxRlp], [Wallet]
    and [TxSigner]; this file implements these and proves their laws. What is inside a typed
    transaction stays a parameter. *)

From S2P Require Import Prelude Words Interfaces Rlp Types Sanity Hex StateDB StateOps Scheduler Consensus Genesis SystemContracts Executor RawDB Blockchain Stream P2P Node Rpc Services Client.

(** ** Legacy transactions *)

Record LegacyTx := mkLegacy {
  l_nonce : u64;
  l_gasPrice : Z;
  l_gas : u64;
  l_to : option Address;
  l_value : Z;
  l_data : bytes;
  l_v : Z;
  l_r : Z;
  l_s : Z
}.

(** A nil [To] is an empty string. *)
Definition write_to (to : option Address) : bytes :=
  match to with Some a => writeByteArray (addr_bytes a) | None => [wd 128] end.

(** The six fields that are signed. *)
Definition legacy_body (l : LegacyTx) : option bytes :=
  price ← writeBigInt (Some (l_gasPrice l));
  value ← writeBigInt (Some (l_value l));
  Some (writeUint64 (uval (l_nonce l)) ++ price ++ writeUint64 (uval (l_gas l)) ++ write_to (l_to l) ++ value ++
        writeBytes (l_data l)).

Definition encode_legacy (l : LegacyTx) : option bytes :=
  body ← legacy_body l;
  v ← writeBigInt (Some (l_v l));
  r ← writeBigInt (Some (l_r l));
  s ← writeBigInt (Some (l_s l));
  Some (writeList (body ++ v ++ r ++ s)).

Section Transactions.
Context {C : Crypto}.

(** [rlpHash]: a value that cannot be encoded writes nothing. *)
Definition rlpHash (e : option bytes) : Hash := keccak256 (default [] e).

(** [LegacyTx.sigHash] *)
Definition sigHash (chainID : Z) (l : LegacyTx) : Hash :=
  rlpHash (body ← legacy_body l;
           c ← writeBigInt (Some chainID);
           Some (writeList (body ++ c ++ writeUint64 0 ++ writeUint64 0))).

(** [FrontierSigner.Hash] *)
Definition frontier_hash (l : LegacyTx) : Hash := rlpHash (writeList <$> legacy_body l).

Definition recoverPlain (sighash : Hash) (r s vb : Z) (homestead : bool) : option Address :=
  if bitlen_above vb 8 then None
  else
    let v : byte := wd (uval (big_uint64 vb) - 27) in
    if negb (ValidateSignatureValues v r s homestead) then None
    else PubkeyToAddress <$> SigToPub (hash_bytes sighash) (be_pad 32 r ++ be_pad 32 s ++ [v]).

(** [EIP155Signer.Sender], to which every later signer defers for legacy transactions. *)
Definition eip155_Sender (chainId : Z) (l : LegacyTx) : option Address :=
  if negb (isProtectedV (l_v l)) then recoverPlain (frontier_hash l) (l_r l) (l_s l) (l_v l) true
  else if negb (deriveChainId (l_v l) =? chainId) then None
  else recoverPlain (sigHash chainId l) (l_r l) (l_s l) (l_v l - chainId * 2 - 8) true.

(** [EIP155Signer.SignatureValues] of a 65-byte signature. *)
Definition SignatureValues (chainId : Z) (sig : bytes) : Z * Z * Z :=
  let v := if chainId =? 0 then uval (wd (w:=8) (uval (sig_v sig) + 27))
           else uval (wd (w:=8) (uval (sig_v sig) + 35)) + chainId * 2 in
  (v, sig_r sig, sig_s sig).

(** [SignTx] with the EIP-155 signer of a chain. *)
Definition SignTx (chainId : Z) (l : LegacyTx) (prv : PrivateKey) : option LegacyTx :=
  sig ← Sign (hash_bytes (sigHash chainId l)) prv;
  let '(v, r, s) := SignatureValues chainId sig in
  Some (mkLegacy (l_nonce l) (l_gasPrice l) (l_gas l) (l_to l) (l_value l) (l_data l) v r s).

(** [NewTransaction] and [NewContractCreation] *)
Definition NewTransaction (nonce : u64) (to : option Address) (amount : Z) (gasLimit : u64) (gasPrice : Z) (data : bytes) : LegacyTx :=
  mkLegacy nonce gasPrice gasLimit to amount data 0 0 0.

(** ** The [Transaction] around it *)

(** The accessors and the values computed on demand: [Hash], [Size] and [Sender] with the signer of
    the chain [chain]. *)
Definition legacy_transaction (chain : Z) (l : LegacyTx) : Transaction :=
  let e := default [] (encode_legacy l) in
  mkTx 0 (deriveChainId (l_v l)) (l_nonce l) (l_gasPrice l) (l_gasPrice l) (l_gasPrice l) (l_gas l) (l_to l) (l_value l)
    (l_data l) (keccak256 e) (zlen e) (eip155_Sender chain l) (l_v l, l_r l, l_s l).

(** [tx.inner] of a legacy transaction. *)
Definition inner (tx : Transaction) : LegacyTx :=
  let '(v, r, s) := tx_sig tx in
  mkLegacy (tx_nonce tx) (tx_gasPrice tx) (tx_gas tx) (tx_to tx) (tx_value tx) (tx_data tx) v r s.
End Transactions.

(** ** Encoding and decoding *)

(** The content of typed transactions: [inner.encode], [decodeTyped] and signing. *)
Class TypedTx {C : Crypto} := {
  typed_payload : Transaction -> option bytes;
  decodeTyped : bytes -> option Transaction;
  sign_typed : Z -> u64 -> option Address -> Z -> u64 -> Z -> Z -> bytes -> PrivateKey -> option Transaction
}.

Section Codec.
Context {C : Crypto} {RT : Runtime} {TY : TypedTx}.
(** The chain of the signer that recovers senders. *)
Context (chain : Z).

(** [EncodeRLP] *)
Definition EncodeRLP (tx : Transaction) : option bytes :=
  if tx_type tx =? 0 then encode_legacy (inner tx)
  else payload ← typed_payload tx; Some (writeBytes (wd (tx_type tx) :: payload)).

(** A pointer to an address with the tag [nil]: an empty string is nil. *)
Definition decode_to : reader (option Address) :=
  '(k, size, _) ← stream_Kind;
  match k with
  | KString =>
      if size =? 0 then mret None
      else if negb (size =? 20) then fail ErrStream
      else b ← readFull 20; mret (Some (BytesToAddress b))
  | _ => fail ErrStream
  end.

Definition decode_legacy : reader LegacyTx :=
  decodeStruct (
    nonce ← stream_uint 64;
    price ← decodeBigInt max_alloc;
    gas ← stream_uint 64;
    to ← decode_to;
    value ← decodeBigInt max_alloc;
    data ← stream_Bytes max_alloc;
    v ← decodeBigInt max_alloc;
    r ← decodeBigInt max_alloc;
    s ← decodeBigInt max_alloc;
    mret (mkLegacy (wd nonce) price (wd gas) to value data v r s)).

(** [DecodeRLP]: the kind of the next value decides, and is read again by the decoder of the
    case. *)
Definition DecodeRLP : reader Transaction := fun st =>
  match stream_Kind st with
  | None => None
  | Some (Err err) => Some (Err err)
  | Some (Ok ((k, _, _), _)) =>
      match k with
      | KList => (l ← decode_legacy; mret (legacy_transaction chain l)) st
      | KByte => Some (Err ErrStream)
      | KString => (b ← stream_Bytes max_alloc; match decodeTyped b with Some tx => mret tx | None => fail ErrStream end) st
      end
  end.

#[global] Instance go_tx_rlp : TxRlp := {| tx_encode := EncodeRLP; tx_decode := DecodeRLP |}.

#[global] Instance go_wallet : Wallet := {|
  sign_eip155 := fun cid nonce to value gas price data key =>
    legacy_transaction chain <$> SignTx cid (NewTransaction nonce to value gas price data) key;
  sign_dynamic := sign_typed;
  tx_payload := typed_payload;
  signer_chain := chain;
  sane_signature := fun '(v, r, s) => sanityCheckSignature v r s true |}.

(** [LatestSigner] of a network signs legacy transactions like the EIP-155 signer. *)
#[global] Instance go_signer : TxSigner := {|
  sign_legacy := fun cfg nonce to value gas price data key =>
    legacy_transaction chain <$> SignTx (cc_ChainID cfg) (NewTransaction nonce (Some to) value gas price data) key |}.
End Codec.

(** ** Decoding what was encoded *)

Section Roundtrip.
Context {C : Crypto} {RT : Runtime} {TY : TypedTx}.
Context (chain : Z).

Lemma to_decodes to : decodes decode_to (write_to to) to.
Proof.
  unfold decode_to. destruct to as [a|]; cbn [write_to].
  - unfold writeByteArray. apply decodes_kind_string; [apply (fits_short _ 20); [by rewrite zlen_addr_bytes|lia]|].
    rewrite zlen_addr_bytes. cbn [Z.eqb Pos.eqb negb]. rewrite <- (BytesToAddress_addr_bytes a) at 2.
    apply (decodes_map (readFull 20) (fun b => Some (BytesToAddress b))). rewrite <- (zlen_addr_bytes a) at 1. apply readFull_decodes.
  - apply (decodes_kind_string _ []); [done|]. apply decodes_ret.
Qed.

Lemma bigInt_field z b : writeBigInt (Some z) = Some b -> small b -> decodes (decodeBigInt max_alloc) b z.
Proof.
  intros Hb Hs. assert (0 <= z) as Hz by (cbn in Hb; destruct (Z.ltb_spec z 0); [done|lia]).
  apply writeBigInt_bytes in Hb as ->. cbn [default from_option id] in *. apply small_writeBytes in Hs as [H1 H2].
  apply bigInt_decodes_any; [done|by right|done].
Qed.

Lemma legacy_decodes l e : encode_legacy l = Some e -> small e -> decodes decode_legacy e l.
Proof.
  unfold encode_legacy, legacy_body. destruct (writeBigInt (Some (l_gasPrice l))) as [price|] eqn:Ep; [|done].
  destruct (writeBigInt (Some (l_value l))) as [value|] eqn:Ev; [|done]. cbn [mbind option_bind].
  destruct (writeBigInt (Some (l_v l))) as [v|] eqn:E1; [|done]. destruct (writeBigInt (Some (l_r l))) as [r|] eqn:E2; [|done].
  destruct (writeBigInt (Some (l_s l))) as [s|] eqn:E3; [|done]. cbn [mbind option_bind]. intros [= <-] Hs%small_writeList.
  apply decodes_struct; [apply Hs|]. rewrite <- !app_assoc in *.
  assert (small price /\ small value /\ small (l_data l) /\ small v /\ small r /\ small s) as (S1 & S2 & S3 & S4 & S5 & S6).
  { apply small_app_r in Hs. pose proof (small_app_l _ _ Hs). apply small_app_r in Hs. do 2 apply small_app_r in Hs.
    pose proof (small_app_l _ _ Hs). apply small_app_r in Hs. pose proof (small_app_l _ _ Hs) as Hd%small_writeBytes.
    apply small_app_r in Hs. pose proof (small_app_l _ _ Hs). apply small_app_r in Hs. pose proof (small_app_l _ _ Hs).
    apply small_app_r in Hs. done. }
  eapply decodes_bind; [apply u64_decodes|]. eapply decodes_bind; [by apply (bigInt_field _ _ Ep)|].
  eapply decodes_bind; [apply u64_decodes|]. eapply decodes_bind; [apply to_decodes|].
  eapply decodes_bind; [by apply (bigInt_field _ _ Ev)|]. eapply decodes_bind; [apply Bytes_decodes; apply S3|].
  eapply decodes_bind; [by apply (bigInt_field _ _ E1)|]. eapply decodes_bind; [by apply (bigInt_field _ _ E2)|].
  eapply decodes_bind_ret; [by apply (bigInt_field _ _ E3)|]. rewrite !wd_uval. by destruct l.
Qed.

(** A legacy transaction is canonical when its computed values are those of its fields, a typed
    one when its payload is decoded to it. *)
Definition canonical (tx : Transaction) : Prop :=
  if tx_type tx =? 0 then tx = legacy_transaction chain (inner tx)
  else exists p, typed_payload tx = Some p /\ p <> [] /\ decodeTyped (wd (tx_type tx) :: p) = Some tx.

Lemma inner_transaction l : inner (legacy_transaction chain l) = l.
Proof. by destruct l. Qed.
Lemma transaction_canonical l : canonical (legacy_transaction chain l).
Proof. unfold canonical. cbn [tx_type legacy_transaction Z.eqb]. by rewrite inner_transaction. Qed.

Lemma encode_legacy_list l e : encode_legacy l = Some e -> exists p, e = writeList p.
Proof.
  unfold encode_legacy. destruct (legacy_body l); cbn [mbind option_bind]; [|done]. destruct (writeBigInt (Some (l_v l))); cbn [mbind option_bind]; [|done].
  destruct (writeBigInt (Some (l_r l))); cbn [mbind option_bind]; [|done]. destruct (writeBigInt (Some (l_s l))); [|done].
  intros [= <-]. by eexists.
Qed.

(** The kind of an encoded list and of an encoded string. *)
Lemma Kind_list p st rest :
  fits p -> s_r st = writeList p ++ rest -> room st (zlen (writeList p)) ->
  exists st', stream_Kind st = Some (Ok ((KList, zlen p, wd 0), st')).
Proof.
  intros Hf Hr Hroom. Transparent writeList. unfold writeList in *. Opaque writeList.
  rewrite <- app_assoc in Hr. rewrite zlen_app in Hroom. eexists.
  apply (Kind_tag (puthead 192 247 (zlen p)) (KList, zlen p, wd 0) p st rest); [|apply zlen_puthead_pos|done..].
  apply readKind_decodes_list. unfold fits in Hf. pose proof (zlen_nonneg p). lia.
Qed.

Lemma Kind_string b st rest :
  fits_single b = false -> fits b -> s_r st = writeBytes b ++ rest -> room st (zlen (writeBytes b)) ->
  exists st', stream_Kind st = Some (Ok ((KString, zlen b, wd 0), st')).
Proof.
  intros H1 Hf Hr Hroom. Transparent writeBytes. unfold writeBytes in *. Opaque writeBytes. rewrite H1 in *.
  rewrite <- app_assoc in Hr. rewrite zlen_app in Hroom. eexists.
  apply (Kind_tag (puthead 128 183 (zlen b)) (KString, zlen b, wd 0) b st rest); [|apply zlen_puthead_pos|done..].
  apply readKind_decodes_string. unfold fits in Hf. pose proof (zlen_nonneg b). lia.
Qed.

Lemma EncodeRLP_pos tx e : EncodeRLP tx = Some e -> 0 < zlen e.
Proof.
  unfold EncodeRLP. intros He. destruct (tx_type tx =? 0).
  - destruct (encode_legacy_list _ _ He) as [p ->]. apply zlen_writeList_pos.
  - destruct (typed_payload tx) as [p|]; [|done]. injection He as <-.
    Transparent writeBytes. unfold writeBytes. Opaque writeBytes. destruct (fits_single _); [done|].
    set (b := wd (tx_type tx) :: p). rewrite zlen_app. pose proof (zlen_puthead_pos 128 183 (zlen b)). pose proof (zlen_nonneg b). lia.
Qed.

Lemma DecodeRLP_encoded tx e : canonical tx -> EncodeRLP tx = Some e -> small e -> decodes (DecodeRLP chain) e tx.
Proof.
  intros Hc He Hs st rest Hr Hroom. unfold EncodeRLP in He. unfold canonical in Hc. destruct (tx_type tx =? 0).
  - destruct (encode_legacy_list _ _ He) as [p ->].
    destruct (Kind_list p st rest) as [st' Ek]; [apply small_writeList in Hs; apply Hs|done|done|]. unfold DecodeRLP. rewrite Ek.
    rewrite Hc at 1. apply (decodes_map decode_legacy (legacy_transaction chain)); [|done|done]. by apply legacy_decodes.
  - destruct Hc as (p & Hp & Hne & Hd). rewrite Hp in He. injection He as <-. apply small_writeBytes in Hs as Hs'.
    destruct (Kind_string (wd (tx_type tx) :: p) st rest) as [st' Ek]; [by destruct p|apply Hs'|done|done|].
    unfold DecodeRLP. rewrite Ek. eapply (decodes_bind_ret (stream_Bytes max_alloc)); [apply Bytes_decodes; apply Hs'| |done|done].
    by rewrite Hd.
Qed.

Lemma DecodeRLP_ends : ends (DecodeRLP chain).
Proof. intros st Hst. unfold DecodeRLP, stream_Kind. by rewrite bool_decide_eq_true_2. Qed.

(** The laws the node's wire format relies on. *)
#[global] Instance go_tx_rlp_laws : TxRlpLaws (go_tx_rlp chain) :=
  Build_TxRlpLaws _ (go_tx_rlp chain) canonical EncodeRLP_pos DecodeRLP_encoded DecodeRLP_ends.

#[global] Instance go_typed_laws : TypedTxLaws (go_tx_rlp chain).
Proof.
  split. intros st x rest Hr Hst Hx. cbn. unfold DecodeRLP. rewrite (Kind_step [x] (KByte, 0, x) st rest); try done.
  - by apply readKind_decodes_byte.
  - unfold room. by rewrite Hst.
  - intros l. by rewrite Hst.
  - intros _. apply zlen_nonneg.
Qed.
End Roundtrip.

(** ** Signing *)

Section Signing.
Context {C : Crypto} {CL : CryptoLaws C} {CS : CanonicalSigs C} {RT : Runtime} {TY : TypedTx}.

(** A signature is the concatenation of its parts. *)
Lemma sig_parts (sig : bytes) :
  length sig = 65%nat -> be_pad 32 (sig_r sig) ++ be_pad 32 (sig_s sig) ++ [sig_v sig] = sig.
Proof.
  intros Hl. unfold sig_r, sig_s, sig_v.
  assert (length (take 32 sig) = 32%nat /\ length (take 32 (drop 32 sig)) = 32%nat) as [H1 H2]
    by (rewrite !length_take, length_drop; lia).
  assert (forall b, length b = 32%nat -> be_pad 32 (be_val b) = b) as Hp by (intros b Hb; by rewrite <- Hb, be_pad_val).
  rewrite (Hp _ H1), (Hp _ H2).
  destruct (lookup_lt_is_Some_2 sig 64) as [x Hx]; [lia|]. rewrite Hx. cbn [default from_option id].
  transitivity (take 32 sig ++ drop 32 sig); [|apply take_drop]. f_equal.
  transitivity (take 32 (drop 32 sig) ++ drop 32 (drop 32 sig)); [f_equal|apply take_drop].
  rewrite drop_drop. apply (list_eq_same_length _ _ 1); [by rewrite length_drop, Hl|done|].
  intros i y z Hi Hy Hz. assert (i = 0%nat) as -> by lia. rewrite lookup_drop in Hz. cbn in Hy. injection Hy as <-.
  change (32 + 32 + 0)%nat with 64%nat in Hz. congruence.
Qed.

(** The V of a protected signature. *)
Lemma protected_v cid (v : byte) :
  0 < cid < 2 ^ 62 -> uval v <= 1 ->
  let v' := uval (wd (w:=8) (uval v + 35)) + cid * 2 in
  v' = uval v + 35 + cid * 2 /\ isProtectedV v' = true /\ deriveChainId v' = cid.
Proof.
  intros Hc Hv. pose proof (uval_range v) as Hr. cbn zeta. rewrite uval_wd_small by (cbn; lia).
  set (v' := uval v + 35 + cid * 2). assert (uval (big_uint64 v') = v') as Eb.
  { unfold big_uint64. rewrite Z.abs_eq by lia. apply uval_wd_small. change (2 ^ Z.of_N 64) with (2 ^ 64). lia. }
  split; [done|]. split.
  - unfold isProtectedV. destruct (bitlen_above v' 8); [done|]. rewrite Eb.
    rewrite !(proj2 (Z.eqb_neq _ _)) by lia. done.
  - unfold deriveChainId, bitlen_above. rewrite Z.abs_eq by lia. rewrite (proj2 (Z.leb_gt _ _)) by lia. rewrite Eb.
    rewrite !(proj2 (Z.eqb_neq _ _)) by lia. cbn [orb].
    assert (uval (wsub (big_uint64 v') (wd 35)) = v' - 35) as ->.
    { rewrite uval_wsub; rewrite Eb; [done|]. change (uval (wd (w:=64) 35)) with 35. lia. }
    replace (v' - 35) with (uval v + cid * 2) by lia. rewrite Z.div_add by lia. rewrite Z.div_small by lia. lia.
Qed.

Lemma legacy_body_same l v r s :
  legacy_body (mkLegacy (l_nonce l) (l_gasPrice l) (l_gas l) (l_to l) (l_value l) (l_data l) v r s) = legacy_body l.
Proof. done. Qed.

Lemma canonical_valid (v : byte) r s homestead :
  1 <= r < secp256k1N -> 1 <= s <= secp256k1N / 2 -> uval v <= 1 -> ValidateSignatureValues v r s homestead = true.
Proof.
  intros Hr Hs Hv. pose proof (uval_range v). unfold ValidateSignatureValues.
  assert (secp256k1N / 2 < secp256k1N) by (vm_compute; reflexivity).
  rewrite !(proj2 (Z.ltb_ge _ 1)), (proj2 (Z.ltb_ge _ s)) by lia. rewrite andb_false_r, !(proj2 (Z.ltb_lt _ _)) by lia. cbn [orb andb].
  destruct (Z.eqb_spec (uval v) 0); [done|]. by rewrite (proj2 (Z.eqb_eq _ 1)) by lia.
Qed.

(** What [SignTx] gives. *)
Lemma SignTx_inv cid l key l' :
  SignTx cid l key = Some l' -> 0 < cid < 2 ^ 62 ->
  exists sig, Sign (hash_bytes (sigHash cid l)) key = Some sig /\ 1 <= sig_r sig < secp256k1N /\
    1 <= sig_s sig <= secp256k1N / 2 /\ uval (sig_v sig) <= 1 /\
    l' = mkLegacy (l_nonce l) (l_gasPrice l) (l_gas l) (l_to l) (l_value l) (l_data l)
           (uval (sig_v sig) + 35 + cid * 2) (sig_r sig) (sig_s sig).
Proof.
  intros H Hc. unfold SignTx in H. destruct (Sign _ key) as [sig|] eqn:Es; [|done]. cbn [mbind option_bind] in H.
  unfold SignatureValues in H. rewrite (proj2 (Z.eqb_neq cid 0)) in H by lia.
  destruct (sign_canonical _ _ _ Es) as (Hr & Hs & Hv). exists sig. do 4 (split; [done|]).
  destruct (protected_v cid (sig_v sig) Hc Hv) as [E _]. rewrite E in H. by injection H as <-.
Qed.

(** The sender of a signed transaction is the signer's address. *)
Lemma SignTx_sender cid l key l' :
  SignTx cid l key = Some l' -> 0 < cid < 2 ^ 62 ->
  deriveChainId (l_v l') = cid /\ isProtectedV (l_v l') = true /\ eip155_Sender cid l' = Some (PubkeyToAddress (pub_of key)).
Proof.
  intros H Hc. destruct (SignTx_inv _ _ _ _ H Hc) as (sig & Es & Hr & Hs & Hv & ->). clear H. cbn [l_v].
  destruct (protected_v cid (sig_v sig) Hc Hv) as (E & Hp & Hd). rewrite E in Hp, Hd. split_and!; [done..|].
  unfold eip155_Sender. cbn [l_v l_r l_s]. rewrite Hp, Hd, Z.eqb_refl. cbn [negb].
  replace (uval (sig_v sig) + 35 + cid * 2 - cid * 2 - 8) with (uval (sig_v sig) + 27) by lia.
  pose proof (uval_range (sig_v sig)) as Hvr. unfold recoverPlain, bitlen_above. rewrite Z.abs_eq by lia.
  rewrite (proj2 (Z.leb_gt _ _)) by (cbn; lia).
  assert (wd (w:=8) (uval (big_uint64 (uval (sig_v sig) + 27)) - 27) = sig_v sig) as ->.
  { unfold big_uint64. rewrite Z.abs_eq by lia. rewrite uval_wd_small by (cbn; lia).
    rewrite Z.add_simpl_r. apply wd_uval. }
  rewrite canonical_valid by done. cbn [negb]. rewrite sig_parts by (by eapply sign_length).
  change (sigHash cid _) with (sigHash cid l). by rewrite (sign_recover _ _ _ Es).
Qed.

(** A transaction signed for another chain has no sender here. *)
Lemma SignTx_other_chain cid chain l key l' :
  SignTx cid l key = Some l' -> 0 < cid < 2 ^ 62 -> cid <> chain -> eip155_Sender chain l' = None.
Proof.
  intros H Hc Hne. destruct (SignTx_sender _ _ _ _ H Hc) as (Hd & Hp & _). unfold eip155_Sender. rewrite Hp, Hd. cbn [negb].
  by rewrite (proj2 (Z.eqb_neq _ _)).
Qed.

Lemma encode_legacy_total l :
  0 <= l_gasPrice l -> 0 <= l_value l -> 0 <= l_v l -> 0 <= l_r l -> 0 <= l_s l -> exists e, encode_legacy l = Some e.
Proof.
  intros H1 H2 H3 H4 H5. assert (forall z, 0 <= z -> exists b, writeBigInt (Some z) = Some b) as Hw.
  { intros z Hz. unfold writeBigInt. rewrite (proj2 (Z.ltb_ge z 0)) by done. destruct (_ <? _); by eexists. }
  unfold encode_legacy, legacy_body. destruct (Hw _ H1) as [b1 ->], (Hw _ H2) as [b2 ->]. cbn [mbind option_bind].
  destruct (Hw _ H3) as [b3 ->], (Hw _ H4) as [b4 ->], (Hw _ H5) as [b5 ->]. by eexists.
Qed.

(** The sanity check of the JSON decoder accepts it. *)
Lemma SignTx_sane cid l key l' :
  SignTx cid l key = Some l' -> 0 < cid < 2 ^ 62 -> sanityCheckSignature (l_v l') (l_r l') (l_s l') true = true.
Proof.
  intros H Hc. destruct (SignTx_sender _ _ _ _ H Hc) as (Hd & Hp & _).
  destruct (SignTx_inv _ _ _ _ H Hc) as (sig & _ & Hr & Hs & Hv & ->). cbn [l_v l_r l_s] in *.
  unfold sanityCheckSignature. rewrite Hp, Hd. apply canonical_valid; [done..|].
  pose proof (uval_range (sig_v sig)) as Hvr. unfold big_uint64. rewrite !Z.abs_eq by lia. rewrite !(uval_wd_small (w:=64)) by (cbn; lia).
  replace (uval (sig_v sig) + 35 + cid * 2 - 35 - 2 * cid) with (uval (sig_v sig)) by lia. by rewrite wd_uval.
Qed.

(** The wallet the clients rely on. *)
#[global] Instance go_wallet_laws (chain : Z) : WalletLaws (go_tx_rlp_laws chain) (go_wallet chain).
Proof.
  split; intros nonce to value gas price data key tx; cbn [signer_chain sign_eip155 go_wallet];
    (destruct (SignTx chain _ key) as [l|] eqn:Es; [|done]); cbn [fmap option_fmap option_map]; intros [= <-] Hc.
  - intros Hv Hp. destruct (SignTx_sender _ _ _ _ Es Hc) as (Hd & _ & Hsend).
    destruct (SignTx_inv _ _ _ _ Es Hc) as (sig & _ & Hr & Hs & Hvs & ->). pose proof (uval_range (sig_v sig)).
    split_and!; try done. cbn [tx_encode go_tx_rlp]. unfold EncodeRLP. cbn [tx_type legacy_transaction Z.eqb].
    rewrite inner_transaction. unfold word_range in *.
    match goal with |- exists e, encode_legacy ?l = Some e /\ _ => destruct (encode_legacy_total l) as [e He]; [cbn; lia..|] end.
    exists e. split; [done|]. unfold legacy_transaction. cbn [tx_size]. by rewrite He.
  - pose proof (SignTx_sane _ _ _ _ Es Hc) as Hsane.
    destruct (SignTx_inv _ _ _ _ Es Hc) as (sig & _ & Hr & Hs & Hvs & ->). pose proof (uval_range (sig_v sig)).
    assert (secp256k1N < 2 ^ 256 /\ secp256k1N / 2 < 2 ^ 256) as [? ?] by (vm_compute; split; reflexivity).
    cbn. split_and!; (lia || done).
Qed.

(** An encoding determines the transaction. *)
Lemma encode_legacy_inj l1 l2 e : encode_legacy l1 = Some e -> encode_legacy l2 = Some e -> small e -> l1 = l2.
Proof.
  intros H1 H2 Hs. pose proof (DecodeBytes_encoded _ _ _ (legacy_decodes _ _ H1 Hs)) as E1.
  rewrite (DecodeBytes_encoded _ _ _ (legacy_decodes _ _ H2 Hs)) in E1. by injection E1.
Qed.

(** A transaction without replay protection is the same on every chain. *)
Lemma unprotected_everywhere c1 c2 l : isProtectedV (l_v l) = false -> legacy_transaction c1 l = legacy_transaction c2 l.
Proof. intros H. unfold legacy_transaction, eip155_Sender. by rewrite H. Qed.

(** C25: A signed legacy transaction survives the wire and is bound to its chain (typed ones do not, see
    [typed_tx_rejected]). What a client signs for the chain [cid], between 1 and 2^62, with no negative amount and
    an encoding within the decoder's limits, and encodes, a node of any chain decodes to the same fields, with the hash and
    the size of the encoding; on the chain [cid] its sender is the signer, on every
    other chain it has none, and [eth_sendRawTransaction] of another chain refuses it by its chain
    id, whatever the state. The encoding determines the transaction. *)
Theorem signed_tx_roundtrip chain cid nonce to value gas price data key l :
  SignTx cid (NewTransaction nonce to value gas price data) key = Some l -> 0 < cid < 2 ^ 62 -> 0 <= value -> 0 <= price ->
  exists e, encode_legacy l = Some e /\ (small e ->
    let tx := legacy_transaction chain l in
    DecodeBytes (DecodeRLP chain) e = Some (Some tx) /\
    (tx_chainId tx, tx_nonce tx, tx_to tx, tx_value tx, tx_gas tx, tx_gasPrice tx, tx_data tx) = (cid, nonce, to, value, gas, price, data) /\
    tx_hash tx = keccak256 e /\ tx_size tx = zlen e /\
    tx_sender tx = (if chain =? cid then Some (PubkeyToAddress (pub_of key)) else None) /\
    (forall (V : Verkle) (api : PublicEthAPI), ChainID (chain_config (api_bc api)) <> cid ->
       eth_SendRawTransaction (TR := go_tx_rlp chain) api e = Some (Err (ErrInvalidChainId cid (ChainID (chain_config (api_bc api)))))) /\
    (forall l', encode_legacy l' = Some e -> l' = l)).
Proof.
  intros Hsign Hc Hv Hp. destruct (SignTx_sender _ _ _ _ Hsign Hc) as (Hd & _ & Hsend).
  pose proof (SignTx_other_chain cid chain _ _ _ Hsign Hc) as Hother.
  destruct (SignTx_inv _ _ _ _ Hsign Hc) as (sig & _ & Hr & Hs & Hvs & El). pose proof (uval_range (sig_v sig)).
  destruct (encode_legacy_total l) as [e He]; [rewrite El; cbn; lia..|]. exists e. split; [done|]. intros Hsm tx.
  assert (DecodeBytes (DecodeRLP chain) e = Some (Some tx)) as Hdec.
  { apply DecodeBytes_encoded, DecodeRLP_encoded; [apply transaction_canonical| |done]. unfold EncodeRLP, tx.
    cbn [tx_type legacy_transaction Z.eqb]. by rewrite inner_transaction. }
  assert (tx_chainId tx = cid) as Ecid by done.
  split; [done|]. split; [unfold tx, legacy_transaction; cbn [tx_chainId tx_nonce tx_to tx_value tx_gas tx_gasPrice tx_data]; by rewrite Hd, El|].
  unfold tx at 1 2, legacy_transaction. rewrite He. cbn [tx_hash tx_size default from_option id]. split; [done|]. split; [done|].
  split; [|split].
  - destruct (Z.eqb_spec chain cid) as [->|Hne]; [done|]. by apply Hother.
  - intros V api Hne. unfold eth_SendRawTransaction. cbn [tx_decode go_tx_rlp]. rewrite Hdec. cbn [mbind option_bind].
    rewrite Ecid, (proj2 (Z.ltb_lt _ _)), (proj2 (Z.eqb_neq _ _)) by (done || lia). done.
  - intros l' He'. by apply (encode_legacy_inj l' l e).
Qed.

(** A staking command of the node queues a transaction of the account to the staking contract, with
    its next nonce, and the miner takes it exactly when the account can pay the gas. *)
Theorem stake_tx_mineable {V : Verkle} {EV : EVM} {CB : Codec Block} chain (n n' : Node) amount from :
  map_Forall (fun a k => PubkeyToAddress (pub_of k) = a) (n_keystore n) ->
  ChainID (n_netCfg n) = chain -> 0 < chain < 2 ^ 62 -> 0 <= DefaultBaseFee (Params (n_netCfg n)) < 2 ^ 200 ->
  SendStakeTx (TS := go_signer chain) n amount from = Some (n', Ok tt) ->
  exists tx, n_txCh n' = n_txCh n ++ [tx] /\ tx_sender tx = Some from /\ tx_nonce tx = GetNonce (n_state n) from /\
    tx_to tx = Some (StakingAddr (Params (n_netCfg n))) /\ tx_value tx = amount /\
    (affordable (n_state n) tx = true <-> DefaultBaseFee (Params (n_netCfg n)) * 100000 <= uval (GetBalance (n_state n) from)).
Proof.
  intros Hks Hch Hr Hfee. unfold SendStakeTx, send_signed. destruct (GetKey n from) as [key|] eqn:Ek; [|done].
  pose proof (Hks _ _ Ek) as Ha. cbn [sign_legacy go_signer]. change (cc_ChainID _) with (ChainID (n_netCfg n)). rewrite Hch.
  destruct (SignTx chain _ key) as [l|] eqn:Es; [|done]. cbn [fmap option_fmap option_map].
  destruct (SignTx_sender _ _ _ _ Es Hr) as (_ & _ & Hsend). rewrite Ha in Hsend.
  destruct (SignTx_inv _ _ _ _ Es Hr) as (sig & _ & _ & _ & _ & El).
  unfold SubmitTx. destruct (_ <? _)%nat; [|done]. cbn [mbind option_bind]. intros [= <-].
  exists (legacy_transaction chain l). split; [done|]. split; [done|]. rewrite (affordable_spec (n_state n) (legacy_transaction chain l) from Hsend).
  rewrite El. cbn [tx_nonce tx_to tx_value tx_gasPrice tx_gas legacy_transaction l_nonce l_to l_value l_gasPrice l_gas NewTransaction].
  do 3 (split; [done|]). change (uval (wd (w:=64) 100000)) with 100000. rewrite Z.mod_small by lia. naive_solver.
Qed.
End Signing.
