(* ===== verification/Staking.v ===== *)
(** * Staking: blocks of staking transactions as operations on a ledger.

    The end-to-end contract of staking, across the scheduler, the executor, the EVM, the native
    staking contract and the reload of the validators by the consensus engine. The abstract
    specification is a [Ledger]: the list of validators, the stake of each and the money in the
    vault (the balance of the staking contract). A block whose transactions all go to the staking
    contract acts on it as its successful transactions, in block order, whatever the goroutines
    do. The EVM is a parameter; what is used of it is the class [PlainCalls]. *)

From S2P Require Import Prelude Words Interfaces Rlp Types Hex StateDB StateOps Scheduler Consensus Genesis SystemContracts Executor RawDB Blockchain Node Running.

(** ** The slots a client uses *)

Section Within.
Context {C : Crypto} (D : slot -> Prop).

Definition within {R : Type} (p : prog R) (st : AState) : Prop := forall sl, sl ∈ spec_slots p st -> D sl.

Lemma within_ret {R : Type} (r : R) st : within (mret r) st.
Proof. by intros sl ?%elem_of_nil. Qed.

Lemma within_call {X R : Type} (o : StateOp X) (k : X -> prog R) st :
  Forall D (op_slots o) -> (forall st' x, spec_op o st = Some (st', x) -> within (k x) st') -> within (call o ≫= k) st.
Proof.
  rewrite Forall_forall. intros Ho Hk sl Hsl. cbn in Hsl. apply elem_of_app in Hsl as [Hsl|Hsl]; [auto|].
  destruct (spec_op o st) as [[st' x]|]; [by eapply Hk|by apply elem_of_nil in Hsl].
Qed.

Lemma spec_slots_bind {A B : Type} (p : prog A) (f : A -> prog B) st :
  spec_slots (p ≫= f) st = spec_slots p st ++ match spec_run p st with Some (st', a) => spec_slots (f a) st' | None => [] end.
Proof.
  revert st. induction p as [r|X o k IH]; intros st; [done|].
  cbn [mbind prog_bind spec_run spec_slots]. rewrite <- app_assoc. f_equal. destruct (spec_op o st) as [[st' x]|]; [apply IH|done].
Qed.

Lemma within_bind {A B : Type} (p : prog A) (f : A -> prog B) st :
  within p st -> (forall st' a, spec_run p st = Some (st', a) -> within (f a) st') -> within (p ≫= f) st.
Proof.
  intros Hp Hf sl Hsl. rewrite spec_slots_bind in Hsl. apply elem_of_app in Hsl as [Hsl|Hsl]; [auto|].
  destruct (spec_run p st) as [[st' a]|]; [by eapply Hf|by apply elem_of_nil in Hsl].
Qed.
End Within.

(** ** The ledger *)

Record Ledger := mkLedger {
  validators : list Address;
  stakes : Address -> Z;
  vault : Z
}.

(** A positive value becomes the stake of the sender, who joins the validators. *)
Definition staked_in (L : Ledger) (sender : Address) (value : Z) : Ledger :=
  if 0 <? value then
    mkLedger (if decide (sender ∈ validators L) then validators L else validators L ++ [sender])
      (fset (stakes L) sender value) (vault L)
  else L.

(** A validator whose stake the vault holds is paid and leaves. *)
Definition paid_out (L : Ledger) (sender : Address) : Ledger :=
  match list_find (fun a => a = sender) (validators L) with
  | Some (i, _) =>
      if stakes L sender <=? vault L then
        mkLedger (swap_pop (validators L) i) (fset (stakes L) sender 0) (vault L - stakes L sender)
      else L
  | None => L
  end.

(** An accepted transaction: the value enters the vault, then the contract acts. *)
Definition stake_tx (L : Ledger) (sender : Address) (value : Z) (data : bytes) : Ledger :=
  let L := staked_in (mkLedger (validators L) (stakes L) (vault L + value)) sender value in
  if bool_decide (data = bytes_of_string "UNSTAKE") then paid_out L sender else L.

(** The transactions of a block with the statuses of their receipts: those with status 1 count. *)
Definition settle_one (L : Ledger) (p : Transaction * u64) : Ledger :=
  if bool_decide (p.2 = wd 1) then stake_tx L (sched_sender p.1) (tx_value p.1) (tx_data p.1) else L.
Definition settle (L : Ledger) (txs : list Transaction) (statuses : list u64) : Ledger :=
  fold_left settle_one (zip txs statuses) L.

(** The vault holds every stake. *)
Definition solvent (L : Ledger) : Prop := sumZ (stakes L) (validators L) <= vault L.

(** The ledger a state holds. *)
Record ledger_ok (P : SystemParams) (st : AState) (L : Ledger) : Prop := {
  lo_registry : registry P st (validators L);
  lo_stakes : forall a, a ∈ validators L ->
    a_storage st (StakingAddr P) (acct_key a) = BigToHash (stakes L a) /\ 0 < stakes L a < 2 ^ 256;
  lo_vault : uval (a_balance st (StakingAddr P)) = vault L
}.

Section LedgerLemmas.
Implicit Types L : Ledger.

Lemma sumZ_fset (f : Address -> Z) a x l : a ∉ l -> sumZ (fset f a x) l = sumZ f l.
Proof. intros Ha. apply sumZ_ext. intros y Hy. unfold fset. by rewrite decide_False by (intros ->; done). Qed.

Lemma settle_snoc L pre ss tx b :
  length ss = length pre -> settle L (pre ++ [tx]) (ss ++ [b]) = settle_one (settle L pre ss) (tx, b).
Proof. intros Hl. unfold settle. rewrite zip_with_app by done. by rewrite fold_left_app. Qed.

Lemma paid_out_cases L a :
  (exists i, validators L !! i = Some a /\ stakes L a <= vault L /\
     paid_out L a = mkLedger (swap_pop (validators L) i) (fset (stakes L) a 0) (vault L - stakes L a)) \/
  ((a ∉ validators L \/ vault L < stakes L a) /\ paid_out L a = L).
Proof.
  unfold paid_out. destruct (list_find _ _) as [[i b]|] eqn:E.
  - apply list_find_Some in E as (Hi & -> & _). destruct (Z.leb_spec (stakes L a) (vault L)); [left; eauto|right; auto].
  - apply list_find_None in E. right. split; [left|done]. intros Hin. rewrite Forall_forall in E. by apply (E a Hin).
Qed.

(** *** Solvency and growth *)

Definition ledger_wf L : Prop := NoDup (validators L) /\ forall a, a ∈ validators L -> 0 < stakes L a.

Lemma sumZ_fset_le (f : Address -> Z) a v l :
  NoDup l -> (forall b, b ∈ l -> 0 <= f b) -> 0 <= v -> sumZ (fset f a v) l <= sumZ f l + v.
Proof.
  intros HN H0 Hv. destruct (decide (a ∈ l)) as [Hin|Hin]; [|rewrite sumZ_fset by done; lia].
  apply elem_of_Permutation in Hin as Hp. destruct Hp as [l' Hp]. rewrite Hp in HN. apply NoDup_cons in HN as [Hna _].
  rewrite !(sumZ_permutation _ _ _ Hp), !sumZ_cons, sumZ_fset by done. unfold fset. rewrite decide_True by done. specialize (H0 a Hin). lia.
Qed.

Lemma staked_in_wf L a v : ledger_wf L -> 0 <= v -> ledger_wf (staked_in L a v).
Proof.
  intros [HN H0] Hv. unfold staked_in. destruct (Z.ltb_spec 0 v); [|done]. split; cbn.
  - case_decide; [done|]. apply NoDup_app. split_and!; [done|set_solver|apply NoDup_singleton].
  - intros b Hb. unfold fset. destruct (decide (a = b)) as [<-|]; [done|]. apply H0. case_decide; set_solver.
Qed.

(** A deposit of the [v] that is already in the vault. *)
Lemma staked_in_spec L a v :
  ledger_wf L -> 0 <= v ->
  (forall b, b ∈ validators (staked_in L a v) -> b ∈ validators L \/ b = a) /\
  (length (validators (staked_in L a v)) <= length (validators L) + 1)%nat /\ vault (staked_in L a v) = vault L /\
  (sumZ (stakes L) (validators L) + v <= vault L -> solvent (staked_in L a v)).
Proof.
  intros [HN H0] Hv. unfold staked_in. destruct (Z.ltb_spec 0 v).
  2:{ split_and!; [auto|lia|done|unfold solvent; lia]. }
  split_and!; [cbn; case_decide; set_solver|cbn; case_decide; rewrite ?length_app; cbn; lia|done|].
  intros Hs. unfold solvent. cbn. case_decide as Hin.
  - enough (sumZ (fset (stakes L) a v) (validators L) <= sumZ (stakes L) (validators L) + v) by lia.
    apply sumZ_fset_le; [done| |lia]. intros b Hb. specialize (H0 b Hb). lia.
  - rewrite sumZ_app, sumZ_cons, sumZ_nil, sumZ_fset by done. unfold fset. rewrite decide_True by done. lia.
Qed.

Lemma paid_out_spec L a :
  ledger_wf L ->
  ledger_wf (paid_out L a) /\ (forall b, b ∈ validators (paid_out L a) -> b ∈ validators L) /\
  (length (validators (paid_out L a)) <= length (validators L))%nat /\ vault (paid_out L a) <= vault L /\
  (solvent L -> solvent (paid_out L a)).
Proof.
  intros [HN H0]. destruct (paid_out_cases L a) as [(i & Hi & _ & ->)|[_ ->]]; [|by split_and!].
  pose proof (swap_pop_perm _ _ _ Hi) as Hp. pose proof (Permutation_length Hp) as Hl. cbn in Hl.
  pose proof (H0 a ltac:(by eapply list_elem_of_lookup_2)).
  assert (forall b, b ∈ swap_pop (validators L) i -> b ∈ validators L) as Hsub by (intros b Hb; rewrite Hp; set_solver).
  assert (NoDup (a :: swap_pop (validators L) i)) as HN' by (by rewrite <- Hp). apply NoDup_cons in HN' as [Hna HN'].
  split; [split; cbn; [done|]|split_and!; cbn; [done|lia|lia|]].
  - intros b Hb. unfold fset. rewrite decide_False by (intros ->; done). auto.
  - unfold solvent. cbn. rewrite (sumZ_permutation (stakes L) _ _ Hp), sumZ_cons, sumZ_fset by done. lia.
Qed.

Lemma stake_tx_spec L a v data :
  ledger_wf L -> 0 <= v ->
  ledger_wf (stake_tx L a v data) /\ (forall b, b ∈ validators (stake_tx L a v data) -> b ∈ validators L \/ b = a) /\
  (length (validators (stake_tx L a v data)) <= length (validators L) + 1)%nat /\ vault (stake_tx L a v data) <= vault L + v /\
  (solvent L -> solvent (stake_tx L a v data)).
Proof.
  intros Hwf Hv. unfold stake_tx. set (L0 := mkLedger _ _ (vault L + v)).
  destruct (staked_in_spec L0 a v) as (Hm & Hl & Hva & Hs); [done..|]. pose proof (staked_in_wf L0 a v Hwf Hv) as Hwf1.
  assert (solvent L -> solvent (staked_in L0 a v)) as Hs' by (unfold solvent at 1; intros; apply Hs; cbn; lia).
  case_bool_decide; [|split_and!; [done..| |done]; rewrite Hva; done].
  destruct (paid_out_spec (staked_in L0 a v) a Hwf1) as (Hwf2 & Hm2 & Hl2 & Hv2 & Hs2).
  cbn in Hl, Hva. split_and!; [done|intros b Hb; by apply Hm, Hm2|lia|lia|auto].
Qed.

Lemma settle_one_spec L tx b :
  ledger_wf L -> 0 <= tx_value tx ->
  (forall a, a ∈ validators (settle_one L (tx, b)) -> a ∈ validators L \/ a = sched_sender tx) /\
  (length (validators (settle_one L (tx, b))) <= length (validators L) + 1)%nat /\
  vault (settle_one L (tx, b)) <= vault L + tx_value tx /\ (solvent L -> solvent (settle_one L (tx, b))).
Proof.
  intros Hwf Hv. unfold settle_one. cbn [fst snd]. case_bool_decide; [by apply stake_tx_spec|split_and!; [auto|lia|lia|done]].
Qed.

(** A solvent vault pays every validator that asks. *)
Lemma solvent_pays L a :
  ledger_wf L -> solvent L -> a ∈ validators L ->
  let L' := stake_tx L a 0 (bytes_of_string "UNSTAKE") in
  validators L ≡ₚ a :: validators L' /\ vault L' = vault L - stakes L a.
Proof.
  intros [HN H0] Hs Hin. unfold stake_tx, staked_in. cbn [Z.ltb Z.compare]. rewrite bool_decide_eq_true_2 by done. rewrite Z.add_0_r.
  assert (stakes L a <= vault L).
  { etransitivity; [|exact Hs]. apply sumZ_elem_le; [|done]. intros b Hb. specialize (H0 b Hb). lia. }
  destruct (paid_out_cases (mkLedger (validators L) (stakes L) (vault L)) a) as [(i & Hi & _ & ->)|[[?|?] _]]; cbn in *; [|done|lia].
  split; [by apply swap_pop_perm|done].
Qed.
End LedgerLemmas.

(** ** The native contract on the ledger *)

Section Native.
Context {C : Crypto} {V : Verkle} {VL : VerkleLaws V}.
Context (P : SystemParams) (HP : params_ok P).
Implicit Types (st : AState) (L : Ledger).

Lemma stake_bytes st L a :
  ledger_ok P st L -> a ∈ validators L ->
  a_storage st (StakingAddr P) (acct_key a) = BigToHash (uval (wd (w := 256) (stakes L a))) /\ uval (wd (w := 256) (stakes L a)) = stakes L a.
Proof.
  intros HL Ha. destruct (lo_stakes _ _ _ HL a Ha) as [Hs Hr]. by rewrite uval_wd_small by (change (2 ^ Z.of_N 256) with (2 ^ 256); lia).
Qed.

Lemma after_deposit_stake st sender value a :
  a_storage (after_deposit P st sender value) (StakingAddr P) (acct_key a)
  = if decide (sender = a) then BigToHash value else a_storage st (StakingAddr P) (acct_key a).
Proof.
  pose proof (staking_ne_validator P HP) as Hne. unfold after_deposit.
  destruct (decide (_ = zero_hash)), (decide (sender = a)) as [<-|]; by ssimpl.
Qed.

(** The deposit branch. *)
Lemma deposit_ledger st L sender value :
  ledger_ok P st L -> regular sender -> 0 <= value < 2 ^ 256 -> Z.of_nat (length (validators L)) + 1 < 2 ^ 64 - 1 ->
  exists st', spec_run (if 0 <? value then deposit P sender value else mret tt) st = Some (st', tt) /\
    ledger_ok P st' (staked_in L sender value) /\ a_codehash st' = a_codehash st.
Proof.
  intros HL Hs Hv Hl. unfold staked_in. destruct (Z.ltb_spec 0 value); [|by exists st].
  exists (after_deposit P st sender value). split; [by apply deposit_run|]. split.
  - split; cbn.
    + apply registry_deposit; try done; [apply HL|lia].
    + intros a Ha. rewrite after_deposit_stake. unfold fset. destruct (decide (sender = a)); [split; [done|lia]|].
      apply (lo_stakes _ _ _ HL a). case_decide; set_solver.
    + rewrite <- (lo_vault _ _ _ HL). unfold after_deposit. by case_decide.
  - unfold after_deposit. by case_decide.
Qed.

(** Removing a validator leaves the stakes of the others. *)
Lemma after_unstake_stake st sender amt a vals i :
  registry P st vals -> vals !! i = Some sender -> a ∈ vals -> a <> sender ->
  a_storage (after_unstake P st sender amt) (StakingAddr P) (acct_key a) = a_storage st (StakingAddr P) (acct_key a).
Proof.
  intros HR Hi Ha Hne. pose proof (staking_ne_validator P HP) as Hsv. unfold after_unstake, after_pop.
  case_match; ssimpl; done.
Qed.

(** The withdrawal branch. *)
Lemma unstake_ledger st L sender :
  ledger_ok P st L -> regular sender ->
  exists st', spec_run (unstake P sender) st = Some (st', tt) /\ ledger_ok P st' (paid_out L sender) /\ a_codehash st' = a_codehash st.
Proof.
  intros HL Hs. pose proof (lo_registry _ _ _ HL) as HR.
  destruct (paid_out_cases L sender) as [(i & Hi & Hv & ->)|[Hno ->]].
  - assert (sender ∈ validators L) as Hin by by eapply list_elem_of_lookup_2.
    destruct (stake_bytes st L sender HL Hin) as [Hb Hu]. set (amt := wd (w := 256) (stakes L sender)) in *.
    exists (after_unstake P st sender amt).
    split; [apply (unstake_run P st (validators L)); try done; rewrite Hu, (lo_vault _ _ _ HL); lia|]. split; [split; cbn [validators stakes vault]|].
    + by apply registry_unstake.
    + intros a Ha. pose proof (reg_nodup _ _ _ HR) as HN. pose proof (swap_pop_perm _ _ _ Hi) as Hp.
      rewrite Hp in HN. apply NoDup_cons in HN as [Hna _].
      assert (a <> sender) as Hne by (intros ->; done). assert (a ∈ validators L) as Hal by (rewrite Hp; set_solver).
      rewrite (after_unstake_stake st sender amt a _ i HR Hi) by done. unfold fset. rewrite decide_False by done. by apply HL.
    + rewrite after_unstake_balance by done. rewrite decide_False by (intros E; by apply (regular_ne_staking P HP sender Hs)).
      rewrite decide_True by done. unfold wsub. rewrite Hu, <- (lo_vault _ _ _ HL).
      pose proof (uval_range (a_balance st (StakingAddr P))). pose proof (lo_vault _ _ _ HL). destruct (lo_stakes _ _ _ HL _ Hin) as [_ ?].
      rewrite uval_wd_small by (change (2 ^ Z.of_N 256) with (2 ^ 256) in *; lia). done.
    + unfold after_unstake, after_pop. by case_match.
  - exists st. split; [|done]. unfold unstake. rewrite spec_run_call. cbn [spec_op]. case_bool_decide as Hz; [done|].
    apply (reg_stake _ _ _ HR) in Hz; [|done]. destruct Hno as [Hno|Hno]; [done|].
    destruct (stake_bytes st L sender HL Hz) as [Hb Hu]. rewrite spec_run_call. cbn [spec_op].
    rewrite Hb, FromBig_wd, hash_big_BigToHash by (apply (uval_range (w := 256))). rewrite wd_uval, Hu, (lo_vault _ _ _ HL). by zcase.
Qed.

(** A transaction to the staking contract, once its value is in the vault. *)
Lemma native_ledger st L msg tx :
  msg_to msg = Some (StakingAddr P) -> ledger_ok P st L -> regular (msg_from msg) -> 0 <= msg_value msg < 2 ^ 256 ->
  Z.of_nat (length (validators L)) + 1 < 2 ^ 64 - 1 ->
  exists st', spec_run (ProcessSystemContracts P msg tx) st = Some (st', tt) /\ a_codehash st' = a_codehash st /\
    let L1 := staked_in L (msg_from msg) (msg_value msg) in
    ledger_ok P st' (if bool_decide (tx_data tx = bytes_of_string "UNSTAKE") then paid_out L1 (msg_from msg) else L1).
Proof.
  intros Hto HL Hs Hv Hl. unfold ProcessSystemContracts. rewrite spec_run_bind.
  rewrite (bool_decide_eq_true_2 (msg_to msg = Some (StakingAddr P))) by done.
  rewrite (bool_decide_eq_false_2 (msg_to msg = Some (RewardAddr P))) by by apply staking_not_reward.
  destruct (deposit_ledger st L (msg_from msg) (msg_value msg)) as (st1 & Hr1 & HL1 & Hc1); try done.
  rewrite spec_run_bind, Hr1. case_bool_decide; [|by exists st1].
  destruct (unstake_ledger st1 _ (msg_from msg) HL1 Hs) as (st2 & Hr2 & HL2 & Hc2). exists st2. rewrite Hr2. split_and!; [done|congruence|done].
Qed.
End Native.

(** ** The slots of the staking contract

    [A] are the accounts that take part and [n] bounds the number of validators. *)

Record staking_domain (P : SystemParams) (D : slot -> Prop) (A : list Address) (n : nat) : Prop := {
  sd_account a : a ∈ A -> D (SBalance a) /\ D (SNonce a) /\ D (SCodeHash a);
  sd_entry a : a ∈ A -> D (SStorage (StakingAddr P) (acct_key a)) /\ D (SStorage (ValidatorAddr P) (acct_key a))
                       /\ D (SStorage (RewardAddr P) (acct_key a));
  sd_count : D (SStorage (ValidatorAddr P) zero_hash);
  sd_index i : (i < n)%nat -> D (SStorage (ValidatorAddr P) (index_key i))
}.

Section Slots.
Context {C : Crypto} {V : Verkle} {VL : VerkleLaws V}.
Context (P : SystemParams) (HP : params_ok P) (D : slot -> Prop) (A : list Address) (n : nat).
Context (HD : staking_domain P D A n) (HA : StakingAddr P ∈ A).
Implicit Types (st : AState) (vals : list Address).

Ltac in_domain := cbn [op_slots]; repeat (apply Forall_cons; split); [..|apply Forall_nil; exact I].

Lemma deposit_within st vals sender value :
  registry P st vals -> sender ∈ A -> (length vals < n)%nat -> within D (deposit P sender value) st.
Proof.
  intros HR Ha Hn. pose proof (staking_ne_validator P HP) as Hne. destruct (sd_entry _ _ _ _ HD _ Ha) as (Hs & Hv & _).
  pose proof (sd_count _ _ _ _ HD) as H0. pose proof (sd_index _ _ _ _ HD (length vals) Hn) as Hi.
  apply within_call; [by in_domain|]. intros st1 x1 [= <- _]. apply within_call; [by in_domain|]. intros st2 x2 [= <- <-].
  case_bool_decide; [|apply within_ret]. apply within_call; [by in_domain|]. intros st3 x3 [= <- <-].
  unfold fset. rewrite decide_False by done. rewrite (registry_count P st vals HR). fold (index_key (length vals)).
  do 3 (apply within_call; [by in_domain|]; intros ? ? [= <- _]). apply within_ret.
Qed.

Lemma swap_and_pop_within st vals i a :
  registry P st vals -> vals !! i = Some a -> (forall b, b ∈ vals -> b ∈ A) -> (length vals <= n)%nat ->
  within D (swap_and_pop P (acct_key a)) st.
Proof.
  intros HR Hi HvA Hn. apply lookup_lt_Some in Hi as Hlt. assert (a ∈ A) as Ha by (by eapply HvA, list_elem_of_lookup_2).
  destruct (sd_entry _ _ _ _ HD _ Ha) as (Hs & Hv & _). pose proof (sd_count _ _ _ _ HD) as H0.
  pose proof (sd_index _ _ _ _ HD i ltac:(lia)) as Hix. pose proof (sd_index _ _ _ _ HD (length vals - 1) ltac:(lia)) as Hlast.
  assert (BigToHash (Z.of_nat (length vals)) = index_key (length vals - 1)) as Ec by (unfold index_key; f_equal; lia).
  destruct (lookup_lt_is_Some_2 vals (length vals - 1)) as [l Hl]; [lia|].
  destruct (sd_entry _ _ _ _ HD l (HvA l ltac:(by eapply list_elem_of_lookup_2))) as (_ & Hlv & _).
  unfold swap_and_pop. apply within_call; [by in_domain|]. intros st1 x1 [= <- <-]. rewrite (registry_pointer P st vals i a HR Hi).
  apply within_call; [by in_domain|]. intros st2 x2 [= <- <-]. rewrite (registry_count P st vals HR), Ec. fold (index_key i).
  apply within_bind.
  - destruct (_ <? _); [|apply within_ret]. apply within_call; [by in_domain|]. intros st3 x3 [= <- <-].
    rewrite (reg_index _ _ _ HR _ _ Hl). do 2 (apply within_call; [by in_domain|]; intros ? ? [= <- _]). apply within_ret.
  - intros st' [] _. do 4 (apply within_call; [by in_domain|]; intros ? ? [= <- _]). apply within_ret.
Qed.

Lemma unstake_within st vals sender :
  registry P st vals -> regular sender -> sender ∈ A -> (forall b, b ∈ vals -> b ∈ A) -> (length vals <= n)%nat ->
  within D (unstake P sender) st.
Proof.
  intros HR Hs Ha HvA Hn. destruct (sd_entry _ _ _ _ HD _ Ha) as (Hse & Hv & _). destruct (sd_account _ _ _ _ HD _ Ha) as (Hb & _ & _).
  destruct (sd_account _ _ _ _ HD _ HA) as (HbS & _ & _).
  unfold unstake. apply within_call; [by in_domain|]. intros st1 x1 [= <- <-]. case_bool_decide as Hz; [apply within_ret|].
  apply (reg_stake _ _ _ HR) in Hz as Hin; [|done]. apply list_elem_of_lookup in Hin as [i Hi].
  apply within_call; [by in_domain|]. intros st2 x2 [= <- <-]. destruct (_ <=? _); [|apply within_ret].
  do 2 (apply within_call; [by in_domain|]; intros ? ? [= <- _]). apply (swap_and_pop_within _ vals i sender); try done.
  by do 2 apply registry_balance.
Qed.

Lemma native_within st L msg tx :
  msg_to msg = Some (StakingAddr P) -> ledger_ok P st L -> regular (msg_from msg) -> 0 <= msg_value msg < 2 ^ 256 ->
  Z.of_nat (length (validators L)) + 1 < 2 ^ 64 - 1 -> msg_from msg ∈ A -> (forall b, b ∈ validators L -> b ∈ A) ->
  (length (validators L) < n)%nat -> within D (ProcessSystemContracts P msg tx) st.
Proof.
  intros Hto HL Hs Hv Hl Ha HvA Hn. unfold ProcessSystemContracts.
  rewrite (bool_decide_eq_true_2 (msg_to msg = Some (StakingAddr P))) by done.
  rewrite (bool_decide_eq_false_2 (msg_to msg = Some (RewardAddr P))) by by apply staking_not_reward.
  apply within_bind; [|intros; apply within_ret]. apply within_bind.
  - destruct (_ <? _); [|apply within_ret]. apply (deposit_within _ (validators L)); try done. apply HL.
  - destruct (deposit_ledger P HP st L (msg_from msg) (msg_value msg)) as (st1 & -> & HL1 & _); try done.
    intros st' [] [= <-]. case_bool_decide; [|apply within_ret].
    apply (unstake_within _ (validators (staked_in L (msg_from msg) (msg_value msg)))); try done; [apply HL1|..].
    + unfold staked_in. destruct (_ <? _); [|done]. cbn. case_decide; set_solver.
    + unfold staked_in. destruct (_ <? _); [|lia]. cbn. case_decide; rewrite ?length_app; cbn; lia.
Qed.
End Slots.

(** ** What is used of the EVM *)

Definition credit (st : AState) (a : Address) (x : u256) : AState := aset_balance st a (wadd (a_balance st a) x).
Definition debit (st : AState) (a : Address) (x : u256) : AState := aset_balance st a (wsub (a_balance st a) x).

(** The slots of a call of [to] that runs no code. *)
Definition call_slots (ctx : BlockContext) (msg : Message) (to : Address) : list slot :=
  [SBalance (msg_from msg); SBalance to; SBalance (ctx_Coinbase ctx);
   SNonce (msg_from msg); SNonce to; SCodeHash (msg_from msg); SCodeHash to].

(** Its effect when [gas] was used: storage and code stay, the sender can pay and pays the value and
    the gas, the value arrives and the coinbase gets the part of the gas price above the base fee.
    Nonces are left open. *)
Definition gas_fee (gas : u64) (price : Z) : Z := uval gas * price.
Definition plain_effect (ctx : BlockContext) (baseFee : Z) (msg : Message) (to : Address) (gas : u64) (st st' : AState) : Prop :=
  let value := msg_value msg in
  let cost := gas_fee gas (msg_gasPrice msg) in
  let tip := gas_fee gas (msg_gasPrice msg - baseFee) in
  a_storage st' = a_storage st /\ a_codehash st' = a_codehash st /\
  baseFee <= msg_gasPrice msg /\ 0 <= cost /\ value + cost <= uval (a_balance st (msg_from msg)) /\
  a_balance st' = a_balance (credit (credit (debit st (msg_from msg) (wd (value + cost))) to (wd value)) (ctx_Coinbase ctx) (wd tip)).

(** core/state_transition.go with all forks up to Prague, for a message (without EIP-7702
    authorizations) to an account that has no code and is not a precompiled contract (those are at
    addresses up to 0x100): it is refused with an error, or it succeeds as a plain transfer. *)
Class PlainCalls {C : Crypto} {V : Verkle} (EV : EVM) := {
  plain_call (D : slot -> Prop) id ctx baseFee msg gas to db s st s' res :
    collision_free D -> Forall D (call_slots ctx msg to) -> refines D s st -> ctx_BaseFee ctx = Some baseFee ->
    msg_to msg = Some to -> 256 < uval to -> a_codehash st to = zero_hash -> 0 <= msg_value msg ->
    run db (ApplyMessage (forks_from_genesis id) ctx msg gas) s = (s', Some res) ->
    res_failed res = false /\ exists st', refines D s' st' /\ plain_effect ctx baseFee msg to (UsedGas res) st st'
}.

(** ** One staking transaction *)

Section Refines.
Context {C : Crypto} {V : Verkle} {VL : VerkleLaws V}.

Lemma refines_get (D : slot -> Prop) s s' st :
  (forall sl, D sl -> getVerkleValue s' (slot_key sl) = getVerkleValue s (slot_key sl)) -> refines D s st -> refines D s' st.
Proof.
  intros H Hr sl Hsl. specialize (H sl Hsl). specialize (Hr sl Hsl).
  destruct sl; cbn [slot_key] in H; rewrite <- Hr;
    [apply GetNonce_ext|apply GetBalance_ext|apply GetCodeHash_ext|apply GetState_ext]; exact H.
Qed.

Lemma refines_overlay D s st : refines D s st -> refines D (NewOverlay s) st.
Proof. apply refines_get. intros sl _. apply get_new_overlay. Qed.

Lemma refines_finish D header txs tx msg f res sh st :
  dirty_ok (dirty f) -> refines D (Overlay f (statedb sh)) st -> refines D (statedb (finish header txs tx msg f res sh)) st.
Proof.
  intros Hd. apply refines_get. intros sl _.
  rewrite (effect_get header txs sh tx (Some (msg, f, Some res))); [|done|apply slot_key_is_key].
  cbn. by destruct (dirty f !! _).
Qed.
End Refines.

(** A transaction to the staking contract that the goroutine executes. *)
Definition staking_tx (P : SystemParams) (tx : Transaction) : Prop :=
  tx_to tx = Some (StakingAddr P) /\ tx_size tx <= 512 * 1024 /\ is_Some (tx_sender tx) /\ regular (sched_sender tx) /\ 0 <= tx_value tx.

Lemma staking_message P header tx :
  staking_tx P tx -> exists msg, tx_message header tx = Some msg /\
    msg_to msg = Some (StakingAddr P) /\ msg_from msg = sched_sender tx /\ msg_value msg = tx_value tx /\ isSystemTx P msg = true.
Proof.
  intros (Hto & Hsz & [from Hs] & _). unfold tx_message, TransactionToMessage, sched_sender. zcase. rewrite Hs. cbn [mbind option_bind].
  eexists. split; [reflexivity|]. cbn. unfold isSystemTx. cbn. rewrite Hto. by rewrite bool_decide_eq_true_2.
Qed.

Definition rstatus (r : option Receipt) : u64 := default (wd 0) (Status <$> r).

Section Transactions.
Context {C : Crypto} {V : Verkle} {VL : VerkleLaws V} {EV : EVM} {PC : PlainCalls EV}.
Context (e : Executor) (header : Header) (db : option DB) (D : slot -> Prop) (A : list Address) (n : nat).
#[local] Abbreviation P := (Params (netCfg e)).
Context (HP : params_ok P) (HC : collision_free D) (HD : staking_domain P D A n).
Context (HA : StakingAddr P ∈ A) (Hcb : Coinbase header ∈ A) (Hcs : Coinbase header <> StakingAddr P).
Context (id : Z) (baseFee : Z) (Hcfg : config e = forks_from_genesis id) (Hfee : BaseFee header = Some baseFee) (Hpre : 256 < uval (StakingAddr P)).
Implicit Types (st : AState) (L : Ledger) (tx : Transaction).

(** The ledger has room for one more transaction of value [v]. *)
Definition room L (v : Z) : Prop :=
  (forall b, b ∈ validators L -> b ∈ A) /\ (length (validators L) < n)%nat /\
  Z.of_nat (length (validators L)) + 1 < 2 ^ 64 - 1 /\ vault L + v < 2 ^ 256.

Lemma ledger_transfer st st' L msg ctx gas :
  ctx_Coinbase ctx = Coinbase header -> regular (msg_from msg) -> 0 <= msg_value msg -> vault L + msg_value msg < 2 ^ 256 ->
  ledger_ok P st L -> plain_effect ctx baseFee msg (StakingAddr P) gas st st' ->
  ledger_ok P st' (mkLedger (validators L) (stakes L) (vault L + msg_value msg)).
Proof.
  intros Hctx Hs Hv Hb [HR HS HV] (Est & _ & _ & _ & _ & Eb). split; cbn [validators stakes vault].
  - destruct HR. split; try done; by rewrite Est.
  - intros a Ha. rewrite Est. by apply HS.
  - pose proof (regular_ne_staking P HP _ Hs) as Hne. pose proof (uval_range (a_balance st (StakingAddr P))).
    rewrite Eb, Hctx. unfold credit, debit. cbn. unfold fset. rewrite (decide_False (P := Coinbase header = _)) by done.
    rewrite (decide_True (P := StakingAddr P = StakingAddr P)) by done. rewrite (decide_False (P := msg_from msg = _)) by done.
    unfold wadd. change (2 ^ Z.of_N 256) with (2 ^ 256) in *. rewrite !uval_wd_small by (change (2 ^ Z.of_N 256) with (2 ^ 256); rewrite ?uval_wd_small by (change (2 ^ Z.of_N 256) with (2 ^ 256); lia); lia). lia.
Qed.

(** What the goroutine of a staking transaction leaves on its overlay. *)
Lemma stake_exec s st L tx msg :
  refines D s st -> ledger_ok P st L -> a_codehash st (StakingAddr P) = zero_hash ->
  staking_tx P tx -> tx_message header tx = Some msg -> sched_sender tx ∈ A -> room L (tx_value tx) ->
  match run db (tx_exec e header tx msg) s with
  | (_, None) => True
  | (o, Some res) => UsedGas res = wd 0 /\ res_failed res = false /\
      exists st', refines D o st' /\ a_codehash st' (StakingAddr P) = zero_hash /\
        ledger_ok P st' (stake_tx L (sched_sender tx) (tx_value tx) (tx_data tx))
  end.
Proof.
  intros Hr HL Hcode Htx Hm Ha (HvA & Hn & Hlen & Hvault). destruct (staking_message _ header _ Htx) as (msg' & Hm' & Hto & Hfrom & Hval & Hsys).
  rewrite Hm in Hm'. injection Hm' as <-. destruct Htx as (_ & _ & _ & Hreg & Hv). unfold tx_exec. rewrite run_call. cbn [exec_op]. change (Prepare s) with s. rewrite run_bind.
  set (ctx := vm_New header (getHash e header)). destruct (run db (ApplyMessage (config e) ctx msg (GasLimit header)) s) as [s1 [res|]] eqn:Eapp; [|exact I].
  rewrite <- Hfrom, <- Hval in *.
  rewrite Hcfg in Eapp.
  destruct (plain_call D id ctx baseFee msg (GasLimit header) (StakingAddr P) db s st s1 res) as (Hf & st1 & Hr1 & Heff); try done.
  { destruct (sd_account _ _ _ _ HD _ Ha) as (? & ? & ?), (sd_account _ _ _ _ HD _ HA) as (? & ? & ?), (sd_account _ _ _ _ HD _ Hcb) as (? & _).
    repeat (apply Forall_cons; split); done. }
  pose proof (ledger_transfer st st1 L msg ctx _ eq_refl Hreg Hv Hvault HL Heff) as HL1.
  destruct Heff as (_ & Ecode & _ & Hcost & Hpay & _). pose proof (uval_range (a_balance st (msg_from msg))) as Hbr.
  change (2 ^ Z.of_N 256) with (2 ^ 256) in Hbr.
  destruct (native_ledger P HP st1 _ msg tx Hto HL1) as (st2 & Hrun & Hc2 & HL2); try done; [lia|].
  destruct (run_spec D db (ProcessSystemContracts P msg tx) s1 st1 st2 tt HC Hr1) as [_ Hr2]; [|done|].
  { eapply (native_within P HP D A n HD HA st1); try done; lia. }
  rewrite run_bind. destruct (run db (ProcessSystemContracts P msg tx) s1) as [s2 []]. cbn [run mret prog_ret]. rewrite Hsys.
  split; [done|]. split; [done|]. exists st2. split; [done|]. split; [congruence|]. exact HL2.
Qed.

(** ** A block of staking transactions *)

Context (txs : list Transaction) (L0 : Ledger).
Context (HN : NoDup (tx_hash <$> txs)) (Htxs : Forall (fun tx => staking_tx P tx /\ sched_sender tx ∈ A) txs).
Context (Hmem : forall b, b ∈ validators L0 -> b ∈ A) (Hroom : (length (validators L0) + length txs <= n)%nat).
Context (Hlen : Z.of_nat n < 2 ^ 64 - 1) (Hvault : vault L0 + sumZ tx_value txs < 2 ^ 256).

(** The ledger after the transactions [pre], according to their receipts. *)
Definition ledger_after (pre : list Transaction) (sh : Shared) : Ledger :=
  settle L0 pre (take (length pre) (rstatus <$> receipts sh)).

Record block_inv (pre : list Transaction) (sh : Shared) (st : AState) : Prop := {
  bi_refines : refines D (statedb sh) st;
  bi_code : a_codehash st (StakingAddr P) = zero_hash;
  bi_wf : state_wf (statedb sh);
  bi_gas : uval (blockGasUsed sh) = 0;
  bi_fees : totalFees sh = 0;
  bi_receipts : length (receipts sh) = length txs;
  bi_ledger : ledger_ok P st (ledger_after pre sh);
  bi_members : forall b, b ∈ validators (ledger_after pre sh) -> b ∈ A;
  bi_length : (length (validators (ledger_after pre sh)) <= length (validators L0) + length pre)%nat;
  bi_vault : vault (ledger_after pre sh) <= vault L0 + sumZ tx_value pre;
  bi_solvent : solvent L0 -> solvent (ledger_after pre sh)
}.

Lemma ledger_ok_wf st L : ledger_ok P st L -> ledger_wf L.
Proof. intros HL. split; [apply (reg_nodup _ _ _ (lo_registry _ _ _ HL))|]. intros a Ha. apply (lo_stakes _ _ _ HL a Ha). Qed.

(** The receipt of the next transaction extends the statuses by one. *)
Lemma ledger_after_snoc pre tx rest sh r (s : StateDB) gas fees :
  txs = pre ++ tx :: rest -> length (receipts sh) = length txs ->
  ledger_after (pre ++ [tx]) (mkShared s (<[length pre := Some r]> (receipts sh)) gas fees)
  = settle_one (ledger_after pre sh) (tx, Status r).
Proof.
  intros E Hl. assert (length pre < length (receipts sh))%nat as Hlt by (rewrite Hl, E, length_app; cbn; lia).
  unfold ledger_after. cbn [receipts]. rewrite list_fmap_insert, length_app. cbn [length].
  replace (length pre + 1)%nat with (S (length pre)) by lia.
  rewrite (take_S_r _ (length pre) (Status r)).
  2:{ rewrite list_lookup_insert_eq; [done|]. by rewrite length_fmap. }
  rewrite take_insert_ge by lia. apply settle_snoc. rewrite length_take, length_fmap. lia.
Qed.

(** The next transaction adds its receipt and acts on the ledger as its status says. *)
Lemma block_inv_extend pre tx rest sh st s' st' r gas :
  txs = pre ++ tx :: rest -> block_inv pre sh st ->
  refines D s' st' -> a_codehash st' (StakingAddr P) = zero_hash -> state_wf s' -> uval gas = 0 ->
  ledger_ok P st' (settle_one (ledger_after pre sh) (tx, Status r)) ->
  block_inv (pre ++ [tx]) (mkShared s' (<[index_of txs tx := Some r]> (receipts sh)) gas 0) st'.
Proof.
  intros E [_ _ _ _ _ Hrl HL HmA Hln Hva Hsol] Hr' Hc' Hw' Hg' HL'. rewrite (index_of_position txs pre tx rest HN E).
  assert (staking_tx P tx /\ sched_sender tx ∈ A) as [(_ & _ & _ & _ & Hv) Ha].
  { rewrite Forall_forall in Htxs. apply Htxs. rewrite E. set_solver. }
  destruct (settle_one_spec (ledger_after pre sh) tx (Status r) (ledger_ok_wf _ _ HL) Hv) as (Hm2 & Hl2 & Hv2 & Hs2).
  split; rewrite ?(ledger_after_snoc pre tx rest) by done; try done.
  - cbn. by rewrite length_insert.
  - intros b Hb. destruct (Hm2 b Hb) as [?| ->]; auto.
  - rewrite length_app. cbn. lia.
  - rewrite sumZ_app, sumZ_cons, sumZ_nil. lia.
  - auto.
Qed.

(** There is room for the next transaction. *)
Lemma block_inv_room pre tx rest sh st :
  txs = pre ++ tx :: rest -> block_inv pre sh st -> room (ledger_after pre sh) (tx_value tx).
Proof.
  intros E [_ _ _ _ _ _ _ HmA Hln Hva _].
  assert (sumZ tx_value txs = sumZ tx_value pre + (tx_value tx + sumZ tx_value rest)) as Esum by by rewrite E, sumZ_app, sumZ_cons.
  assert (0 <= sumZ tx_value rest).
  { apply sumZ_nonneg. intros t Ht. rewrite Forall_forall in Htxs. destruct (Htxs t) as [(_ & _ & _ & _ & ?) _]; [rewrite E; set_solver|done]. }
  assert (length txs = length pre + S (length rest))%nat as El by (rewrite E, length_app; done).
  split_and!; [done|lia..].
Qed.

Lemma block_inv_step pre tx rest sh st :
  txs = pre ++ tx :: rest -> block_inv pre sh st ->
  exists st', block_inv (pre ++ [tx]) (apply_tx e header txs db sh tx) st'.
Proof.
  intros E HI. pose proof (block_inv_room _ _ _ _ _ E HI) as Hrm. pose proof HI as [Hr Hcode Hwf Hgas Hfees _ HL _ _ _ _].
  assert (staking_tx P tx /\ sched_sender tx ∈ A) as [Htx Ha].
  { rewrite Forall_forall in Htxs. apply Htxs. rewrite E. set_solver. }
  destruct (staking_message _ header _ Htx) as (msg & Hm & _). unfold apply_tx. rewrite Hm.
  pose proof (stake_exec (NewOverlay (statedb sh)) st _ tx msg (refines_overlay D _ _ Hr) HL Hcode Htx Hm Ha Hrm) as Hex.
  pose proof (run_wf db (tx_exec e header tx msg) (NewOverlay (statedb sh)) (state_wf_overlay _ Hwf)) as Hw.
  destruct (run_overlay db (tx_exec e header tx msg) empty_fields (statedb sh)) as [[f r] Erun]. unfold NewOverlay in *.
  rewrite Erun in Hex, Hw |- *. cbn [fst snd lift_parent own] in *. destruct r as [res|].
  - destruct Hex as (Hg & Hf & st' & Hr' & Hc' & HL'). exists st'. assert (dirty_ok (dirty f)) as Hd by (by destruct Hw).
    unfold finish. rewrite Hg, Hfees. change (uval (wd (w := 64) 0)) with 0. rewrite Z.mul_0_l.
    apply (block_inv_extend pre tx rest sh st); try done.
    + apply (refines_finish D header txs tx msg f res sh); done.
    + apply (thread_step_wf e header txs db (Running tx msg f (Ret (Some res))) sh (Done tx) (finish header txs tx msg f res sh)); [constructor|done..].
    + unfold wadd. by rewrite Hgas.
    + cbn [tx_receipt Status]. rewrite Hf. unfold settle_one. cbn [fst snd status]. by rewrite bool_decide_eq_true_2.
  - exists st. unfold finish_error. rewrite Hfees. by apply (block_inv_extend pre tx rest sh st).
Qed.

(** The waves of the block are its transactions, one by one. *)
Lemma block_inv_waves rest pre sh st :
  txs = pre ++ rest -> block_inv pre sh st ->
  exists st', block_inv txs (apply_waves e header txs db sh ((fun tx => [tx]) <$> rest)) st'.
Proof.
  revert pre sh st. induction rest as [|tx rest IH]; intros pre sh st E HI.
  { rewrite app_nil_r in E. subst pre. by exists st. }
  cbn [fmap list_fmap apply_waves]. rewrite (bi_gas _ _ _ HI). cbn [Z.ltb].
  destruct (block_inv_step pre tx rest sh st E HI) as [st' HI']. apply (IH (pre ++ [tx]) _ st'); [|done]. by rewrite <- app_assoc.
Qed.

Lemma compact_status l rs c : length rs = length l -> Status <$> compact l rs c = rstatus <$> rs.
Proof.
  revert rs c. induction l as [|tx l IH]; intros [|r rs] c Hl; try done. cbn [compact fmap list_fmap]. f_equal; [by destruct r|].
  apply IH. by injection Hl.
Qed.

Lemma block_inv_reward sh st x :
  block_inv txs sh st -> exists st', refines D (AddBalanceReward (statedb sh) (Coinbase header) x) st' /\ ledger_ok P st' (ledger_after txs sh).
Proof.
  intros [Hr _ _ _ _ _ [HR HS HV] _ _ _ _]. exists (credit st (Coinbase header) x).
  destruct (sd_account _ _ _ _ HD _ Hcb) as (Hb & _ & _). split.
  - unfold AddBalanceReward, AddBalance, addBalance. cbn [fst]. rewrite (Hr _ Hb). by apply refines_set_balance.
  - split; [by apply registry_balance|done|]. rewrite <- HV. unfold credit. cbn. unfold fset. by rewrite decide_False.
Qed.

Lemma staking_shared : Forall (fun tx => StakingAddr P ∈ tx_accounts tx) txs.
Proof. eapply Forall_impl; [exact Htxs|]. intros tx [(Hto & _) _]. unfold tx_accounts. rewrite Hto. set_solver. Qed.

(** The one result of the block. *)
Lemma block_result s st out :
  refines D s st -> ledger_ok P st L0 -> a_codehash st (StakingAddr P) = zero_hash -> state_wf s ->
  ApplyBlock e db s header txs out ->
  exists rs root s' st', out = Some (rs, root, s') /\ refines D s' st' /\
    let L := settle L0 txs (Status <$> rs) in
    ledger_ok P st' L /\ (solvent L0 -> solvent L) /\ (forall a, a ∈ validators L -> a ∈ A) /\ (length (validators L) <= n)%nat.
Proof.
  intros Hr HL Hcode Hwf Hap.
  pose proof staking_shared as Hshare. rewrite (ApplyBlock_shared_account e header db txs s _ out Hshare Hap). unfold ApplyBlock_seq.
  rewrite (schedule_shared_account _ _ Hshare). cbn [mbind option_bind].
  destruct (block_inv_waves txs [] (initial_shared s txs) st) as [st1 HI]; [done| |].
  { split; try done; cbn; [by rewrite length_replicate|lia|rewrite sumZ_nil; lia]. }
  set (sh := apply_waves _ _ _ _ _ _) in *. clearbody sh.
  unfold finalize. rewrite (bi_fees _ _ _ HI). change (FromBig _) with (wd (w := 256) block_reward, false). cbv iota beta.
  destruct (block_inv_reward sh st1 (wd block_reward) HI) as (st2 & Hr2 & HL2).
  do 3 eexists. exists st2. split; [reflexivity|]. split; [exact Hr2|]. rewrite compact_status by apply HI.
  assert (settle L0 txs (rstatus <$> receipts sh) = ledger_after txs sh) as ->.
  { unfold ledger_after. rewrite take_ge; [done|]. by rewrite length_fmap, (bi_receipts _ _ _ HI). }
  split_and!; [done|apply HI|apply HI|]. pose proof (bi_length _ _ _ HI). lia.
Qed.

(** C8: Staking works end to end. A block (with a base fee, on a network with all forks from genesis, whose coinbase
    is not the staking account) whose transactions have different hashes and all go to the staking contract, on slots whose
    tree keys do not collide and with too little money and too few validators for the vault or the count to wrap, has
    exactly one result, whatever the goroutines do, and it never fails. The resulting state holds
    the ledger of validators, stakes and money that the transactions with receipt status 1 give
    when they act one after the other in block order. A solvent vault stays solvent, so that every
    validator can withdraw its stake. *)
Theorem staking_block s st :
  refines D s st -> ledger_ok P st L0 -> a_codehash st (StakingAddr P) = zero_hash -> state_wf s ->
  exists rs root s' st', (forall out, ApplyBlock e db s header txs out <-> out = Some (rs, root, s')) /\ refines D s' st' /\
    let L := settle L0 txs (Status <$> rs) in
    ledger_ok P st' L /\
    (solvent L0 -> solvent L /\ forall a, a ∈ validators L ->
       let L' := stake_tx L a 0 (bytes_of_string "UNSTAKE") in
       validators L ≡ₚ a :: validators L' /\ vault L' = vault L - stakes L a).
Proof.
  intros Hr HL Hcode Hwf. pose proof (ApplyBlock_seq_exec e header db txs s) as Hex.
  destruct (block_result s st _ Hr HL Hcode Hwf Hex) as (rs & root & s' & st' & Hout & Hr' & HL' & Hs & _).
  exists rs, root, s', st'. split; [|split; [done|]].
  - intros out. rewrite <- Hout. split; [|by intros ->]. intros Hap.
    by apply (ApplyBlock_shared_account e header db txs s (StakingAddr P) out staking_shared).
  - split; [done|]. intros Hs0. split; [auto|]. intros a Ha. apply solvent_pays; auto. by eapply ledger_ok_wf.
Qed.
End Transactions.

(** ** The validators of the next round *)

Section Mined.
Context {C : Crypto} {CL : CryptoLaws C} {V : Verkle} {VL : VerkleLaws V} {EV : EVM} {PC : PlainCalls EV}.
Context {CB : Codec Block} {CR : Codec (list Receipt)} {CT : Codec TxLookupEntry}.
Implicit Types (m : Node) (b : Block) (st : AState).

(** A storage slot that is not zero survives the commit of the state. *)
Lemma committed_storage D s st a k :
  state_ok s -> refines D s st -> D (SStorage a k) -> a_storage st a k <> zero_hash -> GetState (committed s) a k = a_storage st a k.
Proof.
  intros [Hb Hw] Hr Hd Hnz. pose proof (Hr _ Hd) as Hs. cbn in Hs. destruct s as [f t|]; [|done]. rewrite <- Hs.
  apply GetState_ext. rewrite get_committed by done. destruct (dirty f !! storageKey a k) as [[|x v]|] eqn:E; [|done..].
  exfalso. apply Hnz. rewrite <- Hs. unfold GetState. cbn [getVerkleValue]. by rewrite E.
Qed.

(** A state that reads the entries of the registry loads exactly its validators. *)
Lemma registered_reads s st vals :
  registry default_params st vals -> vals <> [] ->
  GetState s (ValidatorAddr default_params) zero_hash = a_storage st (ValidatorAddr default_params) zero_hash ->
  (forall i, (i < length vals)%nat -> GetState s (ValidatorAddr default_params) (index_key i) = a_storage st (ValidatorAddr default_params) (index_key i)) ->
  hash_big (GetState s sync_validatorAddr zero_hash) = Z.of_nat (length vals) /\ v_address <$> registered s = vals.
Proof.
  intros HR Hne Hc Hi. destruct sync_addrs as [Ev _]. assert (0 < length vals)%nat by (destruct vals; [done|cbn; lia]).
  pose proof (reg_len _ _ _ HR) as Hl. rewrite (reg_count _ _ _ HR) in Hc. rewrite Ev, Hc, hash_big_BigToHash by lia. split; [done|].
  unfold registered. rewrite Ev, Hc, hash_big_BigToHash by lia. rewrite <- list_fmap_compose. rewrite <- (list_fmap_id vals) at 2.
  apply (fmap_seqZ_lookup (v_address ∘ (fun j => sync_entry s (wd j))) id). intros i a Ha. apply lookup_lt_Some in Ha as Hlt.
  unfold sync_entry. cbn [compose v_address]. rewrite uval_wd_small by (change (Z.of_N 64) with 64; lia). fold (index_key i).
  rewrite Ev, (Hi i Hlt), (reg_index _ _ _ HR i a Ha). unfold acct_key. by rewrite BytesToAddress_slot.
Qed.

(** After the commit the registry still loads exactly the validators. *)
Lemma committed_registered D A n s st vals :
  staking_domain default_params D A n -> state_ok s -> refines D s st -> registry default_params st vals ->
  vals <> [] -> (length vals <= n)%nat ->
  hash_big (GetState (committed s) sync_validatorAddr zero_hash) = Z.of_nat (length vals) /\
  v_address <$> registered (committed s) = vals.
Proof.
  intros HD Hok Hr HR Hne Hn. pose proof (reg_len _ _ _ HR) as Hl. apply (registered_reads _ st); [done|done|..].
  - apply (committed_storage D s st _ _ Hok Hr (sd_count _ _ _ _ HD)). rewrite (reg_count _ _ _ HR). apply BigToHash_nonzero.
    destruct vals; [done|cbn in *; lia].
  - intros i Hi. apply (committed_storage D s st _ _ Hok Hr (sd_index _ _ _ _ HD i ltac:(lia))).
    destruct (lookup_lt_is_Some_2 vals i Hi) as [a Ha]. rewrite (reg_index _ _ _ HR i a Ha).
    apply acct_key_nonzero, (reg_regular _ _ _ HR). by eapply list_elem_of_lookup_2.
Qed.

Lemma header_on_fields m parent now h :
  header_on m parent now = Some h -> Coinbase h = cfg_Coinbase (n_netCfg m) /\ exists fee, BaseFee h = Some fee.
Proof.
  unfold header_on. destruct (Number _); [|done]. cbn.
  destruct (CalcBaseFee _ _) as [fee|]; [|done]. intros [= <-]. split; [done|]. by exists fee.
Qed.

(** Transactions to one account have one result, under the sealed header too. *)
Lemma one_result (e : Executor) db s h h' txs (a : Address) r :
  same_context h h' -> same_context h' h -> Forall (fun tx => a ∈ tx_accounts tx) txs -> ApplyBlock e db s h txs r ->
  forall out, ApplyBlock e db s h' txs out <-> out = r.
Proof.
  intros Hc Hc' Hsh Hr out. split.
  - intros Ho. apply (ApplyBlock_context e txs db h' h s) in Ho; [|done].
    by rewrite (ApplyBlock_shared_account e h db txs s a out Hsh Ho), (ApplyBlock_shared_account e h db txs s a r Hsh Hr).
  - intros ->. by apply (ApplyBlock_context e txs db h h' s).
Qed.

Lemma staking_not_precompiled : 256 < uval (StakingAddr default_params).
Proof. destruct default_params_values as (-> & _). lia. Qed.

(** C9: Staking decides who leads. When a node mines and broadcasts a block of staking transactions, whose execution
    finds a state that holds the ledger [L0], then at its next tick, unless the block's last successful
    transactions left no validator at all, it elects the leader among exactly the validators of the ledger after the block's successful
    transactions: who staked in the block can lead, who left can not. (With no validator left,
    [SyncValidators] returns early and the engine keeps its list.) *)
Theorem mined_stakes_elected n1 n2 m batch txs now m' b (D : slot -> Prop) A n st L0 head number key :
  Params (n_netCfg m) = default_params -> collision_free D -> staking_domain default_params D A n ->
  StakingAddr default_params ∈ A -> cfg_Coinbase (n_netCfg m) ∈ A -> cfg_Coinbase (n_netCfg m) <> StakingAddr default_params ->
  mine_gap n1 n2 m batch txs now m' -> n_sent m' = n_sent m ++ [b] ->
  NoDup (tx_hash <$> Transactions b) ->
  Forall (fun tx => staking_tx default_params tx /\ sched_sender tx ∈ A) (Transactions b) ->
  (forall a, a ∈ validators L0 -> a ∈ A) -> (length (validators L0) + length (Transactions b) <= n)%nat ->
  Z.of_nat n < 2 ^ 64 - 1 -> vault L0 + sumZ tx_value (Transactions b) < 2 ^ 256 ->
  state_ok (n_state m) -> refines D (n_state m) st -> ledger_ok default_params st L0 ->
  a_codehash st (StakingAddr default_params) = zero_hash ->
  CurrentBlock (n_bc m') = Some head -> Number (BHeader head) = Some number -> privKey (n_engine m) = Some key ->
  exists rs root s,
    (forall out, ApplyBlock (executor_of m) (Some (chain_db (n_bc m))) (n_state m) (BHeader b) (Transactions b) out <-> out = Some (rs, root, s)) /\
    let L := settle L0 (Transactions b) (Status <$> rs) in
    validators L <> [] ->
    v_address <$> registered (n_state m') = validators L /\
    exists eng leader, elect m' = Some (eng, leader, PubkeyToAddress (pub_of key)) /\ leader ∈ validators L /\
      leader_of (registered (n_state m')) (big_uint64 (number + 1)) = Some leader.
Proof.
  intros EP HC HD HA Hcb Hcs [validTxs parent h out _ _ _ _ _ Hh Hex Hp] Hsent HN Htxs Hmem Hroom Hlen Hvault Hok Hr HL Hcode Hhead Hnum Hkey.
  apply execute_batch_inv in Hp as (h' & rs & root & s & Hh' & -> & Hx & Heng & _ & [(Hs & _)|Hs]).
  { rewrite Hs in Hsent. apply (f_equal length) in Hsent. rewrite length_app in Hsent. cbn in Hsent. lia. }
  rewrite Hh in Hh'. injection Hh' as <-. destruct Hs as (key' & sig & bc & r & _ & _ & Hsent' & _ & _ & _ & Hst).
  rewrite Hsent in Hsent'. apply app_inv_head in Hsent' as [= ->]. cbn [Transactions] in *.
  exists rs, root, s. split.
  { apply (one_result _ _ _ h _ _ (StakingAddr default_params)); [done|done| |exact Hex].
    eapply Forall_impl; [exact Htxs|]. intros tx [(Hto & _) _]. unfold tx_accounts. rewrite Hto. set_solver. }
  intros Hne. set (L := settle L0 txs (Status <$> rs)) in *.
  destruct (header_on_fields m parent now h Hh) as [Ecb [fee Hfee]].
  assert (Params (netCfg (executor_of m)) = default_params) as EP' by exact EP. pose proof params_ok_default as HP.
  pose proof staking_not_precompiled as Hpre. pose proof HD as HD'. rewrite <- EP' in HP, Hpre, HD', HA, Hcs, Htxs, HL, Hcode. rewrite <- Ecb in Hcb, Hcs.
  destruct (block_result (executor_of m) h (Some (chain_db (n_bc m))) D A n HP HC HD' HA Hcb Hcs
    (ChainID (n_netCfg m)) fee eq_refl Hfee Hpre txs L0 HN Htxs Hmem Hroom Hlen Hvault
    (n_state m) st (Some (rs, root, s)) Hr HL Hcode (proj2 Hok) Hex) as (rs' & root' & s' & st' & Hout & Hr' & HL' & _ & _ & Hl').
  injection Hout as <- <- <-. pose proof (ApplyBlock_state _ _ _ _ _ _ _ _ Hex Hok) as Hok'.
  rewrite EP' in HL'. rewrite Hst, commit_state_eq. cbn [n_state with_bc with_state].
  destruct (committed_registered D A n s st' (validators L) HD Hok' Hr' (lo_registry _ _ _ HL') Hne Hl') as [Hcnt Hreg].
  split; [done|].
  destruct (registry_elect m' head number key) as (e' & leader & He & _ & Hlead); try done.
  - rewrite Hst, commit_state_eq. cbn [n_state with_bc with_state]. rewrite Hcnt. pose proof (reg_len _ _ _ (lo_registry _ _ _ HL')) as Hrl.
    change (settle L0 txs (Status <$> rs)) with L in Hrl. assert (length (validators L) <> 0%nat) by (by rewrite length_zero_iff_nil). lia.
  - by rewrite Heng.
  - rewrite Hst, commit_state_eq in Hlead. cbn [n_state with_bc with_state] in Hlead. exists e', leader. split; [done|]. split; [|done].
    rewrite <- Hreg. by eapply leader_of_elem.
Qed.
End Mined.
