(* ===== verification/Supply.v ===== *)
(** * Supply: what a block of transfers does to the amount of money.

    core/executor.go pays the block reward and the fees of the block ([totalFees], gas times
    effective gas price) to the coinbase; go-ethereum's EVM has already paid the part of the gas price
    above the base fee to the same account and burnt the rest. For blocks of plain transfers that
    share an account (and so run one after the other) the sum of all balances is computed here. *)

From S2P Require Import Prelude Words Interfaces Rlp Types Hex StateDB StateOps Scheduler Consensus Genesis SystemContracts Executor RawDB Blockchain Node Running Staking.

(** ** Sums of balances *)

(** Equality of amounts modulo 2^256, the width of a balance. *)
Definition same_amount (x y : Z) : Prop := exists k, x = y + k * 2 ^ 256.

#[export] Instance same_amount_equiv : Equivalence same_amount.
Proof.
  split.
  - intros x. exists 0. lia.
  - intros x y [k ->]. exists (- k). lia.
  - intros x y z [k ->] [l ->]. exists (k + l). lia.
Qed.

Lemma same_amount_mod x y : same_amount x y -> x mod 2 ^ 256 = y mod 2 ^ 256.
Proof. intros [k ->]. by rewrite Z.mod_add by lia. Qed.

Lemma uval_same_amount z : same_amount (uval (wd (w := 256) z)) z.
Proof.
  exists (- (z / 2 ^ 256)). rewrite uval_wd. change (2 ^ Z.of_N 256) with (2 ^ 256).
  pose proof (Z.div_mod z (2 ^ 256) ltac:(lia)). lia.
Qed.

(** The money of the accounts [A]. *)
Definition total (A : list Address) (st : AState) : Z := sumZ (fun a => uval (a_balance st a)) A.

Section Total.
Context (A : list Address) (HN : NoDup A).
Implicit Types st : AState.

Lemma total_set st a x : a ∈ A -> total A (aset_balance st a x) = total A st - uval (a_balance st a) + uval x.
Proof.
  intros Ha. apply elem_of_Permutation in Ha as [l Hp]. pose proof HN as HN'. rewrite Hp in HN'. apply NoDup_cons in HN' as [Hna _].
  unfold total. rewrite !(sumZ_permutation _ _ _ Hp), !sumZ_cons. cbn. unfold fset at 1. rewrite decide_True by done.
  rewrite (sumZ_ext _ (fun b => uval (a_balance st b)) l); [lia|]. intros b Hb. unfold fset. rewrite decide_False; [done|]. by intros <-.
Qed.

Lemma total_credit st a x : a ∈ A -> same_amount (total A (credit st a (wd x))) (total A st + x).
Proof.
  intros Ha. unfold credit. rewrite total_set by done. unfold wadd.
  destruct (uval_same_amount (uval (a_balance st a) + uval (wd (w := 256) x))) as [k ->], (uval_same_amount x) as [l ->]. exists (k + l). lia.
Qed.

Lemma total_debit st a x : a ∈ A -> same_amount (total A (debit st a (wd x))) (total A st - x).
Proof.
  intros Ha. unfold debit. rewrite total_set by done. unfold wsub.
  destruct (uval_same_amount (uval (a_balance st a) - uval (wd (w := 256) x))) as [k ->], (uval_same_amount x) as [l ->]. exists (k - l). lia.
Qed.

Lemma total_plain ctx baseFee msg to gas st st' :
  msg_from msg ∈ A -> to ∈ A -> ctx_Coinbase ctx ∈ A -> plain_effect ctx baseFee msg to gas st st' ->
  same_amount (total A st') (total A st - gas_fee gas (msg_gasPrice msg) + gas_fee gas (msg_gasPrice msg - baseFee)).
Proof.
  intros Hf Ht Hc (_ & _ & _ & _ & _ & Eb). unfold total at 1. rewrite Eb.
  fold (total A (credit (credit (debit st (msg_from msg) (wd (msg_value msg + gas_fee gas (msg_gasPrice msg)))) to (wd (msg_value msg)))
                   (ctx_Coinbase ctx) (wd (gas_fee gas (msg_gasPrice msg - baseFee))))).
  etransitivity; [by apply total_credit|]. destruct (total_credit (debit st (msg_from msg) (wd (msg_value msg + gas_fee gas (msg_gasPrice msg)))) to (msg_value msg) Ht) as [k ->].
  destruct (total_debit st (msg_from msg) (msg_value msg + gas_fee gas (msg_gasPrice msg)) Hf) as [l ->]. exists (k + l). lia.
Qed.
End Total.

(** ** A block of transfers *)

Section Block.
Context {C : Crypto} {V : Verkle} {VL : VerkleLaws V} {EV : EVM} {PC : PlainCalls EV}.
Context (e : Executor) (header : Header) (db : option DB) (D : slot -> Prop) (A : list Address).
#[local] Abbreviation P := (Params (netCfg e)).
Context (HC : collision_free D) (HN : NoDup A) (HD : forall a, a ∈ A -> D (SBalance a) /\ D (SNonce a) /\ D (SCodeHash a)).
Context (Hcb : Coinbase header ∈ A) (id baseFee : Z) (Hcfg : config e = forks_from_genesis id) (Hfee : BaseFee header = Some baseFee).
Context (st0 : AState).
Implicit Types (st : AState) (tx : Transaction).

(** A transfer between the accounts [A] to one that has no code and is no system contract;
    [GasPrice] of a transaction is its fee cap. *)
Definition plain_tx tx : Prop :=
  (exists to, tx_to tx = Some to /\ to ∈ A /\ 256 < uval to /\ a_codehash st0 to = zero_hash /\
     to ∉ [StakingAddr P; RewardAddr P; ValidatorAddr P]) /\
  sched_sender tx ∈ A /\ 0 <= tx_value tx /\ tx_gasPrice tx = tx_gasFeeCap tx.

(** The executor and the EVM agree on the effective gas price. *)
Lemma plain_message tx msg :
  plain_tx tx -> tx_message header tx = Some msg ->
  msg_to msg = tx_to tx /\ msg_from msg ∈ A /\ msg_value msg = tx_value tx /\ msg_gasPrice msg = fee_price header tx.
Proof.
  intros (_ & Ha & _ & Hp). unfold tx_message, TransactionToMessage, sched_sender, fee_price in *. rewrite Hfee. destruct (_ <? _); [done|].
  destruct (tx_sender tx) as [from|]; [|done]. intros [= <-]. cbn in *. split_and!; try done. rewrite Hp, (Z.add_comm (tx_gasTipCap tx)).
  destruct (Z.ltb_spec (tx_gasFeeCap tx) (baseFee + tx_gasTipCap tx)), (Z.ltb_spec (baseFee + tx_gasTipCap tx) (tx_gasFeeCap tx)); lia.
Qed.

(** What the coinbase gets from the EVM for a receipt, and once more with the block. *)
Definition tip_of (p : Transaction * option Receipt) : Z :=
  match p.2 with Some r => gas_fee (RGasUsed r) (fee_price header p.1 - baseFee) | None => 0 end.

Lemma plain_exec s st tx msg :
  refines D s st -> a_codehash st = a_codehash st0 -> plain_tx tx -> tx_message header tx = Some msg ->
  match run db (tx_exec e header tx msg) s with
  | (_, None) => True
  | (o, Some res) => exists st', refines D o st' /\ a_codehash st' = a_codehash st0 /\
      same_amount (total A st') (total A st - gas_fee (UsedGas res) (fee_price header tx) + gas_fee (UsedGas res) (fee_price header tx - baseFee))
  end.
Proof.
  intros Hr Hcode Htx Hm. destruct (plain_message tx msg Htx Hm) as (Hto & Hfrom & Hval & Hprice).
  destruct Htx as ((to & Et & Hta & Hpre & Hc0 & Hsys) & _ & Hv & _). rewrite Et in Hto. rewrite !not_elem_of_cons in Hsys. destruct Hsys as (HnS & HnR & HnV & _).
  unfold tx_exec. rewrite run_call. cbn [exec_op]. change (Prepare s) with s. rewrite run_bind.
  set (ctx := vm_New header (getHash e header)). destruct (run db (ApplyMessage (config e) ctx msg (GasLimit header)) s) as [s1 [res|]] eqn:Eapp; [|exact I].
  rewrite Hcfg in Eapp. destruct (plain_call D id ctx baseFee msg (GasLimit header) to db s st s1 res) as (_ & st1 & Hr1 & Heff); try done.
  { destruct (HD _ Hfrom) as (? & ? & ?), (HD _ Hta) as (? & ? & ?), (HD _ Hcb) as (? & _). repeat (apply Forall_cons; split); done. }
  { by rewrite Hcode. }
  { lia. }
  assert (isSystemTx P msg = false) as ->. { unfold isSystemTx. rewrite Hto, !bool_decide_eq_false_2 by done. done. }
  assert (ProcessSystemContracts P msg tx = mret tt) as ->.
  { unfold ProcessSystemContracts. rewrite Hto, !bool_decide_eq_false_2 by congruence. done. }
  cbn [mbind prog_bind mret prog_ret run]. exists st1. split; [done|]. split; [by destruct Heff as (_ & -> & _)|]. rewrite <- Hprice.
  by apply (total_plain A HN ctx baseFee msg to).
Qed.

(** *** The invariant of the loop over the transactions *)

Context (txs : list Transaction) (HNt : NoDup (tx_hash <$> txs)) (Htxs : Forall plain_tx txs).

Record supply_inv (pre rest : list Transaction) (sh : Shared) (st : AState) : Prop := {
  su_refines : refines D (statedb sh) st;
  su_code : a_codehash st = a_codehash st0;
  su_wf : state_wf (statedb sh);
  su_amount : exists os, length os = length pre /\ receipts sh = os ++ replicate (length rest) None /\
    same_amount (total A st + totalFees sh) (total A st0 + sumZ tip_of (zip pre os))
}.

Lemma supply_receipt pre tx rest sh o s' st' gas fees :
  txs = pre ++ tx :: rest ->
  (exists os, length os = length pre /\ receipts sh = os ++ replicate (length (tx :: rest)) None /\
     same_amount (total A st' + fees) (total A st0 + sumZ tip_of (zip pre os) + tip_of (tx, Some o))) ->
  refines D s' st' -> a_codehash st' = a_codehash st0 -> state_wf s' ->
  supply_inv (pre ++ [tx]) rest (mkShared s' (<[index_of txs tx := Some o]> (receipts sh)) gas fees) st'.
Proof.
  intros E (os & Hl & Hr & Hs) Href Hc Hw. split; try done. exists (os ++ [Some o]). cbn [receipts totalFees].
  rewrite (index_of_position txs pre tx rest HNt E), Hr, <- Hl. cbn [length replicate]. rewrite list_insert_middle.
  split; [rewrite !length_app; cbn; lia|]. split; [by rewrite <- app_assoc|].
  rewrite zip_with_app by done. rewrite sumZ_app. cbn [zip_with zip]. rewrite sumZ_cons, sumZ_nil. rewrite Hs. exists 0. lia.
Qed.

Lemma supply_step pre tx rest sh st :
  txs = pre ++ tx :: rest -> supply_inv pre (tx :: rest) sh st ->
  exists st', supply_inv (pre ++ [tx]) rest (apply_tx e header txs db sh tx) st'.
Proof.
  intros E [Hr Hc Hw (os & Hl & Hrec & Hs)]. assert (plain_tx tx) as Htx by (rewrite Forall_forall in Htxs; apply Htxs; rewrite E; set_solver).
  unfold apply_tx. destruct (tx_message header tx) as [msg|] eqn:Hm.
  2:{ exists st. split; try done. exists (os ++ [None]). rewrite Hrec. split; [rewrite !length_app; cbn; lia|]. split; [by rewrite <- app_assoc|].
      rewrite zip_with_app by done. rewrite sumZ_app. cbn. rewrite sumZ_cons, sumZ_nil. rewrite Hs. exists 0. cbn. lia. }
  pose proof (plain_exec (NewOverlay (statedb sh)) st tx msg (refines_overlay D _ _ Hr) Hc Htx Hm) as Hex.
  pose proof (run_wf db (tx_exec e header tx msg) (NewOverlay (statedb sh)) (state_wf_overlay _ Hw)) as Hwf.
  destruct (run_overlay db (tx_exec e header tx msg) empty_fields (statedb sh)) as [[f r] Erun]. unfold NewOverlay in *.
  rewrite Erun in Hex, Hwf |- *. cbn [fst snd lift_parent own] in *. destruct r as [res|].
  - destruct Hex as (st' & Hr' & Hc' & [k Hk]). exists st'. assert (dirty_ok (dirty f)) as Hd by (by destruct Hwf). destruct Hs as [l Hs].
    apply (supply_receipt pre tx rest sh); try done.
    + exists os. split; [done|]. split; [done|]. exists (k + l). change (tip_of (tx, Some _)) with (gas_fee (UsedGas res) (fee_price header tx - baseFee)). change (uval (UsedGas res) * fee_price header tx) with (gas_fee (UsedGas res) (fee_price header tx)). lia.
    + apply (refines_finish D header txs tx msg f res sh); done.
    + apply (thread_step_wf e header txs db (Running tx msg f (Ret (Some res))) sh (Done tx) (finish header txs tx msg f res sh)); [constructor|done..].
  - exists st. apply (supply_receipt pre tx rest sh); try done. exists os. split; [done|]. split; [done|]. rewrite Hs. exists 0. change (tip_of (tx, Some _)) with 0. lia.
Qed.

(** The whole block: also when the gas limit of the block ends it early. *)
Lemma supply_waves rest pre sh st :
  txs = pre ++ rest -> supply_inv pre rest sh st ->
  exists pre' rest' st', txs = pre' ++ rest' /\ supply_inv pre' rest' (apply_waves e header txs db sh ((fun tx => [tx]) <$> rest)) st'.
Proof.
  revert pre sh st. induction rest as [|tx rest IH]; intros pre sh st E HI; [by exists pre, [], st|].
  cbn [fmap list_fmap apply_waves]. destruct (_ <? _); [by exists pre, (tx :: rest), st|].
  destruct (supply_step pre tx rest sh st E HI) as [st' HI']. apply (IH (pre ++ [tx]) _ st'); [|done]. by rewrite <- app_assoc.
Qed.

Lemma tips_none (l : list Transaction) : sumZ tip_of (zip l (replicate (length l) None)) = 0.
Proof. induction l as [|tx l IH]; [done|]. cbn [length replicate zip_with zip]. by rewrite sumZ_cons, IH. Qed.

(** The tip of a receipt of the block. *)
Definition receipt_tip (p : Transaction * Receipt) : Z := gas_fee (RGasUsed p.2) (fee_price header p.1 - baseFee).

Lemma compact_tips l rs c : length rs = length l -> sumZ receipt_tip (zip l (compact l rs c)) = sumZ tip_of (zip l rs).
Proof.
  revert rs c. induction l as [|tx l IH]; intros [|r rs] c Hl; try done. cbn [compact zip_with zip]. rewrite !sumZ_cons, IH by (by injection Hl).
  f_equal. by destruct r.
Qed.

(** C32: The tips are paid twice. When the transactions of a block are plain transfers that share
    an account, the sum of all balances grows (modulo 2^256, the width of a balance) by the block
    reward of 10 ZEE and, for every receipt, by the gas used times the part of the effective gas price
    above the base fee: the EVM has credited this tip to the coinbase, and the executor credits it
    again with the fees of the block. The base fee is not burnt. *)
Theorem block_supply a s rs root s' :
  Forall (fun tx => a ∈ tx_accounts tx) txs -> refines D s st0 -> state_wf s ->
  ApplyBlock e db s header txs (Some (rs, root, s')) ->
  exists st', refines D s' st' /\
    total A st' mod 2 ^ 256 = (total A st0 + block_reward + sumZ receipt_tip (zip txs rs)) mod 2 ^ 256.
Proof.
  intros Hshare Hr Hw Hap. apply (ApplyBlock_shared_account e header db txs s a _ Hshare) in Hap. unfold ApplyBlock_seq in Hap.
  rewrite (schedule_shared_account _ _ Hshare) in Hap. cbn [mbind option_bind] in Hap.
  destruct (supply_waves txs [] (initial_shared s txs) st0) as (pre & rest & st1 & E & [Hr1 _ _ (os & Hl & Hrec & Hs)]); [done| |].
  { split; try done. exists []. split; [done|]. split; [done|]. exists 0. cbn. rewrite sumZ_nil. lia. }
  set (sh := apply_waves _ _ _ _ _ _) in *. clearbody sh. unfold finalize in Hap.
  destruct (FromBig (block_reward + totalFees sh)) as [x [|]] eqn:Ex; [done|]. injection Hap as -> -> ->.
  assert (x = wd (block_reward + totalFees sh)) as -> by (by rewrite <- FromBig_wd, Ex).
  destruct (HD _ Hcb) as (Hb & _). exists (credit st1 (Coinbase header) (wd (block_reward + totalFees sh))). split.
  - unfold AddBalanceReward, AddBalance, addBalance. cbn [fst]. rewrite (Hr1 _ Hb). by apply refines_set_balance.
  - apply same_amount_mod. rewrite compact_tips by (rewrite Hrec, E, !length_app, length_replicate; lia).
    rewrite Hrec, E, zip_with_app by done. rewrite sumZ_app, tips_none.
    etransitivity; [by apply total_credit|]. destruct Hs as [k Hk]. exists k. lia.
Qed.
End Block.
