(* ===== verification/Isolation.v ===== *)
(** * Isolation: the validator registry under parallel execution.

    The goroutines of a wave work on the same parent state, and nothing orders their merges. The
    registry of the staking contract is nevertheless safe: a wave has at most one transaction to the
    staking contract, only that one touches the storage of the staking and validator addresses, and
    what it does there depends on that storage alone. [avoids] and [keeps] say this of a program over
    the state interface, for the answers [Ans] its calls may get; [registry_survives] is the invariant for
    any interleaving of blocks whose transactions, given the answers of the execution, satisfy it. *)

From S2P Require Import Prelude Words Interfaces Rlp Types Hex StateDB StateOps Scheduler Consensus Genesis SystemContracts Executor RawDB Blockchain Node Running Staking.

(** The slot a call may write. *)
Definition op_write {X : Type} (o : StateOp X) : option slot :=
  match o with
  | OSubBalance a _ | OAddBalance a _ | OSelfDestruct a | OSelfDestruct6780 a => Some (SBalance a)
  | OSetNonce a _ => Some (SNonce a)
  | OSetCode a _ => Some (SCodeHash a)
  | OSetState a k _ => Some (SStorage a k)
  | _ => None
  end.

Section Programs.
Context {C : Crypto} {V : Verkle} {VL : VerkleLaws V}.
Context (P : SystemParams) (D : slot -> Prop) (N : Address -> Prop) (Ans : forall X : Type, StateOp X -> X -> Prop).

(** The accounts that hold the registry. *)
Definition holds_registry (a : Address) : Prop := a = StakingAddr P \/ a = ValidatorAddr P.

#[export] Instance holds_registry_dec a : Decision (holds_registry a).
Proof. unfold holds_registry. solve_decision. Defined.

(** ** Programs and the registry

    [N] are accounts without code. A call may write slots of [D] and gives no code to [N]. [Ans] are the answers
    that are considered: those of one execution, say, or all of them. *)

Definition op_ok {X : Type} (o : StateOp X) : Prop :=
  Forall D (op_slots o) /\ match o with OSetCode a c => ~ N a /\ keccak256 c <> zero_hash | _ => True end.

(** What a call can answer, knowing the storage of the registry and that [N] has no code. *)
Definition op_answer {X : Type} (o : StateOp X) (st : AState) : X -> Prop :=
  match o in StateOp X return X -> Prop with
  | OGetState a k => fun x => holds_registry a -> x = a_storage st a k
  | OSetState a k _ => fun x => holds_registry a -> x = a_storage st a k
  | OGetCodeHash a => fun x => N a -> x = zero_hash
  | OGetCode a => fun x => N a -> x = []
  | OGetCodeSize a => fun x => N a -> x = 0
  | _ => fun _ => True
  end.

Definition op_next {X : Type} (o : StateOp X) (st : AState) : AState :=
  match o with
  | OSetState a k v => if decide (holds_registry a) then aset_storage st a k v else st
  | _ => st
  end.

(** The calls that stay away from the storage of the registry. *)
Definition op_avoids {X : Type} (o : StateOp X) : Prop :=
  match o with
  | OGetState a _ | OSetState a _ _ | OGetStateAndCommittedState a _ => ~ holds_registry a
  | _ => True
  end.

Definition no_storage : AState := mkAState (fun _ => wd 0) (fun _ => wd 0) (fun _ => zero_hash) (fun _ _ => zero_hash).

Fixpoint avoids {R : Type} (p : prog R) : Prop :=
  match p with
  | Ret _ => True
  | @Vis _ X o k => op_ok o /\ op_avoids o /\ forall x, op_answer o no_storage x -> Ans X o x -> avoids (k x)
  end.

(** Whatever the rest of the state answers among [Ans], the program ends with [Q] of the registry. *)
Fixpoint keeps {R : Type} (Q : AState -> R -> Prop) (p : prog R) (st : AState) : Prop :=
  match p with
  | Ret r => Q st r
  | @Vis _ X o k => op_ok o /\ forall x, op_answer o st x -> Ans X o x -> keeps Q (k x) (op_next o st)
  end.

Lemma op_avoids_next {X : Type} (o : StateOp X) st : op_avoids o -> op_next o st = st.
Proof. destruct o; cbn; try done. intros Ha. by rewrite decide_False. Qed.

Lemma op_avoids_answer {X : Type} (o : StateOp X) st st' x : op_avoids o -> op_answer o st x -> op_answer o st' x.
Proof. destruct o; cbn; tauto. Qed.

Lemma keeps_avoids {A B : Type} (Q : AState -> B -> Prop) (p : prog A) (f : A -> prog B) st :
  avoids p -> (forall r, keeps Q (f r) st) -> keeps Q (p ≫= f) st.
Proof.
  intros Hp Hf. induction p as [r|X o k IH]; [apply Hf|]. cbn [mbind prog_bind keeps]. destruct Hp as (Hok & Hav & Hk).
  split; [done|]. intros x Hx Hin. rewrite op_avoids_next by done. apply IH, Hk; [by eapply op_avoids_answer|done].
Qed.

Lemma avoids_bind {A B : Type} (p : prog A) (f : A -> prog B) : avoids p -> (forall r, avoids (f r)) -> avoids (p ≫= f).
Proof.
  intros Hp Hf. induction p as [r|X o k IH]; [apply Hf|]. cbn [mbind prog_bind avoids]. destruct Hp as (Hok & Hav & Hk).
  split; [done|]. split; [done|]. intros x Hx Hin. apply IH. auto.
Qed.

Lemma keeps_bind {A B : Type} (Q : AState -> B -> Prop) (p : prog A) (f : A -> prog B) st :
  keeps (fun st' a => keeps Q (f a) st') p st -> keeps Q (p ≫= f) st.
Proof.
  revert st. induction p as [r|X o k IH]; intros st; [done|]. cbn [mbind prog_bind keeps]. intros [Hok Hk]. split; [done|]. auto.
Qed.

Lemma keeps_mono {R : Type} (Q Q' : AState -> R -> Prop) (p : prog R) st :
  (forall st' r, Q st' r -> Q' st' r) -> keeps Q p st -> keeps Q' p st.
Proof. intros HQ. revert st. induction p as [r|X o k IH]; intros st; [apply HQ|]. cbn. intros [Hok Hk]. split; [done|]. auto. Qed.
End Programs.

(** ** What an overlay shows of the registry *)

Section View.
Context {C : Crypto} {V : Verkle} {VL : VerkleLaws V}.
Context (P : SystemParams) (D : slot -> Prop) (N : Address -> Prop) (HC : collision_free D) (HN : forall a, N a -> D (SCodeHash a)).
Context (db : option DB) (Hdb : match db with Some d => d !! cprefix zero_hash = None | None => True end).

(** A call changes the dirty entry of the slot it writes only. *)
Lemma exec_write {X : Type} (o : StateOp X) s k :
  (forall sl, op_write o = Some sl -> k <> slot_key sl) -> dirty (own (exec_op db o s).1) !! k = dirty (own s) !! k.
Proof.
  assert (forall s a, dirty (own (GetCode db s a).1) = dirty (own s)) as HG.
  { intros s0 a. destruct (GetCode_own db s0 a) as [c ->]. by rewrite own_with_own. }
  intros Hk. destruct o; cbn [op_write exec_op fst] in *; try done; rewrite ?HG; try done;
    unfold SubBalance, AddBalance, addBalance, SelfDestruct6780, SelfDestruct, SetBalance,
      SetNonce, SetState, SetCode, SetTransientState, Empty, GetCodeSize; cbn [fst];
    rewrite ?own_with_own, ?own_set; cbn [dirty set_dirty set_code set_transient]; rewrite ?own_set; cbn [dirty set_dirty];
    try (rewrite lookup_insert_ne; [done|]; intros E; apply (Hk _ eq_refl); by rewrite <- E); try done.
  - specialize (HG s a). destruct (GetCode db s a); cbn in *. by rewrite HG.
  - destruct (_ && _); [|done]. specialize (HG s a). destruct (GetCode db s a); cbn in *. by rewrite HG.
Qed.

(** No code is cached under the zero hash. *)
Lemma GetCode_cache s a : code (own s) !! zero_hash = None -> code (own (GetCode db s a).1) !! zero_hash = None.
Proof.
  intros H. unfold GetCode. case_bool_decide; [done|]. destruct (code (own s) !! GetCodeHash s a); [done|].
  destruct db as [d|]; [|done]. destruct (d !! cprefix (GetCodeHash s a)) as [c|] eqn:E; [|exact H]. cbn [fst]. rewrite own_with_own. cbn [code set_code].
  rewrite lookup_insert_ne; [done|]. intros Ez. rewrite Ez in E. congruence.
Qed.

Lemma exec_cache {X : Type} (o : StateOp X) s :
  op_ok D N o -> code (own s) !! zero_hash = None -> code (own (exec_op db o s).1) !! zero_hash = None.
Proof.
  intros [_ Ho] H. pose proof (GetCode_cache s) as HG.
  destruct o; cbn [exec_op fst]; try done; try (by apply HG);
    unfold SubBalance, AddBalance, addBalance, SelfDestruct6780, SelfDestruct, SetBalance, SetNonce, SetState, SetCode,
      SetTransientState, Empty, GetCodeSize; cbn [fst]; rewrite ?own_with_own, ?own_set; cbn [code set_dirty set_code set_transient];
    rewrite ?own_set; cbn [code set_dirty]; try done.
  - destruct Ho as [_ Ho]. by rewrite lookup_insert_ne by done.
  - specialize (HG a H). by destruct (GetCode db s a).
  - destruct (_ && _); [|done]. specialize (HG a H). by destruct (GetCode db s a).
Qed.

Lemma GetCode_none s a : GetCodeHash s a = zero_hash -> code (own s) !! zero_hash = None -> (GetCode db s a).2 = [].
Proof.
  intros Ha Hc. unfold GetCode. rewrite Ha, Hc. case_bool_decide; [done|]. destruct db as [d|]; [|done]. by rewrite Hdb.
Qed.

Record view (f : fields) (s : StateDB) (st : AState) : Prop := {
  v_storage : forall a k, holds_registry P a -> D (SStorage a k) -> GetState (Overlay f s) a k = a_storage st a k;
  v_code : forall a, N a -> GetCodeHash (Overlay f s) a = zero_hash;
  v_cache : code f !! zero_hash = None;
  v_solid : forall a k, holds_registry P a -> D (SStorage a k) -> dirty f !! storageKey a k <> Some []
}.

(** What a state that is no overlay shows. *)
Definition parent_view (s : StateDB) (st : AState) : Prop :=
  (forall a k, holds_registry P a -> D (SStorage a k) -> GetState s a k = a_storage st a k) /\
  (forall a, N a -> GetCodeHash s a = zero_hash) /\
  (forall a k, holds_registry P a -> D (SStorage a k) -> dirty (own s) !! storageKey a k <> Some []) /\
  (forall a, N a -> dirty (own s) !! codeHashKey a <> Some []).

(** A commit shows the same registry. *)
Lemma parent_commit s st : state_ok s -> parent_view s st -> parent_view (committed s) st.
Proof.
  intros [Hb Hw] (H1 & H2 & H3 & H4). destruct s as [f t|]; [|done].
  assert (forall k, dirty f !! k <> Some [] -> getVerkleValue (committed (Base f t)) k = getVerkleValue (Base f t) k) as Hg.
  { intros k Hk. rewrite get_committed by done. by destruct (dirty f !! k) as [[|x v]|]. }
  split_and!.
  - intros a k Ha Hd. rewrite <- (H1 a k Ha Hd). apply GetState_ext, Hg, (H3 a k Ha Hd).
  - intros a Ha. rewrite <- (H2 a Ha). apply GetCodeHash_ext, Hg, (H4 a Ha).
  - intros a k _ _. cbn. by rewrite lookup_empty.
  - intros a _. cbn. by rewrite lookup_empty.
Qed.

Lemma view_answer {X : Type} (o : StateOp X) f s st :
  view f s st -> op_ok D N o -> op_answer P N o st (exec_op db o (Overlay f s)).2.
Proof.
  intros [Hs Hc Hn _] [HF _]. destruct o; cbn [op_answer exec_op snd op_slots] in *; try done.
  - intros Ha. by apply Hc.
  - intros Ha. by apply GetCode_none; [apply Hc|].
  - intros Ha. unfold GetCodeSize. pose proof (GetCode_none (Overlay f s) a (Hc a Ha) Hn) as E.
    destruct (GetCode db (Overlay f s) a). cbn in *. by subst.
  - intros Ha. apply Hs; [done|]. exact (proj1 (Forall_singleton D _) HF).
  - intros Ha. apply Hs; [done|]. exact (proj1 (Forall_singleton D _) HF).
Qed.

Lemma op_write_slots {X : Type} (o : StateOp X) sl : op_write o = Some sl -> Forall D (op_slots o) -> D sl.
Proof. destruct o; cbn; intros [= <-]; by rewrite Forall_singleton. Qed.

Lemma exec_untouched {X : Type} (o : StateOp X) f s f' x sl :
  exec_op db o (Overlay f s) = (Overlay f' s, x) -> op_ok D N o -> D sl -> op_write o <> Some sl ->
  dirty f' !! slot_key sl = dirty f !! slot_key sl.
Proof.
  intros Hx [HF _] Hd Hne. pose proof (exec_write o (Overlay f s) (slot_key sl)) as H. rewrite Hx in H. cbn in H. apply H.
  intros sl' Hw E. apply Hne. rewrite Hw. f_equal. symmetry. apply (HC sl sl'); [done| |done]. by eapply op_write_slots.
Qed.

Lemma view_step {X : Type} (o : StateOp X) f s st f' x :
  view f s st -> op_ok D N o -> exec_op db o (Overlay f s) = (Overlay f' s, x) ->
  op_answer P N o st x /\ view f' s (op_next P o st) /\ (forall a, N a -> dirty f' !! codeHashKey a = dirty f !! codeHashKey a).
Proof.
  intros Hv Hok Hx. pose proof (view_answer o f s st Hv Hok) as Ha. rewrite Hx in Ha. split; [exact Ha|].
  assert (forall a, N a -> dirty f' !! codeHashKey a = dirty f !! codeHashKey a) as Hcode.
  { intros a Hna. apply (exec_untouched o f s f' x (SCodeHash a)); auto. destruct Hok as [_ Ho]. destruct o; try done. intros [= ->]. tauto. }
  split; [|exact Hcode]. destruct Hv as [Hs Hc Hn Hso]. split.
  - intros a k Hr Hd. destruct (decide (op_write o = Some (SStorage a k))) as [Hw|Hw].
    + destruct o; cbn in Hw; try discriminate. injection Hw as -> ->. cbn [op_next]. rewrite decide_True, storage_set_eq by done.
      cbn in Hx. injection Hx as <- _. apply (GetState_set_eq (Overlay f s)).
    + transitivity (a_storage st a k).
      * rewrite <- (Hs a k Hr Hd). apply GetState_ext. cbn [getVerkleValue].
        by rewrite (exec_untouched o f s f' x (SStorage a k) Hx Hok Hd Hw : dirty f' !! storageKey a k = dirty f !! storageKey a k).
      * destruct o; try done. cbn [op_next]. case_decide; [|done]. symmetry. apply storage_set_ne.
        destruct (decide (a0 = a)) as [->|]; [|by left]. right. intros ->. by apply Hw.
  - intros a Hna. rewrite <- (Hc a Hna). apply GetCodeHash_ext. cbn [getVerkleValue]. by rewrite Hcode.
  - pose proof (exec_cache o (Overlay f s) Hok Hn) as H. by rewrite Hx in H.
  - intros a k Hr Hd. destruct (decide (op_write o = Some (SStorage a k))) as [Hw|Hw].
    + destruct o; cbn in Hw; try discriminate. injection Hw as -> ->. cbn in Hx. injection Hx as <- _. cbn. rewrite lookup_insert_eq.
      intros E. apply (inj Some), (f_equal length) in E. by rewrite length_hash_bytes in E.
    + pose proof (exec_untouched o f s f' x (SStorage a k) Hx Hok Hd Hw) as E. cbn [slot_key] in E. rewrite E. by apply Hso.
Qed.

(** A call that stays away leaves the entries of the registry alone. *)
Lemma avoids_untouched {X : Type} (o : StateOp X) f s f' x a k :
  exec_op db o (Overlay f s) = (Overlay f' s, x) -> op_ok D N o -> op_avoids P o -> holds_registry P a -> D (SStorage a k) ->
  dirty f' !! storageKey a k = dirty f !! storageKey a k.
Proof.
  intros Hx Hok Hav Hr Hd. apply (exec_untouched o f s f' x (SStorage a k)); try done.
  destruct o; cbn in *; try discriminate. congruence.
Qed.
End View.

(** ** The native contracts *)

Section Native.
Context {C : Crypto} {V : Verkle} {VL : VerkleLaws V}.
Context (P : SystemParams) (HP : params_ok P) (D : slot -> Prop) (N : Address -> Prop) (Ans : forall X : Type, StateOp X -> X -> Prop) (A : list Address) (n : nat).
Context (HD : staking_domain P D A n) (HA : StakingAddr P ∈ A).
Implicit Types (st : AState) (vals : list Address).

Lemma keeps_get {R : Type} (Q : AState -> R -> Prop) a k f st :
  holds_registry P a -> D (SStorage a k) -> keeps P D N Ans Q (f (a_storage st a k)) st -> keeps P D N Ans Q (call (OGetState a k) ≫= f) st.
Proof. intros Ha Hd Hk. split; [by split; [apply Forall_singleton|]|]. intros x Hx _. by rewrite (Hx Ha). Qed.

Lemma keeps_set {R : Type} (Q : AState -> R -> Prop) a k v f st :
  holds_registry P a -> D (SStorage a k) -> keeps P D N Ans Q (f (a_storage st a k)) (aset_storage st a k v) ->
  keeps P D N Ans Q (call (OSetState a k v) ≫= f) st.
Proof. intros Ha Hd Hk. split; [by split; [apply Forall_singleton|]|]. intros x Hx _. cbn [op_next]. rewrite decide_True by done. by rewrite (Hx Ha). Qed.

Lemma keeps_other {X R : Type} (Q : AState -> R -> Prop) (o : StateOp X) f st :
  op_ok D N o -> op_next P o st = st -> (forall x, keeps P D N Ans Q (f x) st) -> keeps P D N Ans Q (call o ≫= f) st.
Proof. intros Hok Hn Hk. split; [done|]. intros x _ _. rewrite Hn. apply Hk. Qed.

Lemma balance_ok {X : Type} (o : StateOp X) a : op_slots o = [SBalance a] -> D (SBalance a) -> op_ok D N o.
Proof. intros E Hd. split; [rewrite E; by apply Forall_singleton|]. by destruct o. Qed.

(** A consistent registry of at most [l] validators among [A]. *)
Definition registry_within (l : nat) st : Prop :=
  exists vals, registry P st vals /\ (length vals <= l)%nat /\ forall b, b ∈ vals -> b ∈ A.

Lemma holds_staking : holds_registry P (StakingAddr P).
Proof. by left. Qed.
Lemma holds_validator : holds_registry P (ValidatorAddr P).
Proof. by right. Qed.
Hint Resolve holds_staking holds_validator : core.

Lemma deposit_keeps st vals sender value :
  registry P st vals -> (forall b, b ∈ vals -> b ∈ A) -> (length vals < n)%nat -> Z.of_nat n < 2 ^ 64 - 1 ->
  sender ∈ A -> regular sender -> 0 < value < 2 ^ 256 ->
  keeps P D N Ans (fun st' _ => registry_within (S (length vals)) st') (deposit P sender value) st.
Proof.
  intros HR HvA Hn Hlen Ha Hs Hv. pose proof (staking_ne_validator P HP) as Hne. destruct (sd_entry _ _ _ _ HD _ Ha) as (Hse & Hve & _).
  pose proof (sd_count _ _ _ _ HD) as H0. pose proof (sd_index _ _ _ _ HD (length vals) Hn) as Hi.
  assert (registry_within (S (length vals)) (after_deposit P st sender value)) as HQ.
  { eexists. split; [apply registry_deposit; try done; lia|]. case_decide; [split; [lia|done]|]. rewrite length_app. cbn. split; [lia|set_solver]. }
  unfold after_deposit in HQ. unfold deposit. apply keeps_set; [done..|]. apply keeps_get; [done..|]. rewrite storage_set_ne by key_ne.
  case_bool_decide as Ez; [rewrite decide_True in HQ by done|by rewrite decide_False in HQ by done].
  apply keeps_get; [done..|]. rewrite storage_set_ne by key_ne. rewrite (registry_count P st vals HR) in HQ |- *. fold (index_key (length vals)) in *.
  do 3 (apply keeps_set; [done..|]). exact HQ.
Qed.

Lemma pop_keeps st vals i a :
  registry P st vals -> vals !! i = Some a -> (forall b, b ∈ vals -> b ∈ A) -> (length vals <= n)%nat ->
  keeps P D N Ans (fun st' _ => registry_within (length vals) st') (swap_and_pop P (acct_key a)) st.
Proof.
  intros HR Hi HvA Hn. apply lookup_lt_Some in Hi as Hlt. assert (a ∈ A) as Ha by (by eapply HvA, list_elem_of_lookup_2).
  destruct (sd_entry _ _ _ _ HD _ Ha) as (Hse & Hve & _). pose proof (sd_count _ _ _ _ HD) as H0.
  pose proof (sd_index _ _ _ _ HD i ltac:(lia)) as Hix. pose proof (sd_index _ _ _ _ HD (length vals - 1) ltac:(lia)) as Hlast.
  assert (BigToHash (Z.of_nat (length vals)) = index_key (length vals - 1)) as Ec by (unfold index_key; f_equal; lia).
  destruct (lookup_lt_is_Some_2 vals (length vals - 1)) as [l Hl]; [lia|].
  destruct (sd_entry _ _ _ _ HD l (HvA l ltac:(by eapply list_elem_of_lookup_2))) as (_ & Hlv & _).
  pose proof (swap_pop_perm _ _ _ Hi) as Hp. pose proof (Permutation_length Hp) as Hpl. cbn in Hpl.
  assert (registry_within (length vals) (after_pop P st (acct_key a))) as HQ.
  { exists (swap_pop vals i). split; [by apply registry_pop|]. split; [lia|]. intros b Hb. apply HvA. rewrite Hp. set_solver. }
  unfold after_pop in HQ. unfold swap_and_pop. apply keeps_get; [done..|]. apply keeps_get; [done..|].
  rewrite (registry_pointer P st vals i a HR Hi), (registry_count P st vals HR), Ec in *. fold (index_key i) in *.
  rewrite (reg_index _ _ _ HR _ _ Hl) in HQ. apply keeps_bind. destruct (_ <? _).
  - apply keeps_get; [done..|]. rewrite (reg_index _ _ _ HR _ _ Hl). do 2 (apply keeps_set; [done..|]). cbn [mret prog_ret keeps].
    do 4 (apply keeps_set; [done..|]). exact HQ.
  - cbn [mret prog_ret keeps]. do 4 (apply keeps_set; [done..|]). exact HQ.
Qed.

Lemma unstake_keeps st l sender :
  registry_within l st -> (l <= n)%nat -> regular sender -> sender ∈ A ->
  keeps P D N Ans (fun st' _ => registry_within l st') (unstake P sender) st.
Proof.
  intros HQ Hn Hs Ha. destruct HQ as (vals & HR & Hl & HvA). assert (registry_within l st) as HQ by (by exists vals).
  destruct (sd_entry _ _ _ _ HD _ Ha) as (Hse & Hve & _). destruct (sd_account _ _ _ _ HD _ Ha) as (Hb & _). destruct (sd_account _ _ _ _ HD _ HA) as (HbS & _).
  unfold unstake. apply keeps_get; [done..|]. case_bool_decide as Hz; [exact HQ|].
  apply (reg_stake _ _ _ HR) in Hz as Hin; [|done]. apply list_elem_of_lookup in Hin as [i Hi].
  apply keeps_other; [by apply (balance_ok _ (StakingAddr P))|done|]. intros bal. destruct (_ <=? _); [|exact HQ].
  apply keeps_other; [by apply (balance_ok _ (StakingAddr P))|done|]. intros x1. apply keeps_other; [by apply (balance_ok _ sender)|done|]. intros x2.
  eapply keeps_mono; [|apply (pop_keeps _ vals i sender HR Hi HvA); lia]. intros st' _ (vals' & HR' & Hl' & HvA'). exists vals'. split_and!; [done|lia|done].
Qed.

(** A transaction to the staking contract keeps the registry consistent. *)
Lemma staking_keeps st l msg tx :
  msg_to msg = Some (StakingAddr P) -> registry_within l st -> (l < n)%nat -> Z.of_nat n < 2 ^ 64 - 1 ->
  regular (msg_from msg) -> msg_from msg ∈ A -> 0 <= msg_value msg < 2 ^ 256 ->
  keeps P D N Ans (fun st' _ => registry_within (S l) st') (ProcessSystemContracts P msg tx) st.
Proof.
  intros Hto HQ Hn Hlen Hs Ha Hv. unfold ProcessSystemContracts.
  rewrite (bool_decide_eq_true_2 (msg_to msg = Some (StakingAddr P))) by done.
  rewrite (bool_decide_eq_false_2 (msg_to msg = Some (RewardAddr P))) by by apply staking_not_reward.
  apply keeps_bind. apply (keeps_mono _ _ _ _ (fun st' _ => registry_within (S l) st')); [intros st' _ H; exact H|].
  assert (registry_within l st -> registry_within (S l) st) as Hup.
  { intros (vals & HR & Hl & HvA). exists vals. split_and!; [done|lia|done]. }
  apply keeps_bind. apply (keeps_mono _ _ _ _ (fun st' _ => registry_within (S l) st')).
  - intros st' _ HQ'. case_bool_decide; [|exact HQ']. apply unstake_keeps; [done|lia|done..].
  - destruct (Z.ltb_spec 0 (msg_value msg)); [|by apply Hup]. destruct HQ as (vals & HR & Hl & HvA).
    eapply keeps_mono; [|apply (deposit_keeps _ vals); try done; lia]. intros st' _ (vals' & HR' & Hl' & HvA'). exists vals'. split_and!; [done|lia|done].
Qed.

(** Any other transaction stays away from it. *)
Lemma other_avoids msg tx :
  msg_to msg <> Some (StakingAddr P) ->
  (forall t amt, msg_to msg = Some (RewardAddr P) -> parse_reward (tx_data tx) = Some (t, amt) -> D (SBalance t) /\ D (SBalance (RewardAddr P))) ->
  avoids P D N Ans (ProcessSystemContracts P msg tx).
Proof.
  intros Hto Hb. unfold ProcessSystemContracts. rewrite (bool_decide_eq_false_2 (msg_to msg = Some (StakingAddr P))) by done. cbn [mbind prog_bind mret prog_ret].
  case_bool_decide as Hr; [|done]. destruct (_ && _); [|done]. unfold reward. destruct (parse_reward _) as [[t amt]|] eqn:E; [|done].
  destruct (Hb t amt Hr eq_refl) as [Ht Hp]. split; [by apply (balance_ok _ (RewardAddr P))|]. split; [done|]. intros bal _ _. cbn. destruct (_ <=? _); [|done].
  split; [by apply (balance_ok _ (RewardAddr P))|]. split; [done|]. intros x1 _ _. cbn. split; [by apply (balance_ok _ t)|]. by split.
Qed.
End Native.

(** ** Waves *)

Section Waves.
Context {C : Crypto} {V : Verkle} {VL : VerkleLaws V} {EV : EVM}.
Context (e : Executor) (header : Header) (db : option DB) (txs : list Transaction).
#[local] Abbreviation P := (Params (netCfg e)).
Context (HP : params_ok P) (D : slot -> Prop) (N : Address -> Prop) (A : list Address) (n : nat).
Context (HC : collision_free D) (HN : forall a, N a -> D (SCodeHash a)) (HD : staking_domain P D A n) (HA : StakingAddr P ∈ A).
Context (Ans : Transaction -> forall X : Type, StateOp X -> X -> Prop).
Context (Hdb : match db with Some d => d !! cprefix zero_hash = None | None => True end) (Hlen : Z.of_nat n < 2 ^ 64 - 1).
Implicit Types (st : AState) (tx : Transaction) (sh : Shared) (th : thread).

Definition is_staking tx : Prop := tx_to tx = Some (StakingAddr P).
#[local] Instance is_staking_dec tx : Decision (is_staking tx) := decide (tx_to tx = Some (StakingAddr P)).

(** What is asked of a transaction: the EVM runs it without entering the accounts of the registry,
    whichever of the answers [Ans] considers for this transaction it gets; a staking transaction has a proper sender and value; the
    accounts of a reward command are among those considered. *)
Record tx_ok tx : Prop := {
  to_evm msg : tx_message header tx = Some msg ->
    avoids P D N (Ans tx) (ApplyMessage (config e) (vm_New header (getHash e header)) msg (GasLimit header));
  to_staking : is_staking tx -> regular (sched_sender tx) /\ sched_sender tx ∈ A /\ 0 <= tx_value tx < 2 ^ 256;
  to_reward t amt : tx_to tx = Some (RewardAddr P) -> parse_reward (tx_data tx) = Some (t, amt) -> D (SBalance t) /\ D (SBalance (RewardAddr P))
}.

(** The call a goroutine is about to make is answered within [Ans]. *)
Definition answer_in th sh : Prop :=
  match th with
  | Running tx _ f (@Vis _ X o _) => Ans tx X o (exec_op db o (Overlay f (statedb sh))).2
  | _ => True
  end.

(** Executions of the waves in which every call is answered within [Ans]. *)
Inductive within_step : list thread * Shared -> list thread * Shared -> Prop :=
| within_thread ths i th th' sh sh' :
    ths !! i = Some th -> thread_step e header txs db th sh th' sh' -> answer_in th sh ->
    within_step (ths, sh) (<[i := th']> ths, sh').

Inductive waves_within : list (list Transaction) -> Shared -> Shared -> Prop :=
| ww_nil sh : waves_within [] sh sh
| ww_break wave waves sh : 60000000 < uval (blockGasUsed sh) -> waves_within (wave :: waves) sh sh
| ww_wave wave waves sh sh' sh'' :
    uval (blockGasUsed sh) <= 60000000 ->
    rtc within_step (Ready <$> wave, sh) (Done <$> wave, sh') -> waves_within waves sh' sh'' ->
    waves_within (wave :: waves) sh sh''.

Definition ApplyBlock_within (s : StateDB) (out : option (list Receipt * Hash * StateDB)) : Prop :=
  exists waves sh, schedule txs = Some waves /\ waves_within waves (initial_shared s txs) sh /\ out = finalize header txs sh.

Lemma within_wave_step c c' : within_step c c' -> wave_step e header txs db c c'.
Proof. intros [ths i th th' sh sh' Hi Hst _]. by apply (ws_thread _ _ _ _ _ _ th). Qed.

(** They are executions of the block, and all of them when [Ans] considers every answer. *)
Lemma within_ApplyBlock s out : ApplyBlock_within s out -> ApplyBlock e db s header txs out.
Proof.
  intros (waves & sh & Hs & Hex & ->). exists waves, sh. split_and!; [done| |done]. clear Hs.
  induction Hex as [| |w ws sh sh' sh'' Hg Hw _ IH]; [constructor|by constructor|]. econstructor; [done| |exact IH].
  unfold wave_exec. eapply rtc_subrel; [|exact Hw]. apply within_wave_step.
Qed.

Lemma ApplyBlock_within_any s out :
  (forall tx X o x, Ans tx X o x) -> ApplyBlock e db s header txs out -> ApplyBlock_within s out.
Proof.
  intros Hall (waves & sh & Hs & Hex & ->). exists waves, sh. split_and!; [done| |done]. clear Hs.
  induction Hex as [| |w ws sh sh' sh'' Hg Hw _ IH]; [constructor|by constructor|]. econstructor; [done| |exact IH].
  eapply rtc_subrel; [|exact Hw]. intros c c' [ths i th th' s1 s2 Hi Hst]. apply (within_thread _ _ th); try done.
  destruct th as [| ? ? ? []|]; try done. apply Hall.
Qed.

Lemma message_fields tx msg :
  tx_message header tx = Some msg -> msg_to msg = tx_to tx /\ msg_from msg = sched_sender tx /\ msg_value msg = tx_value tx.
Proof.
  unfold tx_message, TransactionToMessage, sched_sender. destruct (_ <? _); [done|]. destruct (tx_sender tx); [|done]. by intros [= <-].
Qed.

Lemma exec_keeps st l tx msg :
  tx_ok tx -> is_staking tx -> tx_message header tx = Some msg -> registry_within P A l st -> (l < n)%nat ->
  keeps P D N (Ans tx) (fun st' _ => registry_within P A (S l) st') (tx_exec e header tx msg) st.
Proof.
  intros [Hevm Hst _] Hs Hm HQ Hl. destruct (Hst Hs) as (Hr & Ha & Hv). destruct (message_fields tx msg Hm) as (Hto & Hfrom & Hval).
  unfold tx_exec. apply keeps_other; [by split|done|]. intros _. apply keeps_avoids; [by apply Hevm|]. intros [res|].
  - apply keeps_bind. eapply keeps_mono; [|apply (staking_keeps P HP D N (Ans tx) A n HD HA st l)]; try done; [by rewrite Hto|by rewrite Hfrom..|by rewrite Hval].
  - destruct HQ as (vals & HR & Hvl & HvA). exists vals. split_and!; [done|lia|done].
Qed.

Lemma exec_avoids tx msg : tx_ok tx -> ~ is_staking tx -> tx_message header tx = Some msg -> avoids P D N (Ans tx) (tx_exec e header tx msg).
Proof.
  intros [Hevm _ Hrw] Hs Hm. destruct (message_fields tx msg Hm) as (Hto & _). unfold tx_exec.
  apply avoids_bind; [by split_and!|]. intros _. apply avoids_bind; [by apply Hevm|]. intros [res|]; [|done].
  apply avoids_bind; [|done]. apply other_avoids; rewrite Hto; [done|]. apply Hrw.
Qed.

(** *** The invariant of a wave *)

Definition clean (f : fields) : Prop := forall a k, holds_registry P a -> D (SStorage a k) -> dirty f !! storageKey a k = None.

(** A staking goroutine is on its way to a consistent registry; any other one stays away. *)
Definition thread_safe (l : nat) (s : StateDB) th : Prop :=
  match th with
  | Running tx msg f p =>
      dirty_ok (dirty f) /\ code f !! zero_hash = None /\ (forall a, N a -> dirty f !! codeHashKey a = None) /\
      if decide (is_staking tx)
      then exists st, view P D N f s st /\ keeps P D N (Ans tx) (fun st' _ => registry_within P A (S l) st') p st
      else clean f /\ avoids P D N (Ans tx) p
  | _ => True
  end.

Lemma view_overlay f s st :
  parent_view P D N s st -> clean f -> (forall a, N a -> dirty f !! codeHashKey a = None) -> code f !! zero_hash = None -> view P D N f s st.
Proof.
  intros (Hs & Hc & _) Hcl Hf Hz. split; [|intros a Ha|done|intros a k Ha Hd; by rewrite Hcl].
  - intros a k Ha Hd. rewrite <- (Hs a k Ha Hd). apply GetState_ext. cbn [getVerkleValue]. by rewrite Hcl.
  - rewrite <- (Hc a Ha). apply GetCodeHash_ext. cbn [getVerkleValue]. by rewrite Hf.
Qed.

Lemma step_op {X : Type} l (s : StateDB) st tx msg f (o : StateOp X) k f' x :
  parent_view P D N s st -> state_wf s -> thread_safe l s (Running tx msg f (Vis o k)) -> exec_op db o (Overlay f s) = (Overlay f' s, x) ->
  Ans tx X o x ->
  thread_safe l s (Running tx msg f' (k x)).
Proof.
  intros Hp Hw (Hd & Hz & Hf & Hmode) Hx Hin. pose proof (exec_wf db o (Overlay f s) (conj Hd Hw)) as Hwf. rewrite Hx in Hwf.
  cbn [thread_safe]. split; [by destruct Hwf|]. destruct (decide (is_staking tx)).
  - destruct Hmode as (st_t & Hv & Hok & Hk). destruct (view_step P D N HC HN db Hdb o f s st_t f' x Hv Hok Hx) as (Hans & Hv' & Hcode).
    split; [apply Hv'|]. split; [intros a Ha; rewrite Hcode by done; auto|]. exists (op_next P o st_t). split; [done|]. by apply Hk.
  - destruct Hmode as (Hcl & Hok & Hav & Hk). pose proof (view_overlay f s st Hp Hcl Hf Hz) as Hv.
    destruct (view_step P D N HC HN db Hdb o f s st f' x Hv Hok Hx) as (Hans & Hv' & Hcode).
    split; [apply Hv'|]. split; [intros a Ha; rewrite Hcode by done; auto|]. split; [|apply Hk; [by eapply op_avoids_answer|done]].
    intros a key Ha Hda. rewrite (avoids_untouched P D N HC db o f s f' x a key) by done. by apply Hcl.
Qed.

Lemma finish_get tx msg f res sh k :
  dirty_ok (dirty f) -> is_key k ->
  getVerkleValue (statedb (finish header txs tx msg f res sh)) k = getVerkleValue (Overlay f (statedb sh)) k.
Proof.
  intros Hd Hk. rewrite (effect_get header txs sh tx (Some (msg, f, Some res))) by done. cbn. by destruct (dirty f !! k).
Qed.

(** A merge writes no empty value that neither side has. *)
Lemma finish_solid tx msg f res sh k :
  dirty f !! k <> Some [] -> dirty (own (statedb sh)) !! k <> Some [] ->
  dirty (own (statedb (finish header txs tx msg f res sh))) !! k <> Some [].
Proof.
  intros Hf Hs. unfold finish. cbn [statedb]. destruct (Merge (Overlay f (statedb sh))) as [p'|] eqn:E; [|exact Hs]. cbn [default from_option id].
  injection E as <-. rewrite own_with_own. cbn [dirty set_preimages set_logs set_code].
  assert (forall v, (k, v) ∈ map_to_list (dirty f) -> v <> []) as Hv by (intros v Hin%elem_of_map_to_list ->; done).
  induction (map_to_list (dirty f)) as [|[k' v] l IH]; [done|]. cbn [foldr fst snd]. rewrite own_set. cbn [dirty set_dirty].
  destruct (decide (k' = k)) as [->|Hne]; [|rewrite lookup_insert_ne by done; apply IH; set_solver].
  rewrite lookup_insert_eq. intros [= ->]. apply (Hv []); [left|done].
Qed.

(** A merge shows the parent what the overlay showed. *)
Lemma parent_merge tx msg f res sh st st0 :
  dirty_ok (dirty f) -> parent_view P D N (statedb sh) st0 -> (forall a, N a -> dirty f !! codeHashKey a = None) ->
  view P D N f (statedb sh) st -> parent_view P D N (statedb (finish header txs tx msg f res sh)) st.
Proof.
  intros Hd (_ & _ & Hp1 & Hp2) Hfz [Hs Hc _ Hso]. split_and!.
  - intros a k Ha Hda. rewrite <- (Hs a k Ha Hda). apply GetState_ext. apply finish_get; [done|apply (slot_key_is_key (SStorage a k))].
  - intros a Ha. rewrite <- (Hc a Ha). apply GetCodeHash_ext. apply finish_get; [done|apply (slot_key_is_key (SCodeHash a))].
  - intros a k Ha Hda. apply finish_solid; auto.
  - intros a Ha. apply finish_solid; [by rewrite Hfz|auto].
Qed.

(** A merge that stays away does not disturb the other goroutines. *)
Lemma thread_merge l tx msg f res sh th :
  dirty_ok (dirty f) -> clean f -> (forall a, N a -> dirty f !! codeHashKey a = None) ->
  thread_safe l (statedb sh) th -> thread_safe l (statedb (finish header txs tx msg f res sh)) th.
Proof.
  intros Hd Hcl Hf. destruct th as [|tx' msg' f' p|]; [done| |done]. cbn [thread_safe]. intros (Hd' & Hz & Hf' & Hmode). split_and!; try done.
  destruct (decide (is_staking tx')); [|done]. destruct Hmode as (st & [Hs Hc Hca Hso] & Hk). exists st. split; [|done]. split; [| |done|done].
  - intros a k Ha Hda. rewrite <- (Hs a k Ha Hda). apply GetState_ext, overlay_get_agree.
    rewrite finish_get by (done || apply (slot_key_is_key (SStorage a k))). cbn [getVerkleValue]. by rewrite Hcl.
  - intros a Ha. rewrite <- (Hc a Ha). apply GetCodeHash_ext, overlay_get_agree.
    rewrite finish_get by (done || apply (slot_key_is_key (SCodeHash a))). cbn [getVerkleValue]. by rewrite Hf.
Qed.

(** Two different goroutines of a wave are not both for the staking contract. *)
Definition one_staker (ths : list thread) : Prop :=
  forall i j th th', ths !! i = Some th -> ths !! j = Some th' -> is_staking (thread_tx th) -> is_staking (thread_tx th') -> i = j.

Definition stakers_done (ths : list thread) : Prop :=
  forall th, th ∈ ths -> is_staking (thread_tx th) -> exists tx, th = Done tx.

Record wave_safe (l : nat) (c : list thread * Shared) : Prop := {
  ws_wf : state_wf (statedb c.2);
  ws_txs : Forall (fun th => tx_ok (thread_tx th)) c.1;
  ws_one : one_staker c.1;
  ws_threads : Forall (thread_safe l (statedb c.2)) c.1;
  ws_registry : exists st, parent_view P D N (statedb c.2) st /\
    (registry_within P A l st \/ (registry_within P A (S l) st /\ stakers_done c.1))
}.

Lemma one_staker_insert ths i th th' : ths !! i = Some th -> thread_tx th' = thread_tx th -> one_staker ths -> one_staker (<[i := th']> ths).
Proof.
  intros Hi Et H j k tj tk Hj Hk Sj Sk.
  assert (forall m tm, <[i := th']> ths !! m = Some tm -> exists tm', ths !! m = Some tm' /\ thread_tx tm' = thread_tx tm) as Hm.
  { intros m tm Hm. apply list_lookup_insert_Some in Hm as [(<- & <- & _)|[_ Hm]]; [|by exists tm]. exists th. split; [done|by rewrite Et]. }
  destruct (Hm j tj Hj) as (tj' & Hj' & Ej), (Hm k tk Hk) as (tk' & Hk' & Ek). apply (H j k tj' tk'); rewrite ?Ej, ?Ek; done.
Qed.

Lemma stakers_done_insert ths i th th' :
  ths !! i = Some th -> thread_tx th' = thread_tx th -> (is_staking (thread_tx th) -> exists tx, th' = Done tx) ->
  stakers_done ths -> stakers_done (<[i := th']> ths).
Proof.
  intros Hi Et Hd H t Ht Hs. apply list_elem_of_lookup in Ht as [j Hj].
  apply list_lookup_insert_Some in Hj as [(<- & <- & _)|[_ Hj]]; [apply Hd; by rewrite <- Et|]. apply H; [by eapply list_elem_of_lookup_2|done].
Qed.

(** The one staking goroutine is done: so all are. *)
Lemma one_staker_done ths i th tx :
  ths !! i = Some th -> is_staking (thread_tx th) -> one_staker ths -> stakers_done (<[i := Done tx]> ths).
Proof.
  intros Hi Hs H t Ht Hst. apply list_elem_of_lookup in Ht as [j Hj].
  apply list_lookup_insert_Some in Hj as [(<- & <- & _)|[Hne Hj]]; [by exists tx|]. exfalso. apply Hne. by apply (H i j th t).
Qed.

(** A move that leaves the parent state alone. *)
Lemma wave_safe_move l ths sh i th th' rs gas fees :
  wave_safe l (ths, sh) -> ths !! i = Some th -> thread_tx th' = thread_tx th -> thread_safe l (statedb sh) th' ->
  (is_staking (thread_tx th) -> (exists tx, th = Done tx) -> exists tx, th' = Done tx) ->
  wave_safe l (<[i := th']> ths, mkShared (statedb sh) rs gas fees).
Proof.
  intros [Hw Htx H1 Hth (st & Hp & Hreg)] Hi Et Hsafe Hd. cbn [fst snd] in *. split; cbn [fst snd statedb]; try done.
  - apply Forall_insert; [done|]. rewrite Et. rewrite Forall_lookup in Htx. by eapply Htx.
  - by eapply one_staker_insert.
  - by apply Forall_insert.
  - exists st. split; [done|]. destruct Hreg as [Hreg|[Hreg Hdone]]; [by left|right]. split; [done|].
    eapply stakers_done_insert; try done. intros Hs. apply Hd; [done|]. apply Hdone; [by eapply list_elem_of_lookup_2|done].
Qed.

(** A merge of a goroutine that is not for the staking contract, and of one that is. *)
Lemma wave_safe_merge l ths sh i tx msg f res :
  (l < n)%nat -> wave_safe l (ths, sh) -> ths !! i = Some (Running tx msg f (Ret (Some res))) ->
  wave_safe l (<[i := Done tx]> ths, finish header txs tx msg f res sh).
Proof.
  intros Hln HI Hi. pose proof HI as [Hw Htx H1 Hth (st & Hp & Hreg)]. cbn [fst snd] in *.
  assert (thread_safe l (statedb sh) (Running tx msg f (Ret (Some res)))) as (Hd & Hz & Hf & Hmode) by (rewrite Forall_lookup in Hth; by eapply Hth).
  split; cbn [fst snd].
  - apply (thread_step_wf e header txs db (Running tx msg f (Ret (Some res))) sh (Done tx) (finish header txs tx msg f res sh)); [constructor|done..].
  - apply Forall_insert; [done|]. rewrite Forall_lookup in Htx. exact (Htx i _ Hi).
  - by apply (one_staker_insert ths i (Running tx msg f (Ret (Some res)))).
  - apply Forall_lookup. intros j th Hj. apply list_lookup_insert_Some in Hj as [(_ & <- & _)|[Hne Hj]]; [exact I|].
    assert (thread_safe l (statedb sh) th) as Hsafe by (rewrite Forall_lookup in Hth; by eapply Hth).
    destruct (decide (is_staking tx)) as [Hs|Hs]; [|by destruct Hmode as [Hcl _]; apply thread_merge].
    destruct th as [|tx' msg' f' p'|]; try done. destruct Hsafe as (Hd' & Hz' & Hf' & Hmode'). split_and!; try done.
    destruct (decide (is_staking tx')) as [Hs'|]; [|done]. exfalso. apply Hne. by apply (H1 i j _ _ Hi Hj).
  - destruct (decide (is_staking tx)) as [Hs|Hs].
    + destruct Hmode as (st' & Hv & HQ). exists st'. split; [by apply (parent_merge _ _ _ _ _ _ st)|]. right. split; [exact HQ|].
      by apply (one_staker_done ths i (Running tx msg f (Ret (Some res)))).
    + destruct Hmode as [Hcl _]. exists st. split; [apply (parent_merge _ _ _ _ _ _ st); try done; by apply view_overlay|].
      destruct Hreg as [Hreg|[Hreg Hdone]]; [by left|right]. split; [done|]. by apply (stakers_done_insert ths i (Running tx msg f (Ret (Some res)))).
Qed.

Lemma wave_safe_start l ths sh i tx msg :
  (l < n)%nat -> wave_safe l (ths, sh) -> ths !! i = Some (Ready tx) -> tx_message header tx = Some msg ->
  thread_safe l (statedb sh) (Running tx msg empty_fields (tx_exec e header tx msg)).
Proof.
  intros Hln [_ Htx _ _ (st & Hp & Hreg)] Hi Hm. cbn [fst snd] in *.
  assert (tx_ok tx) as Hok by (rewrite Forall_lookup in Htx; exact (Htx i _ Hi)).
  split; [apply map_Forall_empty|]. split; [apply lookup_empty|]. split; [intros a _; apply lookup_empty|].
  destruct (decide (is_staking tx)) as [Hs|Hs]; [|split; [intros a k _ _; apply lookup_empty|by apply exec_avoids]].
  exists st. split; [apply view_overlay; [done|intros a k _ _; apply lookup_empty|intros a _; apply lookup_empty|apply lookup_empty]|].
  destruct Hreg as [Hreg|[_ Hdone]]; [by apply exec_keeps|]. destruct (Hdone (Ready tx)) as [? ?]; [by eapply list_elem_of_lookup_2|done|done].
Qed.

Lemma shared_eta sh : sh = mkShared (statedb sh) (receipts sh) (blockGasUsed sh) (totalFees sh).
Proof. by destruct sh. Qed.

Lemma wave_safe_step l c c' : (l < n)%nat -> within_step c c' -> wave_safe l c -> wave_safe l c'.
Proof.
  intros Hln [ths i th th' sh sh' Hi Hst Hin] HI. destruct Hst as [tx sh Hm|tx msg sh Hm|tx msg f X o k f' p' x sh Hx|tx msg f sh|tx msg f res sh].
  - rewrite (shared_eta sh). apply (wave_safe_move l ths sh i (Ready tx)); try done. intros _ _. by exists tx.
  - rewrite (shared_eta sh). apply (wave_safe_move l ths sh i (Ready tx)); try done; [by eapply wave_safe_start|by intros _ [? ?]].
  - rewrite (shared_eta sh). apply (wave_safe_move l ths sh i (Running tx msg f (Vis o k))); try done; [|by intros _ [? ?]].
    destruct (exec_overlay db o f (statedb sh)) as [[f1 x1] E]. cbn [answer_in] in Hin. rewrite E in Hx, Hin. injection Hx as <- <- <-.
    pose proof HI as [Hw _ _ Hth (st & Hp & _)]. cbn [fst snd] in *. eapply step_op; try done. rewrite Forall_lookup in Hth. by eapply Hth.
  - apply (wave_safe_move l ths sh i (Running tx msg f (Ret None))); try done. intros _ _. by exists tx.
  - by apply wave_safe_merge.
Qed.

Lemma wave_steps_safe l c c' : (l < n)%nat -> rtc within_step c c' -> wave_safe l c -> wave_safe l c'.
Proof. intros Hln. induction 1 as [c|c1 c2 c3 H12 _ IH]; [done|]. intros H. apply IH. by eapply wave_safe_step. Qed.

(** A whole wave adds at most one validator. *)
Lemma wave_exec_safe l w sh sh' st :
  (l < n)%nat -> independent ∅ w -> Forall tx_ok w -> state_wf (statedb sh) -> parent_view P D N (statedb sh) st -> registry_within P A l st ->
  rtc within_step (Ready <$> w, sh) (Done <$> w, sh') ->
  state_wf (statedb sh') /\ exists st', parent_view P D N (statedb sh') st' /\ registry_within P A (S l) st'.
Proof.
  intros Hln Hind Hok Hw Hp HQ Hex.
  assert (wave_safe l (Ready <$> w, sh)) as H0.
  { split; cbn [fst snd]; [done|by apply Forall_fmap| |apply Forall_fmap; by apply Forall_true|exists st; auto].
    assert (forall i j tx tx', (i < j)%nat -> w !! i = Some tx -> w !! j = Some tx' -> is_staking tx -> is_staking tx' -> False) as Hno.
    { intros i j tx tx' Hij Hi Hj Hs Hs'. pose proof (independent_disjoint ∅ w i j tx tx' Hind Hij Hi Hj) as Hd. unfold is_staking in *.
      unfold tx_accounts in Hd. rewrite Hs, Hs' in Hd. set_solver. }
    intros i j th th' Hi Hj Hs Hs'. rewrite list_lookup_fmap in Hi, Hj. destruct (w !! i) as [tx|] eqn:Ei; [|done]. destruct (w !! j) as [tx'|] eqn:Ej; [|done].
    injection Hi as <-. injection Hj as <-. destruct (lt_eq_lt_dec i j) as [[Hij|Hij]|Hij]; [exfalso; by eapply Hno|done|exfalso; by eapply Hno]. }
  destruct (wave_steps_safe l _ _ Hln Hex H0) as [Hw' _ _ _ (st' & Hp' & Hreg)].
  cbn [fst snd] in *. split; [done|]. exists st'. split; [done|]. destruct Hreg as [(vals & HR & Hl & HvA)|[Hreg _]]; [|done].
  exists vals. split_and!; [done|lia|done].
Qed.

Lemma waves_exec_safe waves l sh sh' st :
  Forall (independent ∅) waves -> Forall (Forall tx_ok) waves -> (l + length waves <= n)%nat ->
  state_wf (statedb sh) -> parent_view P D N (statedb sh) st -> registry_within P A l st ->
  waves_within waves sh sh' ->
  exists st', parent_view P D N (statedb sh') st' /\ registry_within P A (l + length waves) st'.
Proof.
  intros Hi Ho Hl Hw Hp HQ Hex. revert l st Hi Ho Hl Hw Hp HQ.
  assert (forall l m st, (l <= m)%nat -> registry_within P A l st -> registry_within P A m st) as Hup.
  { intros l m st Hlm (vals & HR & Hvl & HvA). exists vals. split_and!; [done|lia|done]. }
  induction Hex as [sh|w ws sh Hg|w ws sh sh1 sh2 Hg Hwv _ IH]; intros l st Hi Ho Hl Hw Hp HQ; cbn [length] in *.
  - exists st. split; [done|]. by apply (Hup l); [lia|].
  - exists st. split; [done|]. by apply (Hup l); [lia|].
  - apply Forall_cons in Hi as [Hi1 Hi], Ho as [Ho1 Ho].
    destruct (wave_exec_safe l w sh sh1 st) as (Hw1 & st1 & Hp1 & HQ1); try done; [lia|].
    destruct (IH (S l) st1) as (st2 & Hp2 & HQ2); try done; [lia|]. exists st2. split; [done|]. apply (Hup (S l + length ws)%nat); [lia|done].
Qed.

(** The whole block, reward included. *)
Lemma block_safe s st l rs root s' :
  Forall tx_ok txs -> D (SBalance (Coinbase header)) -> (l + length txs <= n)%nat ->
  state_wf s -> parent_view P D N s st -> registry_within P A l st ->
  ApplyBlock_within s (Some (rs, root, s')) ->
  exists st', parent_view P D N s' st' /\ registry_within P A (l + length txs) st'.
Proof.
  intros Hok Hcb Hl Hw Hp HQ (waves & sh & Hsch & Hex & Hout).
  destruct (schedule_loop_rounds (length txs) txs) as (wv & Hwv & Hr); [lia|]. unfold schedule in Hsch. rewrite Hsch in Hwv. injection Hwv as <-.
  assert (length waves <= length txs)%nat as Hn.
  { rewrite <- (Permutation_length (rounds_perm _ _ Hr)). pose proof (rounds_nonempty _ _ Hr) as Hne. clear -Hne.
    induction Hne as [|w ws Hw _ IH]; [done|]. cbn. rewrite length_app. destruct w; [done|]. cbn in *. lia. }
  destruct (waves_exec_safe waves l (initial_shared s txs) sh st) as (st' & (Hp1 & Hp2 & Hp3 & Hp4) & vals & HR & Hvl & HvA); try done.
  - by eapply rounds_independent.
  - pose proof (rounds_sublist _ _ Hr) as Hsub. eapply Forall_impl; [exact Hsub|]. intros w Hws. apply Forall_forall. intros tx Hin.
    rewrite Forall_forall in Hok. apply Hok. apply (elem_of_submseteq w); [done|by apply sublist_submseteq].
  - lia.
  - exists st'. split; [|exists vals; split_and!; [done|lia|done]].
    unfold finalize in Hout. destruct (FromBig _) as [x [|]]; [done|]. injection Hout as _ _ ->.
    assert (forall sl, D sl -> sl <> SBalance (Coinbase header) -> slot_key sl <> balanceKey (Coinbase header)) as Hk.
    { intros sl Hd Hne Hk. apply Hne. by apply (HC sl (SBalance (Coinbase header))). }
    pose proof (slot_key_is_key (SBalance (Coinbase header))) as Hkc. cbn [slot_key] in Hkc.
    unfold AddBalanceReward, AddBalance, addBalance, SetBalance. cbn [fst]. split_and!.
    + intros a k Ha Hd. rewrite <- (Hp1 a k Ha Hd). apply GetState_ext, get_set_ne; [done|apply (slot_key_is_key (SStorage a k))|].
      intros E. by apply (Hk (SStorage a k) Hd).
    + intros a Ha. rewrite <- (Hp2 a Ha). apply GetCodeHash_ext, get_set_ne; [done|apply (slot_key_is_key (SCodeHash a))|].
      intros E. by apply (Hk (SCodeHash a) (HN a Ha)).
    + intros a k Ha Hd. rewrite own_set. cbn [dirty set_dirty]. rewrite lookup_insert_ne; [auto|]. intros E. by apply (Hk (SStorage a k) Hd).
    + intros a Ha. rewrite own_set. cbn [dirty set_dirty]. rewrite lookup_insert_ne; [auto|]. intros E. by apply (Hk (SCodeHash a) (HN a Ha)).
Qed.

End Waves.

(** ** Any number of blocks *)

Section History.
Context {C : Crypto} {V : Verkle} {VL : VerkleLaws V} {EV : EVM}.
Context (P : SystemParams) (D : slot -> Prop) (N : Address -> Prop) (A : list Address) (n : nat).

(** The states of a node that executes and commits blocks, with the number of transactions so
    far. The executor, the database and the header are those of the moment, and [Ans] are answers the
    calls of the transactions of the block got. *)
Inductive history (s0 : StateDB) : nat -> StateDB -> Prop :=
| history_start : history s0 0 s0
| history_block k s Ans e header db txs rs root s' :
    history s0 k s -> Params (netCfg e) = P -> D (SBalance (Coinbase header)) ->
    match db with Some d => d !! cprefix zero_hash = None | None => True end ->
    Forall (tx_ok e header D N A Ans) txs ->
    ApplyBlock_within e header db txs Ans s (Some (rs, root, s')) ->
    history s0 (k + length txs) (committed s').

Context (HP : params_ok P) (HC : collision_free D) (HNd : forall a, N a -> D (SCodeHash a)).
Context (HD : staking_domain P D A n) (HA : StakingAddr P ∈ A) (Hlen : Z.of_nat n < 2 ^ 64 - 1).

Lemma history_safe s0 st0 l k s :
  state_ok s0 -> parent_view P D N s0 st0 -> registry_within P A l st0 -> (l + k <= n)%nat -> history s0 k s ->
  state_ok s /\ exists st, parent_view P D N s st /\ registry_within P A (l + k) st.
Proof.
  intros Hok0 Hp0 HQ0 Hk Hh. revert Hk. induction Hh as [|k s Ans e header db txs rs root s' Hh IH EP Hcb Hdb Htx Hap]; intros Hk.
  { split; [done|]. exists st0. by rewrite Nat.add_0_r. }
  destruct IH as (Hok & st & Hp & HQ); [lia|]. pose proof (ApplyBlock_state _ _ _ _ _ _ _ _ (within_ApplyBlock _ _ _ _ _ _ _ Hap) Hok) as Hok'. split; [by apply committed_ok|].
  assert (exists st', parent_view P D N s' st' /\ registry_within P A (l + k + length txs) st') as (st' & Hp' & HQ').
  { revert HP HD HA Hp HQ. rewrite <- EP. intros HP' HD' HA' Hp HQ.
    apply (block_safe e header db txs HP' D N A n HC HNd HD' HA' Ans Hdb Hlen s st (l + k) rs root s'); try done; [lia|apply Hok]. }
  exists st'. split; [by apply parent_commit|]. by rewrite Nat.add_assoc.
Qed.

(** C7: The validator registry is safe under parallel execution. Start from a well-formed state with a
    consistent registry. After any number of blocks, executed with any interleaving
    of the goroutines and any order of their merges and then committed, the registry is consistent:
    distinct validators with matching count, index entries and back pointers, exactly those with a
    recorded stake, at most one more per transaction; and unless it is empty, [SyncValidators] loads exactly this list.
    Of the transactions it is asked that the EVM, given answers out of a set that contains those its calls got in
    the execution (per transaction; the smallest such set or any larger one), stays away from the storage of the two accounts, gives no code
    to the accounts considered to have none, and touches slots whose tree keys do not collide; and that
    senders of staking transactions are proper accounts among those considered. *)
Theorem registry_survives s0 st0 vals0 k s :
  P = default_params -> state_ok s0 -> parent_view P D N s0 st0 -> registry P st0 vals0 ->
  (forall b, b ∈ vals0 -> b ∈ A) -> (length vals0 + k <= n)%nat -> history s0 k s ->
  exists st vals, parent_view P D N s st /\ registry P st vals /\ (length vals <= length vals0 + k)%nat /\
    (vals <> [] -> forall eng, exists eng', SyncValidators eng s = Some eng' /\ v_address <$> Validators eng' = vals).
Proof.
  intros EP Hok0 Hp0 HR0 HvA0 Hk Hh.
  destruct (history_safe s0 st0 (length vals0) k s Hok0 Hp0) as (_ & st & Hp & vals & HR & Hl & HvA); [by exists vals0|done|done|].
  exists st, vals. split; [exact Hp|]. split; [exact HR|]. split; [exact Hl|]. intros Hne eng. destruct Hp as (Hs & _).
  pose proof (Hs (ValidatorAddr P) zero_hash (or_intror eq_refl) (sd_count _ _ _ _ HD)) as Hcount.
  assert (forall i, (i < length vals)%nat -> GetState s (ValidatorAddr P) (index_key i) = a_storage st (ValidatorAddr P) (index_key i)) as Hindex.
  { intros i Hi. apply Hs; [by right|]. apply (sd_index _ _ _ _ HD). lia. }
  clear -EP HR Hne Hcount Hindex. rewrite EP in HR, Hcount, Hindex. destruct (registered_reads s st vals HR Hne Hcount Hindex) as [Hc Hreg].
  eexists. split; [apply SyncValidators_registry; rewrite Hc|exact Hreg].
  pose proof (reg_len _ _ _ HR). destruct vals as [|v l]; [by destruct Hne|]. cbn [length] in *. lia.
Qed.
End History.
