(* ===== verification/Witnesses.v ===== *)
(** * Witnesses: the theorems at concrete inputs.

    The interfaces are instantiated by [Interfaces.Concrete]; the sample states,
    blocks and engines below satisfy the hypotheses of the theorems, which are
    discharged by computation. *)

From S2P Require Import Prelude Words Interfaces Rlp Types Hex Sanity StateDB StateOps Scheduler Consensus Genesis SystemContracts Executor RawDB Blockchain Node.
Import Concrete.

(** ** Sample data *)

Definition alice : Address := wd (2 ^ 64 + 1).
Definition bob : Address := wd (2 ^ 64 + 2).
Definition carol : Address := wd (2 ^ 64 + 3).

Definition fresh : StateDB := New zero_hash None.
Definition funded : StateDB := SetBalance fresh alice (wd 1000).

Lemma fresh_wf : state_wf fresh.
Proof. apply state_wf_new. Qed.

Lemma funded_wf : state_wf funded.
Proof.
  apply state_wf_set; [apply (slot_key_is_key (SBalance alice))|apply length_u256_bytes|apply fresh_wf].
Qed.

Lemma db_ok_empty : db_ok ∅.
Proof. apply map_Forall_empty. Qed.

Lemma fresh_in_sync : in_sync fresh ∅.
Proof. intros k Hk _. unfold db_leaf. by rewrite lookup_empty. Qed.

Lemma funded_in_sync : in_sync funded ∅.
Proof. apply in_sync_set; [apply (slot_key_is_key (SBalance alice))|apply fresh_in_sync]. Qed.

(** ** StateDB *)

(** A state opened on an empty database: alice is credited, committed, zeroed and committed again. *)
Definition opened : StateDB := New zero_hash (Some ∅).
Definition credited : StateDB := committed (SetBalance opened alice (wd 1000)).
Definition credited_db : DB := db_write ∅ (commit_batch (SetBalance opened alice (wd 1000))).
Definition zeroed : StateDB := SetBalance (SetBalance credited bob (wd 4)) alice (wd 0).

(** The last values written. *)
Definition last_written : bytes -> bytes :=
  fset (fset (fset (db_leaf ∅) (balanceKey alice) (u256_bytes (wd 1000))) (balanceKey bob) (u256_bytes (wd 4)))
    (balanceKey alice) (u256_bytes (wd 0)).

Lemma lived_balance s db last a x : lived s db last -> lived (SetBalance s a x) db (fset last (balanceKey a) (u256_bytes x)).
Proof. intros H. apply lv_write; [done|apply (slot_key_is_key (SBalance a))|apply length_u256_bytes]. Qed.

Lemma zeroed_lived : lived zeroed credited_db last_written.
Proof. exact (lived_balance _ _ _ _ _ (lived_balance _ _ _ _ _ (lv_commit _ _ _ (lived_balance _ _ _ _ _ (lv_open zero_hash ∅ db_ok_empty))))). Qed.

Lemma last_written_values : last_written (balanceKey alice) = [] /\ last_written (balanceKey bob) = [wd 4].
Proof.
  assert (balanceKey alice <> balanceKey bob) as Hne by (apply (bool_decide_unpack _); vm_compute; reflexivity).
  unfold last_written. split.
  - unfold fset at 1. rewrite decide_True by reflexivity. vm_compute. reflexivity.
  - unfold fset at 1. rewrite decide_False by exact Hne. unfold fset at 1. rewrite decide_True by reflexivity. vm_compute. reflexivity.
Qed.

Lemma restart_recovers_witness :
  let db := db_write credited_db (commit_batch zeroed) in
  getVerkleValue (New zero_hash (Some db)) (balanceKey alice) = [] /\ getVerkleValue (New zero_hash (Some db)) (balanceKey bob) = [wd 4] /\
  getVerkleValue (committed zeroed) (balanceKey bob) = [wd 4].
Proof.
  destruct last_written_values as [E1 E2]. cbn zeta.
  destruct (restart_recovers zeroed credited_db last_written zero_hash (balanceKey alice) zeroed_lived (slot_key_is_key (SBalance alice))) as [H1 _].
  destruct (restart_recovers zeroed credited_db last_written zero_hash (balanceKey bob) zeroed_lived (slot_key_is_key (SBalance bob))) as [H2 H3].
  rewrite E1 in H1. rewrite E2 in H2, H3. split; [exact H1|]. split; [exact H2|]. apply H3. discriminate.
Defined.

Definition spent : fields := own (SetBalance (NewOverlay funded) alice (wd 7)).

Lemma merge_flushes_overlay_witness :
  exists p', Merge (Overlay spent funded) = Some p' /\ state_wf p' /\
    forall k, is_key k ->
      getVerkleValue p' k = getVerkleValue (Overlay spent funded) k /\
      forall l, l ≡ₚ map_to_list (dirty spent) ->
        getVerkleValue (foldr (fun kv p => setVerkleValue p kv.1 kv.2) funded l) k = getVerkleValue p' k.
Proof.
  apply merge_flushes_overlay.
  apply (state_wf_set (NewOverlay funded));
    [apply (slot_key_is_key (SBalance alice))|apply length_u256_bytes|apply state_wf_overlay, funded_wf].
Defined.

Lemma commit_revives_witness :
  let s1 := committed funded in
  let s2 := SetBalance s1 alice (wd 0) in
  GetBalance s2 alice = wd 0 /\ GetBalance (committed s2) alice = GetBalance s1 alice /\
  GetBalance (New zero_hash (Some (db_write ∅ (commit_batch s2)))) alice = wd 0.
Proof.
  apply (commit_revives_zeroed_balance _ _ ∅ zero_hash alice); [apply funded_wf|apply db_ok_empty].
Defined.

Definition sample_code : bytes := [wd 96; wd 0].

Lemma overlay_misses_parent_code_witness :
  let s' := (SetCode fresh alice sample_code).1 in
  (GetCode (Some ∅) s' alice).2 = sample_code /\
  GetCodeHash (NewOverlay s') alice = keccak256 sample_code /\
  (GetCode (Some ∅) (NewOverlay s') alice).2 = [].
Proof.
  apply (overlay_misses_parent_code ∅ fresh alice sample_code).
  - intros E. apply (f_equal uval) in E. vm_compute in E. discriminate.
  - apply lookup_empty.
Defined.

Lemma root_confuses_balances_witness :
  IntermediateRoot (SetBalance fresh alice (wd 1)) = IntermediateRoot (SetBalance fresh alice (wd 256)).
Proof. apply (root_confuses_balances empty_fields vnew alice). Defined.

(** ** StateOps *)

Definition zero_astate : AState :=
  mkAState (fun _ => wd 0) (fun _ => wd 0) (fun _ => zero_hash) (fun _ _ => zero_hash).

Lemma fresh_refines D : refines D fresh zero_astate.
Proof. intros [] _; done. Qed.

(** Distinct keys of a finite set of slots. *)
Lemma collision_free_list (l : list slot) : NoDup (slot_key <$> l) -> collision_free (fun sl => sl ∈ l).
Proof.
  intros HN s1 s2 H1 H2 E. apply list_elem_of_lookup in H1 as [i Hi], H2 as [j Hj].
  assert (i = j) as ->; [|congruence].
  apply (NoDup_lookup _ i j (slot_key s1) HN); rewrite list_lookup_fmap, ?Hi, ?Hj; cbn; congruence.
Qed.

(** A transfer of 5 from alice to bob, after minting. *)
Definition transfer : prog u256 :=
  _ ← call (OAddBalance alice (wd 9)); _ ← call (OSubBalance alice (wd 5)); call (OAddBalance bob (wd 5)).

Definition transfer_slots : list slot := [SBalance alice; SBalance bob].

(** The same under a snapshot, with code, refunds and transient storage. *)
Definition deploying : prog (u256 * bytes * Hash) :=
  id ← call OSnapshot; bal ← transfer; _ ← call (ORevertToSnapshot id);
  _ ← call (OSetCode bob sample_code); c ← call (OGetCode bob); _ ← call (OAddRefund (wd 3)); _ ← call (OEmpty alice);
  _ ← call (OSetTransientState bob zero_hash (wd 8)); t ← call (OGetTransientState bob zero_hash); mret (bal, c, t).

Definition full_zero : FState := mkFState zero_astate (fun _ => []) (fun _ _ => zero_hash).
Definition deploying_slots : list slot := remove_dups (full_run_slots deploying full_zero).

Lemma fresh_refines_full D : refines_full D None fresh full_zero.
Proof. split; [apply fresh_refines|done|done]. Qed.

Lemma run_refines_witness :
  (run None deploying fresh).2 = (wd 5, sample_code, wd 8) /\ state_wf (run None deploying fresh).1.
Proof.
  destruct (run_refines (fun sl => sl ∈ deploying_slots) None deploying fresh full_zero) as (H1 & _ & H3).
  - apply collision_free_list. apply (bool_decide_unpack _). vm_compute. reflexivity.
  - apply fresh_refines_full.
  - intros sl Hsl. apply elem_of_remove_dups. exact Hsl.
  - apply fresh_wf.
  - split; [|exact H3]. rewrite H1. vm_compute. reflexivity.
Defined.

(** ** Consensus *)

Definition alice_key : PrivateKey := alice.

Definition v1 : Validator := mkValidator alice 3.
Definition v2 : Validator := mkValidator bob 0.
Definition v3 : Validator := mkValidator carol 1.
Definition trio : list Validator := [v1; v2; v3].
Definition engine : ZeliusEngine := NewZelius trio (Some alice_key).

Lemma leader_agreement_witness :
  snd <$> GetLeader (AddValidator engine carol 0) (wd 5) = snd <$> GetLeader engine (wd 5) /\
  snd <$> GetLeader (AddValidator engine carol 0) (wd 5) = leader_of trio (wd 5).
Proof.
  apply (leader_agreement (fun _ => True) (fun _ => True) trio trio (Some alice_key) (Some alice_key)
    (AddValidator engine carol 0) engine (wd 5)).
  - apply rtc_once, es_add.
  - apply rtc_refl.
  - vm_compute. reflexivity.
Defined.

Lemma engine_never_panics_witness :
  exists e' a, GetLeader (RemoveValidator engine bob) (wd 3) = Some (e', a) /\
    a ∈ v_address <$> Validators (RemoveValidator engine bob).
Proof.
  destruct (engine_never_panics trio (Some alice_key) (RemoveValidator engine bob) (wd 3)) as (_ & _ & H).
  - discriminate.
  - apply rtc_once, es_remove.
  - exact H.
Defined.

Lemma trio_stakes v : v ∈ trio -> 0 <= v_stake v.
Proof.
  intros Hv. assert (Forall (fun v => 0 <= v_stake v) trio) as HF by (repeat constructor; discriminate).
  rewrite Forall_forall in HF. by apply HF.
Qed.

Lemma leader_interval_witness :
  exists i v e', trio !! i = Some v /\ GetLeader engine (wd 7) = Some (e', v_address v) /\
    view_target (wd 7) (sumZ v_stake trio) <= sumZ v_stake (take (S i) trio) /\
    (i <> 0%nat -> sumZ v_stake (take i trio) < view_target (wd 7) (sumZ v_stake trio)).
Proof. apply (leader_interval trio (Some alice_key) (wd 7)); [exact trio_stakes|discriminate]. Defined.

Lemma leader_off_by_one_witness : snd <$> GetLeader engine (wd 7) <> Some carol.
Proof.
  destruct (leader_off_by_one trio v1 [v2] v3 (Some alice_key) (wd 7)) as [H _].
  - reflexivity.
  - exact trio_stakes.
  - discriminate.
  - apply (bool_decide_unpack _). vm_compute. reflexivity.
  - exact (H eq_refl).
Defined.

Definition solo : ZeliusEngine := NewZelius [v1] (Some alice_key).
Definition header1 : Header :=
  mkHeader zero_hash (Some 1) (wd 10) zero_hash zero_hash alice [] (Some 1) (wd 60000000) (wd 0) (Some 1000000000).
Definition block1 : Block := NewBlock header1 [].
Definition sig1 : bytes := default [] (Sign (hash_bytes (BlockHash block1)) alice_key).
Definition solo_after : ZeliusEngine := set_leaders solo (<[wd 1 := alice]> ∅).

Lemma single_leader key n :
  GetLeader (NewZelius [v1] key) n = Some (set_leaders (NewZelius [v1] key) (<[n := alice]> ∅), alice).
Proof.
  unfold GetLeader. cbn [LeaderSchedule NewZelius]. rewrite lookup_empty.
  change (sumZ v_stake (Validators (NewZelius [v1] key))) with 3. cbn [Z.eqb].
  set (t := be_val (hash_bytes (keccak256 (be_bytes (uval n))))).
  pose proof (Z.mod_pos_bound t 3 ltac:(lia)). change (Z.abs 3) with 3.
  cbn [Validators NewZelius pick_leader v1 v_stake v_address]. by zcase.
Qed.

Lemma solo_leader n : GetLeader solo n = Some (set_leaders solo (<[n := alice]> ∅), alice).
Proof. apply single_leader. Qed.

Lemma header_hash_binds_witness :
  norm_header (set_extra header1 []) = norm_header (mkHeader zero_hash (Some 1) (wd 10) zero_hash zero_hash alice []
    (Some 1) (wd 60000000) (wd 0) (Some 1000000000)).
Proof.
  apply (header_hash_binds (set_extra header1 [])).
  - vm_compute. repeat split; discriminate || reflexivity.
  - vm_compute. repeat split; discriminate || reflexivity.
  - intros H. exfalso. apply H. reflexivity.
  - reflexivity.
Defined.

Lemma seal_verify_witness :
  exists b', Seal solo block1 = (b', Ok tt) /\
    Verify solo (NewBlock (BHeader b') []) = Some (solo_after, Ok tt).
Proof.
  destruct (seal_verify solo block1 alice_key sig1 1 solo_after alice) as (b' & Hs & _ & Hv).
  - reflexivity.
  - reflexivity.
  - reflexivity.
  - vm_compute. reflexivity.
  - apply (solo_leader (wd 1)).
  - exists b'. split; [exact Hs|]. destruct (Hv []) as [_ H]. rewrite decide_True in H by reflexivity. exact H.
Defined.

Definition header1x : Header := set_extra header1 [wd 7].
Definition block1x : Block := NewBlock header1x [].

Lemma seal_extra_rejected_witness :
  exists e'' err, Verify solo (Seal solo block1x).1 = Some (e'', Err err).
Proof.
  apply (seal_extra_rejected solo block1x (Seal solo block1x).1 alice_key sig1 1 solo_after alice).
  - vm_compute. repeat split; discriminate || reflexivity.
  - discriminate.
  - reflexivity.
  - reflexivity.
  - vm_compute. reflexivity.
  - vm_compute. reflexivity.
  - apply (solo_leader (wd 1)).
  - reflexivity.
  - intros _ E. apply (f_equal uval) in E. vm_compute in E. discriminate.
  - intros d pk Hd. cbn [SigToPub toy_crypto]. case_bool_decide as H; [|discriminate]. destruct H as [Hl H]. exfalso. apply Hd.
    assert (sig1 = toy_sig (hash_bytes (HeaderHash (set_extra (BHeader block1x) []))) (addr_bytes alice)) as E by (vm_compute; reflexivity).
    rewrite E in H. symmetry. refine (toy_sig_inj _ _ _ _ _ Hl _ _ H); [apply length_hash_bytes|apply length_addr_bytes|].
    vm_compute. reflexivity.
Defined.

Lemma noncompliance_slashes_witness :
  Validators (Nat.iter 1000 (fun e => RecordNonCompliance e bob) engine) = [v1; v3].
Proof.
  destruct (noncompliance_slashes engine bob 0) as (_ & H & _).
  - reflexivity.
  - lia.
  - rewrite H. vm_compute. reflexivity.
Defined.

Definition parent1 : Block := NewBlock (set_extra header1 []) [].
Definition header2 : Header :=
  mkHeader (BlockHash parent1) (Some 2) (wd 11) zero_hash zero_hash alice [] (Some 0) (wd 30000000) (wd 0) (Some 10).
Definition sig2 : bytes := default [] (Sign (hash_bytes (HeaderHash header2)) alice_key).

(** An insertion sort by nonce. *)
Definition nonce_le (t t' : Transaction) : Prop := uval (tx_nonce t) <= uval (tx_nonce t').
#[export] Instance nonce_le_dec t t' : Decision (nonce_le t t').
Proof. unfold nonce_le. apply _. Defined.

Lemma merge_sort_nonce l : merge_sort nonce_le l ≡ₚ l /\ Sorted nonce_le (merge_sort nonce_le l).
Proof.
  split; [apply merge_sort_Permutation|]. apply Sorted_merge_sort.
  intros x y. unfold nonce_le. lia.
Qed.

Lemma simulate_round_block_witness :
  exists b e' e'' r, SimulateRound (merge_sort nonce_le) (wd 11) solo parent1 [] None = Some (e', Ok b) /\
    Verify e' b = Some (e'', r) /\ (r = Ok tt <-> alice = alice).
Proof.
  destruct (simulate_round_block (merge_sort nonce_le) (wd 11) solo parent1 [] alice_key 1
    (set_leaders solo (<[wd 2 := alice]> ∅)) alice sig2) as (b & e'' & r & Hs & _ & _ & _ & Hv & Hr).
  - apply merge_sort_nonce.
  - split; [apply cache_ok_cleared|]; reflexivity.
  - reflexivity.
  - reflexivity.
  - vm_compute. reflexivity.
  - apply (solo_leader (wd 2)).
  - exists b. eexists. exists e'', r. split; [exact Hs|]. split; [exact Hv|exact Hr].
Defined.

(** ** Genesis *)

Lemma genesis_hash_conflict_witness :
  ~ (HeaderHash (set_root (BHeader (GenerateGenesisBlock (GetNetworkConfig "testnet"))) zero_hash)
       = GenesisHash (GetNetworkConfig "testnet") /\
     HeaderHash (set_root (BHeader (GenerateGenesisBlock (GetNetworkConfig "mainnet"))) zero_hash)
       = GenesisHash (GetNetworkConfig "mainnet")).
Proof.
  destruct (genesis_hash_conflict zero_hash "testnet" "mainnet") as (_ & _ & H).
  - reflexivity.
  - discriminate.
  - intros _ E. apply (f_equal uval) in E. vm_compute in E. discriminate.
  - exact H.
Defined.

(** ** System contracts *)

Lemma reward_command_witness :
  parse_reward (bytes_of_string "REWARD:" ++ hex_encode (addr_bytes alice) ++ [wd 58] ++ hex_encode [wd 1; wd 0])
  = Some (alice, be_val [wd 1; wd 0]).
Proof. apply (reward_command_roundtrip alice [wd 1; wd 0]). discriminate. Defined.

Lemma registry_empty : registry default_params zero_astate [].
Proof.
  split.
  - constructor.
  - intros a Ha. by apply elem_of_nil in Ha.
  - by vm_compute.
  - cbn. apply uval_inj. by vm_compute.
  - done.
  - done.
  - done.
  - intros a _. split; [by intros ?%elem_of_nil|]. intros H. by exfalso; apply H.
Qed.

Lemma alice_regular : regular alice.
Proof. by vm_compute. Qed.

Definition message (from : Address) (to : Address) (value : Z) (data : bytes) : Message :=
  mkMessage (Some to) from (wd 0) value (wd 100000) 1 None None data.
Definition transaction (from : Address) (to : Address) (value : Z) (data : bytes) (h : Z) : Transaction :=
  mkTx 0 1 (wd 0) 1 1 1 (wd 100000) (Some to) value data (wd h) 100 (Some from) (0, 0, 0).

Definition staking : Address := StakingAddr default_params.
Definition pool : Address := RewardAddr default_params.

Definition deposit_prog : prog unit :=
  ProcessSystemContracts default_params (message alice staking 100 []) (transaction alice staking 100 [] 1).
Definition deposit_slots : list slot := remove_dups (spec_slots deposit_prog zero_astate).

Lemma staking_deposit_witness :
  exists st', refines (fun sl => sl ∈ deposit_slots) (run None deposit_prog fresh).1 st' /\
    registry default_params st' [alice] /\
    a_storage st' staking (acct_key alice) = BigToHash 100.
Proof.
  destruct (staking_deposit default_params params_ok_default (fun sl => sl ∈ deposit_slots)
    ltac:(apply collision_free_list; apply (bool_decide_unpack _); vm_compute; reflexivity)
    None fresh zero_astate [] (message alice staking 100 []) (transaction alice staking 100 [] 1))
    as (st' & H1 & H2 & H3 & _).
  - apply fresh_refines.
  - apply registry_empty.
  - reflexivity.
  - apply alice_regular.
  - vm_compute. split; reflexivity.
  - discriminate.
  - vm_compute. reflexivity.
  - intros sl Hsl. apply elem_of_remove_dups. exact Hsl.
  - exists st'. split; [exact H1|]. split; [exact H2|exact H3].
Defined.

(** Alice is registered with a stake of 100, which the contract holds. *)
Definition setup : prog u256 := _ ← deposit default_params alice 100; call (OAddBalance staking (wd 100)).
Definition staked_spec : AState :=
  let st := after_deposit default_params zero_astate alice 100 in
  aset_balance st staking (wadd (a_balance st staking) (wd 100)).
Definition staked : StateDB := (run None setup fresh).1.

Definition unstake_tx : Transaction := transaction alice staking 0 (bytes_of_string "UNSTAKE") 2.
Definition unstake_msg : Message := message alice staking 0 (bytes_of_string "UNSTAKE").
Definition staked_slots : list slot :=
  remove_dups (spec_slots setup zero_astate
    ++ spec_slots (ProcessSystemContracts default_params unstake_msg unstake_tx) staked_spec
    ++ [SStorage (ValidatorAddr default_params) zero_hash; SStorage (ValidatorAddr default_params) (index_key 0);
        SStorage pool (acct_key alice)]).

Lemma staked_collision_free : collision_free (fun sl => sl ∈ staked_slots).
Proof. apply collision_free_list. apply (bool_decide_unpack _). vm_compute. reflexivity. Qed.

Lemma staked_refines : refines (fun sl => sl ∈ staked_slots) staked staked_spec.
Proof.
  eapply (run_spec _ None setup fresh zero_astate).
  - apply staked_collision_free.
  - apply fresh_refines.
  - intros sl Hsl. apply elem_of_remove_dups, elem_of_app. by left.
  - unfold setup. rewrite spec_run_bind, deposit_run by apply params_ok_default. reflexivity.
Qed.

Lemma staked_registry : registry default_params staked_spec [alice].
Proof.
  apply registry_balance.
  apply (registry_deposit default_params params_ok_default zero_astate [] alice 100);
    [apply registry_empty|apply alice_regular|lia|by vm_compute].
Qed.

Lemma staking_unstake_witness :
  exists st', refines (fun sl => sl ∈ staked_slots)
      (run None (ProcessSystemContracts default_params unstake_msg unstake_tx) staked).1 st' /\
    registry default_params st' [] /\ a_balance st' alice = wadd (a_balance staked_spec alice) (wd 100).
Proof.
  destruct (staking_unstake default_params params_ok_default (fun sl => sl ∈ staked_slots)
    staked_collision_free None staked staked_spec [alice] unstake_msg unstake_tx 0 (wd 100))
    as (st' & H1 & H2 & _ & H4).
  - apply staked_refines.
  - apply staked_registry.
  - reflexivity.
  - reflexivity.
  - reflexivity.
  - reflexivity.
  - apply uval_inj. vm_compute. reflexivity.
  - vm_compute. discriminate.
  - intros sl Hsl. apply elem_of_remove_dups, elem_of_app. right. apply elem_of_app. left. exact Hsl.
  - exists st'. split; [exact H1|]. split; [exact H2|]. rewrite H4. reflexivity.
Defined.

Definition reward_data : bytes :=
  bytes_of_string "REWARD:" ++ hex_encode (addr_bytes bob) ++ [wd 58] ++ hex_encode [wd 30].
Definition pool_prog : prog u256 := call (OAddBalance pool (wd 50)).
Definition pool_spec : AState := aset_balance zero_astate pool (wadd (wd 0) (wd 50)).
Definition reward_prog : prog unit :=
  ProcessSystemContracts default_params (message carol pool 0 reward_data) (transaction carol pool 0 reward_data 3).
Definition pool_slots : list slot := [SBalance pool; SBalance bob].

Lemma reward_pays_any_sender_witness :
  exists st', refines (fun sl => sl ∈ pool_slots) (run None reward_prog (run None pool_prog fresh).1).1 st' /\
    a_balance st' bob = wadd (wd 0) (wd 30).
Proof.
  assert (collision_free (fun sl => sl ∈ pool_slots)) as HD
    by (apply collision_free_list; apply (bool_decide_unpack _); vm_compute; reflexivity).
  destruct (reward_pays_any_sender default_params params_ok_default (fun sl => sl ∈ pool_slots) HD None
    (run None pool_prog fresh).1 pool_spec (message carol pool 0 reward_data)
    (transaction carol pool 0 reward_data 3) bob 30) as (st' & H1 & _ & H3).
  - eapply (run_spec _ None pool_prog fresh zero_astate); [exact HD|apply fresh_refines| |reflexivity].
    intros sl Hsl. apply list_elem_of_singleton in Hsl. subst. unfold pool_slots. set_solver.
  - reflexivity.
  - reflexivity.
  - apply (bool_decide_unpack _). vm_compute. reflexivity.
  - vm_compute. split; discriminate.
  - intros E. apply (f_equal uval) in E. vm_compute in E. discriminate.
  - intros sl Hsl. assert (Forall (fun sl => sl ∈ pool_slots) (spec_slots reward_prog pool_spec)) as HF
      by (apply (bool_decide_unpack _); vm_compute; reflexivity).
    rewrite Forall_forall in HF. exact (HF sl Hsl).
  - exists st'. split; [exact H1|]. rewrite H3. reflexivity.
Defined.

Lemma sync_reads_registry_witness :
  exists e', SyncValidators engine staked = Some e' /\ v_address <$> Validators e' = [alice] /\
    v_stake <$> Validators e' = [0].
Proof.
  destruct (sync_reads_registry (fun sl => sl ∈ staked_slots) engine staked staked_spec [alice])
    as (e' & H1 & H2 & _).
  - apply staked_refines.
  - apply staked_registry.
  - discriminate.
  - apply elem_of_remove_dups, elem_of_app. right. apply elem_of_app. right. apply list_elem_of_here.
  - intros i Hi. assert (i = 0%nat) as -> by (cbn in Hi; lia).
    apply elem_of_remove_dups, elem_of_app. right. apply elem_of_app. right. apply list_elem_of_further, list_elem_of_here.
  - intros a Ha. apply list_elem_of_singleton in Ha as ->.
    apply elem_of_remove_dups, elem_of_app. right. apply elem_of_app. right.
    apply list_elem_of_further, list_elem_of_further, list_elem_of_here.
  - exists e'. split; [exact H1|]. rewrite H2. split; reflexivity.
Defined.

(** ** Executor *)

(** An EVM that transfers the value and charges 21000 gas. *)
Definition transfer_evm : EVM := {|
  ApplyMessage := fun _ _ msg _ =>
    match msg_to msg with
    | Some to => _ ← call (OSubBalance (msg_from msg) (wd (msg_value msg)));
                 _ ← call (OAddBalance to (wd (msg_value msg)));
                 mret (Some (mkResult (wd 21000) false []))
    | None => mret None
    end |}.

Definition executor : Executor := NewExecutor DefaultChainConfig (GetNetworkConfig "devnet") None.
Definition miner : Address := wd (2 ^ 64 + 9).
Definition block_header : Header :=
  mkHeader zero_hash (Some 1) (wd 10) zero_hash zero_hash miner [] (Some 1) (wd 60000000) (wd 0) None.
Definition pay1 : Transaction := transaction alice bob 5 [] 11.
Definition pay2 : Transaction := transaction carol (wd (2 ^ 64 + 4)) 6 [] 12.
Definition payments : list Transaction := [pay1; pay2].

Lemma payments_schedule : schedule payments = Some [[pay1; pay2]].
Proof. apply (bool_decide_unpack _). vm_compute. reflexivity. Qed.

Lemma payments_nodup : NoDup (tx_hash <$> payments).
Proof. apply (bool_decide_unpack _). vm_compute. reflexivity. Qed.

Lemma apply_block_receipts_witness :
  exists rs root s',
    @ApplyBlock_seq _ _ transfer_evm executor None fresh block_header payments = Some (rs, root, s') /\
    length rs = 2%nat /\ exists r, rs !! 1%nat = Some r /\ RTxHash r = tx_hash pay2.
Proof.
  destruct (@ApplyBlock_seq _ _ transfer_evm executor None fresh block_header payments)
    as [[[rs root] s']|] eqn:E.
  - exists rs, root, s'. split; [reflexivity|].
    destruct (apply_block_receipts (EV := transfer_evm) executor block_header None payments fresh rs root s' 1 pay2)
      as (Hl & r & Hr & Hh & _).
    + exists [[pay1; pay2]]. eexists. split; [apply payments_schedule|].
      split; [apply apply_waves_exec|]. rewrite <- E. unfold ApplyBlock_seq. rewrite payments_schedule. reflexivity.
    + reflexivity.
    + split; [exact Hl|]. exists r. split; [exact Hr|exact Hh].
  - exfalso. apply (f_equal (fun o => bool_decide (o = None))) in E. vm_compute in E. discriminate.
Defined.

Definition pay1_msg : Message := mkMessage (Some bob) alice (wd 0) 5 (wd 100000) 1 (Some 1) (Some 1) [].
Lemma call_isolated_witness :
  exists f r, @Call _ _ transfer_evm executor None fresh block_header pay1_msg = (Overlay f fresh, r) /\
    @Call _ _ transfer_evm executor None (NewOverlay fresh) block_header pay1_msg = (Overlay f (NewOverlay fresh), r).
Proof.
  apply (call_isolated (EV := transfer_evm) executor block_header None fresh (NewOverlay fresh) pay1_msg).
  intros k _. symmetry. apply get_new_overlay.
Defined.

(** ** Blockchain *)

(** A codec that only knows the values of a finite list. *)
Definition table_codec {A : Type} `{EqDecision A} (l : list A) : Codec A := {|
  Marshal := fun a => (fun p => [wd (Z.of_nat p.1)]) <$> list_find (fun x => x = a) l;
  Unmarshal := fun d => match d with [x] => l !! Z.to_nat (uval x) | _ => None end |}.

Lemma table_codec_laws {A : Type} `{EqDecision A} (l : list A) (ok : A -> Prop) :
  (length l < 256)%nat -> CodecLaws A (table_codec l) ok.
Proof.
  intros Hl. assert (forall a d, Marshal (Codec := table_codec l) a = Some d -> Unmarshal (Codec := table_codec l) d = Some a) as H.
  { intros a d. cbn. destruct (list_find _ l) as [[i x]|] eqn:E; [|done].
    apply list_find_Some in E as (Hi & -> & _). intros [= <-]. pose proof (lookup_lt_Some _ _ _ Hi).
    rewrite uval_wd_small by (change (2 ^ Z.of_N 8) with 256; lia). by rewrite Nat2Z.id. }
  split; [auto|]. intros a d a' Hm Hu. specialize (H a d Hm). congruence.
Qed.

Definition genesis0 : Block := GenerateGenesisBlock (GetNetworkConfig "devnet").
Definition next1 : Block := NewBlock header1 payments.
Definition stale1 : Block := NewBlock (set_gas_used header1 (wd 1)) [].
Definition block_codec : Codec Block := table_codec [genesis0; next1; stale1].
Definition receipt_codec : Codec (list Receipt) := table_codec [[]].
Definition lookup_codec : Codec TxLookupEntry :=
  table_codec [mkLookup (BlockHash next1) (wd 1) (wd 0); mkLookup (BlockHash next1) (wd 1) (wd 1)].
#[local] Existing Instances block_codec receipt_codec lookup_codec.

#[local] Instance block_codec_laws : CodecLaws Block block_codec readable.
Proof. apply table_codec_laws. cbn. lia. Qed.
#[local] Instance receipt_codec_laws : CodecLaws (list Receipt) receipt_codec always.
Proof. apply table_codec_laws. cbn. lia. Qed.
#[local] Instance lookup_codec_laws : CodecLaws TxLookupEntry lookup_codec always.
Proof. apply table_codec_laws. cbn. lia. Qed.

Definition devnet : NetworkConfig := GetNetworkConfig "devnet".
Definition added (bc : Blockchain) (b : Block) : Blockchain :=
  match AddBlock bc b (Some []) with Some (bc', _) => bc' | None => bc end.
Definition chain0 : Blockchain := added (mkChain ∅ devnet None) genesis0.
Definition chain1 : Blockchain := added chain0 next1.
Definition chain2 : Blockchain := added chain1 stale1.

Lemma added_ok bc b :
  match AddBlock bc b (Some []) with Some (_, Ok _) => true | _ => false end = true ->
  AddBlock bc b (Some []) = Some (added bc b, Ok tt).
Proof. unfold added. by destruct (AddBlock bc b (Some [])) as [[bc' [[]|err]]|]. Qed.

Ltac add_ok := apply added_ok; vm_compute; reflexivity.

Lemma chain0_ok : AddBlock (mkChain ∅ devnet None) genesis0 (Some []) = Some (chain0, Ok tt).
Proof. add_ok. Qed.
Lemma chain1_ok : AddBlock chain0 next1 (Some []) = Some (chain1, Ok tt).
Proof. add_ok. Qed.
Lemma chain2_ok : AddBlock chain1 stale1 (Some []) = Some (chain2, Ok tt).
Proof. add_ok. Qed.

(** Their transactions can be read back. *)
Lemma next1_readable : readable next1.
Proof. apply (bool_decide_unpack _). vm_compute. reflexivity. Qed.

(** Inequality of concrete words, by computation. *)
Ltac word_ne := let E := fresh in intros E; apply (f_equal uval) in E; vm_compute in E; discriminate.

Lemma add_block_lookup_witness :
  GetBlockByHash chain1 (BlockHash next1) = Some next1 /\ GetBlockByNumber chain1 (wd 1) = Some next1 /\
  ReadTxLookupEntry (chain_db chain1) (tx_hash pay2) = Some (mkLookup (BlockHash next1) (wd 1) (wd 1)).
Proof.
  destruct (add_block_lookup chain0 next1 (Some []) chain1 1) as (H1 & H2 & _ & _ & H5 & _).
  - apply chain1_ok.
  - apply next1_readable.
  - reflexivity.
  - word_ne.
  - word_ne.
  - split; [exact H1|]. split; [exact H2|]. apply (H5 payments_nodup 1%nat). reflexivity.
Defined.

Lemma chain0_chain_ok : chain_ok chain0.
Proof.
  assert (currentBlock chain0 = Some genesis0) as Hc.
  { pose proof chain0_ok as H. apply AddBlock_ok_inv in H.
    destruct H as (? & ? & ? & ? & _ & _ & _ & _ & _ & _ & [[H _]|(_ & _ & ? & ? & [=] & _)]). exact H. }
  exists genesis0, 0. split_and!; [exact Hc|reflexivity| | |word_ne].
  - destruct (AddBlock_head _ _ _ _ 0 chain0_ok) as [[_ H]|[H _]]; [reflexivity|word_ne|exact H|].
    rewrite Hc in H. discriminate.
  - apply (AddBlock_reads _ _ _ _ chain0_ok), readable_empty.
Qed.

Lemma chain_steps : rtc chain_step chain0 chain1.
Proof.
  eapply rtc_once, cs_add; [apply chain1_ok|apply next1_readable|word_ne|]. intros n [= <-]. word_ne.
Qed.

Lemma chain_restart_witness :
  NewBlockchain (chain_db chain1) devnet = Some (mkChain (chain_db chain1) devnet (currentBlock chain1)).
Proof. apply (chain_restart chain0 chain1 devnet); [apply chain0_chain_ok|apply chain_steps]. Defined.

Lemma chain1_chain_ok : chain_ok chain1 /\ currentBlock chain1 = Some next1.
Proof.
  split.
  - apply (chain_step_ok chain0); [|apply chain0_chain_ok].
    eapply cs_add; [apply chain1_ok|apply next1_readable|word_ne|]. intros n [= <-]. word_ne.
  - pose proof chain1_ok as H. apply AddBlock_ok_inv in H
      as (n & d & db2 & db3 & _ & [= <-] & _ & _ & _ & _ & [[H _]|(_ & _ & cur & m & Hc & Hm & Hle)]); [exact H|].
    exfalso. destruct chain0_chain_ok as (cur' & m' & Hc' & Hm' & _).
    pose proof chain0_ok as H0. apply AddBlock_ok_inv in H0
      as (? & ? & ? & ? & _ & _ & _ & _ & _ & _ & [[H0 _]|(_ & _ & ? & ? & [=] & _)]).
    rewrite H0 in Hc. injection Hc as <-. injection Hm as <-. lia.
Qed.

Lemma canonical_overwritten_witness :
  CurrentBlock chain2 = Some next1 /\ GetBlockByNumber chain2 (wd 1) = Some stale1 /\ stale1 <> next1.
Proof.
  destruct chain1_chain_ok as [Hok Hc].
  apply (canonical_overwritten chain1 stale1 (Some []) chain2 next1 1 1).
  - exact Hok.
  - exact Hc.
  - reflexivity.
  - reflexivity.
  - lia.
  - word_ne.
  - word_ne.
  - apply readable_empty.
  - apply chain2_ok.
Defined.

(** A codec that does not read blocks with an unreadable transaction. *)
Definition picky_codec (c : Codec Block) : Codec Block := {|
  Marshal := Marshal;
  Unmarshal := fun d => b ← Unmarshal d; if decide (readable b) then Some b else None |}.

(** A payment with a signature that makes no sense. *)
Definition forged : Transaction :=
  mkTx 0 1 (wd 0) 1 1 1 (wd 100000) (Some bob) 5 [] (wd 13) 100 (Some alice) (27, 0, 0).
Definition poisoned : Block := NewBlock header1 [forged].
Definition poisoned_codec : Codec Block := picky_codec (table_codec [genesis0; poisoned]).
Definition poisoned_lookup : Codec TxLookupEntry := table_codec [mkLookup (BlockHash poisoned) (wd 1) (wd 0)].

Lemma picky_refuses (l : list Block) : (length l < 256)%nat -> CodecRefuses (picky_codec (table_codec l)).
Proof.
  intros Hl. split. intros b d tx Hin Ht Hbad Hm. unfold Unmarshal, picky_codec.
  rewrite (unmarshal_marshal (CodecLaws := table_codec_laws l always Hl) b d I Hm). cbn [mbind option_bind].
  rewrite decide_False; [done|]. unfold readable. rewrite Forall_forall. intros H. by rewrite (H tx Hin) in Hbad.
Qed.

Lemma unreadable_head_witness :
  exists bc', AddBlock (CB := poisoned_codec) (CT := poisoned_lookup) (mkChain ∅ devnet None) poisoned (Some []) = Some (bc', Ok tt) /\
    CurrentBlock bc' = Some poisoned /\ GetBlockByHash (CB := poisoned_codec) bc' (BlockHash poisoned) = None /\
    NewBlockchain (CB := poisoned_codec) (CT := poisoned_lookup) (chain_db bc') devnet = None.
Proof.
  destruct (AddBlock (CB := poisoned_codec) (CT := poisoned_lookup) (mkChain ∅ devnet None) poisoned (Some [])) as [[bc' [[]|err]]|] eqn:E;
    [|exfalso; apply (f_equal (fun o => match o with Some (_, Ok _) => true | _ => false end)) in E; vm_compute in E; discriminate..].
  exists bc'. split; [reflexivity|].
  destruct (unreadable_head (CB := poisoned_codec) (CT := poisoned_lookup) (CRF := picky_refuses [genesis0; poisoned] ltac:(cbn; lia))
    (mkChain ∅ devnet None) poisoned (Some []) bc' 1 forged devnet) as (H1 & H2 & _ & _ & H5).
  - exact E.
  - reflexivity.
  - discriminate.
  - apply list_elem_of_here.
  - reflexivity.
  - vm_compute. reflexivity.
  - word_ne.
  - word_ne.
  - split; [exact H1|]. split; [exact H2|exact H5].
Defined.

(** A block within its gas limit, and one beyond it. *)
Lemma base_fee_bounds_witness :
  (exists fee', CalcBaseFee DefaultChainConfig (set_gas_used header1 (wd 45000000)) = Some fee' /\
     fee' <= 1000000000 + Z.max 1 (1000000000 / 8)) /\
  exists fee', CalcBaseFee DefaultChainConfig (set_gas_used header1 (wd 90000000)) = Some fee' /\ 1000000000 + 1000000000 / 8 <= fee'.
Proof.
  split.
  - destruct (base_fee_bounds DefaultChainConfig (set_gas_used header1 (wd 45000000)) 1 1000000000) as (fee' & H1 & _ & H3 & _);
      [reflexivity|reflexivity|reflexivity|lia|vm_compute; reflexivity|].
    exists fee'. split; [exact H1|]. apply H3; [vm_compute; reflexivity|vm_compute; discriminate].
  - destruct (base_fee_bounds DefaultChainConfig (set_gas_used header1 (wd 90000000)) 1 1000000000) as (fee' & H1 & _ & H3 & _);
      [reflexivity|reflexivity|reflexivity|lia|vm_compute; reflexivity|].
    exists fee'. split; [exact H1|]. apply H3; [vm_compute; reflexivity|vm_compute; discriminate].
Defined.

(** ** Node *)

#[local] Existing Instance transfer_evm.

(** A node at genesis whose only validator is alice mines one payment of hers. *)
Definition rich : StateDB := SetBalance fresh alice (wd (10 ^ 20)).
Definition node0 : Node := mkNode chain0 rich solo devnet ∅ [] false [].
Definition now0 : u64 := wd 20.
Definition mined_header : Header := default header1 (mining_header node0 now0).
Definition mining_out {CB : Codec Block} : option (list Receipt * Hash * StateDB) :=
  ApplyBlock_seq (executor_of node0) (Some (chain_db chain0)) rich mined_header [pay1].
Definition sealed_block (n : Node) : Block := default genesis0 (last (n_sent n)).
Definition mined : Block := sealed_block (default node0 (processBatch node0 [pay1] now0 mining_out)).

(** Codecs that know the mined block, its receipts and its transaction. *)
Definition mined_receipt_codec : Codec (list Receipt) :=
  table_codec [[]; match mining_out with Some (rs, _, _) => rs | None => [] end].
Definition mined_block_codec : Codec Block := table_codec [genesis0; mined].
Definition mined_lookup_codec : Codec TxLookupEntry := table_codec [mkLookup (BlockHash mined) (wd 1) (wd 0)].
#[local] Existing Instances mined_block_codec mined_receipt_codec mined_lookup_codec.

Definition mined_out : option (list Receipt * Hash * StateDB) := mining_out.
Definition node1 : Node := default node0 (processBatch node0 [pay1] now0 mined_out).

Lemma default_some {A : Type} (d : A) (o : option A) :
  match o with Some _ => true | None => false end = true -> o = Some (default d o).
Proof. by destruct o. Qed.

Lemma node0_mines : mine_step node0 [pay1] now0 node1 /\ n_sent node1 = n_sent node0 ++ [mined].
Proof.
  split.
  - apply (mine_intro _ _ _ _ [pay1] mined_header mined_out).
    + reflexivity.
    + reflexivity.
    + apply default_some. vm_compute. reflexivity.
    + replace (select_txs node0 [pay1]) with [pay1] by (vm_compute; reflexivity). apply ApplyBlock_seq_exec.
    + apply default_some. vm_compute. reflexivity.
  - vm_compute. reflexivity.
Qed.

Lemma node0_stores : CurrentBlock (n_bc node1) = Some mined /\ GetBlockByNumber (n_bc node1) (wd 1) = Some mined.
Proof. split; vm_compute; reflexivity. Qed.

(** A node without a validator key, otherwise as [node0]. *)
Definition observer : ZeliusEngine := NewZelius [v1] None.
Definition peer0 : Node := mkNode chain0 rich observer devnet ∅ [] false [].

Lemma import_replicates_witness :
  exists i', import_step peer0 mined i' /\ CurrentBlock (n_bc i') = Some mined /\
    GetBalance (n_state i') bob = wd 5.
Proof.
  destruct (import_replicates node0 [pay1] now0 node1 mined peer0 alice_key 1
              (set_leaders observer (<[wd 1 := alice]> ∅))) as (i' & Hi & Hbc & Hst).
  - apply node0_mines.
  - apply node0_mines.
  - reflexivity.
  - vm_compute. reflexivity.
  - reflexivity.
  - reflexivity.
  - reflexivity.
  - reflexivity.
  - apply (single_leader None (wd 1)).
  - exists i'. split; [exact Hi|]. rewrite Hbc, Hst. split; vm_compute; reflexivity.
Defined.

Lemma mined_block_valid_witness :
  Number (BHeader mined) = Some 1 /\ BaseFee (BHeader mined) = CalcBaseFee DefaultChainConfig (BHeader genesis0) /\
  (forall tx, tx ∈ Transactions mined -> tx ∈ [pay1]) /\ Transactions mined = [pay1].
Proof.
  destruct (mine_step_gap _ _ _ _ (proj1 node0_mines)) as [txs Hgap].
  destruct (mined_block_valid node0 (intercept_node node0 txs) (intercept_node node0 txs) [pay1] txs now0 node1 mined genesis0 0)
    as (_ & H2 & H3 & _ & _ & H6).
  - exact Hgap.
  - apply node0_mines.
  - vm_compute. reflexivity.
  - vm_compute. reflexivity.
  - split; [exact H2|]. split; [exact H3|]. split; [intros tx Htx; apply (H6 tx Htx)|vm_compute; reflexivity].
Defined.

(** The block alice sealed above, imported three times. *)
Definition sealed1 : Block := NewBlock (set_extra header1 sig1) [].

Lemma node0_can_import : can_import node0 sealed1 (10 ^ 20).
Proof.
  split_and!; [reflexivity| |reflexivity| | |].
  - change (is_Some (Number (BHeader (default genesis0 (currentBlock chain0))))). eexists. vm_compute. reflexivity.
  - eexists. apply (signed_verifies solo block1 alice_key sig1 1 _ alice);
      [reflexivity|reflexivity|vm_compute; reflexivity|apply (solo_leader (wd 1))].
  - do 2 eexists. split; [reflexivity|]. change (state_wf (setVerkleValue fresh (balanceKey alice) (u256_bytes (wd (10 ^ 20))))).
    apply state_wf_set; [apply (slot_key_is_key (SBalance alice))|apply length_u256_bytes|apply fresh_wf].
  - vm_compute. reflexivity.
Qed.

Lemma reimport_pays_again_witness :
  exists n', nsteps (fun n n' => import_step n sealed1 n') 3 node0 n' /\
    node_GetBalance n' alice = 10 ^ 20 + 3 * 10 ^ 19.
Proof.
  destruct (reimport_pays_again node0 sealed1 3 (10 ^ 20)) as [[n' Hn] H].
  - apply node0_can_import.
  - vm_compute. reflexivity.
  - exists n'. split; [exact Hn|]. apply (H n' Hn).
Defined.

(** Without a key the round executes the block and keeps the lock. *)
Definition stuck_out : option (list Receipt * Hash * StateDB) :=
  ApplyBlock_seq (executor_of peer0) (Some (chain_db chain0)) rich mined_header [].
Definition stuck : Node := default peer0 (processBatch peer0 [] now0 stuck_out).

Lemma failed_seal_locks_witness :
  n_stateLock stuck = true /\ (forall b m, ~ import_step stuck b m) /\
  GetBalance (n_state stuck) (Coinbase mined_header) <> GetBalance rich (Coinbase mined_header).
Proof.
  destruct (failed_seal_locks peer0 [] now0 stuck) as (_ & Hl & _ & _ & Hi).
  - apply (mine_intro _ _ _ _ [] mined_header stuck_out).
    + reflexivity.
    + reflexivity.
    + apply default_some. vm_compute. reflexivity.
    + apply ApplyBlock_seq_exec.
    + apply default_some. vm_compute. reflexivity.
  - vm_compute. reflexivity.
  - split; [exact Hl|]. split; [exact Hi|]. word_ne.
Defined.

#[local] Instance mined_block_codec_laws : CodecLaws Block mined_block_codec readable.
Proof. apply table_codec_laws. cbn. lia. Qed.
