(* ===== verification/NetWitnesses.v ===== *)
(** * NetWitnesses: the theorems of P2P.v at concrete messages, peers and chains. *)

From S2P Require Import Prelude Words Interfaces Rlp Types Hex StateDB Consensus Genesis Executor RawDB Blockchain Stream P2P Witnesses.
Import Concrete.

(** A 64-bit runtime, and transactions encoded as their index in a table. *)
#[local] Instance runtime : Runtime := {| max_alloc := 2 ^ 48 |}.

Definition lookup_tx (l : list Transaction) (b : bytes) : reader Transaction :=
  match b with
  | [x] => match l !! Z.to_nat (uval x) with Some tx => mret tx | None => fail ErrStream end
  | _ => fail ErrStream
  end.

Definition table_rlp (l : list Transaction) : TxRlp := {|
  tx_encode := fun tx => (fun p => writeList (writeBytes [wd (Z.of_nat p.1)])) <$> list_find (fun x => x = tx) l;
  tx_decode := b ← decodeStruct (stream_Bytes max_alloc); lookup_tx l b |}.

Lemma table_rlp_laws l : (length l < 128)%nat -> TxRlpLaws (table_rlp l).
Proof.
  intros Hl. refine {| tx_canonical := fun _ => True |}.
  - intros tx e He. cbn in He. destruct (list_find _ l) as [[i x]|]; [|done]. injection He as <-. apply zlen_writeList_pos.
  - intros tx e _ He _. cbn in He. destruct (list_find _ l) as [[i x]|] eqn:E; [|done]. injection He as <-.
    apply list_find_Some in E as (Hi & -> & _).
    pose proof (lookup_lt_Some _ _ _ Hi). eapply decodes_bind_ret.
    + apply decodes_struct; [|by apply Bytes_decodes].
      apply (fits_short _ 10); [|done]. apply (zlen_writeBytes_le [wd (Z.of_nat i)]). done.
    + unfold lookup_tx. rewrite uval_wd_small by (cbn; lia). by rewrite Nat2Z.id, Hi.
  - intros st Hst. cbn. unfold mbind, reader_bind. by rewrite ends_struct.
Defined.

#[local] Instance payments_rlp : TxRlp := table_rlp payments.
#[local] Instance payments_rlp_laws : TxRlpLaws payments_rlp.
Proof. apply table_rlp_laws. cbn. lia. Defined.

Definition announce : Msg := NewBlockMsg next1.
Definition request : Msg := GetBlocks (mkGetBlocks (BlockHash genesis0) (wd 100)).
Definition announce_wire : bytes := default [] (write_msg announce).
Definition request_wire : bytes := default [] (write_msg request).

Lemma announce_written : write_msg announce = Some announce_wire.
Proof. vm_compute. reflexivity. Qed.
Lemma request_written : write_msg request = Some request_wire.
Proof. vm_compute. reflexivity. Qed.
Lemma announce_ok : msg_ok announce.
Proof. split; [vm_compute; repeat split; discriminate || reflexivity|]. by repeat constructor. Qed.
Lemma announce_small : small announce_wire.
Proof. split; vm_compute; discriminate || reflexivity. Qed.
Lemma request_small : small request_wire.
Proof. split; vm_compute; discriminate || reflexivity. Qed.

Lemma wire_roundtrip_witness :
  exists code payload,
    decode_envelope (mkStream (announce_wire ++ request_wire) [] false)
    = Some (Ok ((code, payload), mkStream request_wire [] false)) /\
    decode_payload code payload = Some (Some announce).
Proof.
  destruct (wire_roundtrip announce announce_wire request_wire) as (code & payload & H1 & H2).
  - apply announce_written.
  - apply announce_ok.
  - apply announce_small.
  - exists code, payload. split; [exact H1|exact H2].
Defined.

Lemma pipelined_message_lost_witness :
  exists env, read_envelope [announce_wire ++ request_wire] = Some (Ok (env, [])) /\
    decode_payload env.1 env.2 = Some (Some announce).
Proof.
  destruct (pipelined_message_lost announce request announce_wire request_wire []) as (env & _ & H1 & _ & _ & H4 & _).
  - apply announce_written.
  - apply request_written.
  - apply announce_ok.
  - exact I.
  - apply announce_small.
  - apply request_small.
  - exists env. split; [exact H1|exact H4].
Defined.

Lemma oversized_envelope_witness : read_envelope [oversized ++ announce_wire] = None.
Proof. apply oversized_envelope_panics. vm_compute. reflexivity. Defined.

(** ** The server *)

#[local] Existing Instances block_codec receipt_codec lookup_codec.

Definition peer1 : Peer := NewPeer false 0.
Definition server1 : Server := mkServer chain1 {[ 0%nat := peer1 ]} {[ 0%nat ]} false.

Lemma get_blocks_served_witness :
  exists l, handleGetBlocks server1 0%nat (mkGetBlocks (BlockHash genesis0) (wd 100)) false
            = Some (with_peer server1 0%nat (fun p => Send false p (Blocks l))) /\
    Z.of_nat (length l) <= 100 /\
    (forall b, l !! 0%nat = Some b -> b = next1).
Proof.
  destruct (get_blocks_served server1 0%nat (mkGetBlocks (BlockHash genesis0) (wd 100)) false genesis0 0)
    as (l & H1 & H2 & H3 & _).
  - vm_compute. reflexivity.
  - reflexivity.
  - exists l. split; [exact H1|]. split; [exact H2|]. intros b Hb. apply H3 in Hb.
    change (GetBlockByNumber chain1 (wd 1) = Some b) in Hb.
    assert (GetBlockByNumber chain1 (wd 1) = Some next1) as Hn by (vm_compute; reflexivity).
    rewrite Hn in Hb. by injection Hb.
Defined.

Lemma rejected_peer_witness :
  exists s', handleStatus server1 0%nat (mkStatus (wd 1) (wd 7) zero_hash zero_hash (wd 0) []) false = Some (s', []) /\
    PeerCount s' = None /\ forall b f, BroadcastBlock s' b f = None.
Proof.
  destruct (rejected_peer_blocks_server server1 0%nat (mkStatus (wd 1) (wd 7) zero_hash zero_hash (wd 0) []) false)
    as (s' & H1 & _ & H3 & H4 & _).
  - reflexivity.
  - set_solver.
  - right. word_ne.
  - exists s'. split; [exact H1|]. split; [exact H4|exact H3].
Defined.

(** A network whose only validator is alice. *)
Definition alice_net : NetworkConfig :=
  mkNetworkConfig (ChainID devnet) (GenesisTime devnet) (GenesisHash devnet) (cfg_Difficulty devnet)
    (cfg_GasLimit devnet) (cfg_BaseFee devnet) (cfg_Coinbase devnet) ∅ [v1] (ConsensusCfg devnet) (Params devnet).
Definition server2 : Server :=
  mkServer (mkChain ∅ alice_net None) {[ 0%nat := set_challenge peer1 (challenge_of 5) ]} {[ 0%nat ]} false.
Definition auth_sig : bytes := default [] (Sign (hash_bytes (keccak256 (challenge_of 5))) alice_key).
Definition empty_sig : bytes := default [] (Sign (hash_bytes (keccak256 [])) alice_key).

Lemma alice_validates : PubkeyToAddress (pub_of alice_key) ∈ v_address <$> cfg_Validators (sv_Config server2).
Proof. apply list_elem_of_fmap. exists v1. split; [reflexivity|]. apply list_elem_of_singleton. reflexivity. Qed.

Lemma auth_trusts_validators_witness :
  exists s' p', handleAuth server2 0%nat (mkAuth auth_sig []) = Some s' /\ sv_objs s' !! 0%nat = Some p' /\
    p_IsTrusted p' = true.
Proof.
  destruct (auth_trusts_validators server2 0%nat (set_challenge peer1 (challenge_of 5)) (mkAuth auth_sig [])
              (pub_of alice_key)) as (s' & p' & H1 & H2 & H3 & _).
  - reflexivity.
  - vm_compute. reflexivity.
  - exists s', p'. split; [exact H1|]. split; [exact H2|]. apply (proj2 H3). exact alice_validates.
Defined.

Lemma early_auth_replay_witness :
  exists s1 i s2 p, setup_start server2 false 0 = Some (s1, i) /\
    handleAuth s1 i (mkAuth empty_sig []) = Some s2 /\ sv_objs s2 !! i = Some p /\ p_IsTrusted p = true.
Proof.
  destruct (early_auth_replay server2 false 0
              (default (server2, 0%nat) (setup_start server2 false 0)).1
              (default (server2, 0%nat) (setup_start server2 false 0)).2 alice_key empty_sig []) as (s2 & p & H1 & H2 & H3).
  - reflexivity.
  - exact alice_validates.
  - vm_compute. reflexivity.
  - do 2 eexists. exists s2, p. split; [reflexivity|]. split; [exact H1|]. split; [exact H2|exact H3].
Defined.

Lemma rate_limited_witness :
  Z.of_nat (length (handled peer1 (replicate 150 (5, [])))) <= 100 /\
  handled peer1 (replicate 100 (5, [])) = replicate 100 (5, []).
Proof.
  split.
  - apply (rate_limited peer1 (replicate 150 (5, []))); [cbn; lia|].
    apply Forall_replicate. cbn. lia.
  - apply (rate_limited peer1 (replicate 100 (5, []))); [cbn; lia| |cbn; lia|].
    + apply Forall_replicate. cbn. lia.
    + apply Forall_replicate. cbn. vm_compute. discriminate.
Defined.
