(* ===== verification/RpcWitnesses.v ===== *)
(** * RpcWitnesses: the theorems of Rpc.v, Filters.v, Running.v, Services.v, Lifecycle.v, Shutdown.v,
    Client.v and Transactions.v at
    concrete chains, nodes and commands. *)

From S2P Require Import Prelude Words Interfaces Rlp Types Hex Sanity StateDB StateOps Scheduler Consensus Genesis SystemContracts Executor RawDB Blockchain Stream P2P Node Rpc Filters Running Services Lifecycle Shutdown Client Transactions Witnesses NetWitnesses.
Import Concrete.

(** ** A chain with logs *)

#[local] Existing Instance transfer_evm.
#[local] Instance zero_tools : TxTools := {| DeriveSha := fun _ => zero_hash |}.

Definition log_of (a : Address) (topic : Z) : Log :=
  mkLog a [wd topic] [] (wd 0) zero_hash (wd 0) zero_hash (wd 0) false.
Definition with_logs (h : Hash) (l : list Log) : Receipt := mkReceipt [] (wd 1) (wd 21000) zero_bloom l h zero_addr (wd 21000).
Definition logged : list Receipt := [with_logs (wd 11) [log_of bob 1; log_of bob 2]; with_logs (wd 12) [log_of carol 1]].

Definition logged_codec : Codec (list Receipt) := table_codec [[]; logged].
#[local] Existing Instances block_codec logged_codec lookup_codec.
#[local] Instance block_codec_laws' : CodecLaws Block block_codec readable.
Proof. apply table_codec_laws. cbn. lia. Qed.
#[local] Instance logged_codec_laws : CodecLaws (list Receipt) logged_codec always.
Proof. apply table_codec_laws. cbn. lia. Qed.
#[local] Instance lookup_codec_laws' : CodecLaws TxLookupEntry lookup_codec always.
Proof. apply table_codec_laws. cbn. lia. Qed.

Definition added_with (bc : Blockchain) (b : Block) (rs : list Receipt) : Blockchain :=
  match AddBlock bc b (Some rs) with Some (bc', _) => bc' | None => bc end.
Lemma added_with_ok bc b rs :
  match AddBlock bc b (Some rs) with Some (_, Ok _) => true | _ => false end = true ->
  AddBlock bc b (Some rs) = Some (added_with bc b rs, Ok tt).
Proof. unfold added_with. by destruct (AddBlock bc b (Some rs)) as [[bc' [[]|err]]|]. Qed.

Definition log_chain : Blockchain := added_with (added_with (mkChain ∅ devnet None) genesis0 []) next1 logged.
Definition log_api : PublicEthAPI := NewPublicEthAPI log_chain fresh executor.

Lemma log_chain_ok : AddBlock (added_with (mkChain ∅ devnet None) genesis0 []) next1 (Some logged) = Some (api_bc log_api, Ok tt).
Proof. apply added_with_ok. vm_compute. reflexivity. Qed.

(** Bob's logs from block 0 on: both of the first transaction, none of the second. *)
Definition bob_logs : FilterCriteria := mkCriteria None (Some 0) None [bob] [].

Lemma getlogs_exact_witness :
  exists logs, eth_GetLogs log_api bob_logs = Some (Ok (Some logs)) /\ length logs = 2%nat /\
    forall l, l ∈ logs <-> exists i, 0 <= i <= 1 /\ stored_log (chain_db log_chain) bob_logs i l.
Proof.
  destruct (getlogs_exact log_api bob_logs 0 1 1) as [_ H].
  - vm_compute. reflexivity.
  - vm_compute. reflexivity.
  - vm_compute. discriminate.
  - vm_compute. reflexivity.
  - destruct H as (logs & H1 & H2 & H3); [vm_compute; discriminate|].
    exists logs. split; [exact H1|]. split; [|exact H3]. rewrite H2. vm_compute. reflexivity.
Defined.

Lemma rpc_serves_block_witness :
  (exists res, eth_GetBlockByHash log_api (BlockHash next1) false = Some (Some res) /\
     res !! "number"%string = Some (FUint64 (wd 1))) /\
  (exists res, eth_GetTransactionReceipt log_api (tx_hash pay2) = Some (Some res) /\
     res !! "gasUsed"%string = Some (FUint64 (wd 21000))).
Proof.
  destruct (rpc_serves_block log_api (added_with (mkChain ∅ devnet None) genesis0 []) next1 logged 1 false) as [H1 H2].
  - exact log_chain_ok.
  - exact next1_readable.
  - reflexivity.
  - lia.
  - word_ne.
  - word_ne.
  - exact payments_nodup.
  - reflexivity.
  - vm_compute. discriminate.
  - split.
    + destruct H1 as (res & E & _ & _ & _ & _ & Hn). exists res. split; [exact E|exact Hn].
    + destruct (H2 1%nat pay2 eq_refl) as (r & _ & res & Hr & _ & E & _ & _ & _ & _ & Hg). injection Hr as <-.
      exists res. split; [exact E|exact Hg].
Defined.

(** [stale1] took the number of [next1]. *)
Definition stale_api : PublicEthAPI := NewPublicEthAPI chain2 fresh executor.
Definition next1_logs : FilterCriteria := mkCriteria (Some (BlockHash next1)) None None [] [].

Lemma getlogs_by_hash_other_witness :
  exists logs, eth_GetLogs stale_api next1_logs = Some (Ok (Some logs)) /\
    forall l, l ∈ logs -> log_blockHash l <> BlockHash next1.
Proof.
  destruct (getlogs_by_hash_other stale_api next1_logs (BlockHash next1) next1 1 1) as (logs & H1 & H2).
  - reflexivity.
  - vm_compute. reflexivity.
  - reflexivity.
  - lia.
  - vm_compute. reflexivity.
  - lia.
  - intros E. apply (f_equal uval) in E. vm_compute in E. discriminate.
  - exists logs. split; [exact H1|]. intros l Hl. apply (H2 l Hl).
Defined.

(** ** A settled node *)

Module Settled.
Definition base_chain : Blockchain := added_with (mkChain ∅ devnet None) genesis0 [].
Definition bc0 : Blockchain := set_db base_chain (db_write (chain_db base_chain) (commit_batch rich)).
Definition node : Node := mkNode bc0 (New zero_hash (Some (chain_db bc0))) solo devnet ∅ [] false [].

(** A payment of alice's, signed for this network. *)
Definition unsigned : LegacyTx := NewTransaction (wd 0) (Some bob) 5 (wd 100000) 3000000000 [].
Definition signed_legacy : LegacyTx := default unsigned (SignTx (ChainID devnet) unsigned alice_key).
Definition payment : Transaction := legacy_transaction (ChainID devnet) signed_legacy.

Definition header : Header := default header1 (mining_header node now0).
Definition out {CB : Codec Block} : option (list Receipt * Hash * StateDB) :=
  ApplyBlock_seq (executor_of node) (Some (chain_db bc0)) (n_state node) header [payment].
Definition block : Block := sealed_block (default node (processBatch node [payment] now0 out)).

Definition receipts_codec : Codec (list Receipt) := table_codec [[]; match out with Some (rs, _, _) => rs | None => [] end].
Definition blocks_codec : Codec Block := table_codec [genesis0; block].
Definition entries_codec : Codec TxLookupEntry := table_codec [mkLookup (BlockHash block) (wd 1) (wd 0)].
#[local] Existing Instances blocks_codec receipts_codec entries_codec.
#[local] Instance blocks_codec_laws : CodecLaws Block blocks_codec readable.
Proof. apply table_codec_laws. cbn. lia. Qed.
#[local] Instance receipts_codec_laws : CodecLaws (list Receipt) receipts_codec always.
Proof. apply table_codec_laws. cbn. lia. Qed.
#[local] Instance entries_codec_laws : CodecLaws TxLookupEntry entries_codec always.
Proof. apply table_codec_laws. cbn. lia. Qed.

Definition mined_out : option (list Receipt * Hash * StateDB) := out.
Definition node' : Node := default node (processBatch node [payment] now0 mined_out).

Lemma base_added : @AddBlock _ block_codec logged_codec lookup_codec (mkChain ∅ devnet None) genesis0 (Some []) = Some (base_chain, Ok tt).
Proof. apply added_with_ok. vm_compute. reflexivity. Qed.

Lemma node_settled : settled node.
Proof.
  assert (db_ok (chain_db bc0)) as Hok.
  { apply db_ok_commit.
    - apply (db_ok_frame ∅); [|apply map_Forall_empty]. intros k Hk.
      exact (@AddBlock_frame _ block_codec logged_codec lookup_codec _ _ _ _ _ k base_added Hk).
    - apply state_wf_set; [apply (slot_key_is_key (SBalance _))|apply length_u256_bytes|apply fresh_wf]. }
  unfold settled. eexists _, _. split; [reflexivity|]. split; [reflexivity|].
  split; [exact (in_sync_New zero_hash (chain_db bc0) Hok)|exact Hok].
Qed.

Lemma node_mines : mine_step node [payment] now0 node' /\ n_sent node' = n_sent node ++ [block].
Proof.
  split.
  - apply (mine_intro _ _ _ _ [payment] header mined_out).
    + reflexivity.
    + reflexivity.
    + apply default_some. vm_compute. reflexivity.
    + replace (select_txs node [payment]) with [payment] by (vm_compute; reflexivity). unfold mined_out, out. apply ApplyBlock_seq_exec.
    + apply default_some. vm_compute. reflexivity.
  - vm_compute. reflexivity.
Qed.

#[local] Existing Instance runtime.
(** Typed transactions are not decoded here. *)
Definition typed_payment : Transaction :=
  mkTx 2 (ChainID devnet) (wd 0) 3000000000 2000000000 3000000000 (wd 21000) (Some bob) 5 [] (wd 22) 100 (Some alice) (0, 0, 0).
#[local] Instance toy_typed : TypedTx := {|
  typed_payload := fun tx => if tx_type tx =? 0 then None else Some [wd 192];
  decodeTyped := fun _ => None;
  sign_typed := fun _ _ _ _ _ _ _ _ _ => Some typed_payment |}.
#[local] Instance payment_rlp : TxRlp := go_tx_rlp (ChainID devnet).
#[local] Instance payment_rlp_laws : TxRlpLaws payment_rlp := go_tx_rlp_laws (ChainID devnet).
#[local] Instance payment_typed_laws : TypedTxLaws payment_rlp := go_typed_laws (ChainID devnet).
#[local] Instance payment_wallet : Wallet := go_wallet (ChainID devnet).
#[local] Instance payment_wallet_laws : WalletLaws payment_rlp_laws payment_wallet := go_wallet_laws (ChainID devnet).
Definition raw : bytes := default [] (tx_encode payment).

Lemma node_gap : exists txs, mine_gap node (intercept_node node txs) (intercept_node node txs) [payment] txs now0 node'.
Proof. exact (mine_step_gap _ _ _ _ (proj1 node_mines)). Qed.
Lemma payment_readable : Forall (fun tx => readable_tx tx = true) [payment].
Proof. constructor; [vm_compute; reflexivity|constructor]. Qed.
Lemma node_new : CurrentBlock (n_bc node) <> Some block.
Proof. assert (CurrentBlock (n_bc node) = Some genesis0) as -> by (vm_compute; reflexivity). intros E. apply (f_equal (fun o => Number (BHeader (default genesis0 o)))) in E. vm_compute in E. discriminate. Qed.

Lemma accepted_tx_mined_witness :
  payment ∈ Transactions block /\ exists i r,
    let entry := mkLookup (BlockHash block) (wd 1) (wd (Z.of_nat i)) in
    eth_GetTransactionByHash (eth_api node') (tx_hash payment) = Some (tx_fields entry payment) /\
    eth_GetTransactionReceipt (eth_api node') (tx_hash payment) = Some (Some (receipt_fields entry (tx_hash payment) block payment r)).
Proof.
  destruct node_gap as [txs Hgap].
  destruct (accepted_tx_mined node node (intercept_node node txs) (intercept_node node txs) raw (tx_hash payment) payment [payment] txs
    now0 node' block 1 alice) as (_ & H1 & H2).
  - vm_compute. reflexivity.
  - reflexivity.
  - set_solver.
  - apply NoDup_singleton.
  - apply (bool_decide_unpack _). vm_compute. reflexivity.
  - exact payment_readable.
  - exact Hgap.
  - apply node_mines.
  - exact node_new.
  - vm_compute. reflexivity.
  - vm_compute. reflexivity.
  - assert (payment ∈ Transactions block) as Hin.
    { apply H1; [exact node_settled|apply Z.le_refl|vm_compute; discriminate|vm_compute; discriminate|vm_compute; reflexivity]. }
    split; [exact Hin|]. destruct (H2 Hin) as (i & r & _ & E1 & E2). exists i, r. split; [exact E1|exact E2].
Defined.

(** A query that names block 0 gets the current nonce and balance. *)
Lemma queries_answer_head_witness :
  eth_GetTransactionCount (eth_api node) alice (mkBlockRef (Some 0) None) = Some (Ok (wd 0)) /\
  eth_GetBalance (eth_api node) alice (mkBlockRef (Some 0) None) = 10 ^ 20.
Proof.
  destruct (queries_answer_head node (mkBlockRef (Some 0) None) alice [] (Ok (BHeader genesis0))) as [H1 [H2 _]].
  - exact node_settled.
  - vm_compute. reflexivity.
  - split; [rewrite H2|rewrite H1]; vm_compute; reflexivity.
Defined.

Definition toy_hex (s : string) : option PrivateKey := Some alice_key.

Lemma zwallet_crashes_witness : zwallet toy_hex 5%nat (fun _ => eth_api node) 0%nat = Crashed.
Proof.
  destruct (zwallet_crashes toy_hex 5%nat (fun _ => eth_api node) 0%nat) as [_ H].
  apply (H alice_key (wd 0) genesis0 0 (default 0 (Difficulty (BHeader genesis0)))).
  - reflexivity.
  - vm_compute. reflexivity.
  - vm_compute. reflexivity.
  - vm_compute. reflexivity.
  - vm_compute. reflexivity.
  - vm_compute. split; discriminate || reflexivity.
Defined.

Lemma typed_tx_rejected_witness : ec_SendTransaction typed_payment (eth_api node) = None.
Proof.
  apply (typed_tx_rejected (eth_api node) typed_payment [wd 192]).
  - vm_compute. split; reflexivity.
  - reflexivity.
Defined.

Definition wire : bytes := default [] (encode_legacy signed_legacy).
Lemma wire_ok : encode_legacy signed_legacy = Some wire.
Proof. apply default_some. vm_compute. reflexivity. Qed.
Lemma wire_small : small wire.
Proof. vm_compute. split; discriminate || reflexivity. Qed.

Lemma signed_tx_roundtrip_witness :
  exists e, encode_legacy signed_legacy = Some e /\
    DecodeBytes (DecodeRLP (ChainID devnet)) e = Some (Some payment) /\ tx_sender payment = Some alice.
Proof.
  destruct (signed_tx_roundtrip (ChainID devnet) (ChainID devnet) (wd 0) (Some bob) 5 (wd 100000) 3000000000 [] alice_key signed_legacy)
    as (e & He & H).
  - apply default_some. vm_compute. reflexivity.
  - vm_compute. split; reflexivity.
  - lia.
  - lia.
  - exists e. split; [exact He|]. destruct H as (H1 & _ & _ & _ & H2 & _).
    + rewrite wire_ok in He. apply (inj Some) in He. rewrite <- He. exact wire_small.
    + split; [exact H1|exact H2].
Defined.



End Settled.

(** ** Waiting for peers *)

Definition patient : Node := mkNode chain0 rich engine devnet ∅ [] false [].

Lemma patient_waiting : waiting patient alice_key.
Proof.
  split.
  - reflexivity.
  - vm_compute. reflexivity.
  - split; [by apply cache_ok_cleared|reflexivity].
  - reflexivity.
  - apply (bool_decide_unpack _). vm_compute. reflexivity.
  - intros now. eexists. vm_compute. reflexivity.
  - intros d. cbn. rewrite bool_decide_eq_true_2 by apply length_hash_bytes. by eexists.
Qed.

Lemma silent_peers_replaced_witness :
  within silent_tick can_produce (1000 * length (Validators (n_engine patient))) patient.
Proof.
  apply (silent_peers_replaced patient alice_key).
  - exact patient_waiting.
  - apply map_Forall_empty.
Defined.

(** A registry whose only entry is bob. *)
Definition registry_state : StateDB :=
  (SetState (SetState rich sync_validatorAddr zero_hash (wd 1)).1 sync_validatorAddr (wd 1) (BytesToHash (addr_bytes bob))).1.
Definition stalled : Node := mkNode chain0 registry_state engine devnet ∅ [] false [].

Lemma registry_stalls_witness : ~ can_produce stalled /\ exists n'', silent_tick stalled n''.
Proof.
  apply (registry_stalls stalled genesis0 0 alice_key bob stalled).
  - vm_compute. split; reflexivity.
  - vm_compute. reflexivity.
  - reflexivity.
  - reflexivity.
  - vm_compute. reflexivity.
  - word_ne.
  - reflexivity.
  - apply rtc_refl.
Defined.

(** ** The console *)

Definition toy_ecdsa (s : string) : option PrivateKey := Some alice_key.

Lemma configured_ports_witness :
  exists cfg, configure toy_ecdsa (mkFlags "" 30303 "devnet" true "" "") (fun _ => true) = Some (Some cfg) /\
    open_listeners (fun _ => true) cfg = Err ErrListenHTTP.
Proof.
  eexists. split; [reflexivity|].
  match goal with |- open_listeners _ ?cfg = _ =>
    destruct (configured_ports toy_ecdsa (mkFlags "" 30303 "devnet" true "" "") (fun _ => true) cfg)
      as (_ & _ & _ & _ & H & H') end.
  - reflexivity.
  - reflexivity.
  - apply H. apply H'; reflexivity.
Defined.

#[local] Instance toy_signer : TxSigner := {|
  sign_legacy := fun cfg nonce to value gas price data key =>
    Some (mkTx 0 0 nonce price price price gas (Some to) value data (wd 31) 120 (Some (PubkeyToAddress (pub_of key))) (0, 0, 0)) |}.

Definition typed : list string := ["addkey 0xac09"; "stake  5 0x0000000000000000000000010000000000000001"; "info"; ""; "quit"; "unstake"]%string.
Definition console_env : Env := mkEnv false 0 false true.
Definition submissions (rs : list reply) : nat := length (filter (fun r => r = RSubmitted) rs).

Lemma console_facts : exists n' s' rs, console toy_ecdsa console_env patient server1 typed = Some (n', s', rs) /\ submissions rs = 1%nat.
Proof.
  assert (match console toy_ecdsa console_env patient server1 typed with Some (_, _, rs) => bool_decide (submissions rs = 1%nat) | None => false end = true) as H
    by (vm_compute; reflexivity).
  destruct (console toy_ecdsa console_env patient server1 typed) as [[[n' s'] rs]|]; [|done]. exists n', s', rs. split; [done|]. by apply bool_decide_eq_true in H.
Qed.

Lemma console_safe_witness :
  exists n' s' rs, console toy_ecdsa console_env patient server1 typed = Some (n', s', rs) /\ n_bc n' = chain0 /\ n_state n' = rich /\ length (n_txCh n') = 1%nat.
Proof.
  destruct console_facts as (n' & s' & rs & Hrun & Hone).
  destruct (console_safe toy_ecdsa console_env patient server1 typed n' s' rs)
    as (H1 & H2 & _ & _ & _ & _ & _ & txs & H3 & H4 & _).
  - exact Hrun.
  - exists n', s', rs. split; [exact Hrun|]. split; [exact H1|]. split; [exact H2|].
    rewrite H3, length_app, H4. exact Hone.
Defined.

(** ** Starting and stopping nodes *)

Definition first_cfg : Config := mkConfig "devnet" "a" 8545 None 30303 8546 "z.ipc" [].
Definition second_cfg : Config := mkConfig "devnet" "b" 8555 None 30313 8556 "z.ipc" [].
Definition idle_host : Host := mkHost ∅ ∅ ∅.
Definition up (h : Host) (v : Vessel) (i : nat) : Host * Vessel := (node_Start h v i (Ok tt) true).1.
Definition first_up : Host * Vessel := up idle_host (node_New first_cfg) 0.
Definition first_down : Host * Vessel := default first_up (node_Stop first_up.1 first_up.2 0).

Definition made : gmap nat Vessel := <[0%nat := node_New first_cfg]> ∅.
Definition running : gmap nat Vessel := <[0%nat := first_up.2]> made.
Definition stopped : gmap nat Vessel := <[0%nat := first_down.2]> running.

Lemma rpc_ports_kept_witness :
  h_ports (first_down.1) !! 8545 = Some (0%nat, ForHTTP) /\
  (node_Start first_down.1 first_down.2 0 (Ok tt) true).2 <> Ok tt.
Proof.
  destruct (rpc_ports_kept idle_host (mkProcess first_up.1 running) (mkProcess first_down.1 stopped) 0%nat first_up.2) as (_ & H & _ & H').
  - apply (rtc_l _ _ (mkProcess idle_host made)); [apply (life_new idle_host ∅ 0%nat first_cfg); reflexivity|]. apply rtc_once.
    apply (life_start idle_host made 0%nat (node_New first_cfg) (Ok tt) true _ _ (Ok tt)); reflexivity.
  - reflexivity.
  - reflexivity.
  - apply rtc_once. apply (life_stop first_up.1 running 0%nat first_up.2); reflexivity.
  - split; [exact H|]. apply H'. reflexivity.
Defined.

Lemma restart_fails_witness :
  exists h2 v2, node_Stop first_up.1 first_up.2 0 = Some (h2, v2) /\ node_Stop h2 v2 0 = None /\
    exists h3 v3, node_Start h2 v2 0 (Ok tt) true = (h3, v3, Err (ErrListen ErrListenHTTP)).
Proof.
  destruct (restart_fails idle_host (node_New first_cfg) 0%nat true first_up.1 first_up.2) as (h2 & v2 & H1 & _ & H2 & H3).
  - reflexivity.
  - split; [discriminate|]. split; [discriminate|]. discriminate.
  - exists h2, v2. split; [exact H1|]. split; [exact H2|]. destruct (H3 true) as (h3 & v3 & E & _). exists h3, v3. exact E.
Defined.

Lemma ipc_taken_over_witness :
  exists h2 v2, node_Stop (up first_up.1 (node_New second_cfg) 1).1 first_up.2 0 = Some (h2, v2) /\
    h_sockets h2 !! "z.ipc"%string = None.
Proof.
  eexists _, _. split; [reflexivity|].
  refine (proj2 (proj2 (ipc_taken_over first_up.1 0%nat 1%nat first_up.2 (node_New second_cfg) (Ok tt) _ _ _ _ _ _ _ _ _))).
  - reflexivity.
  - reflexivity.
  - discriminate.
  - reflexivity.
  - reflexivity.
Defined.

(** ** Stopping *)

Lemma stop_deadlocks_witness :
  exists n', rtc net_step (mkNet None {[ 0%nat := mkConn true false false Working Selecting ]} NotCalled) n' /\
    forall n'', rtc net_step n' n'' -> n_stop n'' <> Stopped.
Proof.
  destruct (stop_deadlocks (mkNet None {[ 0%nat := mkConn true false false Working Selecting ]} NotCalled) 0
              (mkConn true false false Working Selecting)) as (n' & H1 & H2).
  - reflexivity.
  - reflexivity.
  - reflexivity.
  - reflexivity.
  - reflexivity.
  - exists n'. split; [exact H1|]. intros n'' Hn. apply (H2 n'' Hn).
Defined.

(** ** A node started on an empty database *)

Module Started.
(** Encodings of the stored types as numbers, hence as bytes. *)
Definition flat_opt (o : option Z) : list Z := match o with Some z => [1; z] | None => [0; 0] end.
Definition unflat_opt (f z : Z) : option Z := if f =? 1 then Some z else None.
Definition flat_header (h : Header) : list Z :=
  [uval (ParentHash h); uval (Time h); uval (VerkleRoot h); uval (TxHash h); uval (Coinbase h); uval (GasLimit h); uval (GasUsed h)]
  ++ flat_opt (Number h) ++ flat_opt (Difficulty h) ++ flat_opt (BaseFee h) ++ (uval <$> ExtraData h).
Definition unflat_header (l : list Z) : option Header :=
  match l with
  | p :: t :: v :: x :: c :: gl :: gu :: nf :: n :: df :: d :: bf :: b :: extra =>
      Some (mkHeader (wd p) (unflat_opt nf n) (wd t) (wd v) (wd x) (wd c) (wd <$> extra) (unflat_opt df d) (wd gl) (wd gu) (unflat_opt bf b))
  | _ => None
  end.
#[local] Instance header_countable : Countable Header.
Proof.
  refine (inj_countable flat_header unflat_header _). intros h. unfold flat_header, unflat_header.
  destruct h as [p n t v x c e d gl gu bf]. cbn [ParentHash Number Time VerkleRoot TxHash Coinbase ExtraData Difficulty GasLimit GasUsed BaseFee].
  destruct n, d, bf; cbn; rewrite !wd_uval; do 2 f_equal; rewrite <- list_fmap_compose; (rewrite <- (list_fmap_id e) at 2);
    apply list_fmap_ext; intros i y _; apply wd_uval.
Defined.
#[local] Instance tx_countable : Countable Transaction :=
  inj_countable' (fun t => (((tx_type t, tx_chainId t), (tx_nonce t, tx_gasPrice t)), ((tx_gasTipCap t, tx_gasFeeCap t), (tx_gas t, tx_to t)),
                            ((tx_value t, tx_data t), (tx_hash t, tx_size t, tx_sender t, tx_sig t))))
    (fun '(((a, b), (c, d)), ((e, f), (g, h)), ((i, j), (k, l, m, n))) => mkTx a b c d e f g h i j k l m n) ltac:(by intros []).
#[local] Instance block_countable : Countable Block :=
  inj_countable' (fun b => (BHeader b, Transactions b)) (fun '(h, t) => NewBlock h t) ltac:(by intros []).

Definition number_codec (A : Type) `{Countable A} : Codec A := {|
  Marshal := fun a => Some (be_bytes (Z.pos (encode a)));
  Unmarshal := fun d => decode (Z.to_pos (be_val d)) |}.
Lemma number_codec_laws (A : Type) `{Countable A} (ok : A -> Prop) : CodecLaws A (number_codec A) ok.
Proof.
  assert (forall a d, Marshal (Codec := number_codec A) a = Some d -> Unmarshal (Codec := number_codec A) d = Some a) as Hrt.
  { intros a d [= <-]. cbn. rewrite be_val_bytes. change (Z.abs (Z.pos (encode a))) with (Z.pos (encode a)).
    cbn [Z.to_pos]. apply decode_encode. }
  split; [auto|]. intros a d a' Hm Hu. specialize (Hrt a d Hm). congruence.
Qed.

#[local] Instance blocks : Codec Block := number_codec Block.
#[local] Instance blocks_laws : CodecLaws Block blocks readable.
Proof. apply number_codec_laws. Qed.
#[local] Existing Instances logged_codec lookup_codec.

(** A hash for which the genesis block of the devnet has the configured hash. *)
Definition genesis_rlp : bytes := default [] (header_rlp (BHeader genesis0)).
#[local] Instance genesis_crypto : Crypto := {|
  PrivateKey := Address; PublicKey := Address;
  keccak256 := fun b => if bool_decide (b = genesis_rlp) then GenesisHash devnet else toy_keccak b;
  Sign := @Sign toy_crypto; SigToPub := @SigToPub toy_crypto; pub_of := id; PubkeyToAddress := id |}.
#[local] Instance signer : TxSigner := {| sign_legacy := fun _ _ _ _ _ _ _ _ => None |}.

Definition start : option (DB * result start_error (@Node genesis_crypto flat_verkle)) :=
  @Start genesis_crypto _ _ _ _ (@DefaultConfig genesis_crypto) alice ∅.
Definition no_engine : @ZeliusEngine genesis_crypto := NewZelius [] None.
Definition no_node : @Node genesis_crypto flat_verkle := mkNode (mkChain ∅ devnet None) fresh no_engine devnet ∅ [] false [].
Definition outcome_of {A B E : Type} (d : A) (o : option (B * result E A)) : A :=
  match o with Some (_, Ok a) => a | _ => d end.
Definition db_of {A B E : Type} (d : B) (o : option (B * result E A)) : B :=
  match o with Some (b, _) => b | _ => d end.
Definition is_ok {A B E : Type} (o : option (B * result E A)) : bool :=
  match o with Some (_, Ok _) => true | _ => false end.
Lemma outcome_ok {A B E : Type} (a : A) (b : B) (o : option (B * result E A)) :
  is_ok o = true -> o = Some (db_of b o, Ok (outcome_of a o)).
Proof. by destruct o as [[? [?|?]]|]. Qed.

Definition started : @Node genesis_crypto flat_verkle := outcome_of no_node start.
Definition start_db : DB := db_of ∅ start.

Lemma start_ok : start = Some (start_db, Ok started).
Proof. apply outcome_ok. vm_compute. reflexivity. Qed.

Lemma started_head : currentBlock (n_bc started) = Some genesis0.
Proof. vm_compute. reflexivity. Qed.
Lemma started_channel : n_txCh started = [].
Proof. vm_compute. reflexivity. Qed.
Lemma genesis_hash_nonzero : BlockHash genesis0 <> zero_hash.
Proof. intros E. apply (f_equal uval) in E. vm_compute in E. discriminate. Qed.

Lemma start_facts :
  exists db n0, start = Some (db, Ok n0) /\ currentBlock (n_bc n0) = Some genesis0 /\ n_txCh n0 = [].
Proof. exists start_db, started. split; [exact start_ok|]. split; [exact started_head|exact started_channel]. Qed.

(** A transaction is submitted and received. *)
Lemma node_invariant_witness :
  exists db n0, start = Some (db, Ok n0) /\ node_ok (with_txCh n0 []) /\ state_ok (n_state n0) /\
    NewBlockchain (chain_db (n_bc n0)) devnet = Some (mkChain (chain_db (n_bc n0)) devnet (currentBlock (n_bc n0))).
Proof.
  destruct start_facts as (db & n0 & Hs & Hhead & Htx).
  assert (plausible (n_bc n0)) as Hp.
  { intros cur Hc. rewrite Hhead in Hc. injection Hc as <-. split; [exact genesis_hash_nonzero|]. intros k [= <-]. lia. }
  destruct (node_invariant (@DefaultConfig genesis_crypto) (alice : @PrivateKey genesis_crypto) db n0 (with_txCh n0 []) [pay1] PIdle devnet)
    as (H1 & H2 & _ & H3).
  - intros b _. eexists. reflexivity.
  - exact Hs.
  - exact Hp.
  - apply (rtc_l _ _ (with_txCh n0 [pay1], [], PIdle)).
    + split; [|split; [exact Hp|discriminate]]. apply ns_intake, (is_submit n0 [] pay1). unfold SubmitTx. rewrite Htx. reflexivity.
    + apply rtc_once. split; [|split; [exact Hp|discriminate]]. apply ns_intake, is_receive. reflexivity.
  - exists db, n0. split; [exact Hs|]. split; [exact H1|]. split; [exact H2|exact H3].
Defined.
(** The same with the validator's key: the node mines a block and is started again. *)
Definition chief : @PrivateKey genesis_crypto := cfg_Coinbase devnet.
Definition boot : option (DB * result start_error (@Node genesis_crypto flat_verkle)) :=
  @Start genesis_crypto _ _ _ _ (@DefaultConfig genesis_crypto) chief ∅.
Definition booted : @Node genesis_crypto flat_verkle := outcome_of no_node boot.
Definition synced_engine : @ZeliusEngine genesis_crypto := default no_engine (SyncValidators (n_engine booted) (n_state booted)).
Definition turn_engine : @ZeliusEngine genesis_crypto := default no_engine (fst <$> GetLeader synced_engine (wd 1)).
Definition ready : @Node genesis_crypto flat_verkle := intercept_node (with_engine (with_engine booted synced_engine) turn_engine) [].
Definition first_header : Header := default header1 (header_on ready genesis0 now0).
Definition first_out : option (list Receipt * Hash * StateDB) :=
  ApplyBlock_seq (executor_of ready) (Some (chain_db (n_bc ready))) (n_state ready) first_header [].
Definition grown : @Node genesis_crypto flat_verkle := default no_node (execute_batch ready genesis0 [] now0 first_out).
Definition first_block : Block := default genesis0 (currentBlock (n_bc grown)).

Lemma boot_ok : boot = Some (db_of ∅ boot, Ok booted).
Proof. apply outcome_ok. vm_compute. reflexivity. Qed.
Lemma booted_head : currentBlock (n_bc booted) = Some genesis0.
Proof. vm_compute. reflexivity. Qed.
Lemma booted_plausible : plausible (n_bc booted).
Proof. intros cur Hc. rewrite booted_head in Hc. injection Hc as <-. split; [exact genesis_hash_nonzero|]. intros k [= <-]. lia. Qed.
Lemma grown_head : currentBlock (n_bc grown) = Some first_block.
Proof. vm_compute. reflexivity. Qed.
Lemma first_number : Number (BHeader first_block) = Some 1.
Proof. vm_compute. reflexivity. Qed.
Lemma grown_plausible : plausible (n_bc grown).
Proof.
  intros cur Hc. rewrite grown_head in Hc. apply (inj Some) in Hc. rewrite <- Hc. clear Hc cur. split.
  - intros E. apply (f_equal uval) in E. vm_compute in E. discriminate.
  - intros k Hk. rewrite first_number in Hk. apply (inj Some) in Hk. rewrite <- Hk. lia.
Qed.
Lemma synced_ok : SyncValidators (n_engine booted) (n_state booted) = Some synced_engine.
Proof. apply default_some. vm_compute. reflexivity. Qed.
Lemma chief_leads : GetLeader synced_engine (wd 1) = Some (turn_engine, chief).
Proof.
  assert (snd <$> GetLeader synced_engine (wd 1) = Some chief) as H by (vm_compute; reflexivity).
  unfold turn_engine. destruct (GetLeader synced_engine (wd 1)) as [[e a]|]; [|discriminate]. injection H as ->. reflexivity.
Qed.

(** One turn of the loop with an empty pool. *)
Lemma turn_reached (n0 n' : @Node genesis_crypto flat_verkle) parent number e1 e2 key now header out :
  let r := intercept_node (with_engine (with_engine n0 e1) e2) [] in
  n_stateLock n0 = false -> SyncValidators (n_engine n0) (n_state n0) = Some e1 ->
  CurrentBlock (n_bc n0) = Some parent -> Number (BHeader parent) = Some number ->
  GetLeader e1 (big_uint64 (number + 1)) = Some (e2, PubkeyToAddress (pub_of key)) -> privKey e2 = Some key ->
  header_on r parent now = Some header ->
  ApplyBlock (executor_of r) (Some (chain_db (n_bc r))) (n_state r) header [] out -> execute_batch r parent [] now out = Some n' ->
  plausible (n_bc n0) -> plausible (n_bc n') ->
  rtc (fun c c' => node_step c c' /\ admissible c') (n0, [], PIdle) (n', [], PIdle).
Proof.
  intros r Hl Hs Hc Hn Hg Hk Hh Hex He Hp Hp'.
  apply (rtc_l _ _ (with_engine n0 e1, [], PSynced)).
  { split; [|split; [exact Hp|discriminate]]. by apply ns_loop, (ls_sync n0 [] e1). }
  apply (rtc_l _ _ (with_engine (with_engine n0 e1) e2, drop 2800 [], PChecking (take 2800 []))).
  { split; [|split; [exact Hp|intros ? _; constructor]]. by apply ns_loop, (ls_turn (with_engine n0 e1) [] parent number e2 key). }
  apply (rtc_l _ _ (with_engine (with_engine n0 e1) e2, [], PSelected [])).
  { split; [|split; [exact Hp|discriminate]]. by apply ns_loop, (ls_check (with_engine (with_engine n0 e1) e2) [] [] []). }
  apply (rtc_l _ _ (r, [], PIntercepted [])).
  { split; [|split; [exact Hp|discriminate]]. apply ns_loop, ls_intercept. }
  apply (rtc_l _ _ (r, [], PBuilding parent [])).
  { split; [|split; [exact Hp|discriminate]]. apply ns_loop, ls_parent. exact Hc. }
  apply rtc_once. split; [|split; [exact Hp'|discriminate]]. by apply ns_loop, (ls_execute r [] parent [] now header out).
Qed.

Lemma grown_reached : rtc (fun c c' => node_step c c' /\ admissible c') (booted, [], PIdle) (grown, [], PIdle).
Proof.
  apply (turn_reached booted grown genesis0 0 synced_engine turn_engine chief now0 first_header first_out).
  - vm_compute. reflexivity.
  - exact synced_ok.
  - exact booted_head.
  - reflexivity.
  - exact chief_leads.
  - vm_compute. reflexivity.
  - fold ready. apply default_some. vm_compute. reflexivity.
  - fold ready. apply ApplyBlock_seq_exec.
  - fold ready. apply default_some. vm_compute. reflexivity.
  - exact booted_plausible.
  - exact grown_plausible.
Qed.

Lemma restart_resumes_witness :
  exists n', @Start genesis_crypto _ _ _ _ (@DefaultConfig genesis_crypto) chief (chain_db (n_bc grown)) = Some (chain_db (n_bc grown), Ok n') /\
    CurrentBlock (n_bc n') = Some first_block.
Proof.
  destruct (restart_resumes (@DefaultConfig genesis_crypto) chief (db_of ∅ boot) booted grown [] PIdle (@DefaultConfig genesis_crypto) chief
    first_block 1) as (n' & H1 & H2 & _).
  - intros b _. eexists. reflexivity.
  - exact boot_ok.
  - exact booted_plausible.
  - exact grown_reached.
  - vm_compute. reflexivity.
  - intros g Hg. assert (forall o, o = Some g -> bool_decide (BlockHash (default g o) = GenesisHash devnet) = true -> BlockHash g = GenesisHash devnet) as H.
    { intros o -> H%bool_decide_eq_true. exact H. }
    apply (H _ Hg). assert (BlockHash genesis0 = GenesisHash devnet) as E by (apply (bool_decide_unpack _); vm_compute; reflexivity).
    assert (forall o, o = Some genesis0 -> bool_decide (BlockHash (default g o) = GenesisHash devnet) = true) as H'
      by (intros o ->; apply bool_decide_eq_true; exact E).
    apply H'. vm_compute. reflexivity.
  - exact grown_head.
  - exact first_number.
  - word_ne.
  - exists n'. split; [exact H1|exact H2].
Defined.
End Started.

(** ** Transactions on a base state *)

Lemma run_well_typed_witness :
  exists f s', (run (Some ∅) transfer (NewOverlay rich)).1 = Overlay f rich /\ state_ok s' /\ db_ok (db_write ∅ (commit_batch s')).
Proof.
  destruct (run_well_typed transfer rich ∅ zero_hash) as (f & s' & H1 & _ & H3 & H4 & _).
  - split; [exact I|]. apply state_wf_set; [apply (slot_key_is_key (SBalance _))|apply length_u256_bytes|apply fresh_wf].
  - apply map_Forall_empty.
  - exists f, s'. split; [exact H1|]. split; [exact H3|exact H4].
Defined.
