(* ===== verification/MeshWitnesses.v ===== *)
(** * MeshWitnesses: the theorems about several nodes at concrete inputs.

    The four nodes of the simulation, started with computable stand-ins for the
    cryptography, the tree and encoding/json. *)

From S2P Require Import Prelude Words Interfaces Rlp Types Hex Sanity StateDB StateOps Scheduler Consensus Genesis SystemContracts Executor RawDB Blockchain Node Running Services Network Witnesses RpcWitnesses.
Import Concrete.

(** ** The stand-ins *)

#[local] Existing Instance transfer_evm.
#[local] Existing Instances Started.header_countable Started.tx_countable Started.block_countable.
#[local] Instance sim_blocks : Codec Block := Started.number_codec Block.
#[local] Instance sim_blocks_laws : CodecLaws Block sim_blocks readable.
Proof. apply Started.number_codec_laws. Qed.
(** Receipts and index entries are not read back here. *)
#[local] Instance sim_receipts : Codec (list Receipt) := {| Marshal := fun _ => Some []; Unmarshal := fun _ => None |}.
#[local] Instance sim_lookups : Codec TxLookupEntry := {| Marshal := fun _ => Some []; Unmarshal := fun _ => None |}.

Lemma sim_encodable : encodable.
Proof. split; [|split]; intros x; eexists; reflexivity. Qed.

Definition simnet : NetworkConfig := GetNetworkConfig "simulation".

(** A hash for which the genesis block of the simulation has the configured hash. *)
Definition sim_genesis : Block := NewBlock (BHeader (GenerateGenesisBlock simnet)) [].
Definition sim_genesis_rlp : bytes := default [] (header_rlp (BHeader sim_genesis)).
#[local] Instance sim_crypto : Crypto := {|
  PrivateKey := Address; PublicKey := Address;
  keccak256 := fun b => if bool_decide (b = sim_genesis_rlp) then GenesisHash simnet else toy_keccak b;
  Sign := @Sign toy_crypto; SigToPub := @SigToPub toy_crypto; pub_of := id; PubkeyToAddress := id |}.
#[local] Instance sim_crypto_laws : CryptoLaws sim_crypto.
Proof. split; [exact (@sign_length toy_crypto _)|exact (@sign_recover toy_crypto _)]. Qed.
#[local] Instance sim_signer : @TxSigner sim_crypto := {| sign_legacy := fun _ _ _ _ _ _ _ _ => None |}.

(** The keys of the simulation stand for its validators. *)
Definition sim_ecdsa (s : string) : option (@PrivateKey sim_crypto) :=
  '(i, _) ← list_find (fun k => s = k) valKeys; v_address <$> SimulationValidators !! i.

Definition sim_nodes : list (@Node sim_crypto flat_verkle) := default [] (sim_start sim_ecdsa (fun _ => true) alice).

Lemma sim_started : sim_start sim_ecdsa (fun _ => true) alice = Some sim_nodes.
Proof.
  assert (bool_decide (is_Some (sim_start sim_ecdsa (fun _ => true) alice)) = true) as H by (vm_compute; reflexivity).
  unfold sim_nodes. destruct (sim_start _ _ _); [reflexivity|]. by apply bool_decide_eq_true in H as [? ?].
Qed.

Lemma sim_facts :
  (fun n => (node_addr n, electorate n, CurrentBlock (n_bc n))) <$> sim_nodes
  = (fun v => (Some (v_address v), Some SimulationValidators, Some sim_genesis)) <$> SimulationValidators.
Proof. vm_compute. reflexivity. Qed.

Definition sim_net : list (Node * list Transaction) := (fun n => (n, [])) <$> sim_nodes.

(** What is known of each node. *)
Lemma sim_node_facts n :
  n ∈ sim_nodes -> electorate n = Some SimulationValidators /\ CurrentBlock (n_bc n) = Some sim_genesis /\
    exists key, privKey (n_engine n) = Some key.
Proof.
  intros Hn. apply list_elem_of_lookup in Hn as [i Hn]. pose proof (f_equal (fun l => l !! i) sim_facts) as H. cbn beta in H.
  rewrite !list_lookup_fmap, Hn in H. destruct (SimulationValidators !! i); [|discriminate]. cbn [fmap option_fmap option_map] in H.
  assert (node_addr n = Some (v_address v) /\ electorate n = Some SimulationValidators /\ CurrentBlock (n_bc n) = Some sim_genesis)
    as (H1 & H2 & H3) by (split; [|split]; congruence).
  split; [exact H2|]. split; [exact H3|]. unfold node_addr in H1. destruct (privKey _); [by eexists|discriminate].
Qed.

Lemma sim_addrs : (fun c => node_addr c.1) <$> sim_net = (fun v => Some (v_address v)) <$> SimulationValidators.
Proof.
  pose proof (f_equal (fmap (fun x => x.1.1)) sim_facts) as H. rewrite <- !list_fmap_compose in H.
  unfold sim_net. rewrite <- list_fmap_compose. exact H.
Qed.

Lemma sim_addrs_nodup : NoDup ((fun c => node_addr c.1) <$> sim_net).
Proof. rewrite sim_addrs. apply (bool_decide_unpack _). vm_compute. reflexivity. Qed.

Lemma sim_replicas :
  exists bc s, Forall (fun c => replica bc s simnet (Some SimulationValidators) c.1 /\ c.2 = []) sim_net /\
    CurrentBlock bc = Some sim_genesis /\ length sim_net = 4%nat.
Proof.
  destruct (sim_start_replicas sim_ecdsa (fun _ => true) alice sim_nodes sim_encodable sim_started) as (Hlen & _ & bc & s & ovs & HF & _).
  assert (exists n, n ∈ sim_nodes) as [n Hn].
  { destruct sim_nodes as [|n l]; [discriminate|]. exists n. left. }
  rewrite Forall_forall in HF. destruct (sim_node_facts n Hn) as (Hv & Hc & _).
  exists bc, s. split; [|split].
  - unfold sim_net. apply Forall_fmap, Forall_forall. intros m Hm. split; [|reflexivity]. cbn [fst].
    replace (Some SimulationValidators) with ovs; [by apply HF|]. rewrite <- Hv. symmetry. apply (re_vs _ _ _ _ _ (HF n Hn)).
  - rewrite <- (re_bc _ _ _ _ _ (HF n Hn)). exact Hc.
  - unfold sim_net. rewrite length_fmap. exact Hlen.
Qed.

Lemma sim_keys :
  Forall (fun c : Node * list Transaction => exists key, privKey (n_engine c.1) = Some key /\ forall d, is_Some (Sign (hash_bytes d) key)) sim_net.
Proof.
  unfold sim_net. apply Forall_fmap, Forall_forall. intros n Hn. destruct (sim_node_facts n Hn) as (_ & _ & key & Hk).
  exists key. split; [exact Hk|]. intros d. cbn. rewrite bool_decide_eq_true_2 by apply length_hash_bytes. by eexists.
Qed.

(** ** A first round *)

Lemma sim_leader : exists leader, leader_of SimulationValidators (big_uint64 (0 + 1)) = Some leader /\
  Some leader ∈ (fun c => node_addr c.1) <$> sim_net.
Proof.
  destruct (leader_of_total SimulationValidators (big_uint64 (0 + 1))) as [a Ha]; [discriminate|]. exists a. split; [exact Ha|].
  rewrite sim_addrs. apply leader_of_elem in Ha. apply list_elem_of_fmap in Ha as (v & -> & Hv).
  apply list_elem_of_fmap. exists v. split; [reflexivity|exact Hv].
Qed.

Lemma next_round_exists_witness :
  exists b ns', sync_round b sim_net ns' /\ Number (BHeader b) = Some 1 /\
    Forall (fun c : Node * list Transaction => exists e, Verify (n_engine c.1) b = Some (e, Ok tt)) ns'.
Proof.
  destruct sim_replicas as (bc & s & HF & Hc & _). destruct sim_leader as (leader & Hl & Hin).
  destruct (next_round_exists bc s simnet SimulationValidators 0 sim_genesis leader sim_net)
    as (b & ns' & bc' & H1 & H2 & _ & _ & H5 & _).
  - exact sim_encodable.
  - exact HF.
  - exact sim_keys.
  - exact sim_addrs_nodup.
  - exact Hc.
  - reflexivity.
  - vm_compute. eexists. reflexivity.
  - exact Hl.
  - exact Hin.
  - exists b, ns'. split; [exact H1|]. split; [exact H2|]. eapply Forall_impl; [exact H5|]. by intros c (_ & _ & H).
Defined.

(** A tick at time 0 of a node whose turn it is, with nothing in the pool. *)
Definition turn (n : @Node sim_crypto flat_verkle) : option Node :=
  let s := AddBalanceReward (n_state n) (cfg_Coinbase (n_netCfg n)) (wd block_reward) in
  match elect n with
  | Some (e, proposer, my) =>
      if bool_decide (proposer = my) then @processBatch sim_crypto flat_verkle _ _ _ (with_engine n e) [] (wd 0) (Some ([], IntermediateRoot s, s))
      else None
  | None => None
  end.

Lemma turn_tick n n' :
  turn n = Some n' -> n_stateLock n = false -> is_Some (mining_header n (wd 0)) -> tick n [] (Proposed None) n' [].
Proof.
  unfold turn. destruct (elect n) as [[[e p] my]|] eqn:Ee; [|discriminate]. destruct (bool_decide (p = my)) eqn:Eb; [|discriminate].
  apply bool_decide_eq_true in Eb as ->. intros Hp Hlock [h Hh]. symmetry in Ee.
  apply (tick_mine n [] e my (wd 0) 0 n' Hlock Ee).
  refine (mine_intro (with_engine n e) [] (wd 0) n' [] h _ Hlock (reflexivity _) Hh _ Hp).
  apply ApplyBlock_empty. unfold mining_header, header_on in Hh. destruct (CurrentBlock (n_bc n)) as [cur|]; [|discriminate]. cbn in Hh.
  destruct (Number _) as [k|]; [|discriminate]. cbn in Hh. destruct (CalcBaseFee _ _); [|discriminate]. cbn in Hh.
  injection Hh as <-. reflexivity.
Qed.

(** The fourth node leads number 1. *)
Definition idle_node : @Node sim_crypto flat_verkle :=
  mkNode (mkChain ∅ simnet None) fresh (NewZelius [] None) simnet ∅ [] false [].
Definition leader_node : @Node sim_crypto flat_verkle := default idle_node (sim_nodes !! 3%nat).
Definition leader_after : @Node sim_crypto flat_verkle := default idle_node (turn leader_node).
Definition proposal : Block := default sim_genesis (last (n_sent leader_after)).

Definition turn_checks (n : @Node sim_crypto flat_verkle) (o : option (@Node sim_crypto flat_verkle)) : bool :=
  match o with
  | Some n' =>
      let b := default sim_genesis (last (n_sent n')) in
      bool_decide (n_sent n' = [b]) && bool_decide (ReadBlock (chain_db (n_bc n)) (BlockHash b) = None)
      && bool_decide (Transactions b = []) && bool_decide (n_sent n = []) && negb (n_stateLock n)
      && bool_decide (is_Some (mining_header n (wd 0))) && bool_decide (electorate n' = Some SimulationValidators)
      && bool_decide (BlockHash b <> BlockHash sim_genesis)
  | None => false
  end.

Lemma turn_checked : turn_checks leader_node (turn leader_node) = true.
Proof. vm_compute. reflexivity. Qed.

Lemma leader_at : sim_net !! 3%nat = Some (leader_node, []).
Proof.
  destruct sim_replicas as (_ & _ & _ & _ & Hlen). unfold sim_net in *. rewrite length_fmap in Hlen.
  rewrite list_lookup_fmap. unfold leader_node. destruct (sim_nodes !! 3%nat) eqn:E; [reflexivity|].
  apply lookup_ge_None in E. lia.
Qed.

(** What the checks say of any node. *)
Lemma turn_checks_spec n n' (o : option Node) :
  o = turn n -> turn_checks n o = true -> default idle_node o = n' ->
  let b := default sim_genesis (last (n_sent n')) in
  tick n [] (Proposed None) n' [] /\ n_sent n' = [b] /\ n_sent n = [] /\
  ReadBlock (chain_db (n_bc n)) (BlockHash b) = None /\ Transactions b = [] /\
  electorate n' = Some SimulationValidators /\ BlockHash b <> BlockHash sim_genesis.
Proof.
  intros Ho H Hd. unfold turn_checks in H. destruct o as [n1|]; [|discriminate]. change (n1 = n') in Hd. subst n1.
  cbv zeta in H |- *. set (b := default _ (last _)) in *. rewrite !andb_true_iff, negb_true_iff, !bool_decide_eq_true in H.
  destruct H as [[[[[[[H1 H2] H3] H4] H5] H6] H7] H8]. symmetry in Ho.
  split; [apply (turn_tick _ _ Ho H5 H6)|]. split; [exact H1|]. split; [exact H4|]. split; [exact H2|]. split; [exact H3|]. split; [exact H7|exact H8].
Qed.

(** What the fourth node's turn does. *)
Lemma turn_facts :
  tick leader_node [] (Proposed None) leader_after [] /\ n_sent leader_after = [proposal] /\ n_sent leader_node = [] /\
  ReadBlock (chain_db (n_bc leader_node)) (BlockHash proposal) = None /\ Transactions proposal = [] /\
  electorate leader_after = Some SimulationValidators /\ BlockHash proposal <> BlockHash sim_genesis.
Proof. exact (turn_checks_spec leader_node leader_after (turn leader_node) eq_refl turn_checked eq_refl). Qed.

(** A calm round of the four nodes, in which they mine the first block. *)
Lemma first_round : exists ns', calm_round sim_net ns'.
Proof.
  destruct turn_facts as (Ht & Hs & Hs0 & Hnew & Htx & _). destruct sim_replicas as (bc & s & HF & _ & _).
  assert (Forall (fun c : Node * list Transaction => replica bc s simnet (Some SimulationValidators) c.1) sim_net) as HF1
    by (eapply Forall_impl; [exact HF|]; by intros c [Hc _]).
  destruct (followers_exist bc s simnet SimulationValidators sim_net 3 leader_node leader_after [] [] None proposal) as [ns' Hr].
  - exact HF1.
  - eapply Forall_impl; [exact sim_keys|]. intros c (key & Hk & _). by eexists.
  - exact sim_addrs_nodup.
  - exact leader_at.
  - exact Ht.
  - rewrite Hs, Hs0. reflexivity.
  - exists ns', proposal. split; [exact Hr|]. split; [|split].
    + exists zero_addr. rewrite Htx. constructor.
    + rewrite Forall_lookup in HF1. pose proof (re_bc _ _ _ _ _ (HF1 _ _ leader_at)) as Hbc. cbn [fst] in Hbc.
      apply Forall_lookup_2. intros i c Hi. rewrite (re_bc _ _ _ _ _ (HF1 _ _ Hi)), <- Hbc. exact Hnew.
    + apply Forall_forall. intros c _. left. rewrite Htx. constructor.
Qed.

Lemma network_in_step_witness :
  exists ns', calm_run 1 sim_net ns' /\ rtc mesh_step sim_net ns' /\
    exists bc' s' ovs', Forall (fun c => replica bc' s' simnet ovs' c.1) ns' /\ head_at bc' 1.
Proof.
  destruct first_round as [ns' Hr]. destruct sim_replicas as (bc & s & HF & Hc & _).
  assert (calm_run 1 sim_net ns') as Hrun by (eapply calm_next; [exact Hr|constructor]).
  destruct (network_in_step bc s simnet (Some SimulationValidators) 0 1 sim_net ns') as [H1 H2].
  - exact sim_encodable.
  - eapply Forall_impl; [exact HF|]. by intros c [H _].
  - exists sim_genesis. split; [exact Hc|reflexivity].
  - exact Hrun.
  - exists ns'. split; [exact Hrun|]. split; [exact H1|exact H2].
Defined.

Lemma simulation_result_witness :
  exists ns', calm_run 1 sim_net ns' /\ sim_monitor (fst <$> ns') = Some false.
Proof.
  destruct first_round as [ns' Hr].
  assert (calm_run 1 sim_net ns') as Hrun by (eapply calm_next; [exact Hr|constructor]).
  destruct (simulation_result sim_ecdsa (fun _ => true) alice sim_nodes 1 ns') as [_ H].
  - exact sim_encodable.
  - exact sim_started.
  - reflexivity.
  - exact Hrun.
  - exists ns'. split; [exact Hrun|exact H].
Defined.

(** ** No forks *)

Lemma sim_net_started : Forall (started "simulation") sim_net.
Proof.
  destruct (sim_start_replicas sim_ecdsa (fun _ => true) alice sim_nodes sim_encodable sim_started) as (_ & H & _).
  apply Forall_fmap. exact H.
Qed.

Lemma sim_steady : steady SimulationValidators sim_net.
Proof.
  intros i c Hi. destruct sim_replicas as (bc & s & HF & _). rewrite Forall_lookup in HF. apply (HF _ _ Hi).
Qed.

(** A started node has sent nothing and its engine is the configured one. *)
Lemma sim_started_facts i c :
  sim_net !! i = Some c -> n_sent c.1 = [] /\ n_stateLock c.1 = false /\ n_netCfg c.1 = simnet /\ engine_ok (n_engine c.1) /\
    Validators (n_engine c.1) = SimulationValidators /\ NonCompliantValidators (n_engine c.1) = ∅.
Proof.
  intros Hi. pose proof sim_net_started as HF. rewrite Forall_lookup in HF. destruct (HF _ _ Hi) as (_ & cfg & dk & db & Hnet & Hs).
  destruct (Start_spec _ _ _ _ _ Hs) as (_ & _ & _ & _ & He & Hcfg & Hlock & Hsent). rewrite Hnet in He, Hcfg.
  split; [exact Hsent|]. split; [exact Hlock|]. split; [exact Hcfg|]. rewrite He. split; [|split; reflexivity].
  split; [by apply cache_ok_cleared|reflexivity].
Qed.

Definition after_first : list (Node * list Transaction) := <[3%nat := (leader_after, [])]> sim_net.

Lemma after_first_at i c : after_first !! i = Some c -> c = (leader_after, []) \/ sim_net !! i = Some c.
Proof.
  unfold after_first. intros Hi. destruct (decide (i = 3%nat)) as [->|Hne].
  - rewrite list_lookup_insert_eq in Hi; [left; congruence|]. by eapply lookup_lt_Some, leader_at.
  - rewrite list_lookup_insert_ne in Hi by congruence. by right.
Qed.

Lemma after_first_steady : steady SimulationValidators after_first.
Proof.
  intros i c Hi. destruct (after_first_at _ _ Hi) as [->|H]; [apply turn_facts|]. by eapply sim_steady.
Qed.

(** A block new to its proposer collides with nothing the proposer stores. *)
Lemma new_block_collisions n n' b k :
  stored_below (n_bc n) k -> 0 <= k -> engine_ok (n_engine n) -> tick n [] (Proposed None) n' [] ->
  n_sent n' = n_sent n ++ [b] -> ReadBlock (chain_db (n_bc n)) (BlockHash b) = None ->
  forall h b', ReadBlock (chain_db (n_bc n')) h = Some b' -> BlockHash b = BlockHash b' -> BHeader b = BHeader b'.
Proof.
  intros Hsb H0 He Ht Hs Hnew h b' Hst Hh. destruct (tick_minted _ _ _ _ _ b He Ht Hs) as (vs & key & k' & Hmi).
  assert (k' = k) as ->.
  { destruct Hsb as [(cur & Hc & Hk) _]. destruct (mi_head _ _ _ _ _ _ _ Hmi) as (cur' & Hc' & Hk2 & _). congruence. }
  destruct (mi_stored _ _ _ _ _ _ _ Hmi) as (rs & s & r & _ & Hadd & _).
  destruct (add_stored _ k _ _ _ _ _ (k + 1) sim_encodable Hsb (mi_number _ _ _ _ _ _ _ Hmi) ltac:(lia) Hadd) as [(_ & [x Hx] & _)|(_ & Hrd)].
  - rewrite Hnew in Hx. discriminate.
  - destruct (Hrd _ _ Hst) as [[_ ->]|Hst']; [reflexivity|].
    destruct (proj2 Hsb _ _ Hst') as [-> _]. congruence.
Qed.

Lemma after_first_collisions : no_collision after_first.
Proof.
  intros i c h b b' Hi Hb Hst Hh. destruct (after_first_at _ _ Hi) as [->|H].
  2:{ destruct (sim_started_facts _ _ H) as (Hs & _). rewrite Hs in Hb. exfalso. exact (not_elem_of_nil _ Hb). }
  destruct turn_facts as (Ht & Hs & Hs0 & Hnew & _).
  assert (b = proposal) as Eb. { apply list_elem_of_singleton. rewrite <- Hs. exact Hb. }
  destruct (sim_started_facts _ _ leader_at) as (_ & _ & _ & He & _).
  destruct (started_net_ok "simulation" SimulationValidators sim_net sim_encodable) as (g & _ & Hok).
  { intros j d. revert j d. apply Forall_lookup. exact sim_net_started. }
  destruct (no_sound _ _ _ _ Hok _ _ leader_at) as [k Hk].
  refine (new_block_collisions leader_node leader_after b k (so_stored _ _ _ Hk) (so_height _ _ _ Hk) He Ht _ _ h b' Hst Hh).
  - rewrite Hs, Hs0, Eb. reflexivity.
  - rewrite Eb. exact Hnew.
Qed.

Lemma no_forks_witness :
  rtc (fun x y => mesh_step x y /\ steady SimulationValidators y /\ no_collision y) sim_net after_first /\
  forall i j c d h h' b b', after_first !! i = Some c -> after_first !! j = Some d ->
    GetBlockByHash (n_bc c.1) h = Some b -> GetBlockByHash (n_bc d.1) h' = Some b' ->
    Number (BHeader b) = Number (BHeader b') -> same_proposal b b'.
Proof.
  assert (rtc (fun x y => mesh_step x y /\ steady SimulationValidators y /\ no_collision y) sim_net after_first) as Hr.
  { apply rtc_once. split; [|split; [exact after_first_steady|exact after_first_collisions]].
    exact (mesh_tick sim_net 3 leader_node [] (Proposed None) leader_after [] leader_at (proj1 turn_facts)). }
  split; [exact Hr|]. intros i j c d h h' b b' Hi Hj.
  destruct (no_forks "simulation" SimulationValidators sim_net after_first) with (i := i) (j := j) (c := c) (d := d) as [_ H].
  - exact sim_encodable.
  - exact sim_net_started.
  - exact sim_addrs_nodup.
  - exact sim_steady.
  - exact Hr.
  - exact Hi.
  - exact Hj.
  - apply H.
Defined.

(** ** Slashing *)

Definition first_node : @Node sim_crypto flat_verkle := default idle_node (sim_nodes !! 0%nat).

Lemma first_at : sim_net !! 0%nat = Some (first_node, []).
Proof.
  destruct sim_replicas as (_ & _ & _ & _ & Hlen). unfold sim_net in *. rewrite length_fmap in Hlen.
  rewrite list_lookup_fmap. unfold first_node. destruct (sim_nodes !! 0%nat) eqn:E; [reflexivity|].
  apply lookup_ge_None in E. lia.
Qed.

Lemma first_registry : hash_big (GetState (n_state first_node) sync_validatorAddr zero_hash) = 0.
Proof. vm_compute. reflexivity. Qed.

Lemma node_at_addr i n (v : Validator) :
  sim_net !! i = Some (n, []) -> SimulationValidators !! i = Some v -> privKey (n_engine n) = Some (v_address v).
Proof.
  intros Hi Hv. pose proof (f_equal (fun l => l !! i) sim_addrs) as H. cbn beta in H. rewrite !list_lookup_fmap, Hi, Hv in H.
  injection H as H. unfold node_addr in H. destruct (privKey _); [|discriminate]. injection H as ->. reflexivity.
Qed.

Definition first_key : @PrivateKey sim_crypto := addr_lit "0xf39Fd6e51aad88F6F4ce6aB8827279cffFb92266".
Definition leader_key : @PrivateKey sim_crypto := addr_lit "0x90F79bf6EB2c4f870365E785982E1f101E93b906".

Lemma first_waiting : waiting first_node first_key.
Proof.
  destruct (sim_started_facts _ _ first_at) as (_ & Hlock & Hcfg & He & Hv & _). cbn [fst] in *.
  pose proof (node_at_addr _ _ (validator_lit "0xf39Fd6e51aad88F6F4ce6aB8827279cffFb92266") first_at eq_refl) as Hk.
  split; [exact Hlock|exact first_registry|exact He|exact Hk| | |].
  - rewrite Hv. left.
  - intros now. destruct sim_replicas as (bc & s & HF & Hc & _). rewrite Forall_lookup in HF.
    destruct (HF _ _ first_at) as [Hrep _]. cbn [fst] in Hrep. unfold mining_header, header_on.
    rewrite (re_bc _ _ _ _ _ Hrep), Hc, (re_cfg _ _ _ _ _ Hrep). eexists. reflexivity.
  - intros d. cbn. rewrite bool_decide_eq_true_2 by apply length_hash_bytes. by eexists.
Qed.

Lemma slashing_forks_witness :
  within silent_tick (fun m => splits_from proposal (n_engine leader_after) leader_key m first_key)
    (1000 * length (Validators (n_engine first_node))) first_node.
Proof.
  destruct turn_facts as (Ht & Hs & Hs0 & _ & Htx & _).
  destruct (sim_started_facts _ _ leader_at) as (_ & _ & _ & He & _). destruct (sim_started_facts _ _ first_at) as (_ & _ & _ & _ & _ & Hnc).
  destruct sim_replicas as (bc & s & HF & _). rewrite Forall_lookup in HF.
  destruct (HF _ _ first_at) as [H1 _], (HF _ _ leader_at) as [H2 _]. cbn [fst] in *.
  apply (slashing_forks leader_node first_node leader_key first_key leader_after proposal).
  - exact first_waiting.
  - rewrite Hnc. apply map_Forall_empty.
  - rewrite (re_bc _ _ _ _ _ H1), (re_bc _ _ _ _ _ H2). reflexivity.
  - exact He.
  - exact (node_at_addr _ _ (validator_lit "0x90F79bf6EB2c4f870365E785982E1f101E93b906") leader_at eq_refl).
  - intros E. apply (f_equal uval) in E. vm_compute in E. discriminate.
  - exact Ht.
  - rewrite Hs, Hs0. reflexivity.
  - exact Htx.
Defined.
