(* ===== verification/StakeWitnesses.v ===== *)
(** * StakeWitnesses: a block of staking transactions on a concrete state.

    [cash_evm] is a concrete EVM for plain transfers, with the checks of nonce and balance; it
    satisfies [PlainCalls]. Alice and bob stake, and alice leaves again, in one block. *)

From S2P Require Import Prelude Words Interfaces Rlp Types Hex StateDB StateOps Scheduler Consensus Genesis SystemContracts Executor Serial RawDB Blockchain Node Running Staking Supply Isolation Witnesses.
Import Concrete.

(** ** An EVM for plain transfers *)

Definition cash_gas : u64 := wd 21000.

Definition cash_transfer (ctx : BlockContext) (baseFee : Z) (msg : Message) (to : Address) (nonce : u64) : prog (option ExecutionResult) :=
  _ ← call (OSetNonce (msg_from msg) (wadd nonce (wd 1)));
  _ ← call (OSubBalance (msg_from msg) (wd (msg_value msg + gas_fee cash_gas (msg_gasPrice msg))));
  _ ← call (OAddBalance to (wd (msg_value msg)));
  _ ← call (OAddBalance (ctx_Coinbase ctx) (wd (gas_fee cash_gas (msg_gasPrice msg - baseFee))));
  mret (Some (mkResult cash_gas false [])).

#[local] Instance cash_evm : EVM := {|
  ApplyMessage := fun _ ctx msg _ =>
    match msg_to msg, ctx_BaseFee ctx with
    | Some to, Some baseFee =>
        nonce ← call (OGetNonce (msg_from msg));
        balance ← call (OGetBalance (msg_from msg));
        if bool_decide (nonce = msg_nonce msg /\ uval nonce < 2 ^ 62 /\ baseFee <= msg_gasPrice msg /\ 0 <= msg_gasPrice msg /\
                        msg_value msg + gas_fee cash_gas (msg_gasPrice msg) <= uval balance)
        then cash_transfer ctx baseFee msg to nonce else mret None
    | _, _ => mret None
    end |}.

(** The transfer on the account specification. *)
Lemma cash_transfer_run ctx baseFee msg to nonce st :
  uval nonce < 2 ^ 62 ->
  spec_run (cash_transfer ctx baseFee msg to nonce) st
  = Some (credit (credit (debit (aset_nonce st (msg_from msg) (wadd nonce (wd 1))) (msg_from msg)
                            (wd (msg_value msg + gas_fee cash_gas (msg_gasPrice msg))))
                    to (wd (msg_value msg))) (ctx_Coinbase ctx) (wd (gas_fee cash_gas (msg_gasPrice msg - baseFee))),
          Some (mkResult cash_gas false [])).
Proof.
  intros Hn. unfold cash_transfer. rewrite spec_run_call. cbn [spec_op].
  assert ((uval (wadd nonce (wd (w := 64) 1)) <=? 2 ^ 63) = true) as ->.
  { apply Z.leb_le. unfold wadd. pose proof (uval_range nonce). rewrite (uval_wd_small 1) by done.
    rewrite uval_wd_small by (change (2 ^ Z.of_N 64) with (2 ^ 64) in *; lia). lia. }
  do 3 (rewrite spec_run_call; cbn [spec_op]). reflexivity.
Qed.

#[local] Instance cash_calls : PlainCalls cash_evm.
Proof.
  split. intros D id ctx baseFee msg gas to db s st s' res HC HF Hr Hbf Hto _ _ Hv Hrun. cbn [ApplyMessage cash_evm] in Hrun.
  rewrite Hto, Hbf in Hrun. rewrite !run_call in Hrun. cbn [exec_op] in Hrun. rewrite run_call in Hrun. cbn [exec_op] in Hrun.
  unfold call_slots in HF. rewrite !Forall_cons in HF. destruct HF as (Hbf' & Hbt & Hbc & Hnf & _).
  rewrite (Hr _ Hnf), (Hr _ Hbf') in Hrun. case_bool_decide as Hok; [|done]. destruct Hok as (_ & Hn & Hp & H0 & Hpay).
  pose proof (cash_transfer_run ctx baseFee msg to (a_nonce st (msg_from msg)) st Hn) as Hspec.
  assert (within D (cash_transfer ctx baseFee msg to (a_nonce st (msg_from msg))) st) as Hin.
  { unfold cash_transfer. apply within_call; [by repeat constructor|]. intros st1 [] _.
    do 3 (apply within_call; [by repeat constructor|]; intros ? ? _). apply within_ret. }
  destruct (run_spec D db (cash_transfer ctx baseFee msg to (a_nonce st (msg_from msg))) s st _ _ HC Hr Hin Hspec) as [Hres Href].
  rewrite Hrun in Hres, Href. cbn [fst snd] in Hres, Href. apply (inj Some) in Hres. rewrite Hres. split; [done|]. eexists. split; [exact Href|].
  cbn [UsedGas]. split_and!; try done. unfold gas_fee. pose proof (uval_range cash_gas). nia.
Qed.

(** ** Two validators join and one leaves *)

(** A decidable fact about concrete data. *)
Ltac by_decision := apply (bool_decide_unpack _); vm_compute; reflexivity.

Definition wealthy : StateDB := SetBalance (SetBalance fresh alice (wd (10 ^ 18))) bob (wd (10 ^ 18)).
Definition wealthy_spec : AState := aset_balance (aset_balance zero_astate alice (wd (10 ^ 18))) bob (wd (10 ^ 18)).
Definition fee_header : Header :=
  mkHeader zero_hash (Some 1) (wd 10) zero_hash zero_hash miner [] (Some 1) (wd 60000000) (wd 0) (Some 1000000000).
Definition no_stakes : Ledger := mkLedger [] (fun _ => 0) 0.

(** Transactions at a gas price of 2 gwei. *)
Definition priced_tx (from : Address) (nonce : Z) (to : Address) (value : Z) (data : bytes) (h : Z) : Transaction :=
  mkTx 0 1 (wd nonce) 2000000000 2000000000 2000000000 (wd 100000) (Some to) value data (wd h) 100 (Some from) (0, 0, 0).
Definition stake_alice : Transaction := priced_tx alice 0 staking 100 [] 21.
Definition stake_bob : Transaction := priced_tx bob 0 staking 50 [] 22.
Definition leave_alice : Transaction := priced_tx alice 1 staking 0 (bytes_of_string "UNSTAKE") 23.
Definition stake_txs : list Transaction := [stake_alice; stake_bob; leave_alice].

Definition parties : list Address := [staking; miner; cfg_Coinbase devnet; alice; bob].
Definition party_slots : list slot :=
  remove_dups ((parties ≫= fun a => [SBalance a; SNonce a; SCodeHash a; SStorage staking (acct_key a);
      SStorage (ValidatorAddr default_params) (acct_key a); SStorage pool (acct_key a)])
    ++ SStorage (ValidatorAddr default_params) zero_hash :: ((fun i => SStorage (ValidatorAddr default_params) (index_key i)) <$> seq 0 3)).
Definition party_domain (sl : slot) : Prop := sl ∈ party_slots.

Lemma party_collision_free : collision_free party_domain.
Proof. apply collision_free_list. apply (bool_decide_unpack _). vm_compute. reflexivity. Qed.

Lemma party_staking_domain : staking_domain default_params party_domain parties 3.
Proof.
  assert (forall sl a, a ∈ parties -> sl ∈ [SBalance a; SNonce a; SCodeHash a; SStorage staking (acct_key a);
      SStorage (ValidatorAddr default_params) (acct_key a); SStorage pool (acct_key a)] -> party_domain sl) as H.
  { intros sl a Ha Hsl. apply elem_of_remove_dups, elem_of_app. left. apply list_elem_of_bind. by exists a. }
  split.
  - intros a Ha. split_and!; [apply (H _ a Ha), (list_elem_of_lookup_2 _ 0); reflexivity|apply (H _ a Ha), (list_elem_of_lookup_2 _ 1); reflexivity|apply (H _ a Ha), (list_elem_of_lookup_2 _ 2); reflexivity].
  - intros a Ha. split_and!; [apply (H _ a Ha), (list_elem_of_lookup_2 _ 3); reflexivity|apply (H _ a Ha), (list_elem_of_lookup_2 _ 4); reflexivity|apply (H _ a Ha), (list_elem_of_lookup_2 _ 5); reflexivity].
  - apply elem_of_remove_dups, elem_of_app. right. left.
  - intros i Hi. apply elem_of_remove_dups, elem_of_app. right. right. apply list_elem_of_fmap. exists i. split; [done|]. apply elem_of_seq. lia.
Qed.

Lemma wealthy_refines : refines party_domain wealthy wealthy_spec.
Proof.
  apply refines_set_balance; [apply party_collision_free|apply party_staking_domain; by_decision|].
  apply refines_set_balance; [apply party_collision_free|apply party_staking_domain; by_decision|apply fresh_refines].
Qed.

Lemma wealthy_wf : state_wf wealthy.
Proof.
  apply state_wf_set; [apply (slot_key_is_key (SBalance bob))|apply length_u256_bytes|].
  apply state_wf_set; [apply (slot_key_is_key (SBalance alice))|apply length_u256_bytes|apply fresh_wf].
Qed.

Lemma no_stakes_ok : ledger_ok default_params wealthy_spec no_stakes.
Proof.
  split; cbn [validators no_stakes stakes vault].
  - apply registry_balance, registry_balance, registry_empty.
  - intros a Ha. by apply elem_of_nil in Ha.
  - vm_compute. reflexivity.
Qed.

Definition stake_result : option (list Receipt * Hash * StateDB) := ApplyBlock_seq executor None wealthy fee_header stake_txs.

Definition statuses (r : list Receipt * Hash * StateDB) : list u64 := Status <$> r.1.1.

Lemma stake_statuses : statuses <$> stake_result = Some [wd 1; wd 1; wd 1].
Proof. apply (bool_decide_unpack _). vm_compute. reflexivity. Qed.

Lemma stake_txs_ok : Forall (fun tx => staking_tx default_params tx /\ sched_sender tx ∈ parties) stake_txs.
Proof.
  repeat constructor; try (by eexists); try (by vm_compute); try (cbn; lia); by_decision.
Qed.

Lemma staking_block_witness :
  exists rs root s' st' L, stake_result = Some (rs, root, s') /\ Status <$> rs = [wd 1; wd 1; wd 1] /\
    refines party_domain s' st' /\ ledger_ok default_params st' L /\ validators L = [bob] /\ vault L = 50 /\ solvent L.
Proof.
  destruct (staking_block executor fee_header None party_domain parties 3 params_ok_default party_collision_free party_staking_domain
    ltac:(by_decision) ltac:(by_decision) ltac:(intros E; apply (f_equal uval) in E; vm_compute in E; discriminate)
    99999 1000000000 eq_refl eq_refl staking_not_precompiled stake_txs no_stakes ltac:(by_decision) stake_txs_ok
    ltac:(intros b Hb; by apply elem_of_nil in Hb) ltac:(cbn; lia) ltac:(cbn; lia) ltac:(vm_compute; reflexivity)
    wealthy wealthy_spec wealthy_refines no_stakes_ok eq_refl wealthy_wf)
    as (rs & root & s' & st' & Hone & Hr & HL & Hsol).
  assert (stake_result = Some (rs, root, s')) as Hout by (apply Hone, ApplyBlock_seq_exec).
  pose proof stake_statuses as Hst. rewrite Hout in Hst. apply (inj Some) in Hst. unfold statuses in Hst. cbn [fst] in Hst. rewrite Hst in HL, Hsol.
  exists rs, root, s', st'. eexists. split; [exact Hout|]. split; [exact Hst|]. split; [exact Hr|]. split; [exact HL|].
  split; [vm_compute; reflexivity|]. split; [vm_compute; reflexivity|]. apply Hsol; unfold solvent; vm_compute; discriminate.
Defined.

(** ** The same transactions mined by a node

    Alice's second transaction does not have her nonce: the miner leaves it out. *)

Definition stake_node0 : Node := mkNode chain0 wealthy Witnesses.solo devnet ∅ [] false [].
Definition stake_header : Header := default header1 (mining_header stake_node0 now0).
Definition joined_txs : list Transaction := [stake_alice; stake_bob].
Definition joined_out {CB : Codec Block} : option (list Receipt * Hash * StateDB) :=
  ApplyBlock_seq (executor_of stake_node0) (Some (chain_db chain0)) wealthy stake_header joined_txs.
#[local] Existing Instances block_codec receipt_codec lookup_codec.
Definition joined : Block := sealed_block (default stake_node0 (processBatch stake_node0 stake_txs now0 joined_out)).

Definition joined_receipt_codec : Codec (list Receipt) :=
  table_codec [[]; match joined_out with Some (rs, _, _) => rs | None => [] end].
Definition joined_block_codec : Codec Block := table_codec [genesis0; joined].
Definition joined_lookup_codec : Codec TxLookupEntry :=
  table_codec [mkLookup (BlockHash joined) (wd 1) (wd 0); mkLookup (BlockHash joined) (wd 1) (wd 1)].
#[local] Existing Instances joined_block_codec joined_receipt_codec joined_lookup_codec.

Definition joined_result : option (list Receipt * Hash * StateDB) := joined_out.
Definition stake_node1 : Node := default stake_node0 (processBatch stake_node0 stake_txs now0 joined_result).

Lemma stake_node_mines : mine_step stake_node0 stake_txs now0 stake_node1 /\ n_sent stake_node1 = n_sent stake_node0 ++ [joined].
Proof.
  split.
  - apply (mine_intro _ _ _ _ stake_txs stake_header joined_result).
    + reflexivity.
    + reflexivity.
    + apply default_some. vm_compute. reflexivity.
    + replace (select_txs stake_node0 stake_txs) with joined_txs by (vm_compute; reflexivity).
      change (n_state stake_node0) with wealthy. change (n_bc stake_node0) with chain0. unfold joined_result, joined_out. apply ApplyBlock_seq_exec.
    + apply default_some. vm_compute. reflexivity.
  - vm_compute. reflexivity.
Qed.

Lemma joined_statuses :
  statuses <$> ApplyBlock_seq (executor_of stake_node0) (Some (chain_db (n_bc stake_node0))) (n_state stake_node0) (BHeader joined) joined_txs
  = Some [wd 1; wd 1].
Proof. by_decision. Qed.

Lemma joined_txs_are : Transactions joined = joined_txs.
Proof. vm_compute. reflexivity. Qed.

Lemma joined_head : CurrentBlock (n_bc stake_node1) = Some joined /\ Number (BHeader joined) = Some 1.
Proof. split; vm_compute; reflexivity. Qed.

Lemma joined_txs_ok : Forall (fun tx => staking_tx default_params tx /\ sched_sender tx ∈ parties) joined_txs.
Proof. apply (Forall_app _ joined_txs [leave_alice]). exact stake_txs_ok. Qed.

Lemma joined_share : Forall (fun tx => staking ∈ tx_accounts tx) joined_txs.
Proof. by_decision. Qed.

Lemma intercept_node_key (n : Node) txs : privKey (n_engine (intercept_node n txs)) = privKey (n_engine n).
Proof. apply intercept_key. Qed.

Lemma mined_stakes_elected_witness :
  exists eng leader, elect stake_node1 = Some (eng, leader, alice) /\ leader ∈ [alice; bob] /\
    v_address <$> registered (n_state stake_node1) = [alice; bob].
Proof.
  destruct (mine_step_gap _ _ _ _ (proj1 stake_node_mines)) as [txs Hgap].
  destruct (mined_stakes_elected stake_node0 (intercept_node stake_node0 txs) (intercept_node stake_node0 txs) stake_txs txs now0 stake_node1 joined
    party_domain parties 3 wealthy_spec no_stakes joined 1 alice_key) as (rs & root & s & Happ & H).
  - reflexivity.
  - exact party_collision_free.
  - exact party_staking_domain.
  - by_decision.
  - by_decision.
  - intros E. apply (f_equal uval) in E. vm_compute in E. discriminate.
  - exact Hgap.
  - exact (proj2 stake_node_mines).
  - rewrite joined_txs_are. by_decision.
  - rewrite joined_txs_are. exact joined_txs_ok.
  - intros a Ha. by apply elem_of_nil in Ha.
  - rewrite joined_txs_are. cbn. lia.
  - cbn. lia.
  - rewrite joined_txs_are. vm_compute. reflexivity.
  - split; [exact I|exact wealthy_wf].
  - exact wealthy_refines.
  - exact no_stakes_ok.
  - reflexivity.
  - exact (proj1 joined_head).
  - exact (proj2 joined_head).
  - rewrite intercept_node_key. reflexivity.
  - assert (Status <$> rs = [wd 1; wd 1]) as Hst.
    { apply (inj Some). rewrite <- joined_statuses. rewrite joined_txs_are in Happ.
      pose proof (proj2 (Happ _) eq_refl) as Hex.
      pose proof (ApplyBlock_shared_account _ _ _ _ _ staking _ joined_share Hex) as E. symmetry in E.
      change (executor_of (intercept_node stake_node0 txs)) with (executor_of stake_node0) in E.
      change (n_bc (intercept_node stake_node0 txs)) with (n_bc stake_node0) in E.
      change (n_state (intercept_node stake_node0 txs)) with (n_state stake_node0) in E. rewrite E. reflexivity. }
    rewrite Hst, joined_txs_are in H. destruct H as (Hreg & eng & leader & He & Hl & _).
    + vm_compute. discriminate.
    + exists eng, leader. split; [exact He|].
      assert (validators (settle no_stakes joined_txs [wd 1; wd 1]) = [alice; bob]) as E by (vm_compute; reflexivity).
      rewrite E in Hl, Hreg. split; [exact Hl|exact Hreg].
Defined.

(** ** Two transfers and the supply *)

Definition pay_txs : list Transaction := [priced_tx alice 0 bob 7 [] 31; priced_tx alice 1 bob 8 [] 32].
Definition payers : list Address := [miner; alice; bob].
Definition pay_result : option (list Receipt * Hash * StateDB) := ApplyBlock_seq executor None wealthy fee_header pay_txs.

(** The tips of the receipts of a result. *)
Definition tips (r : list Receipt * Hash * StateDB) : Z := sumZ (receipt_tip fee_header 1000000000) (zip pay_txs r.1.1).

Lemma pay_tips : tips <$> pay_result = Some 42000000000000.
Proof. by_decision. Qed.

Lemma executor_params : Params (netCfg executor) = default_params.
Proof. reflexivity. Qed.

Lemma pay_tx_ok nonce value h : 0 <= value -> plain_tx executor payers wealthy_spec (priced_tx alice nonce bob value [] h).
Proof.
  intros Hv. unfold plain_tx. rewrite executor_params. split; [exists bob|].
  - split; [reflexivity|]. split; [by_decision|]. split; [vm_compute; reflexivity|]. split; [reflexivity|by_decision].
  - split; [change (alice ∈ payers); by_decision|]. split; [exact Hv|reflexivity].
Qed.

Lemma pay_txs_ok : Forall (plain_tx executor payers wealthy_spec) pay_txs.
Proof. apply Forall_cons. split; [apply pay_tx_ok; lia|]. apply Forall_singleton. apply pay_tx_ok. lia. Qed.

Lemma payers_parties a : a ∈ payers -> a ∈ parties.
Proof. unfold payers, parties. rewrite !elem_of_cons. tauto. Qed.

Lemma block_supply_witness :
  exists rs root s' st', pay_result = Some (rs, root, s') /\ refines party_domain s' st' /\
    total payers wealthy_spec = 2 * 10 ^ 18 /\ total payers st' mod 2 ^ 256 = 2 * 10 ^ 18 + 10 ^ 19 + 42000000000000.
Proof.
  destruct pay_result as [[[rs root] s']|] eqn:E; [|apply (f_equal (fmap tips)) in E; rewrite pay_tips in E; discriminate].
  destruct (block_supply executor fee_header None party_domain payers party_collision_free ltac:(by_decision)
    (fun a Ha => sd_account _ _ _ _ party_staking_domain a (payers_parties a Ha)) ltac:(by_decision)
    99999 1000000000 eq_refl eq_refl wealthy_spec pay_txs ltac:(by_decision) pay_txs_ok alice wealthy rs root s'
    ltac:(by_decision) wealthy_refines wealthy_wf) as (st' & Hr & Ht).
  - rewrite <- E. apply ApplyBlock_seq_exec.
  - exists rs, root, s', st'. split; [reflexivity|]. split; [exact Hr|]. split; [vm_compute; reflexivity|]. rewrite Ht.
    pose proof pay_tips as Htips. rewrite E in Htips. apply (inj Some) in Htips. unfold tips in Htips. cbn [fst] in Htips. rewrite Htips.
    vm_compute. reflexivity.
Defined.

(** ** A stake and a transfer side by side

    Alice stakes while bob pays the miner: both transactions are in one wave. *)

Definition mixed_txs : list Transaction := [stake_alice; priced_tx bob 0 miner 7 [] 41].
Definition mixed_result : option (list Receipt * Hash * StateDB) := ApplyBlock_seq executor None wealthy fee_header mixed_txs.
Definition party (a : Address) : Prop := a ∈ parties.
(** Whatever the state answers. *)
Definition any_answer (tx : Transaction) (X : Type) (o : StateOp X) (x : X) : Prop := True.

Lemma mixed_wave : schedule mixed_txs = Some [mixed_txs].
Proof. vm_compute. reflexivity. Qed.

(** The plain EVM does not touch the storage of any account. *)
Lemma cash_avoids Ans id ctx msg gas to :
  msg_to msg = Some to -> to ∈ parties -> msg_from msg ∈ parties -> ctx_Coinbase ctx ∈ parties ->
  avoids default_params party_domain party Ans (ApplyMessage id ctx msg gas).
Proof.
  intros Hto Ht Hf Hc. destruct (sd_account _ _ _ _ party_staking_domain _ Ht) as (Htb & _ & _).
  destruct (sd_account _ _ _ _ party_staking_domain _ Hf) as (Hfb & Hfn & _).
  destruct (sd_account _ _ _ _ party_staking_domain _ Hc) as (Hcb & _ & _).
  cbn [ApplyMessage cash_evm]. rewrite Hto. destruct (ctx_BaseFee ctx) as [fee|]; [|exact I].
  assert (forall X (o : StateOp X) sl, op_slots o = [sl] -> party_domain sl ->
    match o with OSetCode _ _ => False | _ => True end -> op_ok party_domain party o) as Hok.
  { intros X o sl E Hd Hn. split; [rewrite E; by apply Forall_singleton|]. by destruct o. }
  split; [eapply Hok; [reflexivity|exact Hfn|exact I]|]. split; [exact I|]. intros nonce _ _.
  split; [eapply Hok; [reflexivity|exact Hfb|exact I]|]. split; [exact I|]. intros bal _ _. cbn [prog_bind]. case_bool_decide; [|exact I].
  split; [eapply Hok; [reflexivity|exact Hfn|exact I]|]. split; [exact I|]. intros [] _ _.
  split; [eapply Hok; [reflexivity|exact Hfb|exact I]|]. split; [exact I|]. intros x1 _ _.
  split; [eapply Hok; [reflexivity|exact Htb|exact I]|]. split; [exact I|]. intros x2 _ _.
  split; [eapply Hok; [reflexivity|exact Hcb|exact I]|]. split; [exact I|]. intros x3 _ _. exact I.
Qed.

Lemma mixed_txs_ok : Forall (tx_ok executor fee_header party_domain party parties any_answer) mixed_txs.
Proof.
  assert (forall tx to, tx_to tx = Some to -> to ∈ parties -> to <> pool -> sched_sender tx ∈ parties -> regular (sched_sender tx) ->
    0 <= tx_value tx < 2 ^ 256 -> tx_ok executor fee_header party_domain party parties any_answer tx) as H.
  { intros tx to Hto Ht Hp Hs Hr Hv. split.
    - intros msg Hm. destruct (message_fields fee_header tx msg Hm) as (Hto' & Hfrom & _).
      apply (cash_avoids _ _ _ msg _ to); [by rewrite Hto'|done|by rewrite Hfrom|by_decision].
    - intros _. split; [exact Hr|]. split; [exact Hs|exact Hv].
    - intros t amt Hpool _. exfalso. apply Hp. rewrite Hto in Hpool. apply (inj Some) in Hpool. exact Hpool. }
  apply Forall_cons. split; [apply (H _ staking)|apply Forall_singleton; apply (H _ miner)]; try reflexivity; try by_decision.
Qed.

Lemma wealthy_view : parent_view default_params party_domain party wealthy wealthy_spec.
Proof.
  assert (forall k, k <> balanceKey alice -> k <> balanceKey bob -> dirty (own wealthy) !! k = None) as Hd.
  { intros k Ha Hb. unfold wealthy, SetBalance. rewrite !own_set. cbn [dirty set_dirty]. by rewrite !lookup_insert_ne by done. }
  assert (forall sl, party_domain sl -> (forall a, sl <> SBalance a) -> dirty (own wealthy) !! slot_key sl = None) as Hs.
  { intros sl Hsl Hne. apply Hd; intros E; [apply (Hne alice)|apply (Hne bob)]; apply party_collision_free; try done;
      apply party_staking_domain; by_decision. }
  split; [intros a k _ Hk; exact (wealthy_refines _ Hk)|]. split; [|split].
  - intros a Ha. destruct (sd_account _ _ _ _ party_staking_domain _ Ha) as (_ & _ & Hc). exact (wealthy_refines _ Hc).
  - intros a k _ Hk. pose proof (Hs (SStorage a k) Hk ltac:(done)) as E. cbn [slot_key] in E. by rewrite E.
  - intros a Ha. destruct (sd_account _ _ _ _ party_staking_domain _ Ha) as (_ & _ & Hc).
    pose proof (Hs (SCodeHash a) Hc ltac:(done)) as E. cbn [slot_key] in E. by rewrite E.
Qed.

Definition mixed_state : StateDB := from_option (fun r => committed r.2) wealthy mixed_result.

Lemma mixed_statuses : statuses <$> mixed_result = Some [wd 1; wd 1].
Proof. by_decision. Qed.

Lemma mixed_history : history default_params party_domain party parties wealthy 2 mixed_state.
Proof.
  destruct mixed_result as [[[rs root] s']|] eqn:E; [|apply (f_equal (fmap statuses)) in E; rewrite mixed_statuses in E; discriminate].
  unfold mixed_state. rewrite E. cbn [from_option snd].
  apply (history_block _ _ _ _ _ 0 wealthy any_answer executor fee_header None mixed_txs rs root s').
  - apply history_start.
  - exact executor_params.
  - apply party_staking_domain. by_decision.
  - exact I.
  - exact mixed_txs_ok.
  - apply ApplyBlock_within_any; [intros; exact I|]. rewrite <- E. apply ApplyBlock_seq_exec.
Qed.

Lemma registry_survives_witness :
  exists st vals, parent_view default_params party_domain party mixed_state st /\ registry default_params st vals /\
    (length vals <= 2)%nat /\ hash_big (a_storage st (ValidatorAddr default_params) zero_hash) = 1.
Proof.
  destruct (registry_survives default_params party_domain party parties 3 params_ok_default party_collision_free
    (fun a Ha => proj2 (proj2 (sd_account _ _ _ _ party_staking_domain a Ha))) party_staking_domain ltac:(by_decision) ltac:(lia)
    wealthy wealthy_spec [] 2 mixed_state eq_refl (conj I wealthy_wf) wealthy_view
    ltac:(apply registry_balance, registry_balance, registry_empty) ltac:(intros b Hb; by apply elem_of_nil in Hb) ltac:(cbn; lia) mixed_history)
    as (st & vals & Hp & HR & Hl & _).
  exists st, vals. split; [exact Hp|]. split; [exact HR|]. split; [exact Hl|]. destruct Hp as [Hs _].
  rewrite <- (Hs (ValidatorAddr default_params) zero_hash (or_intror eq_refl) (sd_count _ _ _ _ party_staking_domain)). vm_compute. reflexivity.
Defined.

(** ** Two transfers side by side

    Alice pays carol while bob pays dave: the transactions share the miner's balance only. *)

Definition dave : Address := wd (2 ^ 64 + 4).
Definition side1 : Transaction := priced_tx alice 0 carol 7 [] 51.
Definition side2 : Transaction := priced_tx bob 0 dave 8 [] 52.
Definition side_txs : list Transaction := [side1; side2].
Definition hot_key : bytes := balanceKey miner.

Lemma side_wave : schedule side_txs = Some [side_txs].
Proof. vm_compute. reflexivity. Qed.

Lemma op_blind {X R : Type} c db (o : StateOp X) (k : X -> prog R) s :
  c ∉ op_keys o -> blind c db (k (exec_op db o s).2) (exec_op db o s).1 -> blind c db (Vis o k) s.
Proof. intros Hn Hb. split; [done|]. by destruct (exec_op db o s). Qed.

Lemma credit_blind {R : Type} c db a x (k : u256 -> prog R) s :
  (forall x y, k x = k y) -> blind c db (k (exec_op db (OAddBalance a x) s).2) (exec_op db (OAddBalance a x) s).1 ->
  blind c db (Vis (OAddBalance a x) k) s.
Proof. intros Hk Hb. split; [done|]. exact Hb. Qed.

(** A plain transfer is blind to the balance of the coinbase, unless that is one of its accounts. *)
Lemma cash_blind (e : Executor) (h : Header) c db tx msg to s :
  tx_message h tx = Some msg -> tx_to tx = Some to ->
  to <> StakingAddr (Params (netCfg e)) -> to <> RewardAddr (Params (netCfg e)) ->
  c ∉ [nonceKey (sched_sender tx); balanceKey (sched_sender tx); balanceKey to] ->
  blind c db (tx_exec e h tx msg) s.
Proof.
  intros Hm Hto Hns Hnp Hk. destruct (message_fields h tx msg Hm) as (Hto' & Hfrom & _). rewrite Hto in Hto'.
  rewrite !not_elem_of_cons in Hk. destruct Hk as (Hkn & Hkb & Hkt & _). rewrite <- Hfrom in Hkn, Hkb.
  assert (forall s r, blind c db (_ ← ProcessSystemContracts (Params (netCfg e)) msg tx; mret (Some r) : prog (option ExecutionResult)) s) as Hsys.
  { intros s1 r. unfold ProcessSystemContracts. rewrite Hto'.
    rewrite (bool_decide_eq_false_2 (Some to = Some (StakingAddr (Params (netCfg e))))) by (intros E; apply Hns; by apply (inj Some) in E).
    rewrite (bool_decide_eq_false_2 (Some to = Some (RewardAddr (Params (netCfg e))))) by (intros E; apply Hnp; by apply (inj Some) in E).
    exact I. }
  unfold tx_exec, call. cbn [mbind prog_bind]. apply op_blind; [apply not_elem_of_nil|].
  cbn [ApplyMessage cash_evm vm_New ctx_BaseFee]. rewrite Hto'. destruct (BaseFee h) as [fee|]; [|exact I]. cbn [mbind prog_bind call].
  apply op_blind; [by apply not_elem_of_cons; split; [|apply not_elem_of_nil]|].
  apply op_blind; [by apply not_elem_of_cons; split; [|apply not_elem_of_nil]|].
  case_bool_decide; [|exact I]. unfold cash_transfer. cbn [mbind prog_bind call].
  apply op_blind; [by apply not_elem_of_cons; split; [|apply not_elem_of_nil]|].
  apply op_blind; [by apply not_elem_of_cons; split; [|apply not_elem_of_nil]|].
  apply op_blind; [by apply not_elem_of_cons; split; [|apply not_elem_of_nil]|].
  apply credit_blind; [intros x y; reflexivity|]. apply Hsys.
Qed.

Lemma side_blind s tx : tx ∈ side_txs -> blind_tx executor fee_header None hot_key s tx.
Proof.
  intros Htx. unfold blind_tx. destruct (tx_message fee_header tx) as [msg|] eqn:Hm; [|exact I].
  apply elem_of_cons in Htx as [->|Htx%list_elem_of_singleton]; [|subst tx].
  - apply (cash_blind executor fee_header hot_key None side1 msg carol (NewOverlay s) Hm); [reflexivity|word_ne|word_ne|by_decision].
  - apply (cash_blind executor fee_header hot_key None side2 msg dave (NewOverlay s) Hm); [reflexivity|word_ne|word_ne|by_decision].
Qed.

Lemma side_keys :
  Forall (fun k => k = hot_key \/ k ∉ footprint executor fee_header None wealthy side2) (footprint executor fee_header None wealthy side1).
Proof. by_decision. Qed.

Lemma side_disjoint : wave_disjoint executor fee_header None hot_key wealthy side_txs.
Proof.
  pose proof side_keys as HF. rewrite Forall_forall in HF. split; [intros tx; apply side_blind|].
  intros tx tx' H1 H2 Hne k Hk Hin Hin'.
  apply elem_of_cons in H1 as [->|H1%list_elem_of_singleton]; apply elem_of_cons in H2 as [->|H2%list_elem_of_singleton]; subst.
  - exact (Hne eq_refl).
  - destruct (HF k Hin) as [E|E]; [exact (Hk E)|exact (E Hin')].
  - destruct (HF k Hin') as [E|E]; [exact (Hk E)|exact (E Hin)].
  - exact (Hne eq_refl).
Qed.

(** The block when the second goroutine runs and merges before the first one starts. *)
Definition side_reversed : option (list Receipt * Hash * StateDB) :=
  finalize fee_header side_txs (apply_wave executor fee_header side_txs None (initial_shared wealthy side_txs) [side2; side1]).

Lemma side_execution : ApplyBlock executor None wealthy fee_header side_txs side_reversed.
Proof.
  eexists _, _. split; [apply side_wave|]. split; [|reflexivity].
  eapply we_wave; [vm_compute; discriminate| |apply we_nil]. unfold wave_exec. etransitivity.
  - apply (apply_tx_exec executor fee_header side_txs None [Ready side1] [] side2).
  - apply (apply_tx_exec executor fee_header side_txs None [] [Done side2] side1).
Qed.

Lemma apply_block_serializable_witness :
  match side_reversed, ApplyBlock_seq executor None wealthy fee_header side_txs with
  | Some (rs, _, s'), Some (rs_seq, _, s_seq) => rs = rs_seq /\ state_eq_but hot_key s' s_seq
  | None, None => True
  | _, _ => False
  end.
Proof.
  apply (apply_block_serializable executor fee_header None side_txs [side_txs] wealthy side_reversed).
  - by_decision.
  - exact wealthy_wf.
  - exact side_wave.
  - intros _. split; [exact side_disjoint|exact I].
  - exact side_execution.
Defined.

(** Both pay the miner, at the state of the start of the wave and after each other. *)
Definition side_msg1 : Message :=
  mkMessage (Some carol) alice (wd 0) 7 (wd 100000) 2000000000 (Some 2000000000) (Some 2000000000) [].
Definition side_msg2 : Message :=
  mkMessage (Some dave) bob (wd 0) 8 (wd 100000) 2000000000 (Some 2000000000) (Some 2000000000) [].
Definition side_tip : u256 := wd (21000 * 1000000000).
Definition side_shared : Shared := initial_shared wealthy side_txs.

Definition credits_checks (s : StateDB) (tx : Transaction) (m : Message) : bool :=
  let '(o, r) := run None (tx_exec executor fee_header tx m) (NewOverlay s) in
  bool_decide (is_Some r) && bool_decide (GetBalance o miner = wadd (GetBalance s miner) side_tip).

Lemma credits_checked s tx m : credits_checks s tx m = true -> credits executor fee_header None s tx m side_tip miner.
Proof.
  unfold credits_checks, credits. destruct (run _ _ _) as [o r]. rewrite andb_true_iff, !bool_decide_eq_true. done.
Qed.

Lemma coinbase_update_lost_witness :
  exists sh_par, wave_exec executor fee_header side_txs None side_txs side_shared sh_par /\
    GetBalance (statedb sh_par) miner = wadd (GetBalance wealthy miner) side_tip /\
    GetBalance (statedb (apply_wave executor fee_header side_txs None side_shared side_txs)) miner
    = wadd (wadd (GetBalance wealthy miner) side_tip) side_tip.
Proof.
  destruct (coinbase_update_lost executor fee_header None side_txs side_shared side1 side2 side_msg1 side_msg2 side_tip side_tip miner)
    as (sh_par & H1 & H2 & H3 & _).
  - exact wealthy_wf.
  - vm_compute. reflexivity.
  - vm_compute. reflexivity.
  - word_ne.
  - word_ne.
  - apply credits_checked. vm_compute. reflexivity.
  - apply credits_checked. vm_compute. reflexivity.
  - apply credits_checked. vm_compute. reflexivity.
  - exists sh_par. split; [exact H1|]. split; [exact H2|exact H3].
Defined.
